(* ===== verification/_CoqProject ===== *)
-Q . S2P
Prelude.v
Riscv.v
Memory.v
Kalloc.v
Vm.v
VmSpec.v
VmMap.v
VmUser.v
VmCow.v
VmThms.v
VmWitness.v
Spinlock.v
State.v
Printf.v
Proc.v
Pipe.v
Mbox.v
Shm.v
ShmThms.v
Virtio.v
Bio.v
VirtioThms.v
BioThms.v
Log.v
LogThms.v
LogOps.v
LogSpace.v
Txn.v
Fs.v
FsPath.v
FsBlocks.v
FsInode.v
FsRead.v
FsTrunc.v
Console.v
ConsoleThms.v
File.v
ProcLife.v
ProcThms.v
Exec.v
Sysfile.v
Syscall.v
TrapThms.v
Witness.v
FsWitness.v
VirtioWitness.v
Shell.v
ShellThms.v
ShellTypes.v
ShellPrint.v
ShellRun.v
ShellRunThms.v
Grep.v
GrepThms.v
Umalloc.v
UmallocThms.v
Mkfs.v
MkfsThms.v
MkfsBoot.v
MkfsWitness.v
Ulib.v
UlibThms.v
Utools.v
UtoolsThms.v
Boot.v
