(* ===== verification/Prelude.v ===== *)
(** * A verification of the xv6 kernel with copy-on-write, shared memory,
      mailboxes, symbolic links and large files

    The program is an operating system for RISC-V in C.  The kernel
    (src/kernel) allocates physical pages with reference counts, maps them with
    Sv39 page tables, runs processes that fork, exit, wait and sleep, and gives
    them pipes, mailboxes, shared pages and files.  Files live in a file system
    over a write-ahead log over a buffer cache over a virtio disk.  The user
    side (src/user) has a shell, a small library and tools; mkfs writes the
    first disk image.

    ** Style

    The C code is embedded as Rocq functions.  A C function becomes a
    computation of the state monad [M St A] of this file; its outcome is
    [Done], [Panic] (the kernel's panic), [Undef] (undefined behaviour of C),
    [Block] (it would sleep) or [NoFuel].  [wp c Q s] says that [c] returns
    from [s] with [Q]: it excludes panics, undefined behaviour and running out
    of fuel.  [wlp] is its partial counterpart for code that may block or
    panic.  Integers are [Z] with the wrap-around of their C type written out
    ([u64], [u32], [s32], [u16], [u8]).  Memory is a function from addresses to
    bytes; the tables of the kernel are total functions from indices.  A
    pointer into a table is its index, -1 for null; a pointer into memory is
    its address.  The kernel's state is the record [kstate] of State.v; code
    on memory alone works on its part [kmem].

    Code that sleeps is cut at the sleep: a function returns [inl] with what it
    keeps and is called again with it when the process runs again.  The
    interleaving of processes, and of devices, is a step relation whose steps
    are such pieces; each runs under the lock the C code holds there.
    Spinlock.v verifies the locks themselves at the grain of memory accesses;
    elsewhere a critical section is one step.

    ** Files

    - Prelude.v: the monad, [wp] and its rules and tactics, loops, integers.
    - Riscv.v (riscv.h, memlayout.h, param.h): page rounding, page-table
      entries, address splitting.  Boot.v (riscv.h, start.c, plic.c): control
      registers, the way into the kernel, the interrupt controller.
    - Memory.v (string.c): byte memory, memset, memmove, strncmp and the rest.
    - Kalloc.v (kalloc.c): the free list, threaded through the free pages, and
      the reference counts.
    - Vm.v (vm.c): page tables.  VmSpec.v gives them an abstract meaning
      ([leaf]) and an invariant ([vm_inv]) that accounts for every page and
      reference; VmMap.v, VmUser.v and VmCow.v show that the operations keep
      it and what they do to [leaf]; VmThms.v has the theorems, VmWitness.v a
      small address space.
    - Spinlock.v (spinlock.c): acquire and release on several CPUs.
    - State.v: the state of the kernel.  Printf.v (printf.c, output of uart.c).
    - Proc.v, ProcLife.v (proc.c): the process table, sleep and wakeup, fork,
      exit, wait, kill.  ProcThms.v: the life of processes.
    - Pipe.v (pipe.c), Mbox.v (mbox.c), Shm.v (shm.c) with ShmThms.v.
    - Virtio.v (virtio_disk.c): the driver.  VirtioThms.v: the driver, the
      device and the processes as a step relation.  VirtioWitness.v: a device.
    - Bio.v (bio.c, sleeplock.c): the buffer cache.  BioThms.v: the contents
      [view] of the blocks that its clients see.
    - Log.v (log.c).  LogThms.v, LogOps.v, LogSpace.v: recovery, transactions,
      the space of the log.  Txn.v: rules for code inside a transaction.
    - Fs.v (fs.c): blocks, inodes, directories, paths.  FsPath.v, FsBlocks.v,
      FsInode.v, FsRead.v, FsTrunc.v: their theorems.
    - Console.v (console.c, input of uart.c) with ConsoleThms.v.
    - File.v (file.c, pipealloc), Exec.v (exec.c), Sysfile.v (sysfile.c,
      syscall.c), Syscall.v (sysproc.c, syscall.c, trap.c) with TrapThms.v.
    - Witness.v, FsWitness.v: concrete states on which the theorems apply.
    - Shell.v (user/sh.c): the parser.  ShellThms.v, ShellPrint.v: it ends,
      its strings are the words of the line, and it inverts printing.
    - ShellTypes.v: the trees of the parser are well formed.
    - ShellRun.v (user/sh.c): runcmd, the input lines and main.
      ShellRunThms.v: what runs for a line, and with which descriptors.
    - Grep.v (user/grep.c) with GrepThms.v: the matcher and the lines.
    - Umalloc.v (user/umalloc.c) with UmallocThms.v: malloc and free.
    - Mkfs.v (mkfs/mkfs.c): the program that builds the disk image.
      MkfsThms.v: files under construction and the image.  MkfsBoot.v: the
      kernel on the image; MkfsWitness.v: an image with one file.
    - Ulib.v (user/ulib.c, user/printf.c) with UlibThms.v: strings, lines,
      numbers, formatted output.  Utools.v (user/cat.c, user/wc.c, user/echo.c,
      user/ls.c, main of user/grep.c) with UtoolsThms.v.

    ** What the theorems show

    - Memory: in every state reached by kinit, kalloc, kfree and the reference
      operations the free list and the counts agree, and no page is handed out
      twice.  uvmalloc, uvmdealloc, uvmcopy and vmfault keep the page-table
      invariant on every path, out of memory included.  From these, processes
      that share pages after fork never see each other's writes.
      A reference count, an int, does not overflow: the entries that can map a
      page are fewer.
    - Boot: start brings a hart into supervisor mode at main with the traps and
      interrupts the kernel needs, if the hart keeps what the architecture
      promises of its WARL fields and has the optional parts named there.
    - Locks: at most one CPU holds a lock, interrupts are off while one is
      held and are restored, and correct use does not panic.
    - Processes: a parent asleep in wait has a living child and no zombie, with
      fork in its three critical sections; identifiers are unique until their
      counter, an int, overflows.  Pipes and mailboxes are bounded queues, under
      any interleaving of their users for mailboxes; a byte of a pipe is lost
      when it cannot be copied out.
    - Disk: the driver does the transfers the buffer cache relies on, for any
      interleaving and any order of completion, and every request ends.  The
      cache shows one coherent contents per block.  A transaction is atomic
      for a crash after any write of the disk, recovery may itself crash, and
      the log has room for the operations that begin_op admits, of at most
      MAXOPBLOCKS different blocks each; end_op returns unless the log is full.
    - Files: the allocator of blocks, the inode on disk and in memory, file
      contents through direct and indirect blocks, look-up in a directory,
      path elements and directory entries.
    - Console: the ring buffer is a line editor; printed numbers read back.
    - Shell: the parser ends on every line, cuts out whole words, and reads
      back every printed command.
      From reading lines to the programs that run, each gets the descriptors
      its redirections and pipes give it and no other, and shells that wait hold
      nothing but standard descriptors either.
    - Tools: grep's matcher decides its patterns, and grep prints the matching
      lines however its reads cut the file.  Blocks from malloc never overlap
      and are not touched by malloc and free, for requests within the bound.  wc counts what it says, ls and
      gets stay inside their buffers, printed numbers fit theirs and are read
      back by atoi.
    - mkfs: its image is a file system on which the kernel's allocator is
      correct, and the kernel finds and reads every file of at most 267 blocks
      under its name.
    - Some theorems state behaviour that departs from what the code means to
      do: a block address beyond the inode's array, a shared page without a
      reference of its own, a full log that cannot be committed, copyout that
      refuses copy-on-write pages, copyin that ignores PTE_U, a write fault that
      makes program text writable, lazily grown
      memory that is never provided, kill of pid 0, conversions of long numbers
      that print 32 bits, a root directory longer than its blocks.

    ** Bounds and fuel

    A loop is [while fuel body]; its fuel is computed from the state by the
    function that runs it: the length of a range in pages for the loops over
    memory, the size of a table for scans, the length of the input for the
    parsers, the distance of two counters for the rings.  The theorems are
    total ([wp], [Done]): the fuel is enough.  The recursion of freewalk has
    the three levels of Sv39, that of symbolic links the limit of the code.
    The parser of the shell gets four units per character, one for each
    function of a level of the grammar.  The theorems on mkfs are for files of at
    most 267 blocks, the direct and singly indirect ones, which are those whose
    addresses the kernel keeps; the doubly indirect case of iappend is defined.
    Those on malloc are for requests of at most 2^31 - 64 bytes, the largest that
    the int parameter of sbrk can hold with a header, and those on the lines of
    the shell for lines that fit its buffer.

    ** What is assumed

    Devices and machine code are parameters: the layout of the kernel image
    ([KernelImage]), what a write leaves in a WARL register ([Lawful],
    [Platform]), the values of control registers at a trap, the contents
    of device registers, and the virtio device, which carries out requests in
    any order and completes each once ([VirtioBlk]).  The buffer cache uses the
    transfer of one block as an atomic step, which is what VirtioThms.v proves
    of the driver.  Calls of the file system run from call to return; a sleep
    lock that is taken there gives [Block].

    ** Not modelled

    - main.c, which calls the initialisations one after the other, and the
      assembly files (entry.S, kernelvec.S, swtch.S, trampoline.S), which
      switch contexts; the model of the kernel starts from the initialised
      kernel.  uartinit and trapinit likewise.
    - The weak memory model: fences are no steps, and memory accesses are
      sequentially consistent.
    - The limit 2^32 of b_refcnt, which counts the processes that use a buffer
      and the one reference of the log, is not reached and not modelled; an
      interrupt of the disk is a step of Virtio.v, and no effect in devintr.
    - The message that walk prints before its panic, since code on page tables
      has no console; all other messages are modelled.
    - In src/user: init, and the programs that do no more than pass their
      arguments on to a system call (kill, ln, mkdir, rm and the like).  Of the
      library stat, sbrk and start, which do the same.  Of mkfs the check of its
      arguments and the messages it prints.
    - The test programs under src/user, and the Python test driver. *)

From stdpp Require Export base tactics list numbers strings gmap.
From Stdlib Require Export ZArith Lia.

#[global] Open Scope Z_scope.

(** * Outcomes and the kernel's state monad

    A C function of the kernel either returns, calls [panic] (which prints and
    then spins for ever), reaches C undefined behaviour (an out-of-bounds array
    access), or sleeps.  [NoFuel] is the value of a loop whose model ran out of
    fuel; every loop of the development is given a bound and the theorems show
    that [NoFuel] is not reached. *)
Inductive outcome (A : Type) : Type :=
| Done (a : A)
| Panic (msg : string)
| Undef (what : string)
| Block
| NoFuel.

Arguments Done {A} a.
Arguments Panic {A} msg.
Arguments Undef {A} what.
Arguments Block {A}.
Arguments NoFuel {A}.

Definition M (St A : Type) : Type := St → outcome (A * St).

Section monad.
Context {St : Type}.

Definition ret {A} (a : A) : M St A := λ s, Done (a, s).

Definition bind {A B} (c : M St A) (k : A → M St B) : M St B := λ s,
  match c s with
  | Done (a, s') => k a s'
  | Panic e => Panic e
  | Undef e => Undef e
  | Block => Block
  | NoFuel => NoFuel
  end.

Definition get : M St St := λ s, Done (s, s).
Definition gets {A} (f : St → A) : M St A := λ s, Done (f s, s).
Definition put (s' : St) : M St unit := λ _, Done (tt, s').
Definition modify (f : St → St) : M St unit := λ s, Done (tt, f s).
Definition panic {A} (msg : string) : M St A := λ _, Panic msg.
Definition undef {A} (what : string) : M St A := λ _, Undef what.
Definition block {A} : M St A := λ _, Block.

(** [while] is the loop of the C code: [body] is one iteration, [inl] goes
    round again with the new loop variables, [inr] leaves the loop. *)
Fixpoint while {A B} (fuel : nat) (body : A → M St (A + B)) (a : A) : M St B :=
  match fuel with
  | O => λ _, NoFuel
  | S fuel' => bind (body a) (λ r,
      match r with
      | inl a' => while fuel' body a'
      | inr b => ret b
      end)
  end.

(** [for_ n i body] runs [body] for the [n] indices from [i]; [Some b] returns
    [b] from inside the loop, [None] goes on with the next index. *)
Fixpoint for_ {B} (n : nat) (i : Z) (body : Z → M St (option B)) : M St (option B) :=
  match n with
  | O => ret None
  | S n' => bind (body i) (λ r,
      match r with
      | Some b => ret (Some b)
      | None => for_ n' (i + 1) body
      end)
  end.

(** The same without an early return. *)
Fixpoint foreach (n : nat) (i : Z) (body : Z → M St unit) : M St unit :=
  match n with
  | O => ret tt
  | S n' => bind (body i) (λ _, foreach n' (i + 1) body)
  end.

(** Total correctness: the computation returns, and its result satisfies the
    postcondition. *)
Definition wp {A} (c : M St A) (Q : A → St → Prop) (s : St) : Prop :=
  match c s with
  | Done (a, s') => Q a s'
  | _ => False
  end.

End monad.

(** Run an operation of a component on the part of a larger state it owns. *)
Definition zoom {St T A} (view : St → T) (set : T → St → St) (c : M T A) : M St A := λ s,
  match c (view s) with
  | Done (a, t) => Done (a, set t s)
  | Panic e => Panic e
  | Undef e => Undef e
  | Block => Block
  | NoFuel => NoFuel
  end.

Declare Scope xv6_scope.
Delimit Scope xv6_scope with xv6.

Notation "x <- c ;; k" := (bind c (λ x, k))
  (at level 100, c at next level, right associativity) : xv6_scope.
Notation "c ;; k" := (bind c (λ _, k))
  (at level 100, right associativity) : xv6_scope.
Notation "'when' b 'do' c" := (if b then c else ret tt)
  (at level 90, b at level 89, c at level 89) : xv6_scope.

#[global] Open Scope xv6_scope.

(** ** Rules for [wp] *)
Section wp_rules.
Context {St : Type}.

Lemma wp_ret {A} (a : A) (Q : A → St → Prop) s : Q a s → wp (ret a) Q s.
Proof. done. Qed.

Lemma wp_bind {A B} (c : M St A) (k : A → M St B) Q s :
  wp c (λ a, wp (k a) Q) s → wp (bind c k) Q s.
Proof. unfold wp, bind. by destruct (c s) as [[a s']| | | |]. Qed.

Lemma wp_bind_inv {A B} (c : M St A) (k : A → M St B) Q s :
  wp (bind c k) Q s → wp c (λ a, wp (k a) Q) s.
Proof. unfold wp, bind. by destruct (c s) as [[a s']| | | |]. Qed.

Lemma wp_mono {A} (c : M St A) (P Q : A → St → Prop) s :
  wp c P s → (∀ a s', P a s' → Q a s') → wp c Q s.
Proof. unfold wp. destruct (c s) as [[a s']| | | |]; auto. Qed.

Lemma wp_get (Q : St → St → Prop) s : Q s s → wp get Q s.
Proof. done. Qed.

Lemma wp_gets {A} (f : St → A) (Q : A → St → Prop) s : Q (f s) s → wp (gets f) Q s.
Proof. done. Qed.

Lemma wp_put (s' : St) (Q : unit → St → Prop) s : Q tt s' → wp (put s') Q s.
Proof. done. Qed.

Lemma wp_modify (f : St → St) (Q : unit → St → Prop) s : Q tt (f s) → wp (modify f) Q s.
Proof. done. Qed.

Lemma bind_done {A B} (c : M St A) (k : A → M St B) s a s' :
  c s = Done (a, s') → bind c k s = k a s'.
Proof. unfold bind. by intros ->. Qed.

Lemma while_S {A B} (n : nat) (body : A → M St (A + B)) a s :
  while (S n) body a s =
  match body a s with
  | Done (inl a', s') => while n body a' s'
  | Done (inr b, s') => Done (b, s')
  | Panic msg => Panic msg
  | Undef w => Undef w
  | Block => Block
  | NoFuel => NoFuel
  end.
Proof. cbn [while]. unfold bind. by destruct (body a s) as [[[]]| | | |]. Qed.

Lemma wp_done {A} (c : M St A) (Q : A → St → Prop) s a s' :
  c s = Done (a, s') → Q a s' → wp c Q s.
Proof. unfold wp. by intros ->. Qed.

Lemma wp_elim {A} (c : M St A) (Q : A → St → Prop) s :
  wp c Q s → ∃ a s', c s = Done (a, s') ∧ Q a s'.
Proof. unfold wp. destruct (c s) as [[a s']| | | |]; naive_solver. Qed.

Lemma wp_conj {A} (c : M St A) (P Q : A → St → Prop) s :
  wp c P s → wp c Q s → wp c (λ a s', P a s' ∧ Q a s') s.
Proof. unfold wp. destruct (c s) as [[a s']| | | |]; naive_solver. Qed.

(** The invariant of a loop is indexed by the number of iterations that are
    still allowed, so that the rule also proves termination. *)
Lemma wp_while {A B} (Inv : nat → A → St → Prop) (body : A → M St (A + B)) Q n a s :
  (∀ n a s, Inv n a s → ∃ m, n = S m ∧
     wp (body a) (λ r s', match r with inl a' => Inv m a' s' | inr b => Q b s' end) s) →
  Inv n a s → wp (while n body a) Q s.
Proof.
  intros Hb. revert a s. induction n as [|n IH]; intros a s HI.
  - by destruct (Hb _ _ _ HI) as (m & ? & _).
  - destruct (Hb _ _ _ HI) as (m & [= <-] & Hw). simpl.
    apply wp_bind. eapply wp_mono; [exact Hw|]. intros [a'|b] s' H; [by apply IH|done].
Qed.

(** One iteration. *)
Lemma wp_while_S {A B} (body : A → M St (A + B)) n a (Q : B → St → Prop) s :
  wp (body a) (λ r s', match r with inl a' => wp (while n body a') Q s' | inr b => Q b s' end) s →
  wp (while (S n) body a) Q s.
Proof. intros H. cbn [while]. apply wp_bind. eapply wp_mono; [exact H|]. by intros [a'|b]. Qed.

Lemma wp_foreach (Inv : Z → St → Prop) (body : Z → M St unit) n i s :
  Inv i s →
  (∀ j s, i ≤ j < i + Z.of_nat n → Inv j s → wp (body j) (λ _ s', Inv (j + 1) s') s) →
  wp (foreach n i body) (λ _ s', Inv (i + Z.of_nat n) s') s.
Proof.
  revert i s. induction n as [|n IH]; intros i s HI Hb; cbn [foreach].
  - apply wp_ret. by rewrite Z.add_0_r.
  - apply wp_bind. eapply wp_mono; [apply Hb; [lia|done]|]. intros [] s' HI'.
    replace (i + Z.of_nat (S n)) with (i + 1 + Z.of_nat n) by lia.
    apply IH; [done|]. intros. apply Hb; [lia|done].
Qed.

(** [Inv] holds before each turn, [Q (Some b)] at an early return. *)
Lemma wp_for {B} (Inv : Z → St → Prop) (body : Z → M St (option B)) Q n i s :
  Inv i s →
  (∀ j s, i ≤ j < i + Z.of_nat n → Inv j s →
     wp (body j) (λ r s', match r with Some b => Q (Some b) s' | None => Inv (j + 1) s' end) s) →
  (∀ s', Inv (i + Z.of_nat n) s' → Q None s') →
  wp (for_ n i body) Q s.
Proof.
  revert i s. induction n as [|n IH]; intros i s HI Hb HQ; cbn [for_].
  - apply wp_ret, HQ. by rewrite Z.add_0_r.
  - apply wp_bind. eapply wp_mono; [apply Hb; [lia|done]|]. intros [b|] s' H; [done|].
    apply IH; [done| |].
    + intros. apply Hb; [lia|done].
    + intros s'' H'. apply HQ. by replace (i + Z.of_nat (S n)) with (i + 1 + Z.of_nat n) by lia.
Qed.

Lemma wp_zoom {T A} (view : St → T) (set : T → St → St) (c : M T A) Q s :
  wp c (λ a t, Q a (set t s)) (view s) → wp (zoom view set c) Q s.
Proof. unfold wp, zoom. by destruct (c (view s)) as [[a t]| | | |]. Qed.

End wp_rules.

(** ** Partial correctness

    [wlp c Q s]: if [c] returns from [s], its result satisfies [Q].  Used for
    invariants of operations that may panic. *)
Definition wlp {St A} (c : M St A) (Q : A → St → Prop) (s : St) : Prop :=
  ∀ a s', c s = Done (a, s') → Q a s'.

Section wlp_rules.
Context {St : Type}.

Lemma wlp_ret {A} (a : A) (Q : A → St → Prop) s : Q a s → wlp (ret a) Q s.
Proof. by intros H ? ? [= <- <-]. Qed.

Lemma wlp_bind {A B} (c : M St A) (k : A → M St B) Q s :
  wlp c (λ a, wlp (k a) Q) s → wlp (bind c k) Q s.
Proof.
  intros H a s'. unfold bind. destruct (c s) as [[b s1]| | | |] eqn:E; try done.
  intros E'. by eapply H.
Qed.

Lemma wlp_mono {A} (c : M St A) (P Q : A → St → Prop) s :
  wlp c P s → (∀ a s', P a s' → Q a s') → wlp c Q s.
Proof. intros H HQ a s' E. by apply HQ, H. Qed.

Lemma wlp_get (Q : St → St → Prop) s : Q s s → wlp get Q s.
Proof. by intros H ? ? [= <- <-]. Qed.

Lemma wlp_gets {A} (f : St → A) (Q : A → St → Prop) s : Q (f s) s → wlp (gets f) Q s.
Proof. by intros H ? ? [= <- <-]. Qed.

Lemma wlp_modify (f : St → St) (Q : unit → St → Prop) s : Q tt (f s) → wlp (modify f) Q s.
Proof. by intros H ? ? [= <- <-]. Qed.

Lemma wlp_panic {A} msg (Q : A → St → Prop) s : wlp (panic msg) Q s.
Proof. done. Qed.

Lemma wlp_undef {A} what (Q : A → St → Prop) s : wlp (undef what) Q s.
Proof. done. Qed.

Lemma wlp_block {A} (Q : A → St → Prop) s : wlp block Q s.
Proof. done. Qed.

Lemma wp_wlp {A} (c : M St A) (Q : A → St → Prop) s : wp c Q s → wlp c Q s.
Proof. unfold wp, wlp. intros H a s' E. by rewrite E in H. Qed.

Lemma wlp_zoom {T A} (view : St → T) (set : T → St → St) (c : M T A) (Q : A → St → Prop) s :
  (∀ a t, c (view s) = Done (a, t) → Q a (set t s)) → wlp (zoom view set c) Q s.
Proof.
  intros H a s'. unfold zoom. destruct (c (view s)) as [[b t]| | | |] eqn:E; try done.
  intros [= <- <-]. by apply H.
Qed.

Lemma wlp_foreach (Inv : Z → St → Prop) (body : Z → M St unit) n i s :
  Inv i s →
  (∀ j s, i ≤ j < i + Z.of_nat n → Inv j s → wlp (body j) (λ _ s', Inv (j + 1) s') s) →
  wlp (foreach n i body) (λ _ s', Inv (i + Z.of_nat n) s') s.
Proof.
  revert i s. induction n as [|n IH]; intros i s HI Hb; cbn [foreach].
  - apply wlp_ret. by rewrite Z.add_0_r.
  - apply wlp_bind. eapply wlp_mono; [apply Hb; [lia|done]|]. intros [] s' HI'.
    replace (i + Z.of_nat (S n)) with (i + 1 + Z.of_nat n) by lia.
    apply IH; [done|]. intros. apply Hb; [lia|done].
Qed.

Lemma wlp_for {B} (Inv : Z → St → Prop) (body : Z → M St (option B)) Q n i s :
  Inv i s →
  (∀ j s, i ≤ j < i + Z.of_nat n → Inv j s →
     wlp (body j) (λ r s', match r with Some b => Q (Some b) s' | None => Inv (j + 1) s' end) s) →
  (∀ s', Inv (i + Z.of_nat n) s' → Q None s') →
  wlp (for_ n i body) Q s.
Proof.
  revert i s. induction n as [|n IH]; intros i s HI Hb HQ; cbn [for_].
  - apply wlp_ret, HQ. by rewrite Z.add_0_r.
  - apply wlp_bind. eapply wlp_mono; [apply Hb; [lia|done]|]. intros [b|] s' H; [by apply wlp_ret|].
    apply IH; [done| |].
    + intros. apply Hb; [lia|done].
    + intros s'' H'. apply HQ. by replace (i + Z.of_nat (S n)) with (i + 1 + Z.of_nat n) by lia.
Qed.

Lemma wlp_while {A B} (Inv : A → St → Prop) (body : A → M St (A + B)) Q n a s :
  (∀ a s, Inv a s → wlp (body a) (λ r s', match r with inl a' => Inv a' s' | inr b => Q b s' end) s) →
  Inv a s → wlp (while n body a) Q s.
Proof.
  intros Hb. revert a s. induction n as [|n IH]; intros a s HI; cbn [while]; [done|].
  apply wlp_bind. eapply wlp_mono; [by apply Hb|]. intros [a'|b] s' H; [by apply IH|by apply wlp_ret].
Qed.

End wlp_rules.

Create HintDb xv6 discriminated.
#[export] Hint Resolve wp_ret wp_get wp_gets wp_put wp_modify : xv6.

(** [wp_step] performs one symbolic step of a [wp] goal. *)
Ltac wp_step :=
  lazymatch goal with
  | |- wp (bind _ _) _ _ => apply wp_bind
  | |- wp (ret _) _ _ => apply wp_ret
  | |- wp get _ _ => apply wp_get
  | |- wp (gets _) _ _ => apply wp_gets
  | |- wp (put _) _ _ => apply wp_put
  | |- wp (modify _) _ _ => apply wp_modify
  | |- wp (zoom _ _ _) _ _ => apply wp_zoom
  | |- wp (let _ := _ in _) _ _ => cbv zeta
  end.
Ltac wp_steps := repeat (wp_step; cbn beta iota).

(** The same for [wlp]. *)
Ltac wlp_step :=
  lazymatch goal with
  | |- wlp (bind _ _) _ _ => apply wlp_bind
  | |- wlp (ret _) _ _ => apply wlp_ret
  | |- wlp get _ _ => apply wlp_get
  | |- wlp (gets _) _ _ => apply wlp_gets
  | |- wlp (modify _) _ _ => apply wlp_modify
  | |- wlp (panic _) _ _ => apply wlp_panic
  | |- wlp (undef _) _ _ => apply wlp_undef
  | |- wlp block _ _ => apply wlp_block
  | |- wlp (let _ := _ in _) _ _ => cbv zeta
  end.
Ltac wlp_steps := repeat (wlp_step; cbn beta iota).

(** * Machine integers

    C's unsigned arithmetic wraps; [uN] is the value an [N]-bit unsigned
    variable holds after an assignment, [s32] the value of an [int]. *)
Definition u8 (x : Z) : Z := x mod 2^8.
Definition u16 (x : Z) : Z := x mod 2^16.
Definition u32 (x : Z) : Z := x mod 2^32.
Definition u64 (x : Z) : Z := x mod 2^64.
Definition s16 (x : Z) : Z := (x + 2^15) mod 2^16 - 2^15.
Definition s32 (x : Z) : Z := (x + 2^31) mod 2^32 - 2^31.

Lemma u8_range x : 0 ≤ u8 x < 256.
Proof. apply Z.mod_pos_bound. lia. Qed.

Lemma u8_small x : 0 ≤ x < 256 → u8 x = x.
Proof. apply Z.mod_small. Qed.

Lemma u32_range x : 0 ≤ u32 x < 2^32.
Proof. apply Z.mod_pos_bound. lia. Qed.

Lemma u32_small x : 0 ≤ x < 2^32 → u32 x = x.
Proof. apply Z.mod_small. Qed.

Lemma u64_range x : 0 ≤ u64 x < 2^64.
Proof. apply Z.mod_pos_bound. lia. Qed.

Lemma u64_small x : 0 ≤ x < 2^64 → u64 x = x.
Proof. apply Z.mod_small. Qed.

Lemma s32_small x : - 2^31 ≤ x < 2^31 → s32 x = x.
Proof. intros. unfold s32. rewrite Z.mod_small; lia. Qed.

(** * Total functions as arrays *)
Definition fupd {A} (f : Z → A) (k : Z) (v : A) : Z → A :=
  λ x, if x =? k then v else f x.

Lemma fupd_eq {A} (f : Z → A) k v : fupd f k v k = v.
Proof. unfold fupd. by rewrite Z.eqb_refl. Qed.

Lemma fupd_ne {A} (f : Z → A) k v x : x ≠ k → fupd f k v x = f x.
Proof. intros H. unfold fupd. by destruct (Z.eqb_spec x k). Qed.

Lemma fupd_spec {A} (f : Z → A) k v x :
  fupd f k v x = if decide (x = k) then v else f x.
Proof. unfold fupd. destruct (Z.eqb_spec x k), (decide (x = k)); congruence. Qed.

Create Rewrite HintDb xv6.
#[export] Hint Rewrite @fupd_eq : xv6.
#[export] Hint Rewrite @fupd_ne using (first [assumption | lia | congruence]) : xv6.

(** Linear arithmetic with division and modulo by constants. *)
Ltac dlia := Z.div_mod_to_equations; lia.

(** * Boolean tests of the code as propositions *)
Ltac zbool_in H :=
  repeat first
    [ rewrite Z.eqb_eq in H | rewrite Z.eqb_neq in H
    | rewrite Z.ltb_lt in H | rewrite Z.ltb_ge in H
    | rewrite Z.leb_le in H | rewrite Z.leb_gt in H
    | rewrite andb_true_iff in H | rewrite andb_false_iff in H
    | rewrite orb_true_iff in H | rewrite orb_false_iff in H
    | rewrite negb_true_iff in H | rewrite negb_false_iff in H ].

(** Split on a boolean condition of the model in the goal, keeping the
    arithmetic facts. *)
Ltac case_if :=
  match goal with
  | |- context [if ?b then _ else _] =>
      lazymatch type of b with
      | bool => let E := fresh "Hif" in destruct b eqn:E; zbool_in E
      | _ => let E := fresh "Hif" in destruct b as [E|E]
      end
  end.
