(* ===== verification/Riscv.v ===== *)
(** The constants and address arithmetic of kernel/riscv.h, kernel/memlayout.h
    and kernel/param.h: page rounding, the Sv39 page-table entry encoding and
    the split of a virtual address into page-table indices, with the bit-level
    facts the memory components use. *)

From S2P Require Import Prelude.

(** riscv.h and memlayout.h numeric macros. *)
Abbreviation PGSIZE := 4096 (only parsing).
Abbreviation KERNBASE := 0x80000000 (only parsing).
Abbreviation PHYSTOP := 0x88000000 (only parsing).        (* KERNBASE + 128*1024*1024 *)
Abbreviation MAXVA := 0x4000000000 (only parsing).        (* 1L << (9+9+9+12-1) *)
Abbreviation TRAMPOLINE := 0x3ffffff000 (only parsing).   (* MAXVA - PGSIZE *)
Abbreviation TRAPFRAME := 0x3fffffe000 (only parsing).    (* TRAMPOLINE - PGSIZE *)
Abbreviation UART0 := 0x10000000 (only parsing).
Abbreviation VIRTIO0 := 0x10001000 (only parsing).
Abbreviation PLIC := 0x0c000000 (only parsing).

(** param.h *)
Abbreviation NPROC := 64 (only parsing).
Abbreviation NOFILE := 16 (only parsing).
Abbreviation NFILE := 100 (only parsing).
Abbreviation NINODE := 50 (only parsing).
Abbreviation NDEV := 10 (only parsing).
Abbreviation ROOTDEV := 1 (only parsing).
Abbreviation MAXARG := 32 (only parsing).
Abbreviation MAXOPBLOCKS := 10 (only parsing).
Abbreviation LOGBLOCKS := 30 (only parsing).              (* MAXOPBLOCKS*3 *)
Abbreviation NBUF := 30 (only parsing).                   (* MAXOPBLOCKS*3 *)
Abbreviation MAXPATH := 128 (only parsing).

Definition KSTACK (p : Z) : Z := TRAMPOLINE - (p + 1) * 2 * PGSIZE.

Definition PGROUNDUP (sz : Z) : Z := Z.land (u64 (sz + PGSIZE - 1)) (Z.lnot (PGSIZE - 1)).
Definition PGROUNDDOWN (a : Z) : Z := Z.land a (Z.lnot (PGSIZE - 1)).

Abbreviation PTE_V := 1 (only parsing).
Abbreviation PTE_R := 2 (only parsing).
Abbreviation PTE_W := 4 (only parsing).
Abbreviation PTE_X := 8 (only parsing).
Abbreviation PTE_U := 16 (only parsing).

Definition PA2PTE (pa : Z) : Z := Z.shiftl (Z.shiftr pa 12) 10.
Definition PTE2PA (pte : Z) : Z := u64 (Z.shiftl (Z.shiftr pte 10) 12).
Definition PTE_FLAGS (pte : Z) : Z := Z.land pte 0x3ff.
Definition PXSHIFT (level : Z) : Z := 12 + 9 * level.
Definition PX (level va : Z) : Z := Z.land (Z.shiftr va (PXSHIFT level)) 0x1ff.

(** The value of satp for a page table. *)
Definition MAKE_SATP (pagetable : Z) : Z := Z.lor (Z.shiftl 8 60) (Z.shiftr pagetable 12).

(** Test of a flag bit, [(pte & f) != 0] in the code. *)
Definition has (pte f : Z) : bool := negb (Z.land pte f =? 0).

(** ** Page rounding *)
Lemma land_lnot_pgsize a : 0 ≤ a → Z.land a (Z.lnot (PGSIZE - 1)) = PGSIZE * (a / PGSIZE).
Proof.
  intros Ha. rewrite <-Z.ldiff_land.
  change (PGSIZE - 1) with (Z.ones 12).
  rewrite Z.ldiff_ones_r by lia. rewrite Z.shiftl_mul_pow2, Z.shiftr_div_pow2 by lia.
  change (2^12) with PGSIZE. lia.
Qed.

Lemma PGROUNDDOWN_eq a : 0 ≤ a → PGROUNDDOWN a = PGSIZE * (a / PGSIZE).
Proof. apply land_lnot_pgsize. Qed.

Lemma PGROUNDUP_eq sz : 0 ≤ sz → sz + PGSIZE - 1 < 2^64 →
  PGROUNDUP sz = PGSIZE * ((sz + PGSIZE - 1) / PGSIZE).
Proof.
  intros. unfold PGROUNDUP. rewrite u64_small by lia. apply land_lnot_pgsize. lia.
Qed.

Lemma PGROUNDDOWN_spec a : 0 ≤ a →
  PGROUNDDOWN a mod PGSIZE = 0 ∧ PGROUNDDOWN a ≤ a < PGROUNDDOWN a + PGSIZE.
Proof.
  intros. rewrite PGROUNDDOWN_eq by done.
  pose proof (Z.div_mod a PGSIZE). pose proof (Z.mod_pos_bound a PGSIZE).
  split; [|lia]. rewrite Z.mul_comm. by apply Z.mod_mul.
Qed.

Lemma PGROUNDUP_spec sz : 0 ≤ sz → sz + PGSIZE - 1 < 2^64 →
  PGROUNDUP sz mod PGSIZE = 0 ∧ sz ≤ PGROUNDUP sz < sz + PGSIZE.
Proof.
  intros. rewrite PGROUNDUP_eq by done.
  pose proof (Z.div_mod (sz + PGSIZE - 1) PGSIZE).
  pose proof (Z.mod_pos_bound (sz + PGSIZE - 1) PGSIZE).
  split; [|lia]. rewrite Z.mul_comm. by apply Z.mod_mul.
Qed.

Lemma PGROUNDUP_aligned a : 0 ≤ a → a + PGSIZE - 1 < 2^64 → a mod PGSIZE = 0 → PGROUNDUP a = a.
Proof.
  intros ? ? Ha. destruct (PGROUNDUP_spec a) as [Hm ?]; [lia..|].
  pose proof (Z.div_mod a PGSIZE). pose proof (Z.div_mod (PGROUNDUP a) PGSIZE). lia.
Qed.

Lemma PGROUNDDOWN_aligned a : 0 ≤ a → a mod PGSIZE = 0 → PGROUNDDOWN a = a.
Proof.
  intros ? Ha. rewrite PGROUNDDOWN_eq by done. pose proof (Z.div_mod a PGSIZE). lia.
Qed.

(** ** Page-table entries *)
Lemma PA2PTE_eq pa : PA2PTE pa = pa / PGSIZE * 1024.
Proof. unfold PA2PTE. by rewrite Z.shiftl_mul_pow2, Z.shiftr_div_pow2 by lia. Qed.

Lemma PTE2PA_eq pte : PTE2PA pte = u64 (pte / 1024 * PGSIZE).
Proof. unfold PTE2PA. by rewrite Z.shiftl_mul_pow2, Z.shiftr_div_pow2 by lia. Qed.

Lemma PTE_FLAGS_eq pte : PTE_FLAGS pte = pte mod 1024.
Proof. unfold PTE_FLAGS. change 0x3ff with (Z.ones 10). by rewrite Z.land_ones by lia. Qed.

Lemma lor_PA2PTE pa fl : 0 ≤ fl < 1024 → Z.lor (PA2PTE pa) fl = PA2PTE pa + fl.
Proof.
  intros. symmetry. rewrite <-Z.add_lor_land.
  enough (Z.land (PA2PTE pa) fl = 0) as -> by lia.
  unfold PA2PTE. apply Z.bits_inj'. intros n Hn. rewrite Z.land_spec, Z.bits_0.
  destruct (decide (n < 10)).
  - rewrite Z.shiftl_spec_low by lia. done.
  - rewrite (Z.bits_above_log2 fl n), andb_false_r; [done|lia|].
    destruct (decide (fl = 0)) as [->|]; [simpl; lia|].
    apply Z.log2_lt_pow2; [lia|]. apply Z.lt_le_trans with (2^10); [lia|].
    apply Z.pow_le_mono_r; lia.
Qed.

Lemma PTE2PA_entry pa fl : 0 ≤ pa < 2^64 → pa mod PGSIZE = 0 → 0 ≤ fl < 1024 →
  PTE2PA (Z.lor (PA2PTE pa) fl) = pa.
Proof.
  intros. rewrite lor_PA2PTE, PTE2PA_eq, PA2PTE_eq by done.
  rewrite (Z.add_comm _ fl), Z.div_add, Z.div_small, Z.add_0_l by lia.
  rewrite u64_small; pose proof (Z.div_mod pa PGSIZE); lia.
Qed.

Lemma PTE_FLAGS_entry pa fl : 0 ≤ fl < 1024 → PTE_FLAGS (Z.lor (PA2PTE pa) fl) = fl.
Proof.
  intros. rewrite lor_PA2PTE, PTE_FLAGS_eq, PA2PTE_eq by done.
  by rewrite (Z.add_comm _ fl), Z.mod_add, Z.mod_small by lia.
Qed.

Lemma PTE2PA_aligned pte : PTE2PA pte mod PGSIZE = 0.
Proof. rewrite PTE2PA_eq. unfold u64. change (2^64) with (2^52 * PGSIZE). dlia. Qed.

Lemma PTE2PA_range pte : 0 ≤ PTE2PA pte < 2^64.
Proof. apply u64_range. Qed.

(** The flag tests only look at the ten flag bits. *)
Lemma has_flags pte f : 0 ≤ f < 1024 → has (PTE_FLAGS pte) f = has pte f.
Proof.
  intros. unfold has, PTE_FLAGS. rewrite <-Z.land_assoc.
  replace (Z.land 0x3ff f) with f; [done|].
  rewrite Z.land_comm. change 0x3ff with (Z.ones 10).
  rewrite Z.land_ones by lia. by rewrite Z.mod_small by lia.
Qed.

Lemma has_lor p q f : has (Z.lor p q) f = has p f || has q f.
Proof.
  unfold has. rewrite Z.land_lor_distr_l.
  destruct (Z.eqb_spec (Z.land p f) 0) as [->|H1]; [by rewrite Z.lor_0_l|].
  destruct (Z.eqb_spec (Z.lor (Z.land p f) (Z.land q f)) 0) as [H|]; [|done].
  apply Z.lor_eq_0_iff in H. tauto.
Qed.

Lemma has_0 f : has 0 f = false.
Proof. unfold has. by rewrite Z.land_0_l. Qed.

Lemma has_PA2PTE pa f : 0 ≤ f < 1024 → has (PA2PTE pa) f = false.
Proof.
  intros. rewrite <-has_flags by done. unfold PTE_FLAGS.
  change (Z.land (PA2PTE pa) 0x3ff) with (PTE_FLAGS (PA2PTE pa)).
  rewrite PTE_FLAGS_eq, PA2PTE_eq, Z.mod_mul by lia. apply has_0.
Qed.

(** ** Page-table indices *)
Lemma PX_eq l va : 0 ≤ l → PX l va = va / 2^(PXSHIFT l) mod 512.
Proof.
  intros. unfold PX, PXSHIFT. change 0x1ff with (Z.ones 9).
  by rewrite Z.land_ones, Z.shiftr_div_pow2 by lia.
Qed.

Lemma PX_range l va : 0 ≤ l → 0 ≤ PX l va < 512.
Proof. intros. rewrite PX_eq by done. apply Z.mod_pos_bound. lia. Qed.

(** Two addresses below MAXVA with the same three indices lie in one page. *)
Lemma PX_inj va vb : 0 ≤ va < MAXVA → 0 ≤ vb < MAXVA →
  PX 2 va = PX 2 vb → PX 1 va = PX 1 vb → PX 0 va = PX 0 vb →
  va / PGSIZE = vb / PGSIZE.
Proof.
  intros Ha Hb. rewrite !PX_eq by lia.
  change (2^PXSHIFT 2) with (PGSIZE * 512 * 512).
  change (2^PXSHIFT 1) with (PGSIZE * 512).
  change (2^PXSHIFT 0) with PGSIZE.
  rewrite <-!Z.div_div by lia.
  set (x := va / PGSIZE). set (y := vb / PGSIZE).
  assert (0 ≤ x < 2^26) by (subst x; split; [apply Z.div_pos|apply Z.div_lt_upper_bound]; lia).
  assert (0 ≤ y < 2^26) by (subst y; split; [apply Z.div_pos|apply Z.div_lt_upper_bound]; lia).
  clearbody x y. clear Ha Hb. intros.
  Z.div_mod_to_equations. lia.
Qed.
