(* ===== verification/Memory.v ===== *)
(** Byte-addressed physical memory and kernel/string.c.

    Memory is a total function from addresses to byte values; the kernel's
    direct map makes a kernel pointer and a physical address the same number.
    [ld64]/[st64] are the 8-byte little-endian accesses the compiler emits for
    [uint64] and pointer lvalues.  The routines of string.c are loops over
    this memory, and each is related to a closed form. *)

From S2P Require Import Prelude Riscv.

Abbreviation mem := (Z → Z).

(** * Multi-byte accesses *)
Fixpoint ldn (n : nat) (m : mem) (a : Z) : Z :=
  match n with
  | O => 0
  | S n' => m a + 256 * ldn n' m (a + 1)
  end.

Fixpoint stn (n : nat) (m : mem) (a v : Z) : mem :=
  match n with
  | O => m
  | S n' => fupd (stn n' m (a + 1) (v / 256)) a (v mod 256)
  end.

Definition ld64 (m : mem) (a : Z) : Z := ldn 8 m a.
Definition st64 (m : mem) (a v : Z) : mem := stn 8 m a v.
Definition ld32 (m : mem) (a : Z) : Z := ldn 4 m a.
Definition st32 (m : mem) (a v : Z) : mem := stn 4 m a v.

Lemma stn_other n m a v x : x < a ∨ a + Z.of_nat n ≤ x → stn n m a v x = m x.
Proof.
  revert a v. induction n as [|n IH]; intros a v H; [done|].
  cbn [stn]. rewrite fupd_ne by lia. apply IH. lia.
Qed.

(** Inside the stored bytes the old contents do not matter. *)
Lemma stn_ext n m m' a v x : (x < a ∨ a + Z.of_nat n ≤ x → m x = m' x) → stn n m a v x = stn n m' a v x.
Proof.
  revert a v. induction n as [|n IH]; intros a v H; cbn [stn]; [apply H; lia|].
  rewrite !fupd_spec. case_decide; [done|]. apply IH. intros. apply H. lia.
Qed.

Lemma ldn_ext n m m' a :
  (∀ x, a ≤ x < a + Z.of_nat n → m x = m' x) → ldn n m a = ldn n m' a.
Proof.
  revert a. induction n as [|n IH]; intros a H; [done|].
  cbn [ldn]. rewrite (H a) by lia. rewrite (IH (a + 1)); [done|]. intros. apply H. lia.
Qed.

Lemma ldn_stn_same n m a v : ldn n (stn n m a v) a = v mod 2^(8 * Z.of_nat n).
Proof.
  revert a v. induction n as [|n IH]; intros a v.
  - simpl. by rewrite Z.mod_1_r.
  - cbn [ldn stn]. rewrite fupd_eq.
    rewrite (ldn_ext n _ (stn n m (a + 1) (v / 256))) by (intros; apply fupd_ne; lia).
    rewrite IH. replace (2^(8 * Z.of_nat (S n))) with (256 * 2^(8 * Z.of_nat n)).
    + by rewrite Z.rem_mul_r by lia.
    + change 256 with (2^8). rewrite <-Z.pow_add_r by lia. f_equal. lia.
Qed.

Lemma ldn_stn_other n k m a b v :
  a + Z.of_nat n ≤ b ∨ b + Z.of_nat k ≤ a → ldn n (stn k m b v) a = ldn n m a.
Proof. intros. apply ldn_ext. intros. apply stn_other. lia. Qed.

Definition mem_ok (m : mem) : Prop := ∀ a, 0 ≤ m a < 256.

Lemma ldn_range n m a : mem_ok m → 0 ≤ ldn n m a < 2^(8 * Z.of_nat n).
Proof.
  intros Hm. revert a. induction n as [|n IH]; intros a; [done|].
  cbn [ldn]. specialize (IH (a + 1)). specialize (Hm a).
  replace (2^(8 * Z.of_nat (S n))) with (256 * 2^(8 * Z.of_nat n)); [lia|].
  change 256 with (2^8). rewrite <-Z.pow_add_r by lia. f_equal. lia.
Qed.

Lemma stn_ok n m a v : mem_ok m → mem_ok (stn n m a v).
Proof.
  intros Hm. revert a v. induction n as [|n IH]; intros a v x; [done|].
  cbn [stn]. rewrite fupd_spec. case_decide; [|apply IH].
  apply Z.mod_pos_bound. lia.
Qed.

Lemma ld64_st64_same m a v : 0 ≤ v < 2^64 → ld64 (st64 m a v) a = v.
Proof. intros. unfold ld64, st64. rewrite ldn_stn_same. by apply Z.mod_small. Qed.

Lemma ld64_st64_other m a b v : a + 8 ≤ b ∨ b + 8 ≤ a → ld64 (st64 m b v) a = ld64 m a.
Proof. apply (ldn_stn_other 8 8). Qed.

Lemma st64_other m a v x : x < a ∨ a + 8 ≤ x → st64 m a v x = m x.
Proof. apply (stn_other 8). Qed.

Lemma ld64_ext m m' a : (∀ x, a ≤ x < a + 8 → m x = m' x) → ld64 m a = ld64 m' a.
Proof. apply (ldn_ext 8). Qed.

Lemma ld64_range m a : mem_ok m → 0 ≤ ld64 m a < 2^64.
Proof. apply (ldn_range 8). Qed.

#[export] Hint Resolve stn_ok : xv6.

(** * kernel/string.c *)

(** for(i = 0; i < n; i++) cdst[i] = c; *)
Fixpoint memset (m : mem) (dst c : Z) (n : nat) : mem :=
  match n with
  | O => m
  | S k => memset (fupd m dst (u8 c)) (dst + 1) c k
  end.

(** while(n-- > 0){ if( *s1 != *s2 ) return *s1 - *s2; s1++, s2++; } return 0; *)
Fixpoint memcmp (m : mem) (s1 s2 : Z) (n : nat) : Z :=
  match n with
  | O => 0
  | S k => if m s1 =? m s2 then memcmp m (s1 + 1) (s2 + 1) k else m s1 - m s2
  end.

(** while(n-- > 0) *d++ = *s++; *)
Fixpoint copy_fwd (m : mem) (d s : Z) (n : nat) : mem :=
  match n with
  | O => m
  | S k => copy_fwd (fupd m d (m s)) (d + 1) (s + 1) k
  end.

(** while(n-- > 0) *--d = *--s; *)
Fixpoint copy_bwd (m : mem) (d s : Z) (n : nat) : mem :=
  match n with
  | O => m
  | S k => copy_bwd (fupd m (d - 1) (m (s - 1))) (d - 1) (s - 1) k
  end.

Definition memmove (m : mem) (dst src : Z) (n : nat) : mem :=
  if (n =? 0)%nat then m else
  if (src <? dst) && (dst <? src + Z.of_nat n) then
    copy_bwd m (dst + Z.of_nat n) (src + Z.of_nat n) n
  else copy_fwd m dst src n.

Definition memcpy (m : mem) (dst src : Z) (n : nat) : mem := memmove m dst src n.

(** while(n > 0 && *p && *p == *q) n--, p++, q++;
    if(n == 0) return 0; return (uchar)*p - (uchar)*q; *)
Fixpoint strncmp (m : mem) (p q : Z) (n : nat) : Z :=
  match n with
  | O => 0
  | S k =>
      if negb (m p =? 0) && (m p =? m q) then strncmp m (p + 1) (q + 1) k
      else m p - m q
  end.

(** while(n-- > 0) *s++ = 0; *)
Fixpoint strncpy_pad (m : mem) (s : Z) (n : nat) : mem :=
  match n with
  | O => m
  | S k => strncpy_pad (fupd m s 0) (s + 1) k
  end.

(** while(n-- > 0 && ( *s++ = *t++ ) != 0) ;
    The pad loop then runs with the count that is left. *)
Fixpoint strncpy (m : mem) (s t : Z) (n : nat) : mem :=
  match n with
  | O => m
  | S k =>
      let c := m t in
      let m' := fupd m s c in
      if c =? 0 then strncpy_pad m' (s + 1) k else strncpy m' (s + 1) (t + 1) k
  end.

(** The loop of safestrcpy, entered with [n] the value after [--n]:
    while(--n > 0 && ( *s++ = *t++ ) != 0) ;  *s = 0; *)
Fixpoint safestrcpy_loop (m : mem) (s t : Z) (n : nat) : mem :=
  match n with
  | O => fupd m s 0
  | S k =>
      let c := m t in
      let m' := fupd m s c in
      if c =? 0 then fupd m' (s + 1) 0 else safestrcpy_loop m' (s + 1) (t + 1) k
  end.

Definition safestrcpy (m : mem) (s t : Z) (n : Z) : mem :=
  if n <=? 0 then m else safestrcpy_loop m s t (Z.to_nat (n - 1)).

(** for(n = 0; s[n]; n++) ;  The C loop has no bound of its own; the model
    gives up after [fuel] bytes. *)
Fixpoint strlen (fuel : nat) (m : mem) (s : Z) : option Z :=
  match fuel with
  | O => None
  | S k => if m s =? 0 then Some 0 else Z.succ <$> strlen k m (s + 1)
  end.

(** ** Closed forms *)
Lemma memset_spec m dst c n x :
  memset m dst c n x = if decide (dst ≤ x < dst + Z.of_nat n) then u8 c else m x.
Proof.
  revert m dst. induction n as [|n IH]; intros m dst; cbn [memset].
  - case_decide; [lia|done].
  - rewrite IH, fupd_spec. repeat case_decide; try done; lia.
Qed.

Lemma copy_fwd_spec n : ∀ m d s x,
  d ≤ s ∨ s + Z.of_nat n ≤ d →
  copy_fwd m d s n x = if decide (d ≤ x < d + Z.of_nat n) then m (s + (x - d)) else m x.
Proof.
  induction n as [|n IH]; intros m d s x H; cbn [copy_fwd].
  - case_decide; [lia|done].
  - rewrite IH by lia. rewrite !fupd_spec.
    repeat case_decide; try lia; try (f_equal; lia).
Qed.

Lemma copy_bwd_spec n : ∀ m d s x,
  s ≤ d →
  copy_bwd m d s n x =
  if decide (d - Z.of_nat n ≤ x < d) then m (s + (x - d)) else m x.
Proof.
  induction n as [|n IH]; intros m d s x H; cbn [copy_bwd].
  - case_decide; [lia|done].
  - rewrite IH by lia. rewrite !fupd_spec.
    repeat case_decide; try lia; try (f_equal; lia).
Qed.

(** The bytes of an [n]-byte object at address [a]. *)
Fixpoint bytes (m : mem) (a : Z) (n : nat) : list Z :=
  match n with
  | O => []
  | S k => m a :: bytes m (a + 1) k
  end.

Lemma bytes_length m a n : length (bytes m a n) = n.
Proof. revert a. induction n as [|n IH]; intros a; cbn; [done|]. by rewrite IH. Qed.

Lemma bytes_lookup m a n i : (i < n)%nat → bytes m a n !! i = Some (m (a + Z.of_nat i)).
Proof.
  revert a i. induction n as [|n IH]; intros a [|i] Hi; cbn [bytes lookup list_lookup]; try lia.
  - f_equal. f_equal. lia.
  - rewrite IH by lia. do 2 f_equal. lia.
Qed.

Lemma bytes_ext m m' a b n :
  (∀ i, (i < n)%nat → m (a + Z.of_nat i) = m' (b + Z.of_nat i)) → bytes m a n = bytes m' b n.
Proof.
  revert a b. induction n as [|n IH]; intros a b H; [done|]. cbn [bytes]. f_equal.
  - specialize (H 0%nat). rewrite !Z.add_0_r in H. apply H. lia.
  - apply IH. intros i Hi. specialize (H (S i)).
    replace (a + 1 + Z.of_nat i) with (a + Z.of_nat (S i)) by lia.
    replace (b + 1 + Z.of_nat i) with (b + Z.of_nat (S i)) by lia. apply H. lia.
Qed.

Lemma bytes_app m a n k : bytes m a (n + k) = bytes m a n ++ bytes m (a + Z.of_nat n) k.
Proof.
  revert a. induction n as [|n IH]; intros a; cbn [bytes app Nat.add].
  - f_equal. lia.
  - f_equal. rewrite IH. do 2 f_equal. lia.
Qed.

Lemma memmove_byte m dst src n x :
  memmove m dst src n x =
  if decide (dst ≤ x < dst + Z.of_nat n) then m (src + (x - dst)) else m x.
Proof.
  unfold memmove. destruct (Nat.eqb_spec n 0) as [->|Hn]; [by case_decide; [lia|]|].
  case_if.
  - rewrite copy_bwd_spec by lia. repeat case_decide; try lia; f_equal; lia.
  - apply copy_fwd_spec. lia.
Qed.

(** after memmove(dst, src, n) the destination holds the [n] bytes the
    source held before the call and no other byte has changed, whichever way
    the two ranges overlap. *)
Theorem memmove_copies m dst src n :
  bytes (memmove m dst src n) dst n = bytes m src n ∧
  ∀ x, x < dst ∨ dst + Z.of_nat n ≤ x → memmove m dst src n x = m x.
Proof.
  split.
  - apply bytes_ext. intros i Hi. rewrite memmove_byte. case_decide; [f_equal|]; lia.
  - intros x Hx. rewrite memmove_byte. case_decide; [lia|done].
Qed.

Lemma memmove_ok m dst src n : mem_ok m → mem_ok (memmove m dst src n).
Proof. intros Hm x. rewrite memmove_byte. case_decide; apply Hm. Qed.

Lemma memset_ok m dst c n : mem_ok m → mem_ok (memset m dst c n).
Proof. intros Hm x. rewrite memset_spec. case_decide; [apply u8_range|apply Hm]. Qed.

(** ** C strings *)

(** The C string at [p], looking at no more than [n] bytes. *)
Fixpoint cstr (n : nat) (m : mem) (p : Z) : list Z :=
  match n with
  | O => []
  | S k => if m p =? 0 then [] else m p :: cstr k m (p + 1)
  end.

Lemma cstr_length n m p : (length (cstr n m p) ≤ n)%nat.
Proof.
  revert p. induction n as [|n IH]; intros p; [done|]. cbn [cstr].
  case_if; cbn [length]; [lia|]. specialize (IH (p + 1)). lia.
Qed.

Lemma cstr_ext n m m' p :
  (∀ x, p ≤ x < p + Z.of_nat n → m x = m' x) → cstr n m p = cstr n m' p.
Proof.
  revert p. induction n as [|n IH]; intros p H; [done|]. cbn [cstr].
  rewrite (H p) by lia. case_if; [done|]. f_equal. apply IH. intros. apply H. lia.
Qed.

Lemma strncpy_pad_spec n : ∀ m s x,
  strncpy_pad m s n x = if decide (s ≤ x < s + Z.of_nat n) then 0 else m x.
Proof.
  induction n as [|n IH]; intros m s x; cbn [strncpy_pad].
  - case_decide; [lia|done].
  - rewrite IH, fupd_spec. repeat case_decide; try done; lia.
Qed.

(** The effect of strncpy on each byte, for a source and a destination that
    do not overlap: the source string, then NUL padding up to [n] bytes. *)
Lemma strncpy_byte n : ∀ m s t x,
  t + Z.of_nat n ≤ s ∨ s + Z.of_nat n ≤ t →
  strncpy m s t n x =
  if decide (s ≤ x < s + Z.of_nat (length (cstr n m t))) then m (t + (x - s))
  else if decide (s ≤ x < s + Z.of_nat n) then 0 else m x.
Proof.
  induction n as [|n IH]; intros m s t x H; cbn [strncpy cstr].
  - cbn [length]. repeat case_decide; try lia; try done.
  - destruct (Z.eqb_spec (m t) 0) as [E|E]; cbv zeta.
    + rewrite strncpy_pad_spec, fupd_spec. cbn [length].
      repeat case_decide; try lia; try congruence; done.
    + rewrite IH by lia.
      rewrite (cstr_ext n (fupd m s (m t)) m (t + 1)) by (intros; apply fupd_ne; lia).
      pose proof (cstr_length n m (t + 1)). cbn [length]. rewrite !fupd_spec.
      repeat case_decide; try lia; try congruence; try (f_equal; lia).
Qed.

Lemma safestrcpy_loop_byte n : ∀ m s t x,
  t + Z.of_nat (S n) ≤ s ∨ s + Z.of_nat (S n) ≤ t →
  (x < s ∨ s + Z.of_nat (S n) ≤ x → safestrcpy_loop m s t n x = m x) ∧
  (s ≤ x < s + Z.of_nat (length (cstr n m t)) → safestrcpy_loop m s t n x = m (t + (x - s))) ∧
  (x = s + Z.of_nat (length (cstr n m t)) → safestrcpy_loop m s t n x = 0).
Proof.
  induction n as [|n IH]; intros m s t x H; cbn [safestrcpy_loop cstr].
  - cbn [length]. rewrite fupd_spec. repeat split; intros; case_decide; try lia; done.
  - destruct (Z.eqb_spec (m t) 0) as [E|E]; cbv zeta; cbn [length].
    + rewrite !fupd_spec. repeat split; intros; repeat case_decide; try lia; congruence.
    + rewrite (cstr_ext n m (fupd m s (m t)) (t + 1)) by (intros; rewrite fupd_ne; [done|lia]).
      destruct (IH (fupd m s (m t)) (s + 1) (t + 1) x) as (H1 & H2 & H3); [lia|].
      pose proof (cstr_length n (fupd m s (m t)) (t + 1)).
      repeat split; intros.
      * rewrite H1, fupd_ne by lia. done.
      * destruct (decide (x = s)) as [->|].
        -- rewrite H1 by lia. rewrite fupd_eq. f_equal. lia.
        -- rewrite H2, fupd_ne by lia. f_equal. lia.
      * apply H3. lia.
Qed.

(** Two arrays of [n] bytes that agree up to and including the NUL hold the
    same string. *)
Lemma cstr_copy n : ∀ m m' p q,
  (∀ i, (i < length (cstr n m p))%nat → m' (q + Z.of_nat i) = m (p + Z.of_nat i)) →
  ((length (cstr n m p) < n)%nat → m' (q + Z.of_nat (length (cstr n m p))) = 0) →
  cstr n m' q = cstr n m p.
Proof.
  induction n as [|n IH]; intros m m' p q H1 H2; [done|]. cbn [cstr] in *.
  destruct (Z.eqb_spec (m p) 0) as [E|E]; cbn [length] in *.
  - rewrite Z.add_0_r in H2. rewrite H2 by lia. done.
  - pose proof (H1 0%nat ltac:(lia)) as H0. rewrite !Z.add_0_r in H0. rewrite H0.
    destruct (Z.eqb_spec (m p) 0); [done|]. f_equal. apply IH.
    + intros i Hi. specialize (H1 (S i) ltac:(lia)).
      replace (q + 1 + Z.of_nat i) with (q + Z.of_nat (S i)) by lia.
      replace (p + 1 + Z.of_nat i) with (p + Z.of_nat (S i)) by lia. done.
    + intros. rewrite <-H2 by lia. f_equal. lia.
Qed.

(** strncmp(p, q, n) returns 0 exactly when the two strings agree up to
    their NUL or to their first [n] bytes. *)
Lemma strncmp_zero_iff n m p q : strncmp m p q n = 0 ↔ cstr n m p = cstr n m q.
Proof.
  revert p q. induction n as [|n IH]; intros p q; cbn [strncmp cstr]; [done|].
  destruct (Z.eqb_spec (m p) 0) as [E|E]; cbn [negb andb].
  - rewrite E. destruct (Z.eqb_spec (m q) 0); split; intros; try lia; done.
  - destruct (Z.eqb_spec (m p) (m q)) as [E2|E2].
    + rewrite IH, <-E2. destruct (Z.eqb_spec (m p) 0); [done|]. split; [by intros ->|by intros [= ->]].
    + destruct (Z.eqb_spec (m q) 0); split; intros H; try lia; simplify_eq; done.
Qed.

(** safestrcpy(s, t, n) always leaves a NUL-terminated string in the [n]
    bytes of [s]: the source string cut to [n - 1] bytes, and it writes
    nothing outside that buffer. *)
Theorem safestrcpy_terminated m s t n :
  0 < n → t + n ≤ s ∨ s + n ≤ t →
  let m' := safestrcpy m s t n in
  let src := cstr (Z.to_nat (n - 1)) m t in
  cstr (Z.to_nat (n - 1)) m' s = src ∧
  m' (s + Z.of_nat (length src)) = 0 ∧
  ∀ x, x < s ∨ s + n ≤ x → m' x = m x.
Proof.
  intros Hn Hd. cbv zeta. unfold safestrcpy. rewrite (proj2 (Z.leb_gt _ _)) by lia.
  assert (Hk : n = Z.of_nat (S (Z.to_nat (n - 1)))) by lia. rewrite Hk in Hd.
  pose proof (λ x, safestrcpy_loop_byte (Z.to_nat (n - 1)) m s t x Hd) as Hb.
  split; [|split].
  - apply cstr_copy; intros; [rewrite (proj1 (proj2 (Hb _))) by lia; f_equal; lia|].
    by apply Hb.
  - by apply Hb.
  - intros x Hx. apply Hb. lia.
Qed.

Lemma safestrcpy_terminated_witness :
  let m := fupd (fupd (fupd (λ _, 0) 100 104) 101 105) 102 106 in
  cstr 2 (safestrcpy m 200 100 3) 200 = [104; 105] ∧ (0 < 3 ∧ (100 + 3 ≤ 200 ∨ 200 + 3 ≤ 100)).
Proof.
  cbv zeta. split; [|lia].
  destruct (safestrcpy_terminated (fupd (fupd (fupd (λ _, 0) 100 104) 101 105) 102 106)
              200 100 3 ltac:(lia) ltac:(lia)) as [H _].
  exact H.
Defined.
