(* ===== verification/Kalloc.v ===== *)
(** kernel/kalloc.c: the physical page allocator with per-page reference
    counts.

    The free list is threaded through the free pages themselves: the first
    eight bytes of a free page hold the address of the next one, so the list
    lives in the same byte memory as the page contents.  [ref.lock] and
    [kmem.lock] make each access to the two structures atomic; an operation
    here is the sequential composition of those critical sections.  A count is
    an int, whose overflow in ref_inc is undefined. *)

From S2P Require Import Prelude Riscv Memory.

(** Addresses the linker script kernel/kernel.ld fixes when the kernel image is
    built. *)
Class KernelImage := {
  kend : Z;                            (* extern char end[] *)
  etext : Z;                           (* extern char etext[] *)
  trampoline : Z;                      (* extern char trampoline[] *)
  kend_range : KERNBASE ≤ kend ≤ PHYSTOP;
  etext_range : KERNBASE < etext ≤ kend ∧ etext mod PGSIZE = 0;
  trampoline_range : KERNBASE ≤ trampoline < etext ∧ trampoline mod PGSIZE = 0
}.

(** kmem.freelist, ref.refcount[] and the memory the pages live in. *)
Record kmem := mkKmem {
  memory : mem;
  freelist : Z;
  refcount : Z → Z
}.

Definition set_memory (m : mem) (s : kmem) : kmem := mkKmem m (freelist s) (refcount s).
Definition set_freelist (f : Z) (s : kmem) : kmem := mkKmem (memory s) f (refcount s).
Definition set_refcount (r : Z → Z) (s : kmem) : kmem := mkKmem (memory s) (freelist s) r.

(** ref.refcount has PHYSTOP / PGSIZE entries. *)
Definition ref_index_ok (idx : Z) : bool := (0 <=? idx) && (idx <? PHYSTOP / PGSIZE).

Definition ref_read (idx : Z) : M kmem Z :=
  if ref_index_ok idx then gets (λ s, refcount s idx) else undef "ref.refcount[idx]".

Definition ref_write (idx v : Z) : M kmem unit :=
  if ref_index_ok idx then modify (λ s, set_refcount (fupd (refcount s) idx v) s)
  else undef "ref.refcount[idx]".

Definition load64 (a : Z) : M kmem Z := gets (λ s, ld64 (memory s) a).
Definition store64 (a v : Z) : M kmem unit := modify (λ s, set_memory (st64 (memory s) a v) s).
Definition kmemset (dst c : Z) (n : nat) : M kmem unit :=
  modify (λ s, set_memory (memset (memory s) dst c n) s).
Definition kmemmove (dst src : Z) (n : nat) : M kmem unit :=
  modify (λ s, set_memory (memmove (memory s) dst src n) s).

Section kalloc.
Context `{KI : KernelImage}.

(** memset(pa, 1, PGSIZE); r->next = kmem.freelist; kmem.freelist = r; *)
Definition free_page (pa : Z) : M kmem unit :=
  kmemset pa 1 (Z.to_nat PGSIZE) ;;
  f <- gets freelist ;;
  store64 pa f ;;
  modify (set_freelist pa).

Definition kfree (pa : Z) : M kmem unit :=
  if negb (pa mod PGSIZE =? 0) || (pa <? kend) || (PHYSTOP <=? pa) then panic "kfree" else
  let pageidx := pa / PGSIZE in
  c <- ref_read pageidx ;;
  if c <=? 0 then panic "kfree: freeing page with non-positive refcount" else
  ref_write pageidx (c - 1) ;;
  let now := c - 1 in
  if 0 <? now then ret tt else free_page pa.

Definition kalloc : M kmem Z :=
  r <- gets freelist ;;
  (when negb (r =? 0) do
     (n <- load64 r ;; modify (set_freelist n))) ;;
  if r =? 0 then ret 0 else
  kmemset r 5 (Z.to_nat PGSIZE) ;;
  ref_write (r / PGSIZE) 1 ;;
  ret r.

Definition ref_inc (pa : Z) : M kmem unit :=
  if negb (pa mod PGSIZE =? 0) then panic "ref_inc: pa not page aligned" else
  let idx := pa / PGSIZE in
  c <- ref_read idx ;;
  if c <? 0 then panic "ref_inc: negative refcount" else
  if 2^31 - 1 <=? c then undef "overflow of ref.refcount[idx]" else
  ref_write idx (c + 1).

Definition ref_dec (pa : Z) : M kmem unit :=
  if negb (pa mod PGSIZE =? 0) then panic "ref_dec: pa not page aligned" else
  let idx := pa / PGSIZE in
  c <- ref_read idx ;;
  if c <=? 0 then panic "ref_dec: decrementing non-positive refcount" else
  ref_write idx (c - 1) ;;
  let now := c - 1 in
  if 0 <? now then ret tt else free_page pa.

Definition ref_get (pa : Z) : M kmem Z :=
  if negb (pa mod PGSIZE =? 0) then panic "ref_get: pa not page aligned" else
  ref_read (pa / PGSIZE).

Definition free_pages_available : M kmem bool := gets (λ s, negb (freelist s =? 0)).

(** for(; p + PGSIZE <= pa_end; p += PGSIZE) { ref.refcount[idx] = 1; kfree(p); } *)
Definition freerange (pa_start pa_end : Z) : M kmem unit :=
  let p := PGROUNDUP pa_start in
  while (S (Z.to_nat ((pa_end - p) / PGSIZE))) (λ p,
    if p + PGSIZE <=? pa_end then
      ref_write (p / PGSIZE) 1 ;;
      kfree p ;;
      ret (inl (p + PGSIZE))
    else ret (inr tt)) p.

(** kmem is a zero-initialised global, so the free list starts out empty. *)
Definition kinit : M kmem unit :=
  modify (set_refcount (λ _, 0)) ;;
  freerange kend PHYSTOP.

(** * The allocator's invariant *)

(** An allocatable page. *)
Definition is_page (p : Z) : Prop := p mod PGSIZE = 0 ∧ kend ≤ p ∧ p < PHYSTOP.

#[export] Instance is_page_dec p : Decision (is_page p).
Proof. unfold is_page. apply _. Defined.

(** The list of run structures reachable from a pointer. *)
Fixpoint chain (m : mem) (h : Z) (l : list Z) : Prop :=
  match l with
  | [] => h = 0
  | x :: l' => h = x ∧ chain m (ld64 m x) l'
  end.

Record freelist_ok (s : kmem) (free : list Z) : Prop := {
  fl_chain : chain (memory s) (freelist s) free;
  fl_nodup : NoDup free;
  fl_free : ∀ p, p ∈ free → is_page p ∧ refcount s (p / PGSIZE) = 0;
  fl_ref : ∀ i, 0 ≤ refcount s i ∧ (0 < refcount s i → is_page (i * PGSIZE));
  fl_mem : mem_ok (memory s)
}.

(** Besides, every page without references is on the list: none is leaked. *)
Record kmem_ok (s : kmem) (free : list Z) : Prop := {
  ko_fl : freelist_ok s free;
  ko_all : ∀ p, is_page p → refcount s (p / PGSIZE) = 0 → p ∈ free
}.

(** ** Pages *)
Lemma page_index p : is_page p → ref_index_ok (p / PGSIZE) = true ∧ p / PGSIZE * PGSIZE = p.
Proof.
  intros (Hm & Hl & Hu). pose proof kend_range. unfold ref_index_ok.
  change (PHYSTOP / PGSIZE) with 0x88000. split; dlia.
Qed.

Lemma page_nonzero p : is_page p → p ≠ 0.
Proof. intros (_ & ? & _). pose proof kend_range. lia. Qed.

Lemma page_idx_inj p q : is_page p → is_page q → p / PGSIZE = q / PGSIZE → p = q.
Proof. intros [_ Hp]%page_index [_ Hq]%page_index E. rewrite <-Hp, <-Hq. by rewrite E. Qed.

(** Distinct pages are a page apart. *)
Lemma page_apart p q : p mod PGSIZE = 0 → q mod PGSIZE = 0 → p ≠ q →
  p + PGSIZE ≤ q ∨ q + PGSIZE ≤ p.
Proof.
  intros. pose proof (Z.div_mod p PGSIZE). pose proof (Z.div_mod q PGSIZE). lia.
Qed.

Lemma page_top p : is_page p → p + PGSIZE ≤ PHYSTOP.
Proof.
  intros (Hp & _ & ?). destruct (page_apart p PHYSTOP) as [?|?]; [done..| |lia|lia]. lia.
Qed.

(** ** The free list *)
Lemma chain_ext m m' h l :
  (∀ p, p ∈ l → ld64 m p = ld64 m' p) → chain m h l → chain m' h l.
Proof.
  revert h. induction l as [|x l IH]; intros h He; cbn [chain]; [done|].
  intros [-> Hc]. split; [done|]. rewrite <-He by set_solver.
  apply IH; [set_solver|done].
Qed.

(** Memory may change in any way outside the free pages. *)
Lemma chain_frame m m' h l q :
  (∀ x, x < q ∨ q + PGSIZE ≤ x → m' x = m x) → q mod PGSIZE = 0 → q ∉ l →
  Forall is_page l → chain m h l → chain m' h l.
Proof.
  intros Hm Hq Hl Hp. apply chain_ext. intros p Hin. apply ld64_ext. intros x Hx.
  symmetry. apply Hm. rewrite Forall_forall in Hp. destruct (Hp p Hin) as [Hpm _].
  destruct (page_apart p q); [done..|by intros ->|lia|lia].
Qed.

Lemma free_forall s free : freelist_ok s free → Forall is_page free.
Proof. intros H. apply Forall_forall. intros p Hp. by apply (fl_free s free H). Qed.

Lemma wp_ref_read idx Q s :
  ref_index_ok idx = true → Q (refcount s idx) s → wp (ref_read idx) Q s.
Proof. unfold ref_read. by intros ->. Qed.

Lemma wp_ref_write idx v Q s :
  ref_index_ok idx = true → Q tt (set_refcount (fupd (refcount s) idx v) s) →
  wp (ref_write idx v) Q s.
Proof. unfold ref_write. by intros ->. Qed.

(** The state [free_page] produces. *)
Definition freed (pa : Z) (s : kmem) : kmem :=
  mkKmem (st64 (memset (memory s) pa 1 (Z.to_nat PGSIZE)) pa (freelist s)) pa (refcount s).

Lemma free_page_run pa s : free_page pa s = Done (tt, freed pa s).
Proof. done. Qed.

Lemma freed_other pa s x : x < pa ∨ pa + PGSIZE ≤ x → memory (freed pa s) x = memory s x.
Proof.
  intros. cbn [freed memory]. rewrite st64_other by lia. rewrite memset_spec.
  case_decide; [lia|done].
Qed.

Lemma chain_head_range s free : freelist_ok s free → 0 ≤ freelist s < 2^64.
Proof.
  intros H. pose proof (fl_chain _ _ H) as Hc. destruct free as [|p l]; cbn in Hc; [lia|].
  destruct Hc as [-> _]. destruct (fl_free _ _ H p) as [(_ & ? & ?) _]; [set_solver|].
  pose proof kend_range. lia.
Qed.

(** Freeing an unreferenced page that is not yet on the list. *)
Lemma freed_ok pa s free :
  freelist_ok s free → is_page pa → pa ∉ free → refcount s (pa / PGSIZE) = 0 →
  freelist_ok (freed pa s) (pa :: free).
Proof.
  intros H Hp Hn Hr. split.
  - cbn [chain freed freelist memory]. split; [done|].
    rewrite ld64_st64_same by (by eapply chain_head_range).
    eapply (chain_frame _ (memory (freed pa s))); [apply freed_other|apply Hp|done| |].
    + by eapply free_forall.
    + apply (fl_chain _ _ H).
  - constructor; [done|apply H].
  - intros p [->|?]%elem_of_cons; [done|]. by apply (fl_free _ _ H).
  - apply H.
  - apply stn_ok, memset_ok, H.
Qed.

Lemma set_ref_ok s free pa c :
  freelist_ok s free → is_page pa → pa ∉ free → 0 ≤ c →
  freelist_ok (set_refcount (fupd (refcount s) (pa / PGSIZE) c) s) free.
Proof.
  intros H Hp Hn Hc. split; try apply H.
  - intros p Hin. destruct (fl_free _ _ H p Hin) as [Hpg Hr]. split; [done|].
    cbn. rewrite fupd_ne; [done|]. intros E%page_idx_inj; [congruence|done..].
  - intros i. cbn. rewrite fupd_spec. case_decide as E; [|apply H].
    split; [done|]. intros _. rewrite E. by rewrite (proj2 (page_index pa Hp)).
Qed.

(** ** What each operation does *)

(** Dropping one of several references only changes the count. *)
Lemma ref_write_drop s free pa c :
  kmem_ok s free → is_page pa → 0 < c → 0 < refcount s (pa / PGSIZE) →
  kmem_ok (set_refcount (fupd (refcount s) (pa / PGSIZE) c) s) free.
Proof.
  intros [H Ha] Hp Hc Hr.
  assert (pa ∉ free) by (intros Hin; destruct (fl_free _ _ H pa Hin); lia).
  split; [by apply set_ref_ok; [| | |lia]|].
  intros p Hpg. cbn. rewrite fupd_spec. case_decide; [lia|]. by apply Ha.
Qed.

(** Dropping the last reference puts the page on the list. *)
Lemma drop_last_ok s free pa :
  kmem_ok s free → is_page pa → 0 < refcount s (pa / PGSIZE) →
  kmem_ok (freed pa (set_refcount (fupd (refcount s) (pa / PGSIZE) 0) s)) (pa :: free).
Proof.
  intros [H Ha] Hp Hr.
  assert (pa ∉ free) by (intros Hin; destruct (fl_free _ _ H pa Hin); lia).
  split.
  - apply freed_ok; [by apply set_ref_ok|done..|]. cbn. by rewrite fupd_eq.
  - intros p Hpg. cbn. rewrite fupd_spec. case_decide as E; intros Hr0.
    + apply page_idx_inj in E; [|done..]. subst. set_solver.
    + apply elem_of_cons. right. by apply Ha.
Qed.

(** The state after a reference to [pa] is dropped. *)
Definition dropped (pa : Z) (s : kmem) : kmem :=
  let c := refcount s (pa / PGSIZE) in
  let s' := set_refcount (fupd (refcount s) (pa / PGSIZE) (c - 1)) s in
  if 1 <? c then s' else freed pa s'.

Definition free_after_drop (pa : Z) (s : kmem) (free : list Z) : list Z :=
  if 1 <? refcount s (pa / PGSIZE) then free else pa :: free.

Lemma dropped_ok s free pa :
  kmem_ok s free → is_page pa → 0 < refcount s (pa / PGSIZE) →
  kmem_ok (dropped pa s) (free_after_drop pa s free).
Proof.
  intros H Hp Hr. unfold dropped, free_after_drop. case_if.
  - apply ref_write_drop; [done..|lia|done].
  - replace (refcount s (pa / PGSIZE) - 1) with 0 by lia. by apply drop_last_ok.
Qed.

Lemma kfree_run s pa :
  is_page pa → 0 < refcount s (pa / PGSIZE) → kfree pa s = Done (tt, dropped pa s).
Proof.
  intros Hp Hr. destruct (page_index pa Hp) as [Hi _]. destruct Hp as (Hm & Hl & Hu).
  unfold kfree, bind, ref_read, ref_write. rewrite Hm, Hi.
  rewrite (proj2 (Z.ltb_ge pa kend)), (proj2 (Z.leb_gt PHYSTOP pa)) by lia. cbn -[Z.div free_page].
  rewrite (proj2 (Z.leb_gt (refcount s (pa / PGSIZE)) 0)) by lia. cbn -[Z.div free_page].
  unfold dropped. replace (0 <? refcount s (pa / PGSIZE) - 1)
    with (1 <? refcount s (pa / PGSIZE)) by lia.
  case_if; [done|]. apply free_page_run.
Qed.

(** ref_dec and kfree agree on allocated pages. *)
Lemma ref_dec_run s pa :
  is_page pa → 0 < refcount s (pa / PGSIZE) → ref_dec pa s = Done (tt, dropped pa s).
Proof.
  intros Hp Hr. destruct (page_index pa Hp) as [Hi _]. destruct Hp as (Hm & _ & _).
  unfold ref_dec, bind, ref_read, ref_write. rewrite Hm, Hi. cbn -[Z.div free_page].
  rewrite (proj2 (Z.leb_gt (refcount s (pa / PGSIZE)) 0)) by lia. cbn -[Z.div free_page].
  unfold dropped. replace (0 <? refcount s (pa / PGSIZE) - 1)
    with (1 <? refcount s (pa / PGSIZE)) by lia.
  case_if; [done|]. apply free_page_run.
Qed.

Lemma ref_inc_run s pa :
  is_page pa → 0 ≤ refcount s (pa / PGSIZE) < 2^31 - 1 →
  ref_inc pa s = Done (tt, set_refcount (fupd (refcount s) (pa / PGSIZE)
                                          (refcount s (pa / PGSIZE) + 1)) s).
Proof.
  intros Hp Hr. destruct (page_index pa Hp) as [Hi _]. destruct Hp as (Hm & _ & _).
  unfold ref_inc, bind, ref_read, ref_write. rewrite Hm, Hi. cbn -[Z.div].
  by rewrite (proj2 (Z.ltb_ge (refcount s (pa / PGSIZE)) 0)), (proj2 (Z.leb_gt (2^31 - 1) _)) by lia.
Qed.

(** The state after a page is taken off the list. *)
Definition allocated (p : Z) (s : kmem) : kmem :=
  mkKmem (memset (memory s) p 5 (Z.to_nat PGSIZE)) (ld64 (memory s) p)
    (fupd (refcount s) (p / PGSIZE) 1).

Lemma kalloc_run s free :
  freelist_ok s free →
  kalloc s = match free with
             | [] => Done (0, s)
             | p :: _ => Done (p, allocated p s)
             end.
Proof.
  intros H. pose proof (fl_chain _ _ H) as Hc. unfold kalloc, bind, ref_write, gets.
  destruct free as [|p free]; cbn in Hc.
  - by rewrite Hc.
  - destruct Hc as [-> _]. destruct (fl_free _ _ H p) as [Hp _]; [set_solver|].
    rewrite (proj2 (Z.eqb_neq p 0)) by (by apply page_nonzero).
    cbn -[Z.div memset]. by rewrite (proj1 (page_index p Hp)).
Qed.

Lemma allocated_ok s p free :
  kmem_ok s (p :: free) → kmem_ok (allocated p s) free.
Proof.
  intros [H Ha]. destruct (fl_free _ _ H p) as [Hp Hr]; [set_solver|].
  pose proof (fl_nodup _ _ H) as [Hn Hnd]%NoDup_cons.
  pose proof (free_forall _ _ H) as [_ Hf]%Forall_cons.
  split; [split|]; cbn [allocated memory freelist refcount].
  - destruct (fl_chain _ _ H) as [_ Hc]. eapply chain_frame; [|apply Hp|done..].
    intros x Hx. rewrite memset_spec. case_decide; [lia|done].
  - done.
  - intros q Hq. destruct (fl_free _ _ H q) as [Hqp Hqr]; [set_solver|]. split; [done|].
    rewrite fupd_ne; [done|]. intros E%page_idx_inj; [congruence|done..].
  - intros i. rewrite fupd_spec. case_decide as E; [|apply H].
    split; [lia|]. intros _. rewrite E. by rewrite (proj2 (page_index p Hp)).
  - apply memset_ok, H.
  - intros q Hq. rewrite fupd_spec. case_decide; [lia|]. intros Hq0.
    destruct (proj1 (elem_of_cons free q p) (Ha q Hq Hq0)); [congruence|done].
Qed.

(** ** Initialisation *)

(** The pages below [p] have been freed, the rest is untouched. *)
Definition init_inv (p : Z) (s : kmem) : Prop :=
  p mod PGSIZE = 0 ∧ kend ≤ p ∧ (∀ i, refcount s i = 0) ∧
  ∃ free, freelist_ok s free ∧ ∀ q, q ∈ free ↔ is_page q ∧ q < p.

Lemma init_step p s :
  init_inv p s → p + PGSIZE ≤ PHYSTOP →
  init_inv (p + PGSIZE) (dropped p (set_refcount (fupd (refcount s) (p / PGSIZE) 1) s)).
Proof.
  intros (Hm & Hl & Hr & free & Hf & Hq) Ht.
  assert (Hp : is_page p) by (split; [done|lia]).
  unfold dropped. cbn [refcount set_refcount]. rewrite fupd_eq. cbn.
  assert (Hz : ∀ i, fupd (fupd (refcount s) (p / PGSIZE) 1) (p / PGSIZE) 0 i = 0).
  { intros i. rewrite !fupd_spec. repeat case_decide; auto. }
  split; [dlia|]. split; [lia|]. split; [exact Hz|]. exists (p :: free). split.
  - apply freed_ok; [|done| |apply Hz].
    + split; try apply Hf.
      * intros q [Hqp ?]%Hq. split; [done|apply Hz].
      * intros i. cbn. rewrite Hz. split; lia.
    + rewrite Hq. lia.
  - intros q. rewrite elem_of_cons, Hq. split.
    + intros [->|[? ?]]; split; [done|lia|done|lia].
    + intros [Hqp ?]. destruct (decide (q = p)); [by left|right]. split; [done|].
      destruct (page_apart q p) as [?|?]; [apply Hqp|done|done|lia|lia].
Qed.

Lemma freerange_inv p s :
  init_inv p s → p ≤ PHYSTOP →
  wp (while (S (Z.to_nat ((PHYSTOP - p) / PGSIZE))) (λ p,
        if p + PGSIZE <=? PHYSTOP then
          ref_write (p / PGSIZE) 1 ;; kfree p ;; ret (inl (p + PGSIZE))
        else ret (inr tt)) p) (λ _ s', init_inv PHYSTOP s') s.
Proof.
  intros Hi Hle.
  apply (wp_while (λ n p s, n = S (Z.to_nat ((PHYSTOP - p) / PGSIZE)) ∧
                            init_inv p s ∧ p ≤ PHYSTOP)); [|done].
  intros n q t (-> & Ht & Hq). eexists. split; [reflexivity|]. pose proof Ht as (Hm & Hl & Hr & _).
  case_if.
  - assert (Hp : is_page q) by (split; [done|lia]).
    wp_steps. apply wp_ref_write; [apply page_index, Hp|]. wp_steps.
    eapply wp_done; [apply kfree_run; [done|]|]; [cbn; rewrite fupd_eq; lia|].
    wp_steps. split; [dlia|]. split; [by apply init_step|lia].
  - apply wp_ret. replace PHYSTOP with q; [done|]. dlia.
Qed.

Lemma kinit_wp s :
  mem_ok (memory s) → freelist s = 0 → wp kinit (λ _ s', init_inv PHYSTOP s') s.
Proof.
  intros Hm Hf. pose proof kend_range as Hk. unfold kinit, freerange. wp_steps.
  destruct (PGROUNDUP_spec kend) as [Ha Hb]; [lia..|].
  apply freerange_inv; [|dlia].
  split; [done|]. split; [lia|]. split; [done|]. exists []. split.
  - split; cbn; [done|constructor|set_solver|lia|done].
  - intros q. split; [set_solver|]. intros [(? & ? & ?) ?]. dlia.
Qed.

Lemma init_inv_ok s : init_inv PHYSTOP s → ∃ free, kmem_ok s free ∧ ∀ p, p ∈ free ↔ is_page p.
Proof.
  intros (_ & _ & _ & free & Hf & Hq). exists free.
  assert (∀ p, p ∈ free ↔ is_page p) as Hall.
  { intros p. rewrite Hq. split; [by intros [? _]|]. intros Hp. split; [done|apply Hp]. }
  split; [|done]. split; [done|]. intros p Hp _. by apply Hall.
Qed.

(** ** Runs of the allocator *)

(** The operations other kernel code performs on the allocator's state: the
    calls, with ref_inc only on a page that is in use, and writes to pages
    that are in use. *)
Inductive kmem_step : kmem → kmem → Prop :=
| step_kalloc s p s' : kalloc s = Done (p, s') → kmem_step s s'
| step_kfree s pa s' : kfree pa s = Done (tt, s') → kmem_step s s'
| step_ref_dec s pa s' : ref_dec pa s = Done (tt, s') → kmem_step s s'
| step_ref_inc s pa s' :
    0 < refcount s (pa / PGSIZE) → ref_inc pa s = Done (tt, s') → kmem_step s s'
| step_write s p m' :
    is_page p → 0 < refcount s (p / PGSIZE) → mem_ok m' →
    (∀ x, x < p ∨ p + PGSIZE ≤ x → m' x = memory s x) → kmem_step s (set_memory m' s).

(** A call that returns had an allocated page for argument. *)
Lemma kfree_done s free pa s' :
  kmem_ok s free → kfree pa s = Done (tt, s') →
  is_page pa ∧ 0 < refcount s (pa / PGSIZE) ∧ s' = dropped pa s.
Proof.
  intros H E. pose proof kend_range.
  assert (is_page pa ∧ 0 < refcount s (pa / PGSIZE)) as [Hp Hr].
  { unfold kfree, bind, ref_read in E.
    destruct (negb (pa mod PGSIZE =? 0) || (pa <? kend) || (PHYSTOP <=? pa)) eqn:E1; [done|].
    zbool_in E1. assert (Hp : is_page pa) by (unfold is_page; lia). split; [done|].
    rewrite (proj1 (page_index pa Hp)) in E. cbn -[Z.div] in E.
    destruct (refcount s (pa / PGSIZE) <=? 0) eqn:E2; [done|]. lia. }
  split; [done|]. split; [done|]. rewrite kfree_run in E by done. congruence.
Qed.

Lemma ref_dec_done s free pa s' :
  kmem_ok s free → ref_dec pa s = Done (tt, s') →
  is_page pa ∧ 0 < refcount s (pa / PGSIZE) ∧ s' = dropped pa s.
Proof.
  intros [H _] E.
  assert (is_page pa ∧ 0 < refcount s (pa / PGSIZE)) as [Hp Hr].
  { unfold ref_dec, bind, ref_read in E.
    destruct (negb (pa mod PGSIZE =? 0)) eqn:E1; [done|]. zbool_in E1.
    destruct (ref_index_ok (pa / PGSIZE)); [|done]. cbn -[Z.div] in E.
    destruct (refcount s (pa / PGSIZE) <=? 0) eqn:E2; [done|]. split; [|lia].
    destruct (fl_ref _ _ H (pa / PGSIZE)) as [_ Hp].
    replace pa with (pa / PGSIZE * PGSIZE) by dlia. apply Hp. lia. }
  split; [done|]. split; [done|]. rewrite ref_dec_run in E by done. congruence.
Qed.

Lemma write_page_ok s free p m' :
  kmem_ok s free → is_page p → p ∉ free → mem_ok m' →
  (∀ x, x < p ∨ p + PGSIZE ≤ x → m' x = memory s x) → kmem_ok (set_memory m' s) free.
Proof.
  intros [H Ha] Hp Hn Hm Hx. split; [|done]. split; try apply H; [|done].
  cbn. eapply chain_frame; [done|apply Hp|done|by eapply free_forall|apply H].
Qed.

(** More generally, memory may change everywhere but on free pages. *)
Lemma kmem_ok_write s free m' :
  kmem_ok s free → mem_ok m' →
  (∀ p, p ∈ free → ∀ x, p ≤ x < p + PGSIZE → m' x = memory s x) →
  kmem_ok (set_memory m' s) free.
Proof.
  intros [H Ha] Hm Hx. split; [|done]. split; try apply H; [|done].
  cbn. eapply chain_ext; [|apply H]. intros p Hp. apply ld64_ext. intros x Hxp.
  symmetry. apply (Hx p Hp). lia.
Qed.

Lemma in_use_not_free s free p :
  kmem_ok s free → 0 < refcount s (p / PGSIZE) → p ∉ free.
Proof. intros [H _] Hr Hin. destruct (fl_free _ _ H p Hin). lia. Qed.

Lemma kmem_step_ok s s' free :
  kmem_ok s free → kmem_step s s' → ∃ free', kmem_ok s' free'.
Proof.
  intros H Hs. inversion Hs as [? p ? E|? pa ? E|? pa ? E|? pa ? Hr E|? p m' Hp Hr Hm Hx]; subst.
  - rewrite (kalloc_run _ _ (ko_fl _ _ H)) in E. destruct free as [|q free]; simplify_eq; [by eexists|].
    exists free. by apply allocated_ok.
  - destruct (kfree_done _ _ _ _ H E) as (? & ? & ->). eexists. by apply dropped_ok.
  - destruct (ref_dec_done _ _ _ _ H E) as (? & ? & ->). eexists. by apply dropped_ok.
  - destruct (fl_ref _ _ (ko_fl _ _ H) (pa / PGSIZE)) as [_ Hp].
    unfold ref_inc in E. destruct (Z.eqb_spec (pa mod PGSIZE) 0) as [Hpa|]; [|done].
    assert (Hpg : is_page pa) by (replace pa with (pa / PGSIZE * PGSIZE) by dlia; auto).
    exists free. destruct (Z.leb_spec (2^31 - 1) (refcount s (pa / PGSIZE))) as [Hov|Hov].
    { exfalso. revert E. cbn [negb]. unfold bind, ref_read. rewrite (proj1 (page_index pa Hpg)). unfold gets.
      rewrite (proj2 (Z.ltb_ge _ 0)), (proj2 (Z.leb_le (2^31 - 1) _)) by lia. done. }
    assert (s' = set_refcount (fupd (refcount s) (pa / PGSIZE)
                                (refcount s (pa / PGSIZE) + 1)) s) as ->.
    { pose proof (ref_inc_run s pa Hpg ltac:(lia)) as E2.
      unfold ref_inc in E2. rewrite Hpa in E2. cbn in E, E2. congruence. }
    apply ref_write_drop; [done..|lia|done].
  - exists free. eapply write_page_ok; [done..|by eapply in_use_not_free|done|done].
Qed.

(** from a zeroed free-list head and any memory contents, kinit returns
    and every page of [end, PHYSTOP) is on the free list exactly once, with a
    zero reference count. *)
Theorem kinit_frees_all s :
  mem_ok (memory s) → freelist s = 0 →
  ∃ s' free, kinit s = Done (tt, s') ∧ kmem_ok s' free ∧ ∀ p, p ∈ free ↔ is_page p.
Proof.
  intros Hm Hf. destruct (wp_elim _ _ _ (kinit_wp s Hm Hf)) as ([] & s' & E & Hi).
  destruct (init_inv_ok s' Hi) as (free & Hok & Hall). eauto.
Qed.

(** C6: in every state reachable from kinit by calls of kalloc, kfree, ref_inc
    (on pages in use) and ref_dec and by writes to pages in use, the free list
    is an acyclic list of distinct pages that contains exactly the pages
    whose reference count is zero. *)
Theorem kmem_reachable_ok s0 s1 s2 :
  mem_ok (memory s0) → freelist s0 = 0 → kinit s0 = Done (tt, s1) → rtc kmem_step s1 s2 →
  ∃ free, chain (memory s2) (freelist s2) free ∧ NoDup free ∧
          ∀ p, is_page p → p ∈ free ↔ refcount s2 (p / PGSIZE) = 0.
Proof.
  intros Hm Hf E Hr. destruct (wp_elim _ _ _ (kinit_wp s0 Hm Hf)) as ([] & s' & E' & Hi).
  assert (s' = s1) as -> by congruence. apply init_inv_ok in Hi as (free & Hok & _).
  clear Hm Hf E E'. revert free Hok. induction Hr as [s|s t u Hs _ IH]; intros free Hok.
  - exists free. split; [apply Hok|]. split; [apply Hok|]. intros p Hp. split.
    + intros Hin. by apply (fl_free _ _ (ko_fl _ _ Hok)).
    + by apply Hok.
  - destruct (kmem_step_ok _ _ _ Hok Hs) as [free' ?]. by eapply IH.
Qed.

(** kalloc returns 0 exactly when no page is free; otherwise the page it
    returns had no reference, now has one and is filled with junk, and no
    other page's contents or count has changed. *)
Theorem kalloc_fresh_page s free :
  kmem_ok s free →
  ∃ r s', kalloc s = Done (r, s') ∧
    (r = 0 ∧ s' = s ∧ (∀ p, is_page p → 0 < refcount s (p / PGSIZE)) ∨
     is_page r ∧ refcount s (r / PGSIZE) = 0 ∧ refcount s' (r / PGSIZE) = 1 ∧
     bytes (memory s') r (Z.to_nat PGSIZE) = replicate (Z.to_nat PGSIZE) 5 ∧
     (∀ x, x < r ∨ r + PGSIZE ≤ x → memory s' x = memory s x) ∧
     (∀ p, is_page p → p ≠ r → refcount s' (p / PGSIZE) = refcount s (p / PGSIZE)) ∧
     kmem_ok s' (tail free)).
Proof.
  intros H. rewrite (kalloc_run s free (ko_fl _ _ H)). destruct free as [|p free].
  - exists 0, s. split; [done|]. left. split; [done|]. split; [done|]. intros p Hp.
    destruct (fl_ref _ _ (ko_fl _ _ H) (p / PGSIZE)) as [? _].
    destruct (decide (refcount s (p / PGSIZE) = 0)) as [E|]; [|lia].
    by apply (ko_all _ _ H p Hp), not_elem_of_nil in E.
  - destruct (fl_free _ _ (ko_fl _ _ H) p) as [Hp Hr]; [set_solver|].
    exists p, (allocated p s). split; [done|]. right.
    cbn [allocated refcount memory tail]. rewrite fupd_eq.
    split; [done|]. split; [done|]. split; [done|]. split; [|split; [|split]].
    + apply list_eq_same_length with (Z.to_nat PGSIZE); [by rewrite length_replicate|by rewrite bytes_length|].
      intros i x y Hi. rewrite bytes_lookup, lookup_replicate_2, memset_spec by done.
      case_decide; [|lia]. intros [= <-] [= <-]. done.
    + intros x Hx. rewrite memset_spec. case_decide; [lia|done].
    + intros q Hq Hne. apply fupd_ne. intros E%page_idx_inj; done.
    + by apply allocated_ok.
Qed.

(** freeing the last reference to a page and allocating again returns
    that page, and leaves the rest of the free list as it was. *)
Theorem kfree_kalloc_roundtrip s free pa :
  kmem_ok s free → is_page pa → refcount s (pa / PGSIZE) = 1 →
  ∃ s1 s2, kfree pa s = Done (tt, s1) ∧ kmem_ok s1 (pa :: free) ∧
           kalloc s1 = Done (pa, s2) ∧ kmem_ok s2 free.
Proof.
  intros H Hp Hr.
  assert (kmem_ok (dropped pa s) (pa :: free)) as Hd.
  { pose proof (dropped_ok s free pa H Hp ltac:(lia)) as Hd.
    unfold free_after_drop in Hd. by rewrite Hr in Hd. }
  exists (dropped pa s), (allocated pa (dropped pa s)).
  split; [apply kfree_run; [done|lia]|]. split; [done|].
  rewrite (kalloc_run _ _ (ko_fl _ _ Hd)). split; [done|]. by apply allocated_ok.
Qed.

End kalloc.

(** * A concrete image with four allocatable pages *)
Module TinyImage.
#[export] Instance tiny : KernelImage := {|
  kend := 0x87ffc000; etext := 0x80008000; trampoline := 0x80007000;
  kend_range := ltac:(lia); etext_range := ltac:(split; [lia|reflexivity]);
  trampoline_range := ltac:(split; [lia|reflexivity])
|}.

Definition boot : kmem := mkKmem (λ _, 0) 0 (λ _, 7).
Definition after_kinit : kmem := match kinit boot with Done (_, s) => s | _ => boot end.
End TinyImage.

Section kalloc_witnesses.
Import TinyImage.

Definition after_kalloc : kmem :=
  match kalloc after_kinit with Done (_, s) => s | _ => after_kinit end.

Lemma boot_mem_ok : mem_ok (memory boot).
Proof. intros a. cbn. lia. Qed.

Lemma after_kinit_ok :
  kinit boot = Done (tt, after_kinit) ∧ ∃ free, kmem_ok after_kinit free ∧ ∀ p, p ∈ free ↔ is_page p.
Proof.
  destruct (wp_elim _ _ _ (kinit_wp boot boot_mem_ok eq_refl)) as ([] & s' & E & Hi).
  unfold after_kinit. rewrite E. split; [done|]. by apply init_inv_ok.
Qed.

Lemma after_kalloc_run : kalloc after_kinit = Done (0x87fff000, after_kalloc).
Proof.
  assert (match kalloc after_kinit with Done (r, _) => r | _ => 0 end = 0x87fff000) as E
    by (vm_compute; reflexivity).
  unfold after_kalloc. revert E. destruct (kalloc after_kinit) as [[r s]| | | |]; [|discriminate..].
  by intros ->.
Qed.

Lemma after_kalloc_ok : ∃ free, kmem_ok after_kalloc free.
Proof.
  destruct after_kinit_ok as (_ & free & H & _). pose proof after_kalloc_run as E.
  rewrite (kalloc_run _ _ (ko_fl _ _ H)) in E. destruct free as [|p free]; [done|].
  exists free. assert (E2 : p = 0x87fff000 ∧ allocated p after_kinit = after_kalloc)
    by (split; congruence).
  destruct E2 as [_ <-]. by apply allocated_ok.
Qed.

Lemma kinit_frees_all_witness :
  ∃ s' free, kinit boot = Done (tt, s') ∧ kmem_ok s' free ∧ ∀ p, p ∈ free ↔ is_page p.
Proof. exact (kinit_frees_all boot boot_mem_ok eq_refl). Defined.

Lemma kmem_reachable_ok_witness :
  ∃ free, chain (memory after_kalloc) (freelist after_kalloc) free ∧ NoDup free ∧
          ∀ p, is_page p → p ∈ free ↔ refcount after_kalloc (p / PGSIZE) = 0.
Proof.
  apply (kmem_reachable_ok boot after_kinit after_kalloc boot_mem_ok eq_refl).
  - apply after_kinit_ok.
  - apply rtc_once. eapply step_kalloc, after_kalloc_run.
Defined.

Lemma kalloc_fresh_page_witness :
  ∃ r s', kalloc after_kinit = Done (r, s') ∧ refcount s' (0x87fff000 / PGSIZE) = 1.
Proof.
  destruct after_kinit_ok as (_ & free & H & _).
  destruct (kalloc_fresh_page after_kinit free H) as (r & s' & E & _).
  exists r, s'. split; [exact E|]. rewrite after_kalloc_run in E.
  assert (s' = after_kalloc) as -> by congruence.
  vm_compute. reflexivity.
Defined.

Lemma kfree_kalloc_roundtrip_witness :
  ∃ s1 s2, kfree 0x87fff000 after_kalloc = Done (tt, s1) ∧ kalloc s1 = Done (0x87fff000, s2).
Proof.
  destruct after_kalloc_ok as (free & H).
  destruct (kfree_kalloc_roundtrip after_kalloc free 0x87fff000 H) as (s1 & s2 & E1 & _ & E2 & _).
  - vm_compute. repeat split; congruence.
  - vm_compute. reflexivity.
  - exists s1, s2. split; [exact E1|exact E2].
Defined.

End kalloc_witnesses.
