(* ===== verification/Vm.v ===== *)
(** kernel/vm.c: Sv39 page tables, user memory and copy-on-write faults.

    Page tables live in the byte memory of the allocator: a page-table page is
    512 eight-byte entries at a page address.  A function that returns a
    pointer returns its address, 0 for the null pointer; [int] results are 0
    and -1 as in the code. *)

From S2P Require Import Prelude Riscv Memory Kalloc.

Section vm.
Context `{KI : KernelImage}.

(** The loop of walk over levels 2 and 1, then the address of the level-0
    entry. *)
Fixpoint walk_loop (level : nat) (pagetable va : Z) (alloc : bool) : M kmem Z :=
  match level with
  | O => ret (pagetable + 8 * PX 0 va)
  | S level' =>
      let pte := pagetable + 8 * PX (Z.of_nat level) va in
      e <- load64 pte ;;
      if has e PTE_V then walk_loop level' (PTE2PA e) va alloc else
      if negb alloc then ret 0 else
      pg <- kalloc ;;
      if pg =? 0 then ret 0 else
      kmemset pg 0 (Z.to_nat PGSIZE) ;;
      store64 pte (Z.lor (PA2PTE pg) PTE_V) ;;
      walk_loop level' pg va alloc
  end.

Definition walk (pagetable va : Z) (alloc : bool) : M kmem Z :=
  if MAXVA <=? va then panic "walk" else walk_loop 2 pagetable va alloc.

Definition walkaddr (pagetable va : Z) : M kmem Z :=
  if MAXVA <=? va then ret 0 else
  pte <- walk pagetable va false ;;
  if pte =? 0 then ret 0 else
  e <- load64 pte ;;
  if negb (has e PTE_V) then ret 0 else
  if negb (has e PTE_U) then ret 0 else
  ret (PTE2PA e).

Definition mappages (pagetable va size pa perm : Z) : M kmem Z :=
  if negb (va mod PGSIZE =? 0) then panic "mappages: va not aligned" else
  if negb (size mod PGSIZE =? 0) then panic "mappages: size not aligned" else
  if size =? 0 then panic "mappages: size" else
  let last := u64 (va + size - PGSIZE) in
  while (Z.to_nat (size / PGSIZE)) (λ '(a, pa),
    pte <- walk pagetable a true ;;
    if pte =? 0 then ret (inr (-1)) else
    e <- load64 pte ;;
    if has e PTE_V then panic "mappages: remap" else
    store64 pte (Z.lor (Z.lor (PA2PTE pa) perm) PTE_V) ;;
    if a =? last then ret (inr 0) else
    ret (inl (u64 (a + PGSIZE), u64 (pa + PGSIZE)))) (va, pa).

Definition kvmmap (kpgtbl va pa sz perm : Z) : M kmem unit :=
  r <- mappages kpgtbl va sz pa perm ;;
  if negb (r =? 0) then panic "kvmmap" else ret tt.

(** kernel/proc.c, called by kvmmake: a page and a mapping for each kernel
    stack. *)
Definition proc_mapstacks (kpgtbl : Z) : M kmem unit :=
  while (S (Z.to_nat NPROC)) (λ p,
    if p <? NPROC then
      pa <- kalloc ;;
      if pa =? 0 then panic "kalloc" else
      kvmmap kpgtbl (KSTACK p) pa PGSIZE (Z.lor PTE_R PTE_W) ;;
      ret (inl (p + 1))
    else ret (inr tt)) 0.

Definition kvmmake : M kmem Z :=
  kpgtbl <- kalloc ;;
  if kpgtbl =? 0 then undef "memset of a null page" else
  kmemset kpgtbl 0 (Z.to_nat PGSIZE) ;;
  kvmmap kpgtbl UART0 UART0 PGSIZE (Z.lor PTE_R PTE_W) ;;
  kvmmap kpgtbl VIRTIO0 VIRTIO0 PGSIZE (Z.lor PTE_R PTE_W) ;;
  kvmmap kpgtbl PLIC PLIC 0x4000000 (Z.lor PTE_R PTE_W) ;;
  kvmmap kpgtbl KERNBASE KERNBASE (etext - KERNBASE) (Z.lor PTE_R PTE_X) ;;
  kvmmap kpgtbl etext etext (PHYSTOP - etext) (Z.lor PTE_R PTE_W) ;;
  kvmmap kpgtbl TRAMPOLINE trampoline PGSIZE (Z.lor PTE_R PTE_X) ;;
  proc_mapstacks kpgtbl ;;
  ret kpgtbl.

(** The value that the variable kernel_pagetable gets. *)
Definition kvminit : M kmem Z := kvmmake.

Definition uvmcreate : M kmem Z :=
  pagetable <- kalloc ;;
  if pagetable =? 0 then ret 0 else
  kmemset pagetable 0 (Z.to_nat PGSIZE) ;;
  ret pagetable.

(** One iteration of the loop of uvmunmap, at page address [a]. *)
Definition unmap_page (pagetable a : Z) (do_free : bool) : M kmem unit :=
  pte <- walk pagetable a false ;;
  if pte =? 0 then ret tt else
  e <- load64 pte ;;
  if negb (has e PTE_V) then ret tt else
  (when do_free do ref_dec (PTE2PA e)) ;;
  store64 pte 0.

Definition uvmunmap (pagetable va npages : Z) (do_free : bool) : M kmem unit :=
  if negb (va mod PGSIZE =? 0) then panic "uvmunmap: not aligned" else
  let fin := u64 (va + npages * PGSIZE) in
  while (S (Z.to_nat npages)) (λ a,
    if a <? fin then
      unmap_page pagetable a do_free ;; ret (inl (u64 (a + PGSIZE)))
    else ret (inr tt)) va.

Definition uvmdealloc (pagetable oldsz newsz : Z) : M kmem Z :=
  if oldsz <=? newsz then ret oldsz else
  (when PGROUNDUP newsz <? PGROUNDUP oldsz do
     (let npages := s32 ((PGROUNDUP oldsz - PGROUNDUP newsz) / PGSIZE) in
      uvmunmap pagetable (PGROUNDUP newsz) (u64 npages) true)) ;;
  ret newsz.

Definition uvmalloc (pagetable oldsz newsz xperm : Z) : M kmem Z :=
  if newsz <? oldsz then ret oldsz else
  let oldsz := PGROUNDUP oldsz in
  while (S (Z.to_nat ((newsz - oldsz + PGSIZE - 1) / PGSIZE))) (λ a,
    if a <? newsz then
      m <- kalloc ;;
      if m =? 0 then
        _ <- uvmdealloc pagetable a oldsz ;; ret (inr 0)
      else
      kmemset m 0 (Z.to_nat PGSIZE) ;;
      r <- mappages pagetable a PGSIZE m (Z.lor (Z.lor PTE_R PTE_U) xperm) ;;
      if negb (r =? 0) then
        kfree m ;;
        _ <- uvmdealloc pagetable a oldsz ;; ret (inr 0)
      else ret (inl (u64 (a + PGSIZE)))
    else ret (inr newsz)) oldsz.

(** freewalk recurses into the entries without R, W and X; Sv39 tables have
    three levels, and [depth] bounds the recursion. *)
Fixpoint freewalk (depth : nat) (pagetable : Z) : M kmem unit :=
  match depth with
  | O => λ _, NoFuel
  | S depth' =>
      while 513 (λ i,
        if i <? 512 then
          pte <- load64 (pagetable + 8 * i) ;;
          if has pte PTE_V && negb (has pte (Z.lor (Z.lor PTE_R PTE_W) PTE_X)) then
            freewalk depth' (PTE2PA pte) ;;
            store64 (pagetable + 8 * i) 0 ;;
            ret (inl (i + 1))
          else if has pte PTE_V then panic "freewalk: leaf"
          else ret (inl (i + 1))
        else ret (inr tt)) 0 ;;
      kfree pagetable
  end.

Definition uvmfree (pagetable sz : Z) : M kmem unit :=
  (when 0 <? sz do uvmunmap pagetable 0 (PGROUNDUP sz / PGSIZE) true) ;;
  freewalk 3 pagetable.

(** One iteration of the loop of uvmcopy, at page address [i]: [inr r] is the
    early return, [inl] goes on with the next page. *)
Definition uvmcopy_page (old new i : Z) : M kmem (unit + Z) :=
  pte <- walk old i false ;;
  if pte =? 0 then ret (inl tt) else
  e <- load64 pte ;;
  if negb (has e PTE_V) then ret (inl tt) else
  let pa := PTE2PA e in
  let flags := Z.land (PTE_FLAGS e) (Z.lnot PTE_W) in
  r <- mappages new i PGSIZE pa flags ;;
  if negb (r =? 0) then
    uvmunmap new 0 (i / PGSIZE) true ;; ret (inr (-1))
  else
  e' <- load64 pte ;;
  store64 pte (Z.land e' (Z.lnot PTE_W)) ;;
  ref_inc pa ;;
  ret (inl tt).

Definition uvmcopy (old new sz : Z) : M kmem Z :=
  while (S (Z.to_nat ((sz + PGSIZE - 1) / PGSIZE))) (λ i,
    if i <? sz then
      r <- uvmcopy_page old new i ;;
      match r with
      | inl _ => ret (inl (u64 (i + PGSIZE)))
      | inr v => ret (inr v)
      end
    else ret (inr 0)) 0.

Definition uvmclear (pagetable va : Z) : M kmem unit :=
  pte <- walk pagetable va false ;;
  if pte =? 0 then panic "uvmclear" else
  e <- load64 pte ;;
  store64 pte (Z.land e (Z.lnot PTE_U)).

Definition vmfault (pagetable va : Z) (write : bool) : M kmem Z :=
  let va := PGROUNDDOWN va in
  pte <- walk pagetable va true ;;
  if pte =? 0 then ret 0 else
  e <- load64 pte ;;
  if negb (has e PTE_V) then ret 0 else
  let pa := PTE2PA e in
  if negb write then ret pa else
  if has e PTE_W then ret pa else
  c <- ref_get pa ;;
  if 1 <? c then
    m <- kalloc ;;
    if m =? 0 then ret 0 else
    kmemmove m pa (Z.to_nat PGSIZE) ;;
    ref_dec pa ;;
    e' <- load64 pte ;;
    store64 pte (Z.lor (Z.lor (PA2PTE m) (Z.land (PTE_FLAGS e') (Z.lnot PTE_W))) PTE_W) ;;
    ret m
  else
    e' <- load64 pte ;;
    store64 pte (Z.lor e' PTE_W) ;;
    ret pa.

Definition ismapped (pagetable va : Z) : M kmem bool :=
  pte <- walk pagetable va false ;;
  if pte =? 0 then ret false else
  e <- load64 pte ;;
  ret (has e PTE_V).

(** A kernel buffer outside the allocator's pages is a list of bytes; writing
    it is memmove from that buffer. *)
Fixpoint write_bytes (m : mem) (a : Z) (l : list Z) : mem :=
  match l with
  | [] => m
  | b :: l' => write_bytes (fupd m a (u8 b)) (a + 1) l'
  end.

(** One iteration of the loop of copyout: [inr] is the early return. *)
Definition copyout_page (pagetable dstva : Z) (src : list Z) : M kmem ((Z * list Z) + Z) :=
  let va0 := PGROUNDDOWN dstva in
  if MAXVA <=? va0 then ret (inr (-1)) else
  pa0 <- walkaddr pagetable va0 ;;
  pa0 <- (if pa0 =? 0 then vmfault pagetable va0 false else ret pa0) ;;
  if pa0 =? 0 then ret (inr (-1)) else
  pte <- walk pagetable va0 false ;;
  if pte =? 0 then undef "null pte" else
  e <- load64 pte ;;
  if negb (has e PTE_W) then ret (inr (-1)) else
  let n := Z.min (PGSIZE - (dstva - va0)) (Z.of_nat (length src)) in
  modify (λ s, set_memory (write_bytes (memory s) (pa0 + (dstva - va0)) (take (Z.to_nat n) src)) s) ;;
  ret (inl (u64 (va0 + PGSIZE), drop (Z.to_nat n) src)).

(** copyout(pagetable, dstva, src, len) with len = length src. *)
Definition copyout (pagetable dstva : Z) (src : list Z) : M kmem Z :=
  while (length src / Z.to_nat PGSIZE + 3)%nat (λ '(dstva, src),
    match src with
    | [] => ret (inr 0)
    | _ => copyout_page pagetable dstva src
    end) (dstva, src).

(** One iteration of the loop of copyin. *)
Definition copyin_page (pagetable srcva len : Z) (dst : list Z) :
    M kmem ((Z * Z * list Z) + (Z * list Z)) :=
  let va0 := PGROUNDDOWN srcva in
  pa0 <- walkaddr pagetable va0 ;;
  pa0 <- (if pa0 =? 0 then vmfault pagetable va0 false else ret pa0) ;;
  if pa0 =? 0 then ret (inr (-1, dst)) else
  let n := Z.min (PGSIZE - (srcva - va0)) len in
  bs <- gets (λ s, bytes (memory s) (pa0 + (srcva - va0)) (Z.to_nat n)) ;;
  ret (inl (u64 (va0 + PGSIZE), len - n, dst ++ bs)).

(** copyin(pagetable, dst, srcva, len): the result code and the bytes that
    have been copied to dst. *)
Definition copyin (pagetable srcva len : Z) : M kmem (Z * list Z) :=
  while (Z.to_nat (len / PGSIZE) + 3)%nat (λ '(srcva, len, dst),
    if 0 <? len then copyin_page pagetable srcva len dst
    else ret (inr (0, dst))) (srcva, len, []).

(** The inner loop of copyinstr over the bytes of one page: the string bytes
    copied and whether the NUL was found. *)
Fixpoint copy_until_nul (m : mem) (p : Z) (n : nat) : list Z * bool :=
  match n with
  | O => ([], false)
  | S k =>
      if m p =? 0 then ([0], true) else
      let '(l, b) := copy_until_nul m (p + 1) k in (m p :: l, b)
  end.

(** copyinstr(pagetable, dst, srcva, max): result code and bytes written. *)
Definition copyinstr (pagetable srcva max : Z) : M kmem (Z * list Z) :=
  while (Z.to_nat (max / PGSIZE) + 3)%nat (λ '(srcva, max, dst),
    if 0 <? max then
      let va0 := PGROUNDDOWN srcva in
      pa0 <- walkaddr pagetable va0 ;;
      if pa0 =? 0 then ret (inr (-1, dst)) else
      let n := Z.min (PGSIZE - (srcva - va0)) max in
      r <- gets (λ s, copy_until_nul (memory s) (pa0 + (srcva - va0)) (Z.to_nat n)) ;;
      let '(l, got_null) := r in
      if (got_null : bool) then ret (inr (0, dst ++ l))
      else ret (inl (u64 (va0 + PGSIZE), max - n, dst ++ l))
    else ret (inr (-1, dst))) (srcva, max, []).

End vm.
