(* ===== verification/VmSpec.v ===== *)
(** The abstract page table behind kernel/vm.c, and the invariant that relates
    it to memory.

    A page table rooted at [pt] denotes the function [leaf m pt] from virtual
    addresses to level-0 entries (0 where a table is missing).  [vm_inv]
    classifies every page: free, a page-table page of one root at one depth
    and one address prefix (so tables form trees that share nothing), a data
    page, or memory the allocator does not manage.  For a data page it
    states that its reference count is the number of valid entries that map
    it, over all roots, plus the references held elsewhere in the kernel. *)

From S2P Require Import Prelude Riscv Memory Kalloc Vm.

(** * The denotation of a page table *)

(** The table reached from [pt] after [d] descents along [va]. *)
Fixpoint table_of (m : mem) (pt va : Z) (d : nat) : option Z :=
  match d with
  | O => Some pt
  | S k =>
      match table_of m pt va k with
      | Some t =>
          let e := ld64 m (t + 8 * PX (2 - Z.of_nat k) va) in
          if has e PTE_V then Some (PTE2PA e) else None
      | None => None
      end
  end.

Definition leaf (m : mem) (pt va : Z) : Z :=
  match table_of m pt va 2 with
  | Some t => ld64 m (t + 8 * PX 0 va)
  | None => 0
  end.

(** The part of an address that selects the table at depth [d]; at depth 3,
    the virtual page number. *)
Definition prefix (d : nat) (va : Z) : Z := va / 2^(39 - 9 * Z.of_nat d).

Lemma prefix_3 va : prefix 3 va = va / PGSIZE.
Proof. done. Qed.

Lemma prefix_S d va : (d < 3)%nat →
  prefix d va = prefix (S d) va / 512 ∧ PX (2 - Z.of_nat d) va = prefix (S d) va mod 512.
Proof.
  intros Hd. unfold prefix. rewrite PX_eq by lia. unfold PXSHIFT.
  replace (12 + 9 * (2 - Z.of_nat d)) with (39 - 9 * Z.of_nat (S d)) by lia.
  split; [|done]. rewrite Z.div_div by lia.
  change 512 with (2^9). rewrite <-Z.pow_add_r by lia. do 2 f_equal. lia.
Qed.

Lemma prefix_S_eq d va vb : (d < 3)%nat →
  prefix d va = prefix d vb → PX (2 - Z.of_nat d) va = PX (2 - Z.of_nat d) vb →
  prefix (S d) va = prefix (S d) vb.
Proof.
  intros Hd. destruct (prefix_S d va Hd) as [-> ->], (prefix_S d vb Hd) as [-> ->].
  intros. dlia.
Qed.

Lemma prefix_mono d va vb : (d < 3)%nat →
  prefix (S d) va = prefix (S d) vb →
  prefix d va = prefix d vb ∧ PX (2 - Z.of_nat d) va = PX (2 - Z.of_nat d) vb.
Proof.
  intros Hd E. destruct (prefix_S d va Hd) as [-> ->], (prefix_S d vb Hd) as [-> ->].
  by rewrite E.
Qed.

Lemma prefix_0 va vb : 0 ≤ va < MAXVA → 0 ≤ vb < MAXVA → prefix 0 va = prefix 0 vb.
Proof.
  intros. unfold prefix. change (2^(39 - 9 * Z.of_nat 0)) with 0x8000000000.
  rewrite !Z.div_small by lia. done.
Qed.

Lemma table_of_S m pt va d :
  table_of m pt va (S d) =
  match table_of m pt va d with
  | Some t =>
      let e := ld64 m (t + 8 * PX (2 - Z.of_nat d) va) in
      if has e PTE_V then Some (PTE2PA e) else None
  | None => None
  end.
Proof. done. Qed.

(** Addresses with the same prefix reach the same table. *)
Lemma table_of_prefix m pt va vb d : (d ≤ 3)%nat →
  prefix d va = prefix d vb → table_of m pt va d = table_of m pt vb d.
Proof.
  induction d as [|d IH]; intros Hd E; [done|].
  apply prefix_mono in E as [E1 E2]; [|lia]. rewrite !table_of_S, IH, E2 by (lia || done). done.
Qed.

Lemma leaf_page m pt va vb : va / PGSIZE = vb / PGSIZE → leaf m pt va = leaf m pt vb.
Proof.
  rewrite <-!prefix_3. intros [E1 E2]%prefix_mono; [|lia]. unfold leaf.
  change (2 - Z.of_nat 2) with 0 in E2.
  rewrite (table_of_prefix m pt va vb 2), E2 by (lia || done). done.
Qed.

Lemma table_of_ext m m' pt va d : (∀ x, m x = m' x) → table_of m pt va d = table_of m' pt va d.
Proof.
  intros H. induction d as [|d IH]; [done|]. rewrite !table_of_S, IH.
  destruct (table_of m' pt va d); [|done]. by rewrite (ld64_ext m m') by auto.
Qed.

Lemma leaf_ext m m' pt va : (∀ x, m x = m' x) → leaf m pt va = leaf m' pt va.
Proof.
  intros H. unfold leaf. rewrite (table_of_ext m m') by done.
  destruct (table_of m' pt va 2); [|done]. by apply ld64_ext.
Qed.

(** * Owners of pages *)
Inductive owner :=
| OFree
| OTable (root : Z) (depth : nat) (pfx : Z)
| OData (held : Z)
| OOther.

#[export] Instance owner_eq_dec : EqDecision owner.
Proof. solve_decision. Defined.

Definition page_of (y : Z) : Z := PGSIZE * (y / PGSIZE).

Lemma page_of_in p y : p mod PGSIZE = 0 → p ≤ y < p + PGSIZE → page_of y = p.
Proof. intros. unfold page_of. dlia. Qed.

Lemma page_of_aligned p : p mod PGSIZE = 0 → page_of p = p.
Proof. intros. apply page_of_in; [done|lia]. Qed.

Lemma in_page_of y : page_of y mod PGSIZE = 0 ∧ page_of y ≤ y < page_of y + PGSIZE.
Proof. unfold page_of. dlia. Qed.

(** Two kernel states with the same contents. *)
#[export] Instance kmem_equiv : Equiv kmem := λ s s',
  (∀ x, memory s x = memory s' x) ∧ freelist s = freelist s' ∧ (∀ i, refcount s i = refcount s' i).

#[export] Instance kmem_equivalence : Equivalence (≡@{kmem}).
Proof.
  split.
  - by intros s.
  - intros s t (H1 & H2 & H3). split; [|split]; congruence.
  - intros s t u (H1 & H2 & H3) (H4 & H5 & H6). split; [|split]; congruence.
Qed.

(** References that the kernel itself may hold to a page. *)
Abbreviation MAXHELD := (2^30) (only parsing).

Section spec.
Context `{KI : KernelImage}.

(** The entries that map page [p]: pairs of a root and a virtual page number. *)
Definition maps (m : mem) (roots : Z → Prop) (p : Z) (x : Z * Z) : Prop :=
  roots x.1 ∧ 0 ≤ x.2 < 2^26 ∧
  has (leaf m x.1 (x.2 * PGSIZE)) PTE_V = true ∧ PTE2PA (leaf m x.1 (x.2 * PGSIZE)) = p.

(** [n] entries map page [p]. *)
Definition mapped_times (m : mem) (roots : Z → Prop) (p n : Z) : Prop :=
  ∃ L, NoDup L ∧ (∀ x, x ∈ L ↔ maps m roots p x) ∧ n = Z.of_nat (length L).

Record vm_inv (s : kmem) (own : Z → owner) (roots : Z → Prop) : Prop := {
  vi_free : ∃ free, kmem_ok s free ∧ ∀ p, p ∈ free ↔ own p = OFree;
  vi_table : ∀ p r d x, own p = OTable r d x → is_page p ∧ refcount s (p / PGSIZE) = 1;
  vi_data : ∀ p e, own p = OData e →
    is_page p ∧ ∃ n, mapped_times (memory s) roots p n ∧ refcount s (p / PGSIZE) = n + e;
  vi_other : ∀ p, own p = OOther → ¬ is_page p;
  vi_tree : ∀ r va d t, roots r → 0 ≤ va < MAXVA → (d ≤ 2)%nat →
    table_of (memory s) r va d = Some t → own t = OTable r d (prefix d va);
  vi_inner : ∀ r va d t, roots r → 0 ≤ va < MAXVA → (d < 2)%nat →
    table_of (memory s) r va d = Some t →
    let e := ld64 (memory s) (t + 8 * PX (2 - Z.of_nat d) va) in
    has e PTE_V = true → PTE_FLAGS e = PTE_V;
  vi_leaf : ∀ r va, roots r → 0 ≤ va < MAXVA → has (leaf (memory s) r va) PTE_V = true →
    (∃ e, own (PTE2PA (leaf (memory s) r va)) = OData e) ∨
    own (PTE2PA (leaf (memory s) r va)) = OOther
}.

(** ** Reading *)
Lemma walk_loop_false s pt va d t : (d ≤ 2)%nat →
  table_of (memory s) pt va d = Some t →
  walk_loop (2 - d) t va false s =
  Done (match table_of (memory s) pt va 2 with Some t => t + 8 * PX 0 va | None => 0 end, s).
Proof.
  intros Hd Ht. remember (2 - d)%nat as l eqn:El. revert d t Hd Ht El.
  induction l as [|l IH]; intros d t Hd Ht El.
  - assert (d = 2%nat) as -> by lia. by rewrite Ht.
  - cbn [walk_loop]. unfold bind, load64, gets.
    replace (Z.of_nat (S l)) with (2 - Z.of_nat d) by lia.
    pose proof (table_of_S (memory s) pt va d) as HS. rewrite Ht in HS. cbv zeta in HS.
    destruct (has (ld64 (memory s) (t + 8 * PX (2 - Z.of_nat d) va)) PTE_V) eqn:E.
    + apply IH with (d := S d); [lia|done|lia].
    + cbn [negb]. assert (table_of (memory s) pt va 2 = None) as ->; [|done].
      assert (d = 0 ∨ d = 1)%nat as [-> | ->] by lia; [|done].
      by rewrite table_of_S, HS.
Qed.

Lemma walk_false_run s pt va : va < MAXVA →
  walk pt va false s =
  Done (match table_of (memory s) pt va 2 with Some t => t + 8 * PX 0 va | None => 0 end, s).
Proof.
  intros. unfold walk. rewrite (proj2 (Z.leb_gt MAXVA va)) by lia.
  by apply (walk_loop_false s pt va 0 pt); [lia|].
Qed.

(** A table that is reached is a page, so entry addresses are not null. *)
Lemma entry_nonzero s own roots pt va t :
  vm_inv s own roots → roots pt → 0 ≤ va < MAXVA → table_of (memory s) pt va 2 = Some t →
  (t + 8 * PX 0 va =? 0) = false.
Proof.
  intros H Hr Hv Ht. destruct (vi_table _ _ _ H t pt 2 (prefix 2 va)) as [(_ & ? & _) _].
  { by eapply vi_tree. }
  pose proof kend_range. pose proof (PX_range 0 va). lia.
Qed.

(** walkaddr returns the physical page that a valid user-accessible entry
    maps, and 0 for every other address, without changing anything. *)
Lemma walkaddr_run s own roots pt va :
  vm_inv s own roots → roots pt → 0 ≤ va →
  walkaddr pt va s =
  Done (if (va <? MAXVA) && has (leaf (memory s) pt va) PTE_V && has (leaf (memory s) pt va) PTE_U
        then PTE2PA (leaf (memory s) pt va) else 0, s).
Proof.
  intros H Hr Hv. unfold walkaddr. destruct (Z.leb_spec MAXVA va) as [?|?].
  { by rewrite (proj2 (Z.ltb_ge va MAXVA)) by lia. }
  rewrite (proj2 (Z.ltb_lt va MAXVA)) by lia.
  unfold bind. rewrite walk_false_run by lia. unfold leaf.
  destruct (table_of (memory s) pt va 2) as [t|] eqn:Et; [|done].
  rewrite (entry_nonzero s own roots pt va t) by (done || lia).
  unfold load64, gets. cbn [andb].
  destruct (has (ld64 _ _) PTE_V); [|done]. by destruct (has (ld64 _ _) PTE_U).
Qed.

(** ** Counting *)
Lemma mapped_times_ext m m' roots p n :
  (∀ x, maps m' roots p x ↔ maps m roots p x) →
  mapped_times m roots p n → mapped_times m' roots p n.
Proof. intros H (L & Hn & Hx & ->). exists L. split; [done|]. split; [|done]. intros x. by rewrite H. Qed.

Lemma mapped_times_none m roots p : (∀ x, ¬ maps m roots p x) → mapped_times m roots p 0.
Proof. intros H. exists []. split; [constructor|]. split; [set_solver|done]. Qed.

Lemma mapped_times_zero m roots p x : mapped_times m roots p 0 → ¬ maps m roots p x.
Proof. intros (L & _ & Hx & Hl). destruct L; [|done]. rewrite <-Hx. set_solver. Qed.

Lemma mapped_times_nonneg m roots p n : mapped_times m roots p n → 0 ≤ n.
Proof. intros (L & _ & _ & ->). lia. Qed.

Lemma mapped_times_add m m' roots p n x0 :
  ¬ maps m roots p x0 → (∀ x, maps m' roots p x ↔ x = x0 ∨ maps m roots p x) →
  mapped_times m roots p n → mapped_times m' roots p (n + 1).
Proof.
  intros H0 H (L & Hn & Hx & ->). exists (x0 :: L). split; [|split].
  - constructor; [by rewrite Hx|done].
  - intros x. by rewrite elem_of_cons, H, Hx.
  - cbn [length]. lia.
Qed.

Lemma mapped_times_del m m' roots p n x0 :
  maps m roots p x0 → (∀ x, maps m' roots p x ↔ x ≠ x0 ∧ maps m roots p x) →
  mapped_times m roots p n → mapped_times m' roots p (n - 1).
Proof.
  intros H0 H (L & Hn & Hx & ->). apply Hx in H0 as HL.
  apply list_elem_of_split in HL as (L1 & L2 & ->). exists (L1 ++ L2).
  apply NoDup_app in Hn as (Hn1 & Hn2 & [Hn3 Hn4]%NoDup_cons). split; [|split].
  - apply NoDup_app. set_solver.
  - intros x. rewrite H, <-Hx. set_unfold.
    split; [|naive_solver]. intros [Hin|Hin]; (split; [|tauto]); intros ->; naive_solver.
  - rewrite !length_app. cbn [length]. lia.
Qed.

(** ** Frames *)
Lemma table_of_frame s own roots m' :
  vm_inv s own roots →
  (∀ t r d x, own t = OTable r d x → (d < 2)%nat → ∀ y, t ≤ y < t + PGSIZE → m' y = memory s y) →
  ∀ r va d, roots r → 0 ≤ va < MAXVA → (d ≤ 2)%nat → table_of m' r va d = table_of (memory s) r va d.
Proof.
  intros H Hf r va d Hr Hv. induction d as [|d IH]; intros Hd; [done|].
  rewrite !table_of_S, IH by lia.
  destruct (table_of (memory s) r va d) as [t|] eqn:Et; [|done].
  assert (ld64 m' (t + 8 * PX (2 - Z.of_nat d) va) =
          ld64 (memory s) (t + 8 * PX (2 - Z.of_nat d) va)) as ->; [|done].
  apply ld64_ext. intros y Hy. pose proof (PX_range (2 - Z.of_nat d) va ltac:(lia)).
  eapply Hf; [by apply (vi_tree _ _ _ H r va d); [| |lia|]|lia|lia].
Qed.

Lemma leaf_frame s own roots m' :
  vm_inv s own roots →
  (∀ t r d x, own t = OTable r d x → ∀ y, t ≤ y < t + PGSIZE → m' y = memory s y) →
  ∀ r va, roots r → 0 ≤ va < MAXVA → leaf m' r va = leaf (memory s) r va.
Proof.
  intros H Hf r va Hr Hv. unfold leaf.
  rewrite (table_of_frame s own roots m' H) by (lia || done || (intros; by eapply Hf)).
  destruct (table_of (memory s) r va 2) as [t|] eqn:Et; [|done].
  apply ld64_ext. intros y Hy. pose proof (PX_range 0 va ltac:(lia)).
  eapply Hf; [by apply (vi_tree _ _ _ H r va 2); [| |lia|]|lia].
Qed.

Lemma maps_leaf_ext m m' roots p x :
  (∀ r va, roots r → 0 ≤ va < MAXVA → leaf m' r va = leaf m r va) →
  maps m' roots p x ↔ maps m roots p x.
Proof.
  intros H. unfold maps. split; intros (Hr & Hv & ?); (split; [done|split; [done|]]).
  - by rewrite H in * by (done || lia).
  - by rewrite H by (done || lia).
Qed.

Definition is_table (o : owner) : bool := match o with OTable _ _ _ => true | _ => false end.

(** Memory may change anywhere but on page-table pages and free pages. *)
Lemma vm_write s own roots m' :
  vm_inv s own roots → mem_ok m' →
  (∀ y, is_table (own (page_of y)) = true ∨ own (page_of y) = OFree → m' y = memory s y) →
  vm_inv (set_memory m' s) own roots ∧
  ∀ r va, roots r → 0 ≤ va < MAXVA → leaf m' r va = leaf (memory s) r va.
Proof.
  intros H Hm Hy. destruct (vi_free _ _ _ H) as (free & Hok & Hfree).
  assert (∀ t r d x, own t = OTable r d x → ∀ y, t ≤ y < t + PGSIZE → m' y = memory s y) as Hf.
  { intros t r d x Ht y Hyt. apply Hy. left. destruct (vi_table _ _ _ H _ _ _ _ Ht) as [[Ha _] _].
    by rewrite (page_of_in t y), Ht. }
  pose proof (leaf_frame s own roots m' H Hf) as Hleaf.
  pose proof (table_of_frame s own roots m' H (λ t r d x E _, Hf t r d x E)) as Htab.
  split; [|done]. split; cbn [memory set_memory refcount].
  - exists free. split; [|done]. apply kmem_ok_write; [done..|]. intros p Hp x Hx.
    apply Hy. right. destruct (fl_free _ _ (ko_fl _ _ Hok) p Hp) as [[Ha _] _].
    rewrite (page_of_in p x) by done. by apply Hfree.
  - apply H.
  - intros p e Hp. destruct (vi_data _ _ _ H p e Hp) as (? & n & Hn & ?).
    split; [done|]. exists n. split; [|done].
    eapply mapped_times_ext; [|exact Hn]. intros x. by apply maps_leaf_ext.
  - apply H.
  - intros r va d t Hr Hv Hd. rewrite Htab by done. by apply H.
  - intros r va d t Hr Hv Hd Ht. rewrite Htab in Ht by (done || lia).
    pose proof (PX_range (2 - Z.of_nat d) va ltac:(lia)).
    rewrite (ld64_ext m' (memory s)); [by eapply vi_inner|].
    intros y Hyt. eapply Hf; [by apply (vi_tree _ _ _ H r va d); [| |lia|]|lia].
  - intros r va Hr Hv. rewrite Hleaf by done. by apply H.
Qed.

(** ** Storing a level-0 entry *)

(** The pages an address range inside one table does not meet. *)
Lemma entry_in_table t i y : 0 ≤ i < 512 → t + 8 * i ≤ y < t + 8 * i + 8 → t ≤ y < t + PGSIZE.
Proof. lia. Qed.

Lemma st64_entry_frame t i v m y : t mod PGSIZE = 0 → 0 ≤ i < 512 → page_of y ≠ t →
  st64 m (t + 8 * i) v y = m y.
Proof.
  intros Ht Hi Hy. apply st64_other. destruct (in_page_of y) as [Ha Hb].
  destruct (page_apart (page_of y) t); [done..|lia|lia].
Qed.

Lemma ld64_entry_frame t i v m a : t mod PGSIZE = 0 → 0 ≤ i < 512 →
  (∀ y, a ≤ y < a + 8 → page_of y ≠ t) → ld64 (st64 m (t + 8 * i) v) a = ld64 m a.
Proof. intros. apply ld64_ext. intros. apply st64_entry_frame; auto. Qed.

(** Storing [v] into the entry of [va] in the tree of [pt] changes the
    abstract page table of [pt] at the page of [va] and nothing else. *)
Lemma leaf_store s own roots pt va t v :
  vm_inv s own roots → roots pt → 0 ≤ va < MAXVA → table_of (memory s) pt va 2 = Some t →
  0 ≤ v < 2^64 →
  let m' := st64 (memory s) (t + 8 * PX 0 va) v in
  (∀ r vb d, roots r → 0 ≤ vb < MAXVA → (d ≤ 2)%nat → table_of m' r vb d = table_of (memory s) r vb d) ∧
  (∀ r vb, roots r → 0 ≤ vb < MAXVA →
     leaf m' r vb = if decide (r = pt ∧ vb / PGSIZE = va / PGSIZE) then v else leaf (memory s) r vb).
Proof.
  intros H Hr Hv Ht Hv64 m'.
  pose proof (vi_tree _ _ _ H pt va 2 t Hr Hv ltac:(lia) Ht) as Hot.
  destruct (vi_table _ _ _ H _ _ _ _ Hot) as [[Hta _] _].
  pose proof (PX_range 0 va ltac:(lia)) as HPX.
  assert (∀ r vb d, roots r → 0 ≤ vb < MAXVA → (d ≤ 2)%nat →
          table_of m' r vb d = table_of (memory s) r vb d) as Htab.
  { apply (table_of_frame s own roots m' H). intros t' r' d' x' Ht' Hd' y Hy.
    destruct (vi_table _ _ _ H _ _ _ _ Ht') as [[Ha' _] _].
    apply st64_entry_frame; [done..|]. rewrite (page_of_in t' y) by done.
    intros ->. rewrite Hot in Ht'. injection Ht' as _ <- _. lia. }
  split; [done|]. intros r vb Hr' Hvb. unfold leaf. rewrite Htab by (done || lia).
  destruct (table_of (memory s) r vb 2) as [t'|] eqn:Et'.
  - pose proof (vi_tree _ _ _ H r vb 2 t' Hr' Hvb ltac:(lia) Et') as Hot'.
    destruct (vi_table _ _ _ H _ _ _ _ Hot') as [[Hta' _] _].
    pose proof (PX_range 0 vb ltac:(lia)).
    destruct (decide (t' = t)) as [->|Hne].
    + rewrite Hot in Hot'. injection Hot' as <- Epf.
      destruct (decide (PX 0 vb = PX 0 va)) as [E0|N0].
      * rewrite decide_True.
        -- rewrite E0. by apply ld64_st64_same.
        -- split; [done|]. rewrite <-!prefix_3. by apply prefix_S_eq; [lia|symmetry|].
      * rewrite decide_False.
        -- apply ld64_st64_other. lia.
        -- intros [_ E]. rewrite <-!prefix_3 in E. apply prefix_mono in E as [_ E]; [|lia].
           by apply N0.
    + rewrite decide_False.
      * apply ld64_entry_frame; [done..|]. intros y Hy.
        by rewrite (page_of_in t' y) by (done || lia).
      * intros [-> E]. rewrite <-!prefix_3 in E. apply prefix_mono in E as [E _]; [|lia].
        rewrite (table_of_prefix _ pt vb va 2) in Et' by (lia || done). congruence.
  - rewrite decide_False; [done|]. intros [-> E]. rewrite <-!prefix_3 in E.
    apply prefix_mono in E as [E _]; [|lia].
    rewrite (table_of_prefix _ pt vb va 2) in Et' by (lia || done). congruence.
Qed.

Lemma maps_store m m' roots pt va v p x :
  roots pt → 0 ≤ va < MAXVA →
  (∀ r vb, roots r → 0 ≤ vb < MAXVA →
     leaf m' r vb = if decide (r = pt ∧ vb / PGSIZE = va / PGSIZE) then v else leaf m r vb) →
  maps m' roots p x ↔
  (x = (pt, va / PGSIZE) ∧ has v PTE_V = true ∧ PTE2PA v = p) ∨
  (x ≠ (pt, va / PGSIZE) ∧ maps m roots p x).
Proof.
  intros Hr Hv Hl. destruct x as [r n]. unfold maps. cbn [fst snd].
  assert (Hn : roots r → 0 ≤ n < 2^26 → leaf m' r (n * PGSIZE) =
    if decide ((r, n) = (pt, va / PGSIZE)) then v else leaf m r (n * PGSIZE)).
  { intros ? ?. rewrite Hl by (done || lia). rewrite Z.div_mul by done.
    repeat case_decide; naive_solver. }
  split.
  - intros (? & ? & Ha). rewrite Hn in Ha by done. case_decide; naive_solver.
  - intros [(E & Hx)|(Hne & ? & ? & Hx)].
    + injection E as -> ->. assert (0 ≤ va / PGSIZE < 2^26) by dlia.
      split; [done|]. split; [done|]. rewrite Hn, decide_True by done. done.
    + split; [done|]. split; [done|]. by rewrite Hn, decide_False by done.
Qed.

Lemma vm_store_leaf s own own' roots pt va t v :
  vm_inv s own roots → roots pt → 0 ≤ va < MAXVA → table_of (memory s) pt va 2 = Some t →
  0 ≤ v < 2^64 →
  (∀ p, own' p = own p ∨ ∃ e e', own p = OData e ∧ own' p = OData e') →
  let m' := st64 (memory s) (t + 8 * PX 0 va) v in
  (∀ p e, own' p = OData e →
     ∃ n, mapped_times m' roots p n ∧ refcount s (p / PGSIZE) = n + e) →
  (has v PTE_V = true → (∃ e, own' (PTE2PA v) = OData e) ∨ own' (PTE2PA v) = OOther) →
  vm_inv (set_memory m' s) own' roots.
Proof.
  intros H Hr Hv Ht Hv64 Hown m' Hcount Htarget.
  destruct (leaf_store s own roots pt va t v H Hr Hv Ht Hv64) as [Htab Hleaf].
  fold m' in Htab, Hleaf.
  pose proof (vi_tree _ _ _ H pt va 2 t Hr Hv ltac:(lia) Ht) as Hot.
  destruct (vi_table _ _ _ H _ _ _ _ Hot) as [[Hta _] _].
  pose proof (PX_range 0 va ltac:(lia)) as HPX.
  assert (Hsame : ∀ p o, (∀ e, o ≠ OData e) → own' p = o ↔ own p = o).
  { intros p o Ho. destruct (Hown p) as [->|(e & e' & -> & ->)]; [done|]. naive_solver. }
  destruct (vi_free _ _ _ H) as (free & Hok & Hfree).
  split; cbn [memory set_memory refcount].
  - exists free. split.
    + apply kmem_ok_write; [done|apply stn_ok, Hok|]. intros p Hp x Hx.
      destruct (fl_free _ _ (ko_fl _ _ Hok) p Hp) as [[Ha _] _].
      apply st64_entry_frame; [done..|]. rewrite (page_of_in p x) by done.
      apply Hfree in Hp. congruence.
    + intros p. rewrite Hfree. by rewrite Hsame.
  - intros p r d x Hp. rewrite Hsame in Hp by done. by apply (vi_table _ _ _ H _ _ _ _ Hp).
  - intros p e Hp. split; [|by apply Hcount].
    destruct (Hown p) as [E|(e1 & e' & E & _)].
    + rewrite E in Hp. by destruct (vi_data _ _ _ H _ _ Hp).
    + by destruct (vi_data _ _ _ H _ _ E).
  - intros p Hp. apply (vi_other _ _ _ H). by rewrite Hsame in Hp.
  - intros r vb d t' Hr' Hvb Hd. rewrite Htab, Hsame by done. by apply H.
  - intros r vb d t' Hr' Hvb Hd Ht'. rewrite Htab in Ht' by (done || lia).
    pose proof (PX_range (2 - Z.of_nat d) vb ltac:(lia)).
    pose proof (vi_tree _ _ _ H r vb d t' Hr' Hvb ltac:(lia) Ht') as Hot'.
    destruct (vi_table _ _ _ H _ _ _ _ Hot') as [[Hta' _] _].
    unfold m'. rewrite ld64_entry_frame; [by apply (vi_inner _ _ _ H r vb d t')|done..|].
    intros y Hy. rewrite (page_of_in t' y) by (done || lia). intros ->.
    rewrite Hot in Hot'. injection Hot'. lia.
  - intros r vb Hr' Hvb. rewrite Hleaf by done. case_decide; [done|]. intros Hval.
    destruct (vi_leaf _ _ _ H r vb Hr' Hvb Hval) as [[e Hd]|Ho].
    + left. destruct (Hown (PTE2PA (leaf (memory s) r vb))) as [->|(? & ? & _ & ->)]; eauto.
    + right. by apply Hsame.
Qed.

(** Whether the entry of [va] is among those that map [p]. *)
Lemma maps_at m roots p pt va : roots pt → 0 ≤ va < MAXVA →
  maps m roots p (pt, va / PGSIZE) ↔ has (leaf m pt va) PTE_V = true ∧ PTE2PA (leaf m pt va) = p.
Proof.
  intros Hr Hv. unfold maps. cbn [fst snd]. rewrite (leaf_page _ pt (va / PGSIZE * PGSIZE) va).
  - assert (0 ≤ va / PGSIZE < 2^26) by dlia. tauto.
  - by rewrite Z.div_mul.
Qed.

(** The ways the code changes an entry. *)
Section entry_changes.
Context (s : kmem) (own : Z → owner) (roots : Z → Prop) (pt va t v : Z).
Context (H : vm_inv s own roots) (Hr : roots pt) (Hv : 0 ≤ va < MAXVA).
Context (Ht : table_of (memory s) pt va 2 = Some t) (Hv64 : 0 ≤ v < 2^64).
Let m' := st64 (memory s) (t + 8 * PX 0 va) v.
Let w := leaf (memory s) pt va.

Lemma entry_leaf r vb : roots r → 0 ≤ vb < MAXVA →
  leaf m' r vb = if decide (r = pt ∧ vb / PGSIZE = va / PGSIZE) then v else leaf (memory s) r vb.
Proof. destruct (leaf_store s own roots pt va t v H Hr Hv Ht Hv64) as [_ Hl]. apply Hl. Qed.

Lemma entry_maps_old p : maps (memory s) roots p (pt, va / PGSIZE) ↔ has w PTE_V = true ∧ PTE2PA w = p.
Proof using Hr Hv. by apply maps_at. Qed.

Lemma entry_maps p x : maps m' roots p x ↔
  (x = (pt, va / PGSIZE) ∧ has v PTE_V = true ∧ PTE2PA v = p) ∨
  (x ≠ (pt, va / PGSIZE) ∧ maps (memory s) roots p x).
Proof. apply maps_store; [done..|]. apply entry_leaf. Qed.

(** A page whose mappings the store does not touch. *)
Lemma entry_count_other p n :
  ¬ (has v PTE_V = true ∧ PTE2PA v = p) → ¬ (has w PTE_V = true ∧ PTE2PA w = p) →
  mapped_times (memory s) roots p n → mapped_times m' roots p n.
Proof.
  intros Hnv Hnw. apply mapped_times_ext. intros x. rewrite entry_maps.
  rewrite <-entry_maps_old in Hnw. split; [naive_solver|].
  intros Hm. right. split; [|done]. by intros ->.
Qed.

Lemma data_count p e : own p = OData e →
  ∃ n, mapped_times (memory s) roots p n ∧ refcount s (p / PGSIZE) = n + e.
Proof. intros Hp. by destruct (vi_data _ _ _ H p e Hp). Qed.

(** An invalid entry becomes a mapping of a page the kernel holds. *)
Lemma vm_map pa e :
  has w PTE_V = false → has v PTE_V = true → PTE2PA v = pa → own pa = OData e →
  vm_inv (set_memory m' s) (fupd own pa (OData (e - 1))) roots.
Proof.
  intros Hw Hval Hpa He. apply (vm_store_leaf s own _ roots pt va t v); try done.
  - intros p. rewrite fupd_spec. case_decide; [right|by left]. subst. eauto.
  - intros p e'. rewrite fupd_spec. case_decide as E; intros Hp.
    + injection Hp as <-. subst p. destruct (data_count _ _ He) as (n & Hn & Hrc).
      exists (n + 1). split; [|lia].
      apply (mapped_times_add (memory s) m' roots _ n (pt, va / PGSIZE)); [|intros x; rewrite entry_maps|exact Hn].
      * rewrite entry_maps_old. rewrite Hw. naive_solver.
      * rewrite <-Hpa. split; [naive_solver|]. intros [->|Hx]; [naive_solver|].
        right. split; [|done]. intros ->. apply entry_maps_old in Hx. naive_solver congruence.
    + destruct (data_count _ _ Hp) as (n & Hn & Hrc). exists n.
      split; [|done]. apply entry_count_other; naive_solver congruence.
  - intros _. left. rewrite Hpa. exists (e - 1). by rewrite fupd_eq.
Qed.

(** A mapping of a data page is removed: the kernel now holds that reference. *)
Lemma vm_unmap pa e :
  has w PTE_V = true → PTE2PA w = pa → has v PTE_V = false → own pa = OData e →
  vm_inv (set_memory m' s) (fupd own pa (OData (e + 1))) roots.
Proof.
  intros Hw Hpa Hval He. apply (vm_store_leaf s own _ roots pt va t v); try done.
  - intros p. rewrite fupd_spec. case_decide; [right|by left]. subst. eauto.
  - intros p e'. rewrite fupd_spec. case_decide as E; intros Hp.
    + injection Hp as <-. subst p. destruct (data_count _ _ He) as (n & Hn & Hrc).
      exists (n - 1). split; [|lia].
      apply (mapped_times_del (memory s) m' roots _ n (pt, va / PGSIZE)); [|intros x; rewrite entry_maps|exact Hn].
      * by rewrite entry_maps_old.
      * rewrite Hval. naive_solver.
    + destruct (data_count _ _ Hp) as (n & Hn & Hrc). exists n.
      split; [|done]. apply entry_count_other; naive_solver congruence.
  - by rewrite Hval.
Qed.

(** Only the flags of a mapping change, or the page is not the allocator's. *)
Lemma vm_reflag :
  (has v PTE_V = true → PTE2PA v = PTE2PA w ∨ own (PTE2PA v) = OOther) →
  (has w PTE_V = true → has v PTE_V = true ∧ PTE2PA v = PTE2PA w ∨ own (PTE2PA w) = OOther) →
  (has v PTE_V = true → has w PTE_V = true ∨ own (PTE2PA v) = OOther) →
  vm_inv (set_memory m' s) own roots.
Proof.
  intros H1 H2 H3. apply (vm_store_leaf s own _ roots pt va t v); try done.
  - intros p. by left.
  - intros p e Hp. destruct (data_count _ _ Hp) as (n & Hn & Hrc).
    exists n. split; [|done]. revert Hn. apply (mapped_times_ext (memory s) m'). intros x. rewrite entry_maps.
    split.
    + intros [(-> & Hvv & Hvp)|[_ ?]]; [|done]. apply entry_maps_old.
      destruct (H3 Hvv) as [Hw|?]; [|congruence]. split; [done|].
      destruct (H1 Hvv); congruence.
    + intros Hm. destruct (decide (x = (pt, va / PGSIZE))) as [->|]; [|by right].
      apply entry_maps_old in Hm as [Hw Hwp]. left. split; [done|].
      destruct (H2 Hw) as [[? ?]|?]; [|congruence]. split; [done|congruence].
  - intros Hval. destruct (H3 Hval) as [Hw|?]; [|by right].
    destruct (H1 Hval) as [->|?]; [|by right].
    by apply (vi_leaf _ _ _ H pt va).
Qed.

End entry_changes.

(** ** Changing the owner of one page that is not a table *)
Definition page_bytes_same (p : Z) (m m' : mem) : Prop := ∀ y, page_of y ≠ p → m' y = m y.

Lemma vm_change_page s s' own roots p o :
  vm_inv s own roots → is_page p → is_table (own p) = false →
  page_bytes_same p (memory s) (memory s') →
  (∀ q, is_page q → q ≠ p → refcount s' (q / PGSIZE) = refcount s (q / PGSIZE)) →
  (∃ free', kmem_ok s' free' ∧ ∀ q, q ∈ free' ↔ fupd own p o q = OFree) →
  match o with
  | OFree => mapped_times (memory s) roots p 0
  | OData e => ∃ n, mapped_times (memory s) roots p n ∧ refcount s' (p / PGSIZE) = n + e
  | _ => False
  end →
  vm_inv s' (fupd own p o) roots ∧
  (∀ r va, roots r → 0 ≤ va < MAXVA → leaf (memory s') r va = leaf (memory s) r va).
Proof.
  intros H Hp Hnt Hm Hrc Hfree Ho.
  assert (∀ t r d x, own t = OTable r d x → ∀ y, t ≤ y < t + PGSIZE → memory s' y = memory s y) as Hf.
  { intros t r d x Ht y Hyt. destruct (vi_table _ _ _ H _ _ _ _ Ht) as [[Ha _] _].
    apply Hm. rewrite (page_of_in t y) by done. intros ->. by rewrite Ht in Hnt. }
  pose proof (leaf_frame s own roots (memory s') H Hf) as Hleaf.
  pose proof (table_of_frame s own roots (memory s') H (λ t r d x E _, Hf t r d x E)) as Htab.
  assert (Hne : ∀ q r d x, own q = OTable r d x → q ≠ p) by (intros q r d x E ->; by rewrite E in Hnt).
  split; [|done]. split.
  - done.
  - intros q r d x. rewrite fupd_spec. case_decide as E; [by intros ->|]. intros Hq.
    destruct (vi_table _ _ _ H _ _ _ _ Hq). split; [done|]. by rewrite Hrc.
  - intros q e. rewrite fupd_spec. case_decide as E; intros Hq.
    + subst. split; [done|]. destruct Ho as (n & Hn & ?).
      exists n. split; [|done]. revert Hn. apply mapped_times_ext. intros x. by apply maps_leaf_ext.
    + destruct (vi_data _ _ _ H _ _ Hq) as (Hqp & n & Hn & Hrq). split; [done|].
      exists n. rewrite Hrc by done. split; [|done]. revert Hn.
      apply mapped_times_ext. intros x. by apply maps_leaf_ext.
  - intros q. rewrite fupd_spec. case_decide; [by intros ->|]. apply H.
  - intros r va d t Hr Hv Hd. rewrite Htab by done. intros Ht.
    pose proof (vi_tree _ _ _ H r va d t Hr Hv Hd Ht) as Hot.
    rewrite fupd_ne; [done|]. by eapply Hne.
  - intros r va d t Hr Hv Hd Ht. rewrite Htab in Ht by (done || lia).
    pose proof (PX_range (2 - Z.of_nat d) va ltac:(lia)).
    pose proof (vi_tree _ _ _ H r va d t Hr Hv ltac:(lia) Ht) as Hot.
    rewrite (ld64_ext (memory s') (memory s)); [by apply (vi_inner _ _ _ H r va d t)|].
    intros y Hy. eapply Hf; [exact Hot|lia].
  - intros r va Hr Hv. rewrite Hleaf by done. intros Hval. rewrite fupd_spec.
    case_decide as E; [|by apply H]. destruct o; try done; [|by left; eauto].
    exfalso. apply (mapped_times_zero _ _ _ (r, va / PGSIZE) Ho).
    by apply maps_at.
Qed.

(** The invariant does not tell states with the same contents apart. *)
Lemma kmem_ok_equiv s s' free : s ≡ s' → kmem_ok s free → kmem_ok s' free.
Proof.
  intros (Hm & Hfl & Hrc) Hok. destruct s as [m f c], s' as [m' f' c']. cbn in *. subst f'.
  assert (H1 : kmem_ok (set_memory m' (mkKmem m f c)) free).
  { apply kmem_ok_write; [done| |done]. intros x. rewrite <-Hm. apply (fl_mem _ _ (ko_fl _ _ Hok)). }
  destruct H1 as [[Hch Hnd Hfr Href Hmo] Hall]. cbn in *. split; [split|]; cbn; [done|done| | |done|].
  - intros p. rewrite <-Hrc. apply Hfr.
  - intros i. rewrite <-Hrc. apply Href.
  - intros p. rewrite <-Hrc. apply Hall.
Qed.

#[export] Instance vm_inv_proper :
  Proper ((≡) ==> pointwise_relation Z (=) ==> (=) ==> impl) vm_inv.
Proof.
  intros s s' E own own' Eo roots _ <- H. pose proof E as (Hm & _ & Hrc).
  assert (Hl : ∀ r va, roots r → 0 ≤ va < MAXVA → leaf (memory s') r va = leaf (memory s) r va)
    by (intros; by apply leaf_ext).
  split.
  - destruct (vi_free _ _ _ H) as (free & Hok & Hf). exists free.
    split; [by eapply kmem_ok_equiv|]. intros p. by rewrite Hf, Eo.
  - intros p r d x. rewrite <-Eo, <-Hrc. apply H.
  - intros p e. rewrite <-Eo, <-Hrc. intros (? & n & Hn & ?)%(vi_data _ _ _ H).
    split; [done|]. exists n. split; [|done]. revert Hn.
    apply mapped_times_ext. intros x. by apply maps_leaf_ext.
  - intros p. rewrite <-Eo. apply H.
  - intros r va d t. rewrite <-Eo, <-(table_of_ext (memory s)) by done. apply H.
  - intros r va d t Hr Hv Hd. rewrite <-(table_of_ext (memory s)), <-(ld64_ext (memory s)) by done.
    by apply H.
  - intros r va Hr Hv. rewrite Hl, <-!Eo by done. by apply H.
Qed.

(** kalloc, on the invariant. *)
Lemma vm_kalloc s own roots :
  vm_inv s own roots →
  (kalloc s = Done (0, s) ∧ ∀ p, own p ≠ OFree) ∨
  ∃ p, own p = OFree ∧ is_page p ∧ kalloc s = Done (p, allocated p s) ∧
       mapped_times (memory s) roots p 0 ∧
       vm_inv (allocated p s) (fupd own p (OData 1)) roots ∧
       (∀ r va, roots r → 0 ≤ va < MAXVA →
          leaf (memory (allocated p s)) r va = leaf (memory s) r va).
Proof.
  intros H. destruct (vi_free _ _ _ H) as (free & Hok & Hfree).
  rewrite (kalloc_run s free (ko_fl _ _ Hok)). destruct free as [|p free].
  - left. split; [done|]. intros p Hp. apply Hfree in Hp. set_solver.
  - right. exists p. assert (Hpf : own p = OFree) by (apply Hfree; set_solver).
    destruct (fl_free _ _ (ko_fl _ _ Hok) p) as [Hp Hr0]; [set_solver|].
    assert (Hz : mapped_times (memory s) roots p 0).
    { apply mapped_times_none. intros [r n] (Hr & Hn & Hval & Hpa). cbn [fst snd] in *.
      destruct (vi_leaf _ _ _ H r (n * PGSIZE)) as [[e He]|He]; [done|lia|done|..]; congruence. }
    split; [done|]. split; [done|]. split; [done|]. split; [done|].
    apply vm_change_page; [done..| | | | |]; cbn [allocated memory refcount].
    + by rewrite Hpf.
    + intros y Hy. rewrite memset_spec. case_decide; [|done].
      exfalso. apply Hy. apply page_of_in; [apply Hp|lia].
    + intros q Hq Hne. apply fupd_ne. by intros E%page_idx_inj.
    + exists free. split; [by apply allocated_ok|]. intros q.
      pose proof (fl_nodup _ _ (ko_fl _ _ Hok)) as [Hnin _]%NoDup_cons.
      rewrite fupd_spec. case_decide as E; [subst; split; done|].
      rewrite <-Hfree. set_solver.
    + exists 0. split; [done|]. by rewrite fupd_eq.
Qed.

Lemma in_use s own roots p e : vm_inv s own roots → own p = OData e → 0 < refcount s (p / PGSIZE).
Proof.
  intros H He. destruct (vi_data _ _ _ H p e He) as (Hp & _).
  destruct (vi_free _ _ _ H) as (free & Hok & Hfree).
  pose proof (proj1 (fl_ref _ _ (ko_fl _ _ Hok) (p / PGSIZE))).
  assert (refcount s (p / PGSIZE) ≠ 0); [|lia].
  intros E. apply (ko_all _ _ Hok p Hp), Hfree in E. congruence.
Qed.

(** Dropping a reference the kernel holds. *)
Definition own_dropped (s : kmem) (own : Z → owner) (p e : Z) : Z → owner :=
  fupd own p (if 1 <? refcount s (p / PGSIZE) then OData (e - 1) else OFree).

Lemma dropped_other p s y : p mod PGSIZE = 0 → page_of y ≠ p → memory (dropped p s) y = memory s y.
Proof.
  intros Hp Hy. unfold dropped. case_if; [done|]. rewrite freed_other; [done|].
  destruct (in_page_of y) as [Ha Hb]. destruct (page_apart (page_of y) p); [done..|lia|lia].
Qed.

Lemma dropped_shared p s : 1 < refcount s (p / PGSIZE) → memory (dropped p s) = memory s.
Proof. intros H. unfold dropped. by rewrite (proj2 (Z.ltb_lt _ _) H). Qed.

Lemma dropped_refcount p s i :
  refcount (dropped p s) i = if decide (i = p / PGSIZE) then refcount s i - 1 else refcount s i.
Proof.
  unfold dropped. rewrite <-(fupd_spec (refcount s) (p / PGSIZE) (refcount s i - 1) i).
  case_if; cbn [refcount freed set_refcount]; rewrite !fupd_spec; case_decide; by subst.
Qed.

Lemma vm_drop s own roots p e :
  vm_inv s own roots → own p = OData e → 1 ≤ e ∨ 1 < refcount s (p / PGSIZE) →
  ref_dec p s = Done (tt, dropped p s) ∧ kfree p s = Done (tt, dropped p s) ∧
  vm_inv (dropped p s) (own_dropped s own p e) roots ∧
  (∀ r va, roots r → 0 ≤ va < MAXVA → leaf (memory (dropped p s)) r va = leaf (memory s) r va).
Proof.
  intros H He He1. pose proof (in_use _ _ _ _ _ H He). destruct (vi_data _ _ _ H p e He) as (Hp & n & Hn & Hrc).
  pose proof (mapped_times_nonneg _ _ _ _ Hn).
  destruct (vi_free _ _ _ H) as (free & Hok & Hfree).
  split; [apply ref_dec_run; [done|lia]|]. split; [apply kfree_run; [done|lia]|].
  assert (Hpn : p ∉ free) by (rewrite Hfree; congruence).
  apply vm_change_page; [done..|by rewrite He| | | |].
  - intros y Hy. by apply dropped_other; [apply Hp|].
  - intros q Hq Hne. rewrite dropped_refcount. case_decide as E; [|done].
    by apply page_idx_inj in E.
  - exists (free_after_drop p s free). split; [apply dropped_ok; [done..|lia]|].
    intros q. unfold free_after_drop. rewrite fupd_spec. case_if.
    + rewrite Hfree. case_decide; [subst; naive_solver congruence|done].
    + rewrite elem_of_cons, Hfree. case_decide; naive_solver.
  - case_if.
    + exists n. split; [done|]. rewrite dropped_refcount, decide_True by done. lia.
    + by replace 0 with n by lia.
Qed.

(** ** Counts stay below the limit of an int *)

(** The place of the entry that maps an address is different for different
    pages of address spaces: tables are not shared. *)
Lemma entry_place_inj s own roots x y t u : vm_inv s own roots → roots x.1 → roots y.1 →
  0 ≤ x.2 < 2^26 → 0 ≤ y.2 < 2^26 →
  table_of (memory s) x.1 (x.2 * PGSIZE) 2 = Some t → table_of (memory s) y.1 (y.2 * PGSIZE) 2 = Some u →
  t + 8 * PX 0 (x.2 * PGSIZE) = u + 8 * PX 0 (y.2 * PGSIZE) → x = y.
Proof.
  intros H Hx Hy Hx2 Hy2 Ht Hu E. destruct x as [r v], y as [r' v']. cbn [fst snd] in *.
  pose proof (vi_tree _ _ _ H r (v * PGSIZE) 2 t Hx ltac:(lia) ltac:(lia) Ht) as O1.
  pose proof (vi_tree _ _ _ H r' (v' * PGSIZE) 2 u Hy ltac:(lia) ltac:(lia) Hu) as O2.
  destruct (vi_table _ _ _ H _ _ _ _ O1) as [[A1 _] _], (vi_table _ _ _ H _ _ _ _ O2) as [[A2 _] _].
  pose proof (PX_range 0 (v * PGSIZE) ltac:(lia)). pose proof (PX_range 0 (v' * PGSIZE) ltac:(lia)).
  assert (t = u) as <- by (destruct (decide (t = u)); [done|]; destruct (page_apart t u); done || lia).
  rewrite O1 in O2. injection O2 as <- Hp. f_equal.
  assert (prefix 3 (v * PGSIZE) = prefix 3 (v' * PGSIZE)) as E3 by (apply (prefix_S_eq 2); [lia|done|change (2 - Z.of_nat 2) with 0; lia]).
  rewrite !prefix_3, !Z.div_mul in E3 by lia. done.
Qed.

(** So there are at most as many mappings of a page as entries in memory. *)
Lemma mapped_bound s own roots p n : vm_inv s own roots → mapped_times (memory s) roots p n → n ≤ PHYSTOP / 8.
Proof.
  intros H (L & Hnd & HL & ->).
  set (place x := (default 0 (table_of (memory s) x.1 (x.2 * PGSIZE) 2) + 8 * PX 0 (x.2 * PGSIZE)) / 8).
  assert (∀ x, x ∈ L → ∃ t, table_of (memory s) x.1 (x.2 * PGSIZE) 2 = Some t ∧ is_page t ∧ roots x.1 ∧ 0 ≤ x.2 < 2^26) as Ht.
  { intros x (Hr & Hv & Hl & _)%HL. unfold leaf in Hl. destruct (table_of (memory s) x.1 (x.2 * PGSIZE) 2) as [t|] eqn:E; [|by rewrite has_0 in Hl].
    exists t. pose proof (vi_tree _ _ _ H x.1 (x.2 * PGSIZE) 2 t Hr ltac:(lia) ltac:(lia) E) as O.
    split_and!; [done|by eapply vi_table|done|lia|lia]. }
  assert (NoDup (place <$> L)) as Hnd'.
  { apply NoDup_fmap_2_strong; [|done]. intros x y Hx Hy E. destruct (Ht x Hx) as (t & Et & (At & _) & ? & ?), (Ht y Hy) as (u & Eu & (Au & _) & ? & ?).
    eapply (entry_place_inj s own roots x y t u); try done. unfold place in E. rewrite Et, Eu in E. cbn [default from_option id] in E.
    clear -E At Au. dlia. }
  assert (place <$> L ⊆ seqZ 0 (PHYSTOP / 8)) as Hsub.
  { intros z (x & -> & Hx)%list_elem_of_fmap. destruct (Ht x Hx) as (t & Et & Hp & _). unfold place. rewrite Et. cbn [default from_option id].
    pose proof (page_top t Hp). pose proof (PX_range 0 (x.2 * PGSIZE) ltac:(lia)). destruct Hp as (_ & ? & _). pose proof kend_range.
    apply elem_of_seqZ. dlia. }
  apply NoDup_submseteq in Hsub; [|done]. apply submseteq_length in Hsub. rewrite length_fmap, length_seqZ in Hsub. change (PHYSTOP / 8) with 285212672 in *. lia.
Qed.

(** Taking another reference. *)
Definition referenced (p : Z) (s : kmem) : kmem :=
  set_refcount (fupd (refcount s) (p / PGSIZE) (refcount s (p / PGSIZE) + 1)) s.

Lemma vm_inc s own roots p e :
  vm_inv s own roots → own p = OData e → e ≤ MAXHELD →
  ref_inc p s = Done (tt, referenced p s) ∧ vm_inv (referenced p s) (fupd own p (OData (e + 1))) roots.
Proof.
  intros H He Hmax. pose proof (in_use _ _ _ _ _ H He). destruct (vi_data _ _ _ H p e He) as (Hp & n & Hn & Hrc).
  destruct (vi_free _ _ _ H) as (free & Hok & Hfree). pose proof (mapped_bound _ _ _ _ _ H Hn) as Hb. change (PHYSTOP / 8) with 285212672 in Hb.
  split; [apply ref_inc_run; [done|lia]|].
  apply (vm_change_page s (referenced p s)); [done..|by rewrite He|done| | |].
  - intros q Hq Hne. cbn [referenced refcount set_refcount]. apply fupd_ne. by intros E%page_idx_inj.
  - exists free. split; [apply ref_write_drop; [done..|lia|lia]|].
    intros q. rewrite Hfree, fupd_spec. case_decide; [|done]. subst. by rewrite He.
  - exists n. split; [done|]. cbn [referenced refcount set_refcount]. rewrite fupd_eq. lia.
Qed.

End spec.
