(* ===== verification/VmMap.v ===== *)
(** kernel/vm.c: walk with allocation, mappages and the functions that change
    one mapping, on the invariant of the page tables.

    A new page-table page is linked below an invalid interior entry without
    changing the abstract page table ([leaf]) of any address space; on top of
    that the store of a level-0 entry is a map, an unmap or a change of flags. *)

From S2P Require Import Prelude Riscv Memory Kalloc Vm VmSpec.

#[local] Opaque memset kmemset.

Section map.
Context `{KI : KernelImage}.

Lemma load64_run a s : load64 a s = Done (ld64 (memory s) a, s).
Proof. done. Qed.

Lemma store64_run a v s : store64 a v s = Done (tt, set_memory (st64 (memory s) a v) s).
Proof. done. Qed.

Lemma set_memory_twice m m' s : set_memory m' (set_memory m s) = set_memory m' s.
Proof. done. Qed.

Lemma ld64_zero m a : (∀ y, a ≤ y < a + 8 → m y = 0) → ld64 m a = 0.
Proof. intros Hz. rewrite (ld64_ext m (λ _, 0)) by done. done. Qed.

Lemma pte_of_page pg fl : is_page pg → 0 ≤ fl < 1024 →
  PTE2PA (Z.lor (PA2PTE pg) fl) = pg ∧ PTE_FLAGS (Z.lor (PA2PTE pg) fl) = fl ∧
  0 ≤ Z.lor (PA2PTE pg) fl < 2^64.
Proof.
  intros [Ha Hp] Hfl. pose proof kend_range. 
  split; [apply PTE2PA_entry; [lia|done|done]|].
  split; [by apply PTE_FLAGS_entry|].
  rewrite lor_PA2PTE, PA2PTE_eq by (done || lia). dlia.
Qed.

(** ** Linking a new page-table page *)
Section link.
Context (s : kmem) (own : Z → owner) (roots : Z → Prop) (pt va : Z) (d : nat) (t pg : Z).
Context (H : vm_inv s own roots) (Hr : roots pt) (Hv : 0 ≤ va < MAXVA) (Hd : (d < 2)%nat).
Context (Ht : table_of (memory s) pt va d = Some t).
Context (Hno : has (ld64 (memory s) (t + 8 * PX (2 - Z.of_nat d) va)) PTE_V = false).
Context (Hpg : own pg = OData 1) (Hrc : refcount s (pg / PGSIZE) = 1).
Context (Hz : ∀ y, pg ≤ y < pg + PGSIZE → memory s y = 0).
Let v := Z.lor (PA2PTE pg) PTE_V.
Let m' := st64 (memory s) (t + 8 * PX (2 - Z.of_nat d) va) v.

Lemma link_facts :
  is_page pg ∧ mapped_times (memory s) roots pg 0 ∧ own t = OTable pt d (prefix d va) ∧
  t mod PGSIZE = 0 ∧ t ≠ pg.
Proof.
  destruct (vi_data _ _ _ H pg 1 Hpg) as (Hp & n & Hn & E).
  pose proof (vi_tree _ _ _ H pt va d t Hr Hv ltac:(lia) Ht) as Hot.
  destruct (vi_table _ _ _ H _ _ _ _ Hot) as [[Hta _] _].
  replace n with 0 in Hn by lia. repeat (split; [done|]). congruence.
Qed.

Lemma link_other a : (∀ y, a ≤ y < a + 8 → page_of y ≠ t) → ld64 m' a = ld64 (memory s) a.
Proof.
  destruct link_facts as (_ & _ & _ & Hta & _).
  apply ld64_entry_frame; [done|]. apply PX_range. lia.
Qed.

Lemma link_pg i : 0 ≤ i < 512 → ld64 m' (pg + 8 * i) = 0.
Proof.
  destruct link_facts as ([Hpa _] & _ & _ & _ & Hne). intros Hi. rewrite link_other.
  - apply ld64_zero. intros y Hy. apply Hz. lia.
  - intros y Hy. rewrite (page_of_in pg y); [done|done|lia].
Qed.

(** Reading another table page is unchanged. *)
Lemma link_table_read r vb k t' : roots r → 0 ≤ vb < MAXVA → (k ≤ 2)%nat →
  table_of (memory s) r vb k = Some t' → t' ≠ t →
  ld64 m' (t' + 8 * PX (2 - Z.of_nat k) vb) = ld64 (memory s) (t' + 8 * PX (2 - Z.of_nat k) vb).
Proof.
  intros Hr' Hvb Hk Ht' Hne.
  pose proof (vi_tree _ _ _ H r vb k t' Hr' Hvb Hk Ht') as Hot'.
  destruct (vi_table _ _ _ H _ _ _ _ Hot') as [[Hta' _] _].
  pose proof (PX_range (2 - Z.of_nat k) vb ltac:(lia)).
  apply link_other. intros y Hy. rewrite (page_of_in t' y); [done|done|lia].
Qed.

Lemma link_same_table r vb k : roots r → 0 ≤ vb < MAXVA → (k ≤ 2)%nat →
  table_of (memory s) r vb k = Some t → r = pt ∧ k = d ∧ prefix d vb = prefix d va.
Proof.
  intros Hr' Hvb Hk E. pose proof (vi_tree _ _ _ H r vb k t Hr' Hvb Hk E) as Hot.
  destruct link_facts as (_ & _ & Hot' & _). rewrite Hot' in Hot. by injection Hot as -> -> ->.
Qed.

Definition below (r vb : Z) : Prop := r = pt ∧ prefix (S d) vb = prefix (S d) va.

Lemma below_table r vb : below r vb → table_of (memory s) r vb d = Some t ∧
  PX (2 - Z.of_nat d) vb = PX (2 - Z.of_nat d) va.
Proof.
  intros [-> E]. apply prefix_mono in E as [E ?]; [|lia].
  by rewrite (table_of_prefix _ pt vb va d) by (lia || done).
Qed.

Lemma below_none r vb : below r vb → table_of (memory s) r vb (S d) = None.
Proof. intros [E1 E2]%below_table. rewrite table_of_S, E1, E2. cbv zeta. by rewrite Hno. Qed.

Lemma link_table r vb k : roots r → 0 ≤ vb < MAXVA → (k ≤ 2)%nat →
  table_of m' r vb k =
  if decide (below r vb ∧ (d < k)%nat) then (if decide (k = S d) then Some pg else None)
  else table_of (memory s) r vb k.
Proof.
  intros Hr' Hvb. induction k as [|k IH]; intros Hk.
  { rewrite decide_False by lia. done. }
  rewrite table_of_S, IH by lia. destruct link_facts as (Hp & _ & _ & Hta & Hne).
  destruct (pte_of_page pg PTE_V Hp ltac:(lia)) as (Hvp & Hvf & Hv64).
  destruct (decide (below r vb ∧ (d < k)%nat)) as [[Hb Hdk]|Hnb].
  - rewrite (decide_True _ _ (P := below r vb ∧ _)) by (split; [done|lia]).
    rewrite !decide_True, decide_False by lia. cbv zeta. rewrite link_pg by (apply PX_range; lia). done.
  - rewrite table_of_S. destruct (table_of (memory s) r vb k) as [t'|] eqn:Et'.
    + destruct (decide (t' = t)) as [->|Hne'].
      * destruct (link_same_table r vb k Hr' Hvb ltac:(lia) Et') as (-> & -> & Epf).
        destruct (decide (PX (2 - Z.of_nat d) vb = PX (2 - Z.of_nat d) va)) as [E0|N0].
        -- rewrite decide_True; [|split; [split; [done|by apply prefix_S_eq; [lia|..]]|lia]].
           rewrite decide_True by done. cbv zeta. rewrite E0. unfold m'.
           rewrite ld64_st64_same by done. fold v in Hvp, Hvf. rewrite Hvp.
           unfold v. by rewrite has_lor, orb_true_r.
        -- rewrite decide_False; [|intros [[_ E]%below_table _]; done]. cbv zeta.
           unfold m'. by rewrite ld64_st64_other by lia.
      * rewrite decide_False; [cbv zeta; by rewrite (link_table_read r vb k t') by (done || lia)|].
        intros [Hb ?]. destruct (below_table r vb Hb) as [E _].
        assert (k = d) as -> by (destruct (decide (k = d)); [done|]; exfalso; apply Hnb; split; [done|lia]).
        congruence.
    + rewrite decide_False; [done|]. intros [Hb ?]. destruct (below_table r vb Hb) as [E _].
      assert (k = d) as -> by (destruct (decide (k = d)); [done|]; exfalso; apply Hnb; split; [done|lia]).
      congruence.
Qed.

Lemma link_leaf r vb : roots r → 0 ≤ vb < MAXVA → leaf m' r vb = leaf (memory s) r vb.
Proof.
  intros Hr' Hvb. unfold leaf. rewrite link_table by (done || lia).
  destruct (decide _) as [[Hb ?]|Hnb].
  - pose proof (below_none r vb Hb) as Hn. destruct (decide _) as [E|E].
    + rewrite E, Hn. apply link_pg, PX_range. lia.
    + assert (d = 0)%nat as E0 by lia. rewrite table_of_S. replace 1%nat with (S d) by lia. by rewrite Hn.
  - destruct (table_of (memory s) r vb 2) as [t'|] eqn:Et'; [|done].
    apply (link_table_read r vb 2 t'); [done..|].
    intros ->. destruct (link_same_table r vb 2) as (_ & ? & _); [done..|]. lia.
Qed.

Lemma link_inv : vm_inv (set_memory m' s) (fupd own pg (OTable pt (S d) (prefix (S d) va))) roots.
Proof.
  destruct link_facts as (Hp & Hmt & Hot & Hta & Hne).
  pose proof (PX_range (2 - Z.of_nat d) va ltac:(lia)) as HPX.
  destruct (vi_free _ _ _ H) as (free & Hok & Hfree).
  split; cbn [memory set_memory refcount].
  - exists free. split.
    + apply kmem_ok_write; [done|apply stn_ok, Hok|]. intros p Hpf x Hx.
      destruct (fl_free _ _ (ko_fl _ _ Hok) p Hpf) as [[Ha _] _].
      apply st64_entry_frame; [done..|]. rewrite (page_of_in p x) by done.
      apply Hfree in Hpf. congruence.
    + intros p. rewrite Hfree, fupd_spec. case_decide; [|done]. subst. rewrite Hpg. done.
  - intros p r k x. rewrite fupd_spec. case_decide; [by subst|]. apply H.
  - intros p e. rewrite fupd_spec. case_decide; [done|]. intros Hpe.
    destruct (vi_data _ _ _ H p e Hpe) as (? & n & Hn & ?). split; [done|].
    exists n. split; [|done]. revert Hn. apply mapped_times_ext.
    intros x. apply maps_leaf_ext. apply link_leaf.
  - intros p. rewrite fupd_spec. case_decide; [done|]. apply H.
  - intros r vb k t' Hr' Hvb Hk. rewrite link_table by done.
    destruct (decide _) as [[[-> E] ?]|_].
    + destruct (decide _) as [->|]; [|done]. intros [= <-]. by rewrite fupd_eq, E.
    + intros E. pose proof (vi_tree _ _ _ H r vb k t' Hr' Hvb Hk E) as Ho.
      rewrite fupd_ne; [done|]. congruence.
  - intros r vb k t' Hr' Hvb Hk. rewrite link_table by (done || lia).
    destruct (decide _) as [_|_].
    + destruct (decide _) as [->|]; [|done]. intros [= <-]. cbv zeta.
      rewrite link_pg by (apply PX_range; lia). by rewrite has_0.
    + intros E. destruct (decide (t' = t)) as [->|Hne'].
      * destruct (link_same_table r vb k) as (-> & -> & _); [done|done|lia|done|].
        pose proof (PX_range (2 - Z.of_nat d) vb ltac:(lia)). cbv zeta.
        destruct (decide (PX (2 - Z.of_nat d) vb = PX (2 - Z.of_nat d) va)) as [E0|N0].
        -- rewrite E0. unfold m'. destruct (pte_of_page pg PTE_V Hp) as (_ & ? & ?); [lia|].
           by rewrite ld64_st64_same.
        -- unfold m'. rewrite ld64_st64_other by lia. by apply (vi_inner _ _ _ H pt vb d t).
      * cbv zeta. rewrite (link_table_read r vb k t') by (done || lia).
        by apply (vi_inner _ _ _ H r vb k t').
  - intros r vb Hr' Hvb. rewrite link_leaf by done. intros Hval. rewrite fupd_ne; [by apply H|].
    intros E. apply (mapped_times_zero _ _ _ (r, vb / PGSIZE) Hmt). by apply maps_at.
Qed.

End link.

(** ** What allocating page-table pages may change

    The owner, the reference count and the bytes of a page that was not free
    (the bytes of tables apart) and the abstract page tables stay the same. *)
Record vm_ext (roots : Z → Prop) (x y : kmem * (Z → owner)) : Prop := {
  ve_own : ∀ p, x.2 p ≠ OFree → y.2 p = x.2 p;
  ve_free : ∀ p, x.2 p = OFree → y.2 p = OFree ∨ is_table (y.2 p) = true;
  ve_rc : ∀ p, is_page p → x.2 p ≠ OFree → refcount y.1 (p / PGSIZE) = refcount x.1 (p / PGSIZE);
  ve_leaf : ∀ r va, roots r → 0 ≤ va < MAXVA → leaf (memory y.1) r va = leaf (memory x.1) r va;
  ve_mem : ∀ a, x.2 (page_of a) ≠ OFree → is_table (x.2 (page_of a)) = false →
    memory y.1 a = memory x.1 a;
  ve_table : ∀ r va k t, roots r → 0 ≤ va < MAXVA → (k ≤ 2)%nat →
    table_of (memory x.1) r va k = Some t → table_of (memory y.1) r va k = Some t
}.

#[export] Instance vm_ext_preorder roots : PreOrder (vm_ext roots).
Proof.
  split.
  - intros x. split; auto.
  - intros x y z [Ho Hf Hrc Hl Hm Ht] [Ho' Hf' Hrc' Hl' Hm' Ht']. split.
    + intros p Hp. rewrite Ho'; [by apply Ho|]. by rewrite Ho.
    + intros p Hp. destruct (Hf p Hp) as [E|E]; [by apply Hf'|].
      right. rewrite Ho'; [done|]. intros E'. by rewrite E' in E.
    + intros p ? Hp. rewrite Hrc'; [by apply Hrc|done|]. by rewrite Ho.
    + intros r va ? ?. by rewrite Hl', Hl.
    + intros a Ha Hb. rewrite Hm'; [by apply Hm| |]; by rewrite Ho.
    + intros. apply Ht', Ht; done.
Qed.

Lemma allocated_other m s y : is_page m → page_of y ≠ m → memory (allocated m s) y = memory s y.
Proof.
  intros [Hm _] Hy. unfold allocated. cbn [memory]. rewrite memset_spec, decide_False; [done|].
  intros E. apply Hy, page_of_in; [done|lia].
Qed.

Lemma allocated_rc m s p : is_page m → is_page p → p ≠ m →
  refcount (allocated m s) (p / PGSIZE) = refcount s (p / PGSIZE).
Proof.
  intros Hm Hp Hne. unfold allocated. cbn [refcount]. apply fupd_ne. by intros E%page_idx_inj.
Qed.

Lemma allocated_rc_eq m s : refcount (allocated m s) (m / PGSIZE) = 1.
Proof. apply fupd_eq. Qed.

(** A page allocated and cleared. *)
Definition zeroed (pg : Z) (s : kmem) : kmem :=
  set_memory (memset (memory (allocated pg s)) pg 0 (Z.to_nat PGSIZE)) (allocated pg s).

Lemma kmemset_allocated pg s : kmemset pg 0 (Z.to_nat PGSIZE) (allocated pg s) = Done (tt, zeroed pg s).
Proof. reflexivity. Qed.

Lemma zeroed_other pg s y : is_page pg → page_of y ≠ pg → memory (zeroed pg s) y = memory s y.
Proof.
  intros [Hp _] Hy. unfold zeroed, allocated. cbn [memory set_memory].
  assert (¬ pg ≤ y < pg + PGSIZE) by (intros E; by apply Hy, page_of_in).
  rewrite !memset_spec, !decide_False by lia. done.
Qed.

Lemma zeroed_page pg s y : pg ≤ y < pg + PGSIZE → memory (zeroed pg s) y = 0.
Proof.
  intros Hy. unfold zeroed. cbn [memory set_memory].
  by rewrite memset_spec, decide_True by lia.
Qed.

Lemma zeroed_refcount pg s p : is_page pg → is_page p →
  refcount (zeroed pg s) (p / PGSIZE) = if decide (p = pg) then 1 else refcount s (p / PGSIZE).
Proof.
  intros Hpg Hp. unfold zeroed, allocated. cbn [refcount set_memory]. rewrite fupd_spec.
  repeat case_decide; try done; subst; [by exfalso; apply page_idx_inj in H; auto|done].
Qed.

Lemma vm_zeroed s own roots :
  vm_inv s own roots →
  (kalloc s = Done (0, s) ∧ ∀ p, own p ≠ OFree) ∨
  ∃ pg, kalloc s = Done (pg, allocated pg s) ∧ is_page pg ∧ own pg = OFree ∧
    vm_inv (zeroed pg s) (fupd own pg (OData 1)) roots ∧
    (∀ r va, roots r → 0 ≤ va < MAXVA → leaf (memory (zeroed pg s)) r va = leaf (memory s) r va) ∧
    (∀ r va k, roots r → 0 ≤ va < MAXVA → (k ≤ 2)%nat →
       table_of (memory (zeroed pg s)) r va k = table_of (memory s) r va k).
Proof.
  intros H. destruct (vm_kalloc s own roots H) as [?|(pg & Hf & Hp & Ek & Hmt & H1 & Hl1)]; [by left|right].
  exists pg. do 3 (split; [done|]).
  destruct (vm_write (allocated pg s) (fupd own pg (OData 1)) roots (memory (zeroed pg s)) H1) as [H2 Hl2].
  - unfold zeroed. cbn [memory set_memory]. apply memset_ok.
    destruct (vi_free _ _ _ H1) as (free & Hok & _). apply (fl_mem _ _ (ko_fl _ _ Hok)).
  - intros y Hy. assert (page_of y ≠ pg) as E.
    { intros E. rewrite E, fupd_eq in Hy. naive_solver. }
    rewrite zeroed_other by done. unfold allocated. cbn [memory].
    rewrite memset_spec, decide_False; [done|]. intros E'. apply E, page_of_in; [apply Hp|lia].
  - split; [exact H2|]. split; [intros; rewrite Hl2, Hl1; done|].
    apply (table_of_frame s own roots _ H). intros t' r' k x Ht' _ y Hy.
    destruct (vi_table _ _ _ H _ _ _ _ Ht') as [[Ha _] _]. apply zeroed_other; [done|].
    rewrite (page_of_in t' y) by done. congruence.
Qed.

(** ** A table allocated, cleared and linked, as walk does it *)
Section new_table.
Context (s : kmem) (own : Z → owner) (roots : Z → Prop) (pt va : Z) (d : nat) (t pg : Z) (z : kmem).
Context (H : vm_inv s own roots) (Hr : roots pt) (Hv : 0 ≤ va < MAXVA) (Hd : (d < 2)%nat).
Context (Ht : table_of (memory s) pt va d = Some t).
Context (Hno : has (ld64 (memory s) (t + 8 * PX (2 - Z.of_nat d) va)) PTE_V = false).
Context (Hp : is_page pg) (Hf : own pg = OFree).
Context (H2 : vm_inv z (fupd own pg (OData 1)) roots).
Context (Hlf : ∀ r vb, roots r → 0 ≤ vb < MAXVA → leaf (memory z) r vb = leaf (memory s) r vb).
Context (Htf : ∀ r vb k, roots r → 0 ≤ vb < MAXVA → (k ≤ 2)%nat →
  table_of (memory z) r vb k = table_of (memory s) r vb k).
Context (Hz : ∀ y, pg ≤ y < pg + PGSIZE → memory z y = 0).
Context (Hoth : ∀ y, page_of y ≠ pg → memory z y = memory s y).
Context (Hrc : ∀ p, is_page p →
  refcount z (p / PGSIZE) = if decide (p = pg) then 1 else refcount s (p / PGSIZE)).
Let m2 := st64 (memory z) (t + 8 * PX (2 - Z.of_nat d) va) (Z.lor (PA2PTE pg) PTE_V).
Let own2 := fupd own pg (OTable pt (S d) (prefix (S d) va)).

Lemma new_table_facts :
  own t = OTable pt d (prefix d va) ∧ t mod PGSIZE = 0 ∧ t ≠ pg ∧
  table_of (memory z) pt va d = Some t ∧
  has (ld64 (memory z) (t + 8 * PX (2 - Z.of_nat d) va)) PTE_V = false ∧
  refcount z (pg / PGSIZE) = 1.
Proof.
  pose proof (vi_tree _ _ _ H pt va d t Hr Hv ltac:(lia) Ht) as Hot.
  destruct (vi_table _ _ _ H _ _ _ _ Hot) as [[Hta _] _].
  pose proof (PX_range (2 - Z.of_nat d) va ltac:(lia)) as HPX.
  assert (t ≠ pg) by congruence. repeat split; [done..|by rewrite Htf by (done || lia)| |].
  - rewrite (ld64_ext _ (memory s)); [done|]. intros y Hy. apply Hoth.
    rewrite (page_of_in t y); [done|done|lia].
  - by rewrite Hrc, decide_True.
Qed.

Lemma new_table_inv : vm_inv (set_memory m2 z) own2 roots.
Proof.
  destruct new_table_facts as (_ & _ & _ & Ht1 & Hno1 & Hrc1).
  eapply vm_inv_proper; [reflexivity| |reflexivity|
    apply (link_inv z (fupd own pg (OData 1)) roots pt va d t pg); try done; apply fupd_eq].
  intros p. unfold own2. rewrite !fupd_spec. by case_decide.
Qed.

Lemma new_table_table r vb k : roots r → 0 ≤ vb < MAXVA → (k ≤ 2)%nat →
  table_of m2 r vb k =
  if decide (below pt va d r vb ∧ (d < k)%nat) then (if decide (k = S d) then Some pg else None)
  else table_of (memory s) r vb k.
Proof.
  destruct new_table_facts as (_ & _ & _ & Ht1 & Hno1 & Hrc1). intros Hr' Hvb Hk.
  unfold m2. rewrite (link_table z (fupd own pg (OData 1)) roots pt va d t pg); try done; [|apply fupd_eq].
  by rewrite Htf.
Qed.

Lemma new_table_ext : vm_ext roots (s, own) (set_memory m2 z, own2).
Proof.
  destruct new_table_facts as (Hot & Hta & Hne & Ht1 & Hno1 & Hrc1).
  pose proof (PX_range (2 - Z.of_nat d) va ltac:(lia)) as HPX.
  split; cbn [fst snd memory refcount set_memory].
  - intros p Hpf. apply fupd_ne. congruence.
  - intros p ?. unfold own2. rewrite fupd_spec. case_decide; [by right|by left].
  - intros p Hpp Hpf. rewrite Hrc, decide_False by congruence. done.
  - intros r vb ? ?. rewrite <-Hlf by done.
    apply (link_leaf z (fupd own pg (OData 1)) roots pt va d t pg); try done. apply fupd_eq.
  - intros a Ha Hb. unfold m2. rewrite st64_entry_frame; [apply Hoth; congruence|done..|].
    intros E. by rewrite E, Hot in Hb.
  - intros r vb k t' Hr' Hvb Hk Ht'. rewrite new_table_table by done.
    rewrite decide_False; [done|]. intros [Hb Hdk].
    assert (table_of (memory s) r vb (S d) = None) as Hn by (by eapply below_none).
    assert (k = S d ∨ k = S (S d)) as [-> | ->] by lia; [congruence|].
    rewrite table_of_S, Hn in Ht'. done.
Qed.

Lemma new_table_linked : table_of m2 pt va (S d) = Some pg.
Proof.
  rewrite new_table_table by (done || lia).
  rewrite decide_True by (split; [done|lia]). by rewrite decide_True.
Qed.

End new_table.

(** ** walk with alloc = 1 *)
Definition walk_post (s : kmem) (own : Z → owner) (roots : Z → Prop) (pt va a : Z) (s' : kmem) : Prop :=
  ∃ own', vm_inv s' own' roots ∧ vm_ext roots (s, own) (s', own') ∧
    ((a = 0 ∧ table_of (memory s') pt va 2 = None ∧ ∀ p, own' p ≠ OFree) ∨
     ∃ t, table_of (memory s') pt va 2 = Some t ∧ a = t + 8 * PX 0 va ∧ a ≠ 0).

Lemma table_of_none m pt va d : (d ≤ 2)%nat → table_of m pt va d = None → table_of m pt va 2 = None.
Proof.
  intros Hd E. assert (d = 0 ∨ d = 1 ∨ d = 2)%nat as [-> | [-> | ->]] by lia; [done| |done].
  by rewrite table_of_S, E.
Qed.

Lemma walk_loop_true roots pt va d t : roots pt → 0 ≤ va < MAXVA → (d ≤ 2)%nat → ∀ s own,
  vm_inv s own roots → table_of (memory s) pt va d = Some t →
  ∃ a s', walk_loop (2 - d) t va true s = Done (a, s') ∧ walk_post s own roots pt va a s'.
Proof.
  intros Hr Hv Hd. remember (2 - d)%nat as l eqn:El. revert d t Hd El.
  induction l as [|l IH]; intros d t Hd El s own H Ht.
  - assert (d = 2%nat) as -> by lia. exists (t + 8 * PX 0 va), s. split; [done|].
    exists own. split; [done|]. split; [done|]. right. exists t. split; [done|]. split; [done|].
    by apply Z.eqb_neq, (entry_nonzero s own roots pt va t).
  - cbn [walk_loop]. rewrite (bind_done _ _ _ _ _ (load64_run _ _)).
    replace (Z.of_nat (S l)) with (2 - Z.of_nat d) by lia.
    pose proof (table_of_S (memory s) pt va d) as HS. rewrite Ht in HS. cbv zeta in HS.
    destruct (has (ld64 (memory s) (t + 8 * PX (2 - Z.of_nat d) va)) PTE_V) eqn:Hno.
    + apply IH with (d := S d); [lia|lia|done..].
    + cbn [negb].
      destruct (vm_zeroed s own roots H) as [[Ek Hnone]|(pg & Ek & Hp & Hf & H2 & Hlf & Htf)].
      * exists 0, s. rewrite (bind_done _ _ _ _ _ Ek). split; [done|]. exists own. split; [done|]. split; [done|].
        left. split; [done|]. split; [|done]. by apply (table_of_none _ _ _ (S d)); [lia|].
      * rewrite (bind_done _ _ _ _ _ Ek), (proj2 (Z.eqb_neq pg 0)) by (by apply page_nonzero).
        rewrite (bind_done _ _ _ _ _ (kmemset_allocated _ _)), (bind_done _ _ _ _ _ (store64_run _ _ _)).
        pose proof (zeroed_page pg s) as Hz. pose proof (λ y, zeroed_other pg s y Hp) as Hoth.
        pose proof (λ p, zeroed_refcount pg s p Hp) as Hrc. revert H2 Hlf Htf Hz Hoth Hrc.
        generalize (zeroed pg s). intros z H2 Hlf Htf Hz Hoth Hrc.
        assert (d < 2)%nat by lia.
        destruct (IH (S d) pg ltac:(lia) ltac:(lia)
          (set_memory (st64 (memory z) (t + 8 * PX (2 - Z.of_nat d) va) (Z.lor (PA2PTE pg) PTE_V)) z)
          (fupd own pg (OTable pt (S d) (prefix (S d) va)))) as (a & s' & Erun & own' & Hi & He & Hres).
        { apply (new_table_inv s own roots pt va d t pg z); assumption. }
        { apply (new_table_linked s own roots pt va d t pg z); assumption. }
        exists a, s'. split; [exact Erun|]. exists own'. split; [done|].
        split; [|done]. etransitivity; [|exact He].
        apply (new_table_ext s own roots pt va d t pg z); assumption.
Qed.

(** Walking a path that exists allocates nothing. *)
Lemma walk_loop_exists alloc s pt va d t t2 : (d ≤ 2)%nat →
  table_of (memory s) pt va d = Some t → table_of (memory s) pt va 2 = Some t2 →
  walk_loop (2 - d) t va alloc s = Done (t2 + 8 * PX 0 va, s).
Proof.
  intros Hd Ht Ht2. remember (2 - d)%nat as l eqn:El. revert d t Hd Ht El.
  induction l as [|l IH]; intros d t Hd Ht El.
  - assert (d = 2%nat) as -> by lia. assert (t = t2) as -> by congruence. done.
  - cbn [walk_loop]. rewrite (bind_done _ _ _ _ _ (load64_run _ _)).
    replace (Z.of_nat (S l)) with (2 - Z.of_nat d) by lia.
    pose proof (table_of_S (memory s) pt va d) as HS. rewrite Ht in HS. cbv zeta in HS.
    destruct (has (ld64 (memory s) (t + 8 * PX (2 - Z.of_nat d) va)) PTE_V).
    + apply IH with (d := S d); [lia|done|lia].
    + apply table_of_none in HS; [congruence|lia].
Qed.

Lemma walk_exists alloc s pt va t : va < MAXVA → table_of (memory s) pt va 2 = Some t →
  walk pt va alloc s = Done (t + 8 * PX 0 va, s).
Proof.
  intros. unfold walk. rewrite (proj2 (Z.leb_gt MAXVA va)) by lia.
  by apply (walk_loop_exists alloc s pt va 0 pt); [lia| |].
Qed.

Lemma walk_true_run s own roots pt va :
  vm_inv s own roots → roots pt → 0 ≤ va < MAXVA →
  ∃ a s', walk pt va true s = Done (a, s') ∧ walk_post s own roots pt va a s'.
Proof.
  intros H Hr Hv. unfold walk. rewrite (proj2 (Z.leb_gt MAXVA va)) by lia.
  by apply (walk_loop_true roots pt va 0 pt); [|lia|lia|..].
Qed.

(** ** mappages for one page *)
Definition pte_for (pa perm : Z) : Z := Z.lor (Z.lor (PA2PTE pa) perm) PTE_V.

Definition map_post (s : kmem) (own : Z → owner) (roots : Z → Prop) (pt va v r : Z) (s' : kmem) : Prop :=
  ∃ s1 own1, vm_inv s1 own1 roots ∧ vm_ext roots (s, own) (s1, own1) ∧
    ((r = -1 ∧ s' = s1 ∧ ∀ p, own1 p ≠ OFree) ∨
     (r = 0 ∧ ∃ t, table_of (memory s1) pt va 2 = Some t ∧
        s' = set_memory (st64 (memory s1) (t + 8 * PX 0 va) v) s1)).

Lemma mappages_one s own roots pt va pa perm :
  vm_inv s own roots → roots pt → 0 ≤ va < MAXVA → va mod PGSIZE = 0 →
  has (leaf (memory s) pt va) PTE_V = false →
  ∃ r s', mappages pt va PGSIZE pa perm s = Done (r, s') ∧
    map_post s own roots pt va (pte_for pa perm) r s'.
Proof.
  intros H Hr Hv Ha Hno. unfold mappages. rewrite Ha. cbn [Z.eqb negb].
  change (PGSIZE mod PGSIZE) with 0. change (Z.to_nat (PGSIZE / PGSIZE)) with 1%nat. cbn [Z.eqb negb].
  rewrite while_S. destruct (walk_true_run s own roots pt va H Hr Hv) as (a & s1 & Ew & own1 & H1 & Hext & Hres).
  rewrite (bind_done _ _ _ _ _ Ew). destruct Hres as [(-> & _ & Hnone)|(t & Ht & -> & Hnz)].
  - exists (-1), s1. split; [done|]. exists s1, own1. eauto 6.
  - rewrite (proj2 (Z.eqb_neq _ 0) Hnz), (bind_done _ _ _ _ _ (load64_run _ _)).
    assert (ld64 (memory s1) (t + 8 * PX 0 va) = leaf (memory s1) pt va) as ->.
    { unfold leaf. by rewrite Ht. }
    pose proof (ve_leaf _ _ _ Hext pt va Hr Hv) as El. cbn [fst] in El. rewrite El, Hno.
    rewrite (bind_done _ _ _ _ _ (store64_run _ _ _)).
    replace (u64 (va + PGSIZE - PGSIZE)) with va by (rewrite u64_small; lia).
    rewrite Z.eqb_refl. eexists 0, _. split; [reflexivity|]. exists s1, own1. eauto 10.
Qed.

End map.
