(* ===== verification/VmUser.v ===== *)
(** kernel/vm.c: unmapping, growing, shrinking and copying user memory, on the
    invariant of the page tables: uvmunmap, uvmdealloc, uvmalloc, uvmcopy and
    vmfault. *)

From S2P Require Import Prelude Riscv Memory Kalloc Vm VmSpec VmMap.

#[local] Opaque memset kmemset zeroed allocated mappages kalloc.

Section user.
Context `{KI : KernelImage}.

(** The abstract page table of [pt] changes at the page of [va] only. *)
Definition leaf_upd (roots : Z → Prop) (s s' : kmem) (pt va v : Z) : Prop :=
  ∀ r vb, roots r → 0 ≤ vb < MAXVA →
  leaf (memory s') r vb = if decide (r = pt ∧ vb / PGSIZE = va / PGSIZE) then v else leaf (memory s) r vb.

(** An entry that maps nothing, or a page whose references are all accounted
    for, the kernel holding no more of them than a count can take. *)
Definition user_leaf (own : Z → owner) (w : Z) : Prop :=
  has w PTE_V = true → ∃ e, 0 ≤ e ≤ MAXHELD ∧ own (PTE2PA w) = OData e.

Definition cleared (w : Z) : Z := if has w PTE_V then 0 else w.

(** ** Unmapping *)
Record vm_shrink (x y : kmem * (Z → owner)) : Prop := {
  sh_own : ∀ p, y.2 p = x.2 p ∨ (x.2 p = OData 0 ∧ y.2 p = OFree);
  sh_mem : ∀ a, y.2 (page_of a) ≠ OFree → is_table (y.2 (page_of a)) = false →
    memory y.1 a = memory x.1 a
}.

#[export] Instance vm_shrink_preorder : PreOrder vm_shrink.
Proof.
  split.
  - intros x. split; [by left|done].
  - intros x y z [Ho Hm] [Ho' Hm']. split.
    + intros p. destruct (Ho p) as [E|[E1 E2]], (Ho' p) as [E'|[E1' E2']]; [left|right|right|right];
        rewrite ?E', ?E, ?E2 in *; auto; congruence.
    + intros a Ha Hb. rewrite Hm' by done.
      destruct (Ho' (page_of a)) as [E|[_ E]]; [|congruence].
      by apply Hm; rewrite <-E.
Qed.

(** Dropping a page and storing outside it commute. *)
Lemma dropped_store pa s a v : pa mod PGSIZE = 0 → a + 8 ≤ pa ∨ pa + PGSIZE ≤ a →
  set_memory (st64 (memory (dropped pa s)) a v) (dropped pa s) ≡
  dropped pa (set_memory (st64 (memory s) a v) s).
Proof.
  intros Hp Ha. unfold dropped. cbn [refcount set_memory]. case_if; [done|].
  unfold equiv, kmem_equiv. cbn [memory set_memory freed freelist refcount set_refcount].
  split; [|split; [reflexivity|intros i; reflexivity]]. intros x.
  destruct (decide (pa ≤ x < pa + PGSIZE)) as [Hx|Hx].
  - rewrite (st64_other _ a v x) by lia. apply (stn_ext 8). intros _.
    rewrite !memset_spec. by rewrite !decide_True by lia.
  - rewrite (st64_other _ pa _ x) by lia. rewrite memset_spec, decide_False by lia.
    apply (stn_ext 8). intros Hy. rewrite st64_other by lia. by rewrite memset_spec, decide_False by lia.
Qed.

(** A mapped page is unmapped: the order of the code, ref_dec before the entry
    is cleared, gives the same state as the other order. *)
Lemma vm_unmap_drop s own roots pt a t e :
  vm_inv s own roots → roots pt → 0 ≤ a < MAXVA → table_of (memory s) pt a 2 = Some t →
  has (leaf (memory s) pt a) PTE_V = true → 0 ≤ e →
  let pa := PTE2PA (leaf (memory s) pt a) in own pa = OData e →
  let s' := set_memory (st64 (memory (dropped pa s)) (t + 8 * PX 0 a) 0) (dropped pa s) in
  let own' := own_dropped s (fupd own pa (OData (e + 1))) pa (e + 1) in
  vm_inv s' own' roots ∧ vm_shrink (s, own) (s', own') ∧ leaf_upd roots s s' pt a 0.
Proof.
  intros H Hr Ha Ht Ev He0 pa He s' own'.
  destruct (vi_data _ _ _ H pa e He) as ([Hpa Hpr] & n & Hn & Hrcn).
  pose proof (vm_unmap s own roots pt a t 0 H Hr Ha Ht ltac:(lia) pa e Ev eq_refl (has_0 _) He) as H1.
  set (s1 := set_memory (st64 (memory s) (t + 8 * PX 0 a) 0) s) in *.
  destruct (vm_drop s1 _ roots pa (e + 1) H1 (fupd_eq _ _ _) ltac:(left; lia)) as (_ & _ & H2 & Hl2).
  pose proof (vi_tree _ _ _ H pt a 2 t Hr Ha ltac:(lia) Ht) as Hot.
  destruct (vi_table _ _ _ H _ _ _ _ Hot) as [[Hta _] _].
  pose proof (PX_range 0 a ltac:(lia)) as HPX.
  assert (t ≠ pa) as Hne by congruence.
  assert (Heq : s' ≡ dropped pa s1).
  { apply dropped_store; [done|]. destruct (page_apart t pa); [done..|lia|lia]. }
  split; [eapply vm_inv_proper; [symmetry; exact Heq|reflexivity|reflexivity|exact H2]|]. split.
  - assert (Hown : ∀ p, own' p = if decide (p = pa) then
      (if 1 <? refcount s (pa / PGSIZE) then OData e else OFree) else own p).
    { intros p. unfold own', own_dropped. rewrite !fupd_spec. case_decide; [|done].
      by replace (e + 1 - 1) with e by lia. }
    assert (1 ≤ n).
    { pose proof (mapped_times_nonneg _ _ _ _ Hn). destruct (decide (n = 0)) as [->|]; [|lia].
      exfalso. apply (mapped_times_zero _ _ _ (pt, a / PGSIZE) Hn). by apply maps_at. }
    split; cbn [fst snd].
    + intros p. rewrite Hown. case_decide; [subst p|by left]. rewrite He. case_if; [by left|].
      right. replace e with 0 by lia. done.
    + intros y. rewrite Hown. intros Hf Htab. unfold s'. cbn [memory set_memory].
      rewrite st64_entry_frame; [|done..|].
      * destruct (decide (page_of y = pa)) as [E|E]; [|by apply dropped_other].
        unfold dropped. case_if; done.
      * intros E. rewrite E, decide_False, Hot in Htab by done. done.
  - intros r vb Hr' Hvb. rewrite (leaf_ext _ (memory (dropped pa s1))) by apply Heq.
    rewrite Hl2 by done. unfold s1. cbn [memory set_memory].
    by apply (entry_leaf s own roots pt a t 0).
Qed.

Lemma leaf_at m pt a t : table_of m pt a 2 = Some t → ld64 m (t + 8 * PX 0 a) = leaf m pt a.
Proof. unfold leaf. by intros ->. Qed.

Lemma leaf_upd_same roots s pt a v : leaf (memory s) pt a = v → leaf_upd roots s s pt a v.
Proof.
  intros <- r vb _ _. case_decide as Ep; [|done]. destruct Ep as [-> Ep]. by apply leaf_page.
Qed.

Lemma unmap_page_run s own roots pt a :
  vm_inv s own roots → roots pt → 0 ≤ a < MAXVA → user_leaf own (leaf (memory s) pt a) →
  ∃ s' own', unmap_page pt a true s = Done (tt, s') ∧ vm_inv s' own' roots ∧
    vm_shrink (s, own) (s', own') ∧ leaf_upd roots s s' pt a (cleared (leaf (memory s) pt a)).
Proof.
  intros H Hr Ha Hu. unfold unmap_page, cleared.
  rewrite (bind_done _ _ _ _ _ (walk_false_run s pt a (proj2 Ha))).
  destruct (table_of (memory s) pt a 2) as [t|] eqn:Ht.
  - rewrite (entry_nonzero s own roots pt a t) by done.
    rewrite (bind_done _ _ _ _ _ (load64_run _ _)), (leaf_at _ _ _ _ Ht).
    destruct (has (leaf (memory s) pt a) PTE_V) eqn:Ev; cbn [negb].
    + destruct (Hu Ev) as (e & [He0 _] & He). destruct (vi_data _ _ _ H _ e He) as (Hp & _).
      rewrite (bind_done _ _ _ _ _ (ref_dec_run s _ Hp (in_use s own roots _ e H He))).
      rewrite store64_run. eexists _, _. split; [reflexivity|]. by apply vm_unmap_drop.
    + exists s, own. do 3 (split; [done|]). by apply leaf_upd_same.
  - rewrite Z.eqb_refl. exists s, own. do 3 (split; [done|]). apply leaf_upd_same.
    unfold leaf. rewrite Ht. done.
Qed.

(** Shrinking keeps the entries that are left well accounted. *)
Lemma shrink_user_leaf s own s' own' roots pt vb :
  vm_inv s' own' roots → vm_shrink (s, own) (s', own') → roots pt → 0 ≤ vb < MAXVA →
  leaf (memory s') pt vb = leaf (memory s) pt vb →
  user_leaf own (leaf (memory s) pt vb) → user_leaf own' (leaf (memory s') pt vb).
Proof.
  intros H Hsh Hr Hv E Hu. rewrite E. intros Ev. destruct (Hu Ev) as (e & He0 & He).
  exists e. split; [done|]. destruct (sh_own _ _ Hsh (PTE2PA (leaf (memory s) pt vb))) as [E'|[_ E']];
    cbn [fst snd] in E'; [congruence|].
  rewrite <-E in Ev, E'. destruct (vi_leaf _ _ _ H pt vb Hr Hv Ev) as [[? ?]|?]; congruence.
Qed.

Definition leaf_clear (roots : Z → Prop) (s s' : kmem) (pt lo hi : Z) : Prop :=
  ∀ r vb, roots r → 0 ≤ vb < MAXVA →
  leaf (memory s') r vb =
  if decide (r = pt ∧ lo ≤ vb < hi) then cleared (leaf (memory s) pt vb) else leaf (memory s) r vb.

Lemma same_page_iff lo vb : lo mod PGSIZE = 0 → vb / PGSIZE = lo / PGSIZE ↔ lo ≤ vb < lo + PGSIZE.
Proof. intros. split; intros; dlia. Qed.

Lemma leaf_upd_range roots s s' pt va v r vb :
  leaf_upd roots s s' pt va v → va mod PGSIZE = 0 → roots r → 0 ≤ vb < MAXVA →
  leaf (memory s') r vb =
  if decide (r = pt ∧ va ≤ vb < va + PGSIZE) then v else leaf (memory s) r vb.
Proof.
  intros Hl Ha Hr Hv. rewrite Hl by done. pose proof (same_page_iff va vb Ha).
  repeat case_decide; naive_solver.
Qed.

Lemma uvmunmap_run n : ∀ s own roots pt va,
  vm_inv s own roots → roots pt → 0 ≤ va → va + Z.of_nat n * PGSIZE ≤ MAXVA → va mod PGSIZE = 0 →
  (∀ vb, va ≤ vb < va + Z.of_nat n * PGSIZE → user_leaf own (leaf (memory s) pt vb)) →
  ∃ s' own', uvmunmap pt va (Z.of_nat n) true s = Done (tt, s') ∧ vm_inv s' own' roots ∧
    vm_shrink (s, own) (s', own') ∧ leaf_clear roots s s' pt va (va + Z.of_nat n * PGSIZE).
Proof.
  intros s own roots pt va H Hr Hva Hhi Hal. unfold uvmunmap. rewrite Hal. cbn [Z.eqb negb].
  rewrite u64_small by lia. rewrite Nat2Z.id. revert s own va H Hva Hhi Hal.
  induction n as [|n IH]; intros s own va H Hva Hhi Hal Hu; rewrite while_S.
  - replace (va + Z.of_nat 0 * PGSIZE) with va by lia. rewrite Z.ltb_irrefl.
    exists s, own. do 3 (split; [done|]). intros r vb _ _. by rewrite decide_False by lia.
  - rewrite (proj2 (Z.ltb_lt va _)) by lia.
    destruct (unmap_page_run s own roots pt va H Hr) as (s1 & own1 & E1 & H1 & Hsh1 & Hl1); [lia|apply Hu; lia|].
    rewrite (bind_done _ _ _ _ _ E1). unfold ret. rewrite u64_small by lia.
    replace (va + Z.of_nat (S n) * PGSIZE) with (va + PGSIZE + Z.of_nat n * PGSIZE) in * by lia.
    assert (Hnext : ∀ vb, va + PGSIZE ≤ vb < MAXVA → leaf (memory s1) pt vb = leaf (memory s) pt vb).
    { intros vb Hvb. rewrite (leaf_upd_range _ _ _ _ _ _ _ _ Hl1) by (done || lia).
      by rewrite decide_False by lia. }
    destruct (IH s1 own1 (va + PGSIZE)) as (s2 & own2 & E2 & H2 & Hsh2 & Hl2); [done|lia|lia|dlia| |].
    { intros vb Hvb. eapply shrink_user_leaf; [done|exact Hsh1|done|lia|apply Hnext; lia|apply Hu; lia]. }
    exists s2, own2. split; [done|]. split; [done|]. split; [by etransitivity|].
    intros r vb Hr' Hvb. rewrite Hl2 by done. case_decide as Ea.
    + rewrite decide_True by (split; [apply Ea|lia]). rewrite Hnext by lia. done.
    + rewrite (leaf_upd_range _ _ _ _ _ _ _ _ Hl1) by done.
      destruct (decide (r = pt ∧ va ≤ vb < va + PGSIZE)) as [[-> Eb]|Eb].
      * rewrite decide_True by (split; [done|lia]).
        rewrite (leaf_page _ pt va vb); [done|]. symmetry. by apply same_page_iff.
      * rewrite decide_False; [done|]. intros [-> ?]. 
        destruct (decide (va + PGSIZE ≤ vb)); [apply Ea|apply Eb]; split; (done || lia).
Qed.

(** uvmdealloc(pagetable, oldsz, newsz) unmaps the pages from newsz up. *)
Lemma uvmdealloc_run s own roots pt oldsz newsz :
  vm_inv s own roots → roots pt → 0 ≤ newsz → 0 ≤ oldsz ≤ MAXVA →
  (∀ vb, PGROUNDUP newsz ≤ vb < PGROUNDUP oldsz → user_leaf own (leaf (memory s) pt vb)) →
  newsz < 2^63 →
  ∃ s' own', uvmdealloc pt oldsz newsz s = Done (Z.min oldsz newsz, s') ∧ vm_inv s' own' roots ∧
    vm_shrink (s, own) (s', own') ∧ leaf_clear roots s s' pt (PGROUNDUP newsz) (PGROUNDUP oldsz).
Proof.
  intros H Hr Hn Ho Hu Hn63. unfold uvmdealloc.
  assert (Hnop : PGROUNDUP oldsz ≤ PGROUNDUP newsz →
    leaf_clear roots s s pt (PGROUNDUP newsz) (PGROUNDUP oldsz)).
  { intros ? r vb _ _. by rewrite decide_False by lia. }
  destruct (PGROUNDUP_spec newsz) as [Hn1 Hn2]; [lia..|].
  destruct (PGROUNDUP_spec oldsz) as [Ho1 Ho2]; [lia..|].
  destruct (Z.leb_spec oldsz newsz).
  - rewrite Z.min_l by lia. exists s, own. do 3 (split; [done|]). apply Hnop. dlia.
  - rewrite Z.min_r by lia. destruct (Z.ltb_spec (PGROUNDUP newsz) (PGROUNDUP oldsz)).
    + set (n := (PGROUNDUP oldsz - PGROUNDUP newsz) / PGSIZE).
      assert (n * PGSIZE = PGROUNDUP oldsz - PGROUNDUP newsz ∧ 0 ≤ n ≤ 2^26) as [En Hnr] by (subst n; dlia).
      assert (u64 (s32 n) = Z.of_nat (Z.to_nat n)) as -> by (rewrite s32_small, u64_small; lia).
      destruct (uvmunmap_run (Z.to_nat n) s own roots pt (PGROUNDUP newsz)) as (s' & own' & E & H' & Hsh & Hl);
        rewrite ?Z2Nat.id, ?En in * by lia; [done|done|lia|dlia|done|intros; apply Hu; lia|].
      replace (PGROUNDUP newsz + (PGROUNDUP oldsz - PGROUNDUP newsz)) with (PGROUNDUP oldsz) in Hl by lia.
      exists s', own'. by rewrite (bind_done _ _ _ _ _ E).
    + exists s, own. do 3 (split; [done|]). apply Hnop. lia.
Qed.

(** ** Mapping *)

(** Pages that were not free keep their owner, reference count and, tables
    apart, their bytes; free pages stay free or become tables. *)
Record vm_keep (x y : kmem * (Z → owner)) : Prop := {
  ke_own : ∀ p, x.2 p ≠ OFree → y.2 p = x.2 p;
  ke_free : ∀ p, x.2 p = OFree → y.2 p = OFree ∨ is_table (y.2 p) = true;
  ke_rc : ∀ p, is_page p → x.2 p ≠ OFree → refcount y.1 (p / PGSIZE) = refcount x.1 (p / PGSIZE);
  ke_mem : ∀ a, x.2 (page_of a) ≠ OFree → is_table (x.2 (page_of a)) = false →
    memory y.1 a = memory x.1 a
}.

Lemma vm_ext_keep roots x y : vm_ext roots x y → vm_keep x y.
Proof. intros []. by split. Qed.

Definition tables_kept (roots : Z → Prop) (s s' : kmem) : Prop :=
  ∀ r vb k t, roots r → 0 ≤ vb < MAXVA → (k ≤ 2)%nat →
  table_of (memory s) r vb k = Some t → table_of (memory s') r vb k = Some t.

Lemma lor_flags a b : 0 ≤ a < 1024 → 0 ≤ b < 1024 → 0 ≤ Z.lor a b < 1024.
Proof.
  assert (Hl : ∀ x, 0 ≤ x < 1024 → Z.log2 x < 10).
  { intros x Hx. destruct (decide (x = 0)) as [->|]; [done|]. apply Z.log2_lt_pow2; lia. }
  intros Ha Hb. split; [apply Z.lor_nonneg; lia|]. apply (Z.log2_lt_cancel _ 1024).
  rewrite Z.log2_lor by lia. change (Z.log2 1024) with 10. by apply Z.max_lub_lt; apply Hl.
Qed.

Lemma pte_for_facts pa perm : is_page pa → 0 ≤ perm < 1024 →
  PTE2PA (pte_for pa perm) = pa ∧ PTE_FLAGS (pte_for pa perm) = Z.lor perm PTE_V ∧
  has (pte_for pa perm) PTE_V = true ∧ 0 ≤ pte_for pa perm < 2^64.
Proof.
  intros Hp Hperm. unfold pte_for. rewrite <-Z.lor_assoc.
  pose proof (lor_flags perm PTE_V Hperm ltac:(lia)) as Hr.
  destruct (pte_of_page pa (Z.lor perm PTE_V) Hp Hr) as (? & ? & ?).
  repeat (split; [done|]). split; [|done]. rewrite !has_lor. by rewrite !orb_true_r.
Qed.

Lemma mappages_data s own roots pt va pa perm e :
  vm_inv s own roots → roots pt → 0 ≤ va < MAXVA → va mod PGSIZE = 0 →
  has (leaf (memory s) pt va) PTE_V = false → own pa = OData e → 0 ≤ perm < 1024 →
  ∃ r s' own1, mappages pt va PGSIZE pa perm s = Done (r, s') ∧ vm_keep (s, own) (s', own1) ∧
    tables_kept roots s s' ∧
    ((r = -1 ∧ vm_inv s' own1 roots ∧ vm_ext roots (s, own) (s', own1) ∧ ∀ p, own1 p ≠ OFree) ∨
     (r = 0 ∧ vm_inv s' (fupd own1 pa (OData (e - 1))) roots ∧
      leaf_upd roots s s' pt va (pte_for pa perm))).
Proof.
  intros H Hr Hv Ha Hno He Hperm.
  destruct (mappages_one s own roots pt va pa perm) as (r & s' & E & s1 & own1 & H1 & Hext & Hres); [done..|].
  destruct (vi_data _ _ _ H pa e He) as (Hp & _).
  destruct (pte_for_facts pa perm Hp Hperm) as (Hpp & _ & Hpv & Hp64).
  exists r, s', own1. split; [done|]. pose proof (vm_ext_keep _ _ _ Hext) as Hk.
  destruct Hres as [(-> & -> & Hnone)|(-> & t & Ht & ->)].
  { split; [done|]. split; [intros ? ? ? ?; apply (ve_table _ _ _ Hext)|left; done]. }
  assert (own1 pa = OData e) as He1 by (rewrite <-He; apply (ke_own _ _ Hk); cbn; congruence).
  assert (leaf (memory s1) pt va = leaf (memory s) pt va) as El by (by apply (ve_leaf _ _ _ Hext)).
  pose proof (vi_tree _ _ _ H1 pt va 2 t Hr Hv ltac:(lia) Ht) as Hot.
  destruct (vi_table _ _ _ H1 _ _ _ _ Hot) as [[Hta _] _].
  split.
  - destruct Hk as [Ho Hf Hrc Hm]. split; cbn [fst snd refcount memory set_memory] in *; [done..|].
    intros a Haf Hat. rewrite st64_entry_frame; [by apply Hm|done|apply PX_range; lia|].
    intros Ea. rewrite Ea in *. rewrite Ho in Hot by done. by rewrite Hot in Hat.
  - split.
    { intros r vb k t' Hr' Hvb Hk' E'.
      destruct (leaf_store s1 own1 roots pt va t (pte_for pa perm)) as [Htab _]; [done..|].
      cbn [memory set_memory]. rewrite Htab by done. by apply (ve_table _ _ _ Hext). }
    right. split; [done|]. split.
    + apply (vm_map s1 own1 roots pt va t); try done. by rewrite El.
    + intros r vb Hr' Hvb. cbn [memory set_memory].
      rewrite (entry_leaf s1 own1 roots pt va t (pte_for pa perm)) by done.
      case_decide; [done|]. by apply (ve_leaf _ _ _ Hext).
Qed.

(** ** Counting *)
Lemma mapped_times_unique m roots p n n' : mapped_times m roots p n → mapped_times m roots p n' → n = n'.
Proof.
  intros (L & HL & E & ->) (L' & HL' & E' & ->). f_equal. apply Permutation_length.
  apply NoDup_Permutation; [done..|]. intros x. by rewrite E, E'.
Qed.

(** The entries and the held references determine the reference count. *)
Lemma same_refcount s own s' own' roots p e :
  vm_inv s own roots → vm_inv s' own' roots →
  (∀ r vb, roots r → 0 ≤ vb < MAXVA → leaf (memory s') r vb = leaf (memory s) r vb) →
  own p = OData e → own' p = OData e → refcount s' (p / PGSIZE) = refcount s (p / PGSIZE).
Proof.
  intros H H' Hl He He'. destruct (vi_data _ _ _ H p e He) as (_ & n & Hn & ->).
  destruct (vi_data _ _ _ H' p e He') as (_ & n' & Hn' & ->). f_equal.
  apply (mapped_times_unique (memory s) roots p); [|done].
  revert Hn'. apply mapped_times_ext. intros x. symmetry. by apply maps_leaf_ext.
Qed.

(** A page without held references is mapped somewhere. *)
Lemma mapped_somewhere s own roots p : vm_inv s own roots → own p = OData 0 → ∃ x, maps (memory s) roots p x.
Proof.
  intros H He. pose proof (in_use _ _ _ _ _ H He).
  destruct (vi_data _ _ _ H p 0 He) as (_ & n & (L & _ & HL & ->) & E).
  destruct L as [|x L]; [cbn in E; lia|]. exists x. apply HL. set_solver.
Qed.

Lemma mapped_owner s own roots p x : vm_inv s own roots → maps (memory s) roots p x →
  (∃ e, own p = OData e) ∨ own p = OOther.
Proof.
  intros H (Hr & Hn & Hv & <-). apply (vi_leaf _ _ _ H); [done|lia|done].
Qed.

(** ** uvmalloc *)
Section uvmalloc.
Context (roots : Z → Prop) (pt lo perm : Z) (s0 : kmem) (own0 : Z → owner).
Context (H0 : vm_inv s0 own0 roots) (Hr : roots pt) (Hlo : 0 ≤ lo) (Halo : lo mod PGSIZE = 0).
Context (Hperm : 0 ≤ perm < 1024).

(** The pages of [lo, a) of the address space [pt] are mapped with [perm] to
    zero-filled pages that were free before and have one reference; nothing
    else has changed. *)
Record grown (a : Z) (s : kmem) (own : Z → owner) : Prop := {
  gr_inv : vm_inv s own roots;
  gr_own : ∀ p, own0 p ≠ OFree → own p = own0 p;
  gr_free : ∀ p, own0 p = OFree → own p = OFree ∨ is_table (own p) = true ∨ own p = OData 0;
  gr_rc : ∀ p, is_page p → own0 p ≠ OFree → refcount s (p / PGSIZE) = refcount s0 (p / PGSIZE);
  gr_mem : ∀ y, own0 (page_of y) ≠ OFree → is_table (own0 (page_of y)) = false → memory s y = memory s0 y;
  gr_new : ∀ vb, lo ≤ vb < a → ∃ pg, leaf (memory s) pt vb = pte_for pg perm ∧
    own0 pg = OFree ∧ own pg = OData 0 ∧ refcount s (pg / PGSIZE) = 1 ∧
    ∀ y, pg ≤ y < pg + PGSIZE → memory s y = 0;
  gr_old : ∀ r vb, roots r → 0 ≤ vb < MAXVA → ¬ (r = pt ∧ lo ≤ vb < a) →
    leaf (memory s) r vb = leaf (memory s0) r vb
}.

Lemma grown_start : grown lo s0 own0.
Proof. split; try done; try (intros; lia). by left. Qed.

Lemma grown_page a s own pg s' own1 :
  grown a s own → a mod PGSIZE = 0 → lo ≤ a → a + PGSIZE ≤ MAXVA → own pg = OFree → is_page pg →
  leaf_upd roots s s' pt a (pte_for pg perm) →
  vm_inv s' (fupd own1 pg (OData 0)) roots → own1 pg = OData 1 →
  (∀ p, own p ≠ OFree → own1 p = own p) →
  (∀ p, p ≠ pg → own p = OFree → own1 p = OFree ∨ is_table (own1 p) = true) →
  (∀ p, is_page p → own p ≠ OFree → refcount s' (p / PGSIZE) = refcount s (p / PGSIZE)) →
  refcount s' (pg / PGSIZE) = 1 →
  (∀ y, own (page_of y) ≠ OFree → is_table (own (page_of y)) = false → memory s' y = memory s y) →
  (∀ y, pg ≤ y < pg + PGSIZE → memory s' y = 0) →
  grown (a + PGSIZE) s' (fupd own1 pg (OData 0)).
Proof.
  intros G Ha Hla Hhi Hf Hp Hl H1 Hpg Ho Hfr Hrc Hrc1 Hm Hz.
  assert (Hne : ∀ p, own0 p ≠ OFree → own p ≠ OFree) by (intros p Hn; by rewrite (gr_own _ _ _ G)).
  assert (Hnpg : ∀ p, own p ≠ OFree → p ≠ pg) by congruence.
  split; [done|..].
  - intros p Hn. rewrite fupd_ne, Ho by auto. by apply G.
  - intros p Hn. rewrite fupd_spec. case_decide as E; [by right; right|].
    destruct (gr_free _ _ _ G p Hn) as [E1|E1].
    + destruct (Hfr p E E1); auto.
    + right. rewrite Ho; [done|]. intros E2. rewrite E2 in E1. naive_solver.
  - intros p Hpp Hn. rewrite Hrc by auto. by apply G.
  - intros y Hn Ht. rewrite Hm; [by apply G|by auto|]. by rewrite (gr_own _ _ _ G).
  - intros vb Hvb. rewrite (leaf_upd_range _ _ _ _ _ _ _ _ Hl) by (done || lia). case_decide as E.
    + exists pg. split; [done|]. split.
      * destruct (own0 pg) eqn:E0; [done|..]; exfalso; revert Hf; rewrite (gr_own _ _ _ G), E0 by congruence; done.
      * by rewrite fupd_eq.
    + destruct (gr_new _ _ _ G vb) as (q & El & Hq0 & Hq & Hqr & Hqz); [lia|].
      assert (Hqn : own q ≠ OFree) by congruence.
      destruct (vi_data _ _ _ (gr_inv _ _ _ G) q 0 Hq) as (Hqp & _).
      exists q. split; [done|]. split; [done|]. rewrite fupd_ne, Ho by auto. split; [done|].
      split; [by rewrite Hrc|]. intros y Hy. pose proof (page_of_in q y (proj1 Hqp) Hy) as Ey.
      rewrite Hm; [by apply Hqz|by rewrite Ey|by rewrite Ey, Hq].
  - intros r vb Hr' Hvb Hn. rewrite (leaf_upd_range _ _ _ _ _ _ _ _ Hl) by done.
    rewrite decide_False; [apply G; [done..|]|]; intros [-> ?]; apply Hn; split; (done || lia).
Qed.

(** Failure: the pages that were mapped are unmapped and freed again. *)
Lemma grown_undo a s own :
  grown a s own → a mod PGSIZE = 0 → lo ≤ a → a ≤ MAXVA →
  (∀ vb, lo ≤ vb < a → leaf (memory s0) pt vb = 0) →
  ∃ s' own', uvmdealloc pt a lo s = Done (lo, s') ∧ vm_inv s' own' roots ∧
    (∀ r vb, roots r → 0 ≤ vb < MAXVA → leaf (memory s') r vb = leaf (memory s0) r vb) ∧
    vm_keep (s0, own0) (s', own').
Proof.
  intros G Ha Hla Hhi Hzero.
  destruct (uvmdealloc_run s own roots pt a lo) as (s' & own' & E & H' & Hsh & Hl); try done; try lia.
  { apply G. }
  { rewrite !PGROUNDUP_aligned by (done || lia). intros vb Hvb _.
    destruct (gr_new _ _ _ G vb Hvb) as (pg & -> & _ & Hpg & _). exists 0. split; [done|].
    destruct (vi_data _ _ _ (gr_inv _ _ _ G) pg 0 Hpg) as (Hp & _).
    by destruct (pte_for_facts pg perm Hp Hperm) as (-> & _). }
  rewrite Z.min_r in E by lia. exists s', own'. split; [done|]. split; [done|].
  unfold leaf_clear in Hl. rewrite !PGROUNDUP_aligned in Hl by (done || lia).
  assert (Hleaf : ∀ r vb, roots r → 0 ≤ vb < MAXVA → leaf (memory s') r vb = leaf (memory s0) r vb).
  { intros r vb Hr' Hvb. rewrite Hl by done. case_decide as E1; [|by apply G].
    destruct E1 as [-> E1]. rewrite Hzero by done. destruct (gr_new _ _ _ G vb E1) as (pg & -> & _ & Hpg & _).
    destruct (vi_data _ _ _ (gr_inv _ _ _ G) pg 0 Hpg) as (Hp & _). unfold cleared.
    destruct (pte_for_facts pg perm Hp Hperm) as (_ & _ & -> & _). done. }
  assert (Hmaps : ∀ p x, maps (memory s') roots p x ↔ maps (memory s0) roots p x).
  { intros p x. by apply maps_leaf_ext. }
  assert (Hown : ∀ p, own0 p ≠ OFree → own' p = own0 p).
  { intros p Hn. destruct (sh_own _ _ Hsh p) as [E1|[E1 E2]]; cbn [fst snd] in *.
    - rewrite E1. by apply G.
    - rewrite (gr_own _ _ _ G) in E1 by done. destruct (mapped_somewhere _ _ _ _ H0 E1) as [x Hx].
      apply Hmaps in Hx. destruct (mapped_owner _ _ _ _ _ H' Hx) as [[? ?]|?]; congruence. }
  split; [done|]. split; cbn [fst snd]; [done|..].
  - intros p Hn. destruct (sh_own _ _ Hsh p) as [E1|[_ E2]]; cbn [fst snd] in *; [|by left].
    rewrite E1. destruct (gr_free _ _ _ G p Hn) as [|[|E2]]; [by left|by right|].
    rewrite E2 in E1. destruct (mapped_somewhere _ _ _ _ H' E1) as [x Hx].
    apply Hmaps in Hx. destruct (mapped_owner _ _ _ _ _ H0 Hx) as [[? ?]|?]; congruence.
  - intros p Hp Hn. pose proof (Hown p Hn) as Hop. destruct (own0 p) as [| r d x|e|] eqn:E0; [done|..].
    + destruct (vi_table _ _ _ H0 _ _ _ _ E0), (vi_table _ _ _ H' _ _ _ _ Hop). congruence.
    + by eapply same_refcount.
    + by apply (vi_other _ _ _ H0) in E0.
  - intros y Hn Ht. rewrite <-(gr_mem _ _ _ G) by done. apply (sh_mem _ _ Hsh); cbn [fst snd]; by rewrite Hown.
Qed.

Lemma grown_keep a s own s' own' :
  grown a s own → a ≤ MAXVA → vm_inv s' own' roots → vm_keep (s, own) (s', own') →
  (∀ r vb, roots r → 0 ≤ vb < MAXVA → leaf (memory s') r vb = leaf (memory s) r vb) →
  grown a s' own'.
Proof.
  intros G Ha H' [Ho Hf Hrc Hm] Hl. cbn [fst snd] in *.
  assert (Hne : ∀ p, own0 p ≠ OFree → own p ≠ OFree) by (intros p Hn; by rewrite (gr_own _ _ _ G)).
  split; [done|..].
  - intros p Hn. rewrite Ho by auto. by apply G.
  - intros p Hn. destruct (gr_free _ _ _ G p Hn) as [E|E]; [destruct (Hf p E); auto|].
    right. rewrite Ho; [done|]. intros E2. rewrite E2 in E. naive_solver.
  - intros p Hp Hn. rewrite Hrc by auto. by apply G.
  - intros y Hn Ht. rewrite Hm; [by apply G|by auto|]. by rewrite (gr_own _ _ _ G).
  - intros vb Hvb. rewrite Hl by (done || lia).
    destruct (gr_new _ _ _ G vb Hvb) as (q & El & Hq0 & Hq & Hqr & Hqz).
    assert (Hqn : own q ≠ OFree) by congruence.
    destruct (vi_data _ _ _ (gr_inv _ _ _ G) q 0 Hq) as (Hqp & _).
    exists q. split; [done|]. split; [done|]. rewrite Ho by done. split; [done|].
    split; [by rewrite Hrc|]. intros y Hy. pose proof (page_of_in q y (proj1 Hqp) Hy) as Ey.
    rewrite Hm; [by apply Hqz|by rewrite Ey|by rewrite Ey, Hq].
  - intros r vb Hr' Hvb Hn. rewrite Hl by done. by apply G.
Qed.

(** One page: allocated, cleared and mapped; or nothing, with the page given
    back when it could not be mapped. *)
Lemma grown_step a s own :
  grown a s own → a mod PGSIZE = 0 → lo ≤ a → a + PGSIZE ≤ MAXVA → leaf (memory s0) pt a = 0 →
  (kalloc s = Done (0, s)) ∨
  ∃ pg r s2, kalloc s = Done (pg, allocated pg s) ∧ pg ≠ 0 ∧
    mappages pt a PGSIZE pg perm (zeroed pg s) = Done (r, s2) ∧
    ((r = 0 ∧ ∃ own2, grown (a + PGSIZE) s2 own2) ∨
     (r = -1 ∧ ∃ s3 own3, kfree pg s2 = Done (tt, s3) ∧ grown a s3 own3)).
Proof.
  intros G Ha Hla Hhi Hz0.
  destruct (vm_zeroed s own roots (gr_inv _ _ _ G)) as [[Ek _]|(pg & Ek & Hp & Hf & H2 & Hlf & _)]; [by left|right].
  assert (Hleaf0 : leaf (memory (zeroed pg s)) pt a = 0).
  { rewrite Hlf by (done || lia). rewrite (gr_old _ _ _ G); [done|done|lia|]. lia. }
  destruct (mappages_data (zeroed pg s) (fupd own pg (OData 1)) roots pt a pg perm 1)
    as (r & s2 & own1 & Em & Hk & _ & Hres); [done|done|lia|done|by rewrite Hleaf0|apply fupd_eq|done|].
  exists pg, r, s2. split; [done|]. split; [by apply page_nonzero|]. split; [done|].
  assert (Hne : ∀ p, own p ≠ OFree → p ≠ pg) by congruence.
  destruct Hk as [Ho Hfr Hrc Hm]. cbn [fst snd] in *.
  assert (Ho1 : ∀ p, own p ≠ OFree → own1 p = own p).
  { intros p Hn. pose proof (Hne p Hn). rewrite Ho; by rewrite fupd_ne. }
  assert (Hopg : own1 pg = OData 1) by (rewrite Ho; by rewrite fupd_eq).
  assert (Hfr1 : ∀ p, p ≠ pg → own p = OFree → own1 p = OFree ∨ is_table (own1 p) = true).
  { intros p Hn E. apply Hfr. by rewrite fupd_ne. }
  assert (Hrc1 : ∀ p, is_page p → own p ≠ OFree → refcount s2 (p / PGSIZE) = refcount s (p / PGSIZE)).
  { intros p Hpp Hn. pose proof (Hne p Hn). rewrite Hrc; [|assumption|by rewrite fupd_ne].
    by rewrite zeroed_refcount, decide_False. }
  assert (Hm1 : ∀ y, own (page_of y) ≠ OFree → is_table (own (page_of y)) = false → memory s2 y = memory s y).
  { intros y Hn Ht. pose proof (Hne _ Hn). rewrite Hm by (by rewrite fupd_ne). by apply zeroed_other. }
  destruct Hres as [(-> & H3 & Hext & Hnf)|(-> & H3 & Hl)].
  - right. split; [done|]. destruct (vm_drop s2 own1 roots pg 1 H3 Hopg ltac:(left; lia)) as (_ & Ekf & H4 & Hl4).
    eexists _, _. split; [exact Ekf|]. assert (refcount s2 (pg / PGSIZE) = 1) as Hr1.
    { rewrite Hrc; [|assumption|by rewrite fupd_eq]. by rewrite zeroed_refcount, decide_True. }
    unfold own_dropped in *. rewrite Hr1 in *. cbn [Z.ltb Z.compare Pos.compare Pos.compare_cont] in *.
    apply (grown_keep a s own); [done|lia|done| |].
    + split; cbn [fst snd].
      * intros p Hn. pose proof (Hne p Hn). rewrite fupd_ne by done. by apply Ho1.
      * intros p E. rewrite fupd_spec. case_decide; [by left|by apply Hfr1].
      * intros p Hpp Hn. rewrite dropped_refcount, decide_False; [by apply Hrc1|].
        intros E%page_idx_inj; [by apply (Hne p)|done..].
      * intros y Hn Ht. rewrite dropped_other; [by apply Hm1|apply Hp|by apply Hne].
    + intros r vb Hr' Hvb. rewrite Hl4 by done. pose proof (ve_leaf _ _ _ Hext r vb Hr' Hvb) as E.
      cbn [fst] in E. rewrite E. by apply Hlf.
  - left. split; [done|]. exists (fupd own1 pg (OData 0)). apply (grown_page a s own pg s2 own1); try assumption.
    + intros r vb Hr' Hvb. rewrite Hl, Hlf by done. done.
    + rewrite Hrc; [|assumption|by rewrite fupd_eq]. by rewrite zeroed_refcount, decide_True.
    + intros y Hy. pose proof (page_of_in pg y (proj1 Hp) Hy) as Ey.
      rewrite Hm; [apply zeroed_page; assumption| |]; by rewrite Ey, fupd_eq.
Qed.

Lemma uvmalloc_loop hi k : ∀ a s own,
  grown a s own → a mod PGSIZE = 0 → lo ≤ a → PGROUNDUP hi ≤ MAXVA → 0 ≤ hi ≤ MAXVA →
  a ≤ PGROUNDUP hi → k = S (Z.to_nat ((PGROUNDUP hi - a) / PGSIZE)) →
  (∀ vb, lo ≤ vb < PGROUNDUP hi → leaf (memory s0) pt vb = 0) →
  ∃ r s' own',
    while k (λ a,
      if a <? hi then
        m <- kalloc ;;
        if m =? 0 then
          _ <- uvmdealloc pt a lo ;; ret (inr 0)
        else
        kmemset m 0 (Z.to_nat PGSIZE) ;;
        r <- mappages pt a PGSIZE m perm ;;
        if negb (r =? 0) then
          kfree m ;;
          _ <- uvmdealloc pt a lo ;; ret (inr 0)
        else ret (inl (u64 (a + PGSIZE)))
      else ret (inr hi)) a s = Done (r, s') ∧
    ((r = hi ∧ grown (PGROUNDUP hi) s' own') ∨
     (r = 0 ∧ vm_inv s' own' roots ∧ vm_keep (s0, own0) (s', own') ∧
      ∀ r vb, roots r → 0 ≤ vb < MAXVA → leaf (memory s') r vb = leaf (memory s0) r vb)).
Proof.
  induction k as [|k IH]; intros a s own G Ha Hla Hhi Hhi0 Hak Ek Hz; [lia|].
  destruct (PGROUNDUP_spec hi) as [Hu1 Hu2]; [lia..|].
  rewrite while_S. destruct (Z.ltb_spec a hi) as [Hlt|Hge].
  - assert (a + PGSIZE ≤ PGROUNDUP hi) by dlia.
    assert (Hundo : ∀ a s own, grown a s own → a mod PGSIZE = 0 → lo ≤ a → a ≤ PGROUNDUP hi →
      ∃ s' own', uvmdealloc pt a lo s = Done (lo, s') ∧ vm_inv s' own' roots ∧
      (∀ r vb, roots r → 0 ≤ vb < MAXVA → leaf (memory s') r vb = leaf (memory s0) r vb) ∧
      vm_keep (s0, own0) (s', own')).
    { intros a' s' own' G' ? ? ?. apply grown_undo with own'; try assumption; [lia|].
      intros; apply Hz; lia. }
    destruct (grown_step a s own G Ha Hla ltac:(lia)) as [Ek0|(pg & r & s2 & Ek0 & Hpg & Em & Hres)].
    { apply Hz. lia. }
    + destruct (Hundo a s own G Ha Hla ltac:(lia)) as (s' & own' & Ed & ? & ? & ?).
      exists 0, s', own'. rewrite (bind_done _ _ _ _ _ Ek0), Z.eqb_refl, (bind_done _ _ _ _ _ Ed).
      split; [reflexivity|]. right. auto.
    + rewrite (bind_done _ _ _ _ _ Ek0), (proj2 (Z.eqb_neq _ _) Hpg).
      rewrite (bind_done _ _ _ _ _ (kmemset_allocated _ _)), (bind_done _ _ _ _ _ Em).
      destruct Hres as [(-> & own2 & G2)|(-> & s3 & own3 & Ekf & G3)].
      * rewrite Z.eqb_refl. cbn [negb]. unfold ret. rewrite u64_small by lia.
        apply (IH (a + PGSIZE) s2 own2); try assumption; [dlia|lia|].
        enough ((PGROUNDUP hi - a) / PGSIZE = (PGROUNDUP hi - (a + PGSIZE)) / PGSIZE + 1 ∧
                0 ≤ (PGROUNDUP hi - (a + PGSIZE)) / PGSIZE) by lia.
        dlia.
      * cbn [Z.eqb negb]. destruct (Hundo a s3 own3 G3 Ha Hla ltac:(lia)) as (s' & own' & Ed & ? & ? & ?).
        exists 0, s', own'. rewrite (bind_done _ _ _ _ _ Ekf), (bind_done _ _ _ _ _ Ed).
        split; [reflexivity|]. right. auto.
  - exists hi, s, own. split; [done|]. left. split; [done|]. by replace (PGROUNDUP hi) with a by dlia.
Qed.

End uvmalloc.

(** ** uvmcreate *)
Lemma leaf_new_root m pg va : (∀ y, pg ≤ y < pg + PGSIZE → m y = 0) →
  leaf m pg va = 0 ∧ ∀ d t, table_of m pg va d = Some t → d = 0%nat ∧ t = pg.
Proof.
  intros Hz. assert (table_of m pg va 1 = None) as Hn.
  { rewrite table_of_S. cbn [table_of]. cbv zeta. pose proof (PX_range (2 - Z.of_nat 0) va ltac:(lia)).
    rewrite ld64_zero; [by rewrite has_0|]. intros y Hy. apply Hz. lia. }
  split; [unfold leaf; by rewrite table_of_S, Hn|].
  intros d t. destruct d as [|d]; [by intros [= ->]|]. intros E. exfalso. revert t E.
  induction d as [|d IH]; intros t; [by rewrite Hn|]. rewrite table_of_S.
  destruct (table_of m pg va (S d)) as [t'|]; [by destruct (IH t')|done].
Qed.

Definition add_root (roots : Z → Prop) (pg r : Z) : Prop := roots r ∨ r = pg.

Lemma vm_new_root s own roots pg :
  vm_inv s own roots → own pg = OData 1 → refcount s (pg / PGSIZE) = 1 →
  (∀ y, pg ≤ y < pg + PGSIZE → memory s y = 0) →
  vm_inv s (fupd own pg (OTable pg 0 0)) (add_root roots pg).
Proof.
  intros H Hpg Hrc Hz. destruct (vi_data _ _ _ H pg 1 Hpg) as (Hp & n & Hn & E).
  replace n with 0 in Hn by lia.
  assert (Hmaps : ∀ p x, maps (memory s) (add_root roots pg) p x ↔ maps (memory s) roots p x).
  { intros p x. unfold maps. split; [|by intros (? & ?); split; [left|]].
    intros ([Hr|Hr] & Hx & Hv & Hpa); [done|]. rewrite Hr in Hv.
    destruct (leaf_new_root (memory s) pg (x.2 * PGSIZE) Hz) as [El _]. by rewrite El, has_0 in Hv. }
  destruct (vi_free _ _ _ H) as (free & Hok & Hfree). split.
  - exists free. split; [done|]. intros p. rewrite Hfree, fupd_spec. case_decide; [|done]. by subst; rewrite Hpg.
  - intros p r d x. rewrite fupd_spec. case_decide; [by subst|]. apply H.
  - intros p e. rewrite fupd_spec. case_decide; [done|]. intros Hpe.
    destruct (vi_data _ _ _ H p e Hpe) as (? & k & Hk & ?). split; [done|]. exists k. split; [|done].
    revert Hk. unfold mapped_times. setoid_rewrite Hmaps. done.
  - intros p. rewrite fupd_spec. case_decide; [done|]. apply H.
  - intros r va d t Hr Hv Hd Ht. destruct (decide (r = pg)) as [->|Hne].
    + destruct (leaf_new_root (memory s) pg va Hz) as [_ El]. destruct (El d t Ht) as [-> ->].
      rewrite fupd_eq. f_equal. rewrite (prefix_0 va 0) by lia. done.
    + destruct Hr as [Hr| ->]; [|done]. pose proof (vi_tree _ _ _ H r va d t Hr Hv Hd Ht) as Ho.
      rewrite fupd_ne; [done|]. congruence.
  - intros r va d t Hr Hv Hd Ht. destruct (decide (r = pg)) as [->|Hne].
    + destruct (leaf_new_root (memory s) pg va Hz) as [_ El]. destruct (El d t Ht) as [-> ->].
      cbv zeta. pose proof (PX_range (2 - Z.of_nat 0) va ltac:(lia)).
      rewrite ld64_zero; [by rewrite has_0|]. intros y Hy. apply Hz. lia.
    + destruct Hr as [Hr| ->]; [|done]. by apply (vi_inner _ _ _ H r va d t).
  - intros r va [Hr| ->] Hv Hval.
    + assert (PTE2PA (leaf (memory s) r va) ≠ pg).
      { intros E'. apply (mapped_times_zero _ _ _ (r, va / PGSIZE) Hn). by apply maps_at. }
      rewrite fupd_ne by done. by apply H.
    + destruct (leaf_new_root (memory s) pg va Hz) as [El _]. by rewrite El, has_0 in Hval.
Qed.

End user.
