(* ===== verification/VmCow.v ===== *)
(** kernel/vm.c: copy-on-write.  uvmcopy shares the pages of the parent
    read-only with the child, vmfault gives a writer a page of its own. *)

From S2P Require Import Prelude Riscv Memory Kalloc Vm VmSpec VmMap VmUser.

#[local] Opaque memset kmemset zeroed allocated mappages kalloc dropped uvmunmap walk.

Section cow.
Context `{KI : KernelImage}.

(** ** Entries without the write bit *)
Definition ro (w : Z) : Z := Z.land w (Z.lnot PTE_W).

Lemma has_ro w f : has (ro w) f = has w (Z.land f (Z.lnot PTE_W)).
Proof. unfold has, ro. by rewrite <-Z.land_assoc, (Z.land_comm (Z.lnot PTE_W)). Qed.

Lemma has_ro_V w : has (ro w) PTE_V = has w PTE_V.
Proof. by rewrite has_ro. Qed.

Lemma has_ro_W w : has (ro w) PTE_W = false.
Proof. rewrite has_ro. unfold has. change (Z.land PTE_W (Z.lnot PTE_W)) with 0. by rewrite Z.land_0_r. Qed.

Lemma PTE2PA_ro w : PTE2PA (ro w) = PTE2PA w.
Proof.
  unfold PTE2PA, ro. rewrite Z.shiftr_land. change (Z.shiftr (Z.lnot PTE_W) 10) with (-1).
  by rewrite Z.land_m1_r.
Qed.

Lemma ro_range w : 0 ≤ w < 2^64 → 0 ≤ ro w < 2^64.
Proof.
  intros Hw. assert (ro w = ro w mod 2^64) as ->; [|apply Z.mod_pos_bound; lia].
  rewrite <-Z.land_ones by lia. unfold ro.
  rewrite <-Z.land_assoc, (Z.land_comm (Z.lnot _)), Z.land_assoc, Z.land_ones by lia.
  by rewrite Z.mod_small.
Qed.

Lemma flags_ro w : Z.land (PTE_FLAGS w) (Z.lnot PTE_W) = PTE_FLAGS (ro w).
Proof. unfold PTE_FLAGS, ro. rewrite <-!Z.land_assoc. f_equal. Qed.

Lemma PTE_FLAGS_range w : 0 ≤ PTE_FLAGS w < 1024.
Proof.
  unfold PTE_FLAGS. change 1023 with (Z.ones 10). rewrite Z.land_ones by lia.
  apply Z.mod_pos_bound. lia.
Qed.

Lemma leaf_64 s own roots r va : vm_inv s own roots → 0 ≤ leaf (memory s) r va < 2^64.
Proof.
  intros H. destruct (vi_free _ _ _ H) as (free & Hok & _). unfold leaf.
  destruct (table_of (memory s) r va 2); [|lia]. apply ld64_range, (fl_mem _ _ (ko_fl _ _ Hok)).
Qed.

(** ** One page of uvmcopy *)
Record shared_page (roots : Z → Prop) (old new i : Z) (s : kmem) (own : Z → owner)
    (s' : kmem) (own' : Z → owner) : Prop := {
  sp_inv : vm_inv s' own' roots;
  sp_own : ∀ p, own p ≠ OFree → own' p = own p;
  sp_free : ∀ p, own p = OFree → own' p = OFree ∨ is_table (own' p) = true;
  sp_mem : ∀ y, own (page_of y) ≠ OFree → is_table (own (page_of y)) = false → memory s' y = memory s y;
  sp_leaf : ∀ r vb, roots r → 0 ≤ vb < MAXVA →
    let w := leaf (memory s) old i in
    leaf (memory s') r vb =
    if decide (i ≤ vb < i + PGSIZE ∧ r = old) then ro w
    else if decide (i ≤ vb < i + PGSIZE ∧ r = new) then pte_for (PTE2PA w) (PTE_FLAGS (ro w))
    else leaf (memory s) r vb
}.

Lemma share_page s own roots old new i e :
  vm_inv s own roots → roots old → roots new → old ≠ new → 0 ≤ i < MAXVA → i mod PGSIZE = 0 →
  has (leaf (memory s) new i) PTE_V = false →
  let w := leaf (memory s) old i in
  has w PTE_V = true → own (PTE2PA w) = OData e → e ≤ MAXHELD →
  ∃ s1 own1,
    (uvmcopy_page old new i s = (uvmunmap new 0 (i / PGSIZE) true ;; ret (inr (-1))) s1 ∧
     vm_inv s1 own1 roots ∧ vm_ext roots (s, own) (s1, own1)) ∨
    (uvmcopy_page old new i s = Done (inl tt, s1) ∧ shared_page roots old new i s own s1 own1).
Proof.
  intros H Hro Hrn Hne Hi Hai Hnew w Hw He Hmax. unfold uvmcopy_page.
  rewrite (bind_done _ _ _ _ _ (walk_false_run s old i (proj2 Hi))).
  destruct (table_of (memory s) old i 2) as [t|] eqn:Ht;
    [|by exfalso; revert Hw; unfold w, leaf; rewrite Ht, has_0].
  rewrite (entry_nonzero s own roots old i t) by done.
  rewrite (bind_done _ _ _ _ _ (load64_run _ _)), (leaf_at _ _ _ _ Ht). fold w. rewrite Hw. cbn [negb].
  rewrite flags_ro. set (pa := PTE2PA w) in *.
  destruct (mappages_data s own roots new i pa (PTE_FLAGS (ro w)) e)
    as (r & s1 & own1 & Em & Hk & Htk & Hres); [done..|apply PTE_FLAGS_range|].
  rewrite (bind_done _ _ _ _ _ Em).
  destruct Hres as [(-> & H1 & Hext & _)|(-> & H1 & Hl)].
  { exists s1, own1. left. done. }
  cbn [Z.eqb negb]. exists (referenced pa (set_memory (st64 (memory s1) (t + 8 * PX 0 i) (ro w)) s1)), own1.
  right.
  assert (Ht1 : table_of (memory s1) old i 2 = Some t) by (apply Htk; [done|done|lia|done]).
  assert (Hw1 : leaf (memory s1) old i = w) by (rewrite Hl, decide_False by naive_solver; done).
  rewrite (bind_done _ _ _ _ _ (load64_run _ _)), (leaf_at _ _ _ _ Ht1), Hw1.
  rewrite (bind_done _ _ _ _ _ (store64_run _ _ _)).
  pose proof (leaf_64 s own roots old i H) as Hw64. fold w in Hw64.
  pose proof (ro_range w Hw64) as Hr64.
  pose proof (vm_reflag s1 _ roots old i t (ro w) H1 Hro Hi Ht1 Hr64) as H2. rewrite Hw1 in H2.
  specialize (H2 ltac:(left; apply PTE2PA_ro)
                 ltac:(left; split; [by rewrite has_ro_V|apply PTE2PA_ro]) ltac:(by left)).
  destruct (vm_inc _ _ roots pa (e - 1) H2 (fupd_eq _ _ _) ltac:(lia)) as [Ei H3].
  fold (ro w). rewrite (bind_done _ _ _ _ _ Ei). split; [reflexivity|].
  assert (Hpa1 : own1 pa = OData e) by (rewrite <-He; apply (ke_own _ _ Hk); cbn; congruence).
  pose proof (vi_tree _ _ _ H1 old i 2 t Hro Hi ltac:(lia) Ht1) as Hot.
  destruct (vi_table _ _ _ H1 _ _ _ _ Hot) as [[Hta _] _].
  split.
  - eapply vm_inv_proper; [reflexivity| |reflexivity|exact H3]. intros p.
    rewrite !fupd_spec. case_decide; [|done]. subst p. rewrite Hpa1. f_equal. lia.
  - apply Hk.
  - apply Hk.
  - intros y Hy Hyt. cbn [memory referenced set_refcount set_memory].
    rewrite st64_entry_frame; [by apply (ke_mem _ _ Hk)|done|apply PX_range; lia|].
    intros Ey. assert (own t = OTable old 2 (prefix 2 i)) as E by (by apply (vi_tree _ _ _ H)).
    by rewrite Ey, E in Hyt.
  - intros r vb Hr' Hvb. cbv zeta. cbn [memory referenced set_refcount set_memory]. fold w pa.
    rewrite (entry_leaf s1 _ roots old i t (ro w) H1) by done. rewrite Hl by done.
    pose proof (same_page_iff i vb Hai). repeat case_decide; naive_solver.
Qed.

(** Decisions on a bound and a root. *)
Ltac dec_if :=
  repeat first
    [ rewrite decide_True by (split; (lia || reflexivity))
    | rewrite decide_False by (intros [? ?]; (lia || congruence)) ].

(** ** uvmcopy *)
Definition parent_entry (w : Z) : Z := if has w PTE_V then ro w else w.
Definition child_entry (w : Z) : Z := if has w PTE_V then pte_for (PTE2PA w) (PTE_FLAGS (ro w)) else 0.

Lemma parent_entry_maps w : has (parent_entry w) PTE_V = has w PTE_V ∧ PTE2PA (parent_entry w) = PTE2PA w.
Proof. unfold parent_entry. case_if; [|done]. by rewrite has_ro_V, PTE2PA_ro. Qed.

Section uvmcopy.
Context (roots : Z → Prop) (old new top : Z) (s0 : kmem) (own0 : Z → owner).
Context (H0 : vm_inv s0 own0 roots) (Hro : roots old) (Hrn : roots new) (Hne : old ≠ new).
Context (Htop : top ≤ MAXVA).
Context (Hold : ∀ vb, 0 ≤ vb < top → user_leaf own0 (leaf (memory s0) old vb)).
Context (Hnew : ∀ vb, 0 ≤ vb < top → leaf (memory s0) new vb = 0).

(** What both outcomes have in common: no page changes hands or contents. *)
Record kept (s : kmem) (own : Z → owner) : Prop := {
  kp_inv : vm_inv s own roots;
  kp_own : ∀ p, own0 p ≠ OFree → own p = own0 p;
  kp_free : ∀ p, own0 p = OFree → own p = OFree ∨ is_table (own p) = true;
  kp_mem : ∀ y, own0 (page_of y) ≠ OFree → is_table (own0 (page_of y)) = false → memory s y = memory s0 y
}.

Definition copied_leaves (i : Z) (s : kmem) : Prop :=
  ∀ r vb, roots r → 0 ≤ vb < MAXVA →
  leaf (memory s) r vb =
  if decide (vb < i ∧ r = old) then parent_entry (leaf (memory s0) old vb)
  else if decide (vb < i ∧ r = new) then child_entry (leaf (memory s0) old vb)
  else leaf (memory s0) r vb.

Lemma kept_start : kept s0 own0.
Proof. split; try done. by left. Qed.

Lemma kept_more s own s' own' :
  kept s own → vm_inv s' own' roots →
  (∀ p, own p ≠ OFree → own' p = own p) →
  (∀ p, own p = OFree → own' p = OFree ∨ is_table (own' p) = true) →
  (∀ y, own (page_of y) ≠ OFree → is_table (own (page_of y)) = false → memory s' y = memory s y) →
  kept s' own'.
Proof.
  intros K H' Ho Hf Hm.
  assert (Hnf : ∀ p, own0 p ≠ OFree → own p ≠ OFree) by (intros p Hn; by rewrite (kp_own _ _ K)).
  split; [done|..].
  - intros p Hn. rewrite Ho by auto. by apply K.
  - intros p Hn. destruct (kp_free _ _ K p Hn) as [E|E]; [by apply Hf|].
    right. rewrite Ho; [done|]. intros E'. by rewrite E' in E.
  - intros y Hn Ht. rewrite Hm; [by apply K|by auto|]. by rewrite (kp_own _ _ K).
Qed.

Lemma child_user_leaf i s own vb : kept s own → copied_leaves i s → i ≤ top → 0 ≤ vb < i →
  user_leaf own (leaf (memory s) new vb).
Proof.
  intros K C Hi Hvb. rewrite C by (done || lia).
  rewrite decide_False, decide_True by naive_solver. unfold child_entry.
  destruct (has (leaf (memory s0) old vb) PTE_V) eqn:Ev; [|intros E; by rewrite has_0 in E].
  intros _. destruct (Hold vb ltac:(lia) Ev) as (e & He0 & He). exists e. split; [done|].
  destruct (vi_data _ _ _ H0 _ _ He) as [Hp _].
  destruct (pte_for_facts _ (PTE_FLAGS (ro (leaf (memory s0) old vb))) Hp (PTE_FLAGS_range _)) as (-> & _).
  rewrite (kp_own _ _ K); [done|congruence].
Qed.

(** Failure after the pages below [i] have been shared: the child's mappings
    are removed again. *)
Lemma copied_undo i s own :
  kept s own → copied_leaves i s → 0 ≤ i → i ≤ top → i mod PGSIZE = 0 →
  ∃ s' own', uvmunmap new 0 (i / PGSIZE) true s = Done (tt, s') ∧ kept s' own' ∧
    ∀ r vb, roots r → 0 ≤ vb < MAXVA →
      leaf (memory s') r vb =
      if decide (vb < i ∧ r = old) then parent_entry (leaf (memory s0) old vb) else leaf (memory s0) r vb.
Proof.
  intros K C Hi Hit Ha.
  destruct (uvmunmap_run (Z.to_nat (i / PGSIZE)) s own roots new 0) as (s' & own' & E & H' & Hsh & Hl);
    rewrite ?Z2Nat.id in * by (apply Z.div_pos; lia).
  { apply K. } { done. } { lia. } { dlia. } { done. }
  { intros vb Hvb. apply (child_user_leaf i); [done..|dlia]. }
  replace (0 + i / PGSIZE * PGSIZE) with i in Hl by dlia.
  assert (Hleaf : ∀ r vb, roots r → 0 ≤ vb < MAXVA → leaf (memory s') r vb =
      if decide (vb < i ∧ r = old) then parent_entry (leaf (memory s0) old vb) else leaf (memory s0) r vb).
  { intros r vb Hr' Hvb. rewrite Hl by done. destruct (decide (r = new ∧ 0 ≤ vb < i)) as [[-> Hb]|Hb].
    - rewrite decide_False by naive_solver. rewrite Hnew by lia.
      destruct (has (leaf (memory s) new vb) PTE_V) eqn:Ev; unfold cleared; rewrite Ev; [done|].
      revert Ev. rewrite C by done. rewrite decide_False, decide_True by naive_solver lia. unfold child_entry.
      destruct (has (leaf (memory s0) old vb) PTE_V) eqn:Ev0; [|done].
      destruct (Hold vb ltac:(lia) Ev0) as (e & _ & He). destruct (vi_data _ _ _ H0 _ _ He) as [Hp _].
      destruct (pte_for_facts _ (PTE_FLAGS (ro (leaf (memory s0) old vb))) Hp (PTE_FLAGS_range _)) as (_ & _ & -> & _).
      done.
    - rewrite C by done. case_decide; [done|]. rewrite decide_False; [done|]. intros [? ->]. apply Hb. lia. }
  exists s', own'. split; [done|]. split; [|done].
  assert (Hmap : ∀ p x, maps (memory s0) roots p x → maps (memory s') roots p x).
  { intros p [r n] (Hr' & Hn & Hv & Hp). cbn [fst snd] in *. unfold maps. cbn [fst snd].
    split; [done|]. split; [done|]. rewrite Hleaf by (done || lia). case_decide as Ed; [|done].
    destruct Ed as [_ ->]. destruct (parent_entry_maps (leaf (memory s0) old (n * PGSIZE))) as [-> ->]. done. }
  assert (Hown : ∀ p, own0 p ≠ OFree → own' p = own0 p).
  { intros p Hn. destruct (sh_own _ _ Hsh p) as [E1|[E1 E2]]; cbn [fst snd] in *.
    - rewrite E1. by apply K.
    - rewrite (kp_own _ _ K) in E1 by done. destruct (mapped_somewhere _ _ _ _ H0 E1) as [x Hx].
      apply Hmap in Hx. destruct (mapped_owner _ _ _ _ _ H' Hx) as [[? ?]|?]; congruence. }
  split; [done|done|..].
  - intros p Hn. destruct (sh_own _ _ Hsh p) as [E1|[_ E1]]; cbn [fst snd] in *; [|by left].
    rewrite E1. by apply K.
  - intros y Hn Ht. rewrite <-(kp_mem _ _ K) by done. apply (sh_mem _ _ Hsh); cbn [fst snd]; by rewrite Hown.
Qed.

(** One more page of the parent. *)
Lemma copied_step i s own :
  kept s own → copied_leaves i s → 0 ≤ i → i + PGSIZE ≤ top → i mod PGSIZE = 0 →
  ∃ r s' own', uvmcopy_page old new i s = Done (r, s') ∧ kept s' own' ∧
    ((r = inl tt ∧ copied_leaves (i + PGSIZE) s') ∨
     (r = inr (-1) ∧ ∀ r vb, roots r → 0 ≤ vb < MAXVA →
      leaf (memory s') r vb =
      if decide (vb < i ∧ r = old) then parent_entry (leaf (memory s0) old vb) else leaf (memory s0) r vb)).
Proof.
  intros K C Hi Hit Ha. set (w := leaf (memory s) old i).
  assert (Hw : w = leaf (memory s0) old i).
  { unfold w. rewrite C, decide_False, decide_False by (done || lia). done. }
  assert (Hwn : leaf (memory s) new i = 0).
  { rewrite C, decide_False, decide_False by (done || lia). apply Hnew. lia. }
  assert (Hpage : ∀ vb, i ≤ vb < i + PGSIZE → leaf (memory s0) old vb = w ∧ leaf (memory s0) new vb = 0).
  { intros vb Hvb. rewrite Hw. split; [|apply Hnew; lia]. apply leaf_page. by apply same_page_iff. }
  destruct (has w PTE_V) eqn:Ev.
  - destruct (Hold i ltac:(lia)) as (e & He0 & He); [by rewrite <-Hw|]. rewrite <-Hw in He.
    rewrite <-(kp_own _ _ K) in He by congruence.
    destruct (share_page s own roots old new i e) as (s1 & own1 & [(Er & H1 & Hext)|(Er & Hsp)]);
      [apply K|done|done|done|lia|done|by rewrite Hwn, has_0|done|done|lia|..].
    + destruct (copied_undo i s1 own1) as (s2 & own2 & Eu & K2 & Hl2); [|..|lia|lia|done|].
      * destruct Hext as [Ho Hf _ _ Hm _]. by apply (kept_more s own).
      * intros r vb Hr Hvb. pose proof (ve_leaf _ _ _ Hext r vb Hr Hvb) as E. cbn [fst] in E.
        rewrite E. by apply C.
      * exists (inr (-1)), s2, own2. rewrite Er, (bind_done _ _ _ _ _ Eu). split; [done|]. split; [done|]. by right.
    + exists (inl tt), s1, own1. split; [done|]. destruct Hsp as [H1 Ho Hf Hm Hl].
      split; [by apply (kept_more s own)|]. left. split; [done|]. intros r vb Hr Hvb.
      rewrite Hl by done. cbv zeta. fold w. destruct (decide (i ≤ vb < i + PGSIZE)) as [Hb|Hb].
      * destruct (Hpage vb Hb) as [Ew En]. rewrite Ew. unfold parent_entry, child_entry. rewrite Ev.
        destruct (decide (r = old)) as [->|]; [by dec_if|].
        destruct (decide (r = new)) as [->|]; [by dec_if|]. dec_if. rewrite C by done. by dec_if.
      * rewrite C by done. destruct (decide (vb < i)); [|by dec_if].
        destruct (decide (r = old)) as [->|]; [by dec_if|].
        destruct (decide (r = new)) as [->|]; by dec_if.
  - exists (inl tt), s, own. unfold uvmcopy_page.
    rewrite (bind_done _ _ _ _ _ (walk_false_run s old i ltac:(lia))). split.
    + destruct (table_of (memory s) old i 2) as [t|] eqn:Ht; [|done].
      rewrite (entry_nonzero s own roots old i t) by (done || apply K || lia).
      rewrite (bind_done _ _ _ _ _ (load64_run _ _)), (leaf_at _ _ _ _ Ht). fold w. by rewrite Ev.
    + split; [done|]. left. split; [done|]. intros r vb Hr Hvb. rewrite C by done.
      destruct (decide (r = old)) as [->|]; [|destruct (decide (r = new)) as [->|]; [|by dec_if]];
        destruct (decide (vb < i)); [by dec_if|..|by dec_if|];
        (destruct (decide (vb < i + PGSIZE)); [|by dec_if]); dec_if;
        destruct (Hpage vb ltac:(lia)) as [Ew En]; unfold parent_entry, child_entry; by rewrite Ew, Ev.
Qed.

Definition uvmcopy_post (sz r : Z) (s : kmem) : Prop :=
  (r = 0 ∧ copied_leaves (PGROUNDUP sz) s) ∨
  (r = -1 ∧ ∃ i, 0 ≤ i < sz ∧ ∀ r vb, roots r → 0 ≤ vb < MAXVA →
    leaf (memory s) r vb =
    if decide (vb < i ∧ r = old) then parent_entry (leaf (memory s0) old vb) else leaf (memory s0) r vb).

Lemma uvmcopy_run sz : 0 ≤ sz ≤ MAXVA → top = PGROUNDUP sz →
  ∃ r s' own', uvmcopy old new sz s0 = Done (r, s') ∧ kept s' own' ∧ uvmcopy_post sz r s'.
Proof.
  intros Hsz Et. unfold uvmcopy. destruct (PGROUNDUP_spec sz) as [Hu1 Hu2]; [lia..|].
  match goal with |- context [while ?k ?b _ _] => set (n := k); set (body := b) end.
  assert (Hloop : ∀ k i s own, kept s own → copied_leaves i s → 0 ≤ i → i ≤ top → i mod PGSIZE = 0 →
    k = S (Z.to_nat ((top - i) / PGSIZE)) →
    ∃ r s' own', while k body i s = Done (r, s') ∧ kept s' own' ∧ uvmcopy_post sz r s').
  { clear n. induction k as [|k IH]; intros i s own K C Hi Hit Ha Ek; [lia|]. rewrite while_S.
    unfold body at 1. destruct (Z.ltb_spec i sz).
    - assert (i + PGSIZE ≤ top) by dlia.
      destruct (copied_step i s own K C Hi ltac:(lia) Ha) as (r & s1 & own1 & E & K1 & Hres).
      rewrite (bind_done _ _ _ _ _ E). destruct Hres as [(-> & C1)|(-> & C1)].
      + unfold ret. rewrite u64_small by lia. apply (IH (i + PGSIZE) s1 own1); [done|done|lia|lia|dlia|].
        enough ((top - i) / PGSIZE = (top - (i + PGSIZE)) / PGSIZE + 1 ∧ 0 ≤ (top - (i + PGSIZE)) / PGSIZE) by lia.
        dlia.
      + exists (-1), s1, own1. split; [done|]. split; [done|]. right. split; [done|]. exists i. done.
    - exists 0, s, own. split; [done|]. split; [done|]. left. split; [done|].
      by replace (PGROUNDUP sz) with i by dlia. }
  apply (Hloop n 0 s0 own0); [apply kept_start|..|lia|lia|done|].
  - intros r vb _ Hvb. rewrite !decide_False by lia. done.
  - unfold n. do 2 f_equal. rewrite Et, PGROUNDUP_eq by lia. dlia.
Qed.

End uvmcopy.

(** ** vmfault *)

(** The entry of [va] changes from one data page to another. *)
Lemma vm_remap s own roots pt va t v pa pb e1 e2 :
  vm_inv s own roots → roots pt → 0 ≤ va < MAXVA → table_of (memory s) pt va 2 = Some t → 0 ≤ v < 2^64 →
  has (leaf (memory s) pt va) PTE_V = true → PTE2PA (leaf (memory s) pt va) = pa → own pa = OData e1 →
  has v PTE_V = true → PTE2PA v = pb → own pb = OData e2 → pa ≠ pb →
  vm_inv (set_memory (st64 (memory s) (t + 8 * PX 0 va) v) s)
    (fupd (fupd own pa (OData (e1 + 1))) pb (OData (e2 - 1))) roots.
Proof.
  intros H Hr Hv Ht Hv64 Hw Hpa He1 Hvv Hpb He2 Hne.
  pose proof (vm_unmap s own roots pt va t 0 H Hr Hv Ht ltac:(lia) pa e1 Hw Hpa (has_0 _) He1) as H1.
  destruct (leaf_store s own roots pt va t 0 H Hr Hv Ht ltac:(lia)) as [Htab Hleaf].
  set (s1 := set_memory (st64 (memory s) (t + 8 * PX 0 va) 0) s) in *.
  assert (Ht1 : table_of (memory s1) pt va 2 = Some t) by (unfold s1; cbn [memory set_memory]; by rewrite Htab).
  assert (Hl1 : has (leaf (memory s1) pt va) PTE_V = false).
  { unfold s1. cbn [memory set_memory]. rewrite Hleaf by done. by rewrite decide_True, has_0. }
  assert (He2' : fupd own pa (OData (e1 + 1)) pb = OData e2) by (by rewrite fupd_ne).
  pose proof (vm_map s1 _ roots pt va t v H1 Hr Hv Ht1 Hv64 pb e2 Hl1 Hvv Hpb He2') as H2.
  eapply vm_inv_proper; [|reflexivity|reflexivity|exact H2].
  split; [|by split]. intros x. cbn [memory set_memory s1]. apply (stn_ext 8). intros Hx.
  by rewrite st64_other by lia.
Qed.

Definition fault_entry (w m : Z) : Z := Z.lor (Z.lor (PA2PTE m) (PTE_FLAGS (ro w))) PTE_W.

Lemma fault_entry_facts w m : is_page m → has w PTE_V = true →
  PTE2PA (fault_entry w m) = m ∧ has (fault_entry w m) PTE_V = true ∧
  has (fault_entry w m) PTE_W = true ∧ 0 ≤ fault_entry w m < 2^64 ∧
  PTE_FLAGS (fault_entry w m) = Z.lor (PTE_FLAGS (ro w)) PTE_W.
Proof.
  intros Hm Hw. unfold fault_entry. rewrite <-Z.lor_assoc.
  destruct (pte_of_page m (Z.lor (PTE_FLAGS (ro w)) PTE_W) Hm) as (? & ? & ?).
  { apply lor_flags; [apply PTE_FLAGS_range|lia]. }
  split; [done|]. split.
  { rewrite !has_lor, has_flags, has_ro_V, Hw by lia. by rewrite orb_true_r. }
  split; [by rewrite !has_lor, !orb_true_r|done].
Qed.

(** The copy: the fresh page [m] of the state [z], with the bytes of the old
    page, replaces it in the entry of [va]. *)
Section fault_copy.
Context (s : kmem) (own : Z → owner) (roots : Z → Prop) (pt va t m e : Z) (z : kmem).
Context (H : vm_inv s own roots) (Hr : roots pt) (Hv : 0 ≤ va < MAXVA).
Context (Ht : table_of (memory s) pt va 2 = Some t).
Let w := leaf (memory s) pt va.
Let pa := PTE2PA w.
Context (Hw : has w PTE_V = true) (He : own pa = OData e) (Hrc : 1 < refcount s (pa / PGSIZE)).
Context (Hf : own m = OFree) (Hm : is_page m) (H1 : vm_inv z (fupd own m (OData 1)) roots).
Context (Hother : ∀ y, page_of y ≠ m → memory z y = memory s y).
Context (Hzrc : ∀ p, is_page p → p ≠ m → refcount z (p / PGSIZE) = refcount s (p / PGSIZE)).
Let s1 := set_memory (memmove (memory z) m pa (Z.to_nat PGSIZE)) z.

Lemma fault_pages : is_page pa ∧ pa ≠ m ∧ own t = OTable pt 2 (prefix 2 va) ∧ t mod PGSIZE = 0 ∧ t ≠ m.
Proof.
  destruct (vi_data _ _ _ H pa e He) as (Hp & _).
  pose proof (vi_tree _ _ _ H pt va 2 t Hr Hv ltac:(lia) Ht) as Hot.
  destruct (vi_table _ _ _ H _ _ _ _ Hot) as [[Hta _] _].
  repeat (split; [done || congruence|]). congruence.
Qed.

Lemma fault_mem y : memory s1 y = if decide (m ≤ y < m + PGSIZE) then memory s (pa + (y - m)) else memory s y.
Proof.
  destruct fault_pages as ([Hpa _] & Hne & _). unfold s1. cbn [memory set_memory]. rewrite memmove_byte.
  change (Z.of_nat (Z.to_nat PGSIZE)) with PGSIZE. case_decide as E.
  - apply Hother. rewrite (page_of_in pa); [done|done|lia].
  - apply Hother. intros Ey. apply E. destruct (in_page_of y). rewrite Ey in *. lia.
Qed.

Lemma fault_mem_other y : page_of y ≠ m → memory s1 y = memory s y.
Proof.
  intros Hy. rewrite fault_mem, decide_False; [done|]. intros E. apply Hy, page_of_in; [apply Hm|done].
Qed.

Lemma fault_write : vm_inv s1 (fupd own m (OData 1)) roots.
Proof.
  apply (vm_write z (fupd own m (OData 1)) roots); [done|..].
  - apply memmove_ok. destruct (vi_free _ _ _ H1) as (free & Hok & _). apply (fl_mem _ _ (ko_fl _ _ Hok)).
  - intros y Hy. assert (page_of y ≠ m).
    { intros E. rewrite E, fupd_eq in Hy. naive_solver. }
    change (memory s1 y = memory z y). by rewrite fault_mem_other, Hother.
Qed.

Lemma fault_frame m' : (∀ y, page_of y ≠ m → m' y = memory s y) →
  (∀ r vb k, roots r → 0 ≤ vb < MAXVA → (k ≤ 2)%nat → table_of m' r vb k = table_of (memory s) r vb k) ∧
  (∀ r vb, roots r → 0 ≤ vb < MAXVA → leaf m' r vb = leaf (memory s) r vb).
Proof.
  intros Hm'. assert (∀ t r d x, own t = OTable r d x → ∀ y, t ≤ y < t + PGSIZE → m' y = memory s y) as Hfr.
  { intros t' r d x Ht' y Hy. destruct (vi_table _ _ _ H _ _ _ _ Ht') as [[Ha _] _].
    apply Hm'. rewrite (page_of_in t' y) by done. congruence. }
  split; [|by apply (leaf_frame s own)]. apply (table_of_frame s own); [done|].
  intros t' r d x Ht' _. by eapply Hfr.
Qed.

Let s2 := dropped pa s1.
Let s' := set_memory (st64 (memory s2) (t + 8 * PX 0 va) (fault_entry w m)) s2.

Lemma fault_drop : ref_dec pa s1 = Done (tt, s2) ∧ (∀ y, memory s2 y = memory s1 y) ∧
  vm_inv s2 (fupd (fupd own m (OData 1)) pa (OData (e - 1))) roots.
Proof.
  destruct fault_pages as (Hp & Hne & _).
  assert (Hrc1 : 1 < refcount s1 (pa / PGSIZE)) by (unfold s1; cbn [refcount set_memory]; by rewrite Hzrc).
  assert (He1 : fupd own m (OData 1) pa = OData e) by (by rewrite fupd_ne).
  destruct (vm_drop s1 _ roots pa e fault_write He1 (or_intror Hrc1)) as (Ed & _ & H2 & _).
  split; [done|]. split.
  - intros y. unfold s2. by rewrite dropped_shared.
  - unfold own_dropped in H2. by rewrite (proj2 (Z.ltb_lt _ _) Hrc1) in H2.
Qed.

Lemma fault_copy_done :
  ld64 (memory s2) (t + 8 * PX 0 va) = w ∧
  vm_inv s' (fupd own m (OData 0)) roots ∧ leaf_upd roots s s' pt va (fault_entry w m) ∧
  (∀ y, 0 ≤ y < PGSIZE → memory s' (m + y) = memory s (pa + y)) ∧
  (∀ y, own (page_of y) ≠ OFree → is_table (own (page_of y)) = false → memory s' y = memory s y) ∧
  refcount s' (m / PGSIZE) = refcount z (m / PGSIZE).
Proof.
  destruct fault_pages as (Hp & Hne & Hot & Hta & Htm), fault_drop as (_ & Hm2 & H2).
  destruct (fault_frame (memory s2)) as [Htab Hleaf]; [intros; by rewrite Hm2, fault_mem_other|].
  destruct (fault_entry_facts w m Hm Hw) as (Hfp & Hfv & _ & Hf64 & _).
  pose proof (PX_range 0 va ltac:(lia)) as HPX.
  assert (Ht2 : table_of (memory s2) pt va 2 = Some t) by (by rewrite Htab).
  assert (Hw2 : leaf (memory s2) pt va = w) by (by rewrite Hleaf).
  split; [by rewrite (leaf_at _ _ _ _ Ht2)|]. split; [|split; [|split; [|split]]].
  - eapply vm_inv_proper; [reflexivity| |reflexivity|
      apply (vm_remap s2 (fupd (fupd own m (OData 1)) pa (OData (e - 1))) roots pt va t
               (fault_entry w m) pa m (e - 1) 1); rewrite ?Hw2; try done].
    + intros p. rewrite !fupd_spec. repeat case_decide; subst; try done. rewrite He. f_equal. lia.
    + apply fupd_eq.
    + by rewrite fupd_ne, fupd_eq.
  - intros r vb Hr' Hvb. unfold s'. cbn [memory set_memory].
    rewrite (entry_leaf s2 _ roots pt va t (fault_entry w m) H2) by done. by rewrite Hleaf.
  - intros y Hy. unfold s'. cbn [memory set_memory].
    rewrite st64_entry_frame; [|done..|rewrite (page_of_in m); [done|apply Hm|lia]].
    rewrite Hm2, fault_mem, decide_True by lia. f_equal. lia.
  - intros y Hn Hnt. unfold s'. cbn [memory set_memory].
    rewrite st64_entry_frame; [|done..|intros E; by rewrite E, Hot in Hnt].
    rewrite Hm2. apply fault_mem_other. congruence.
  - unfold s', s2. cbn [refcount set_memory]. rewrite dropped_refcount, decide_False; [done|].
    intros E%page_idx_inj; [by apply Hne|done..].
Qed.

End fault_copy.

(** What a write fault does to the page of [va]: nothing (and 0 is returned),
    or the entry gets the write bit, or the entry maps a private copy. *)
Record faulted (s : kmem) (own : Z → owner) (roots : Z → Prop) (pt va r : Z) (s' : kmem)
    (own' : Z → owner) : Prop := {
  fa_inv : vm_inv s' own' roots;
  fa_own : ∀ p, own p ≠ OFree → own' p = own p;
  fa_mem : ∀ y, own (page_of y) ≠ OFree → is_table (own (page_of y)) = false → memory s' y = memory s y;
  fa_case :
    let w := leaf (memory s) pt va in
    (r = 0 ∧ (has w PTE_V = true → ∀ p, own' p ≠ OFree) ∧
     ∀ r vb, roots r → 0 ≤ vb < MAXVA → leaf (memory s') r vb = leaf (memory s) r vb) ∨
    (has w PTE_V = true ∧ r = PTE2PA w ∧
     (has w PTE_W = true ∨ refcount s (r / PGSIZE) = 1) ∧
     leaf_upd roots s s' pt va (Z.lor w PTE_W)) ∨
    (has w PTE_V = true ∧ has w PTE_W = false ∧ own r = OFree ∧ own' r = OData 0 ∧ is_page r ∧
     refcount s' (r / PGSIZE) = 1 ∧
     leaf_upd roots s s' pt va (fault_entry w r) ∧
     ∀ y, 0 ≤ y < PGSIZE → memory s' (r + y) = memory s (PTE2PA w + y))
}.

Lemma lor_PTE_W w : has w PTE_W = true → Z.lor w PTE_W = w.
Proof.
  unfold has. rewrite negb_true_iff, Z.eqb_neq. intros Hw. apply Z.bits_inj'. intros n Hn.
  rewrite Z.lor_spec. destruct (decide (n = 2)) as [->|Hne].
  - assert (Z.testbit w 2 = true) as ->; [|done]. apply not_false_is_true. intros E. apply Hw.
    apply Z.bits_inj'. intros k Hk. rewrite Z.land_spec, Z.bits_0. change PTE_W with (2^2).
    rewrite Z.pow2_bits_eqb by lia. destruct (Z.eqb_spec 2 k) as [<-|]; [by rewrite E|apply andb_false_r].
  - change PTE_W with (2^2). rewrite Z.pow2_bits_eqb by lia.
    rewrite (proj2 (Z.eqb_neq 2 n)) by lia. apply orb_false_r.
Qed.

Lemma lor_range w : 0 ≤ w < 2^64 → 0 ≤ Z.lor w PTE_W < 2^64.
Proof.
  intros Hw. split; [apply Z.lor_nonneg; lia|].
  destruct (has w PTE_W) eqn:E; [rewrite lor_PTE_W by done; lia|].
  apply Z.log2_lt_cancel. rewrite Z.log2_lor by lia. change (Z.log2 (2^64)) with 64.
  apply Z.max_lub_lt; [|done]. destruct (decide (w = 0)) as [->|]; [done|]. apply Z.log2_lt_pow2; lia.
Qed.

Lemma PTE2PA_lor_W w : PTE2PA (Z.lor w PTE_W) = PTE2PA w.
Proof.
  unfold PTE2PA. rewrite Z.shiftr_lor. change (Z.shiftr PTE_W 10) with 0. by rewrite Z.lor_0_r.
Qed.

Lemma kmemmove_run d p n s : kmemmove d p n s = Done (tt, set_memory (memmove (memory s) d p n) s).
Proof. done. Qed.

Lemma ref_get_run p s : is_page p → ref_get p s = Done (refcount s (p / PGSIZE), s).
Proof.
  intros Hp. destruct (page_index p Hp) as [Hi _]. unfold ref_get, ref_read.
  rewrite (proj1 Hp), Hi. done.
Qed.

(** The part of vmfault after a successful walk. *)
Lemma fault_entry_run s own roots pt va t e :
  vm_inv s own roots → roots pt → 0 ≤ va < MAXVA → table_of (memory s) pt va 2 = Some t →
  let w := leaf (memory s) pt va in let pa := PTE2PA w in let pte := t + 8 * PX 0 va in
  has w PTE_V = true → has w PTE_W = false → 0 ≤ e → own pa = OData e →
  ∃ r s' own',
    (c <- ref_get pa ;;
     if 1 <? c then
       m <- kalloc ;;
       if m =? 0 then ret 0 else
       kmemmove m pa (Z.to_nat PGSIZE) ;;
       ref_dec pa ;;
       e' <- load64 pte ;;
       store64 pte (Z.lor (Z.lor (PA2PTE m) (Z.land (PTE_FLAGS e') (Z.lnot PTE_W))) PTE_W) ;;
       ret m
     else
       e' <- load64 pte ;;
       store64 pte (Z.lor e' PTE_W) ;;
       ret pa) s = Done (r, s') ∧ faulted s own roots pt va r s' own'.
Proof.
  intros H Hr Hv Ht w pa pte Hw Hnw He0 He.
  destruct (vi_data _ _ _ H pa e He) as (Hp & n & Hn & Hrc).
  rewrite (bind_done _ _ _ _ _ (ref_get_run pa s Hp)). destruct (Z.ltb_spec 1 (refcount s (pa / PGSIZE))).
  - destruct (vm_kalloc s own roots H) as [[Ek Hnone]|(m & Hf & Hm & Ek & _ & H1 & _)].
    + rewrite (bind_done _ _ _ _ _ Ek), Z.eqb_refl. exists 0, s, own. split; [reflexivity|].
      split; [assumption|reflexivity|reflexivity|]. left. auto.
    + rewrite (bind_done _ _ _ _ _ Ek), (proj2 (Z.eqb_neq _ _) (page_nonzero m Hm)).
      pose proof (λ y, allocated_other m s y Hm) as Hother.
      pose proof (λ p, allocated_rc m s p Hm) as Hzrc. pose proof (allocated_rc_eq m s) as Hone.
      revert H1 Hother Hzrc Hone. generalize (allocated m s). intros z H1 Hother Hzrc Hone.
      rewrite (bind_done _ _ _ _ _ (kmemmove_run _ _ _ _)).
      destruct (fault_drop s own roots pt va t m e z) as (Ed & _ & _); try assumption.
      destruct (fault_copy_done s own roots pt va t m e z) as (El & H2 & Hl & Hcp & Hmem & Hrc2); try assumption.
      fold w pa in Ed, El, H2, Hl, Hcp, Hmem, Hrc2.
      rewrite (bind_done _ _ _ _ _ Ed), (bind_done _ _ _ _ _ (load64_run _ _)). unfold pte. rewrite El.
      rewrite flags_ro. fold (fault_entry w m). rewrite (bind_done _ _ _ _ _ (store64_run _ _ _)).
      eexists m, _, _. split; [reflexivity|].
      split; [exact H2|intros p Hpf; apply fupd_ne; congruence|exact Hmem|]. right. right. fold w.
      do 3 (split; [assumption|]). split; [apply fupd_eq|]. split; [assumption|].
      split; [congruence|]. split; assumption.
  - rewrite (bind_done _ _ _ _ _ (load64_run _ _)). unfold pte. rewrite (leaf_at _ _ _ _ Ht).
    fold w. rewrite (bind_done _ _ _ _ _ (store64_run _ _ _)). eexists pa, _, own. split; [reflexivity|].
    pose proof (leaf_64 s own roots pt va H) as Hw64. fold w in Hw64.
    pose proof (lor_range w Hw64) as Hl64.
    assert (has (Z.lor w PTE_W) PTE_V = true) as Hlv by (by rewrite has_lor, Hw).
    pose proof (vi_tree _ _ _ H pt va 2 t Hr Hv ltac:(lia) Ht) as Hot.
    destruct (vi_table _ _ _ H _ _ _ _ Hot) as [[Hta _] _].
    split; [|reflexivity| |].
    + apply (vm_reflag s own roots pt va t); try assumption; fold w; intros _; left; [apply PTE2PA_lor_W| |assumption].
      split; [assumption|apply PTE2PA_lor_W].
    + intros y _ Hyt. cbn [memory set_memory]. apply st64_entry_frame; [assumption|apply PX_range; lia|].
      intros E. by rewrite E, Hot in Hyt.
    + right. left. fold w. split; [assumption|]. split; [reflexivity|]. split.
      * right. pose proof (in_use _ _ _ _ _ H He). fold pa. lia.
      * intros r vb Hr' Hvb. cbn [memory set_memory]. by apply (entry_leaf s own roots pt va t).
Qed.

Lemma faulted_ext s own roots s1 own1 pt va r s' own' e :
  vm_inv s own roots → vm_ext roots (s, own) (s1, own1) → roots pt → 0 ≤ va < MAXVA →
  own (PTE2PA (leaf (memory s) pt va)) = OData e →
  faulted s1 own1 roots pt va r s' own' → faulted s own roots pt va r s' own'.
Proof.
  intros H [Ho Hf Hrc Hl Hm _] Hr Hv He [H' Ho' Hm' Hc]. cbn [fst snd] in *. rewrite Hl in Hc by done.
  split; [assumption|..].
  - intros p Hp. rewrite Ho'; [by apply Ho|]. by rewrite Ho.
  - intros y Hy Hyt. rewrite Hm'; [by apply Hm|..]; by rewrite Ho.
  - destruct Hc as [(-> & Hn & Hs)|[(Hw & -> & Hx & Hu)|(Hw & Hnw & Hfr & Ho2 & Hp & Hr1 & Hu & Hcp)]].
    + left. split; [done|]. split; [done|]. intros r vb ? ?. by rewrite Hs, Hl.
    + right; left. split; [done|]. split; [done|]. split.
      * destruct Hx as [?|Hx]; [by left|right].
        destruct (vi_data _ _ _ H _ _ He) as (Hp & _). rewrite <-Hrc; [done..|congruence].
      * intros r vb ? ?. by rewrite Hu, Hl.
    + right; right. split; [done|]. split; [done|]. split.
      * destruct (own r) eqn:E; [done|..]; rewrite Ho in Hfr; congruence.
      * repeat (split; [done|]). split; [intros r' vb ? ?; by rewrite Hu, Hl|].
        intros y Hy. rewrite Hcp by done. destruct (vi_data _ _ _ H _ _ He) as ([Hpa _] & _).
        pose proof (page_of_in _ (PTE2PA (leaf (memory s) pt va) + y) Hpa ltac:(lia)) as Ep.
        apply Hm; rewrite Ep, He; done.
Qed.

Lemma vmfault_run s own roots pt va :
  vm_inv s own roots → roots pt → 0 ≤ va < MAXVA → user_leaf own (leaf (memory s) pt va) →
  ∃ r s' own', vmfault pt va true s = Done (r, s') ∧ faulted s own roots pt va r s' own'.
Proof.
  intros H Hr Hva Hu. destruct (PGROUNDDOWN_spec va) as [Hd1 Hd2]; [lia|].
  set (va0 := PGROUNDDOWN va) in *. assert (Hv0 : 0 ≤ va0 < MAXVA) by dlia.
  assert (Hpage : va / PGSIZE = va0 / PGSIZE) by (by apply same_page_iff).
  assert (Eleaf : ∀ m, leaf m pt va = leaf m pt va0) by (intros m; by apply leaf_page).
  assert (Hsw : ∀ s1 own1 r s' own', faulted s1 own1 roots pt va0 r s' own' →
    faulted s1 own1 roots pt va r s' own').
  { intros s1 own1 r s' own' [? ? ? Hc]. split; try assumption. unfold leaf_upd in *.
    by rewrite Eleaf, Hpage. }
  unfold vmfault. fold va0.
  destruct (walk_true_run s own roots pt va0 H Hr Hv0) as (a & s1 & Ew & own1 & H1 & Hext & Hres).
  rewrite (bind_done _ _ _ _ _ Ew).
  assert (Hnop : (has (leaf (memory s) pt va) PTE_V = true → ∀ p, own1 p ≠ OFree) →
    faulted s own roots pt va 0 s1 own1).
  { intros Hno. destruct Hext as [Ho Hf _ Hl Hm _]. split; [done|exact Ho|exact Hm|].
    left. split; [done|]. split; [done|exact Hl]. }
  destruct Hres as [(-> & _ & Hnone)|(t & Ht & -> & Hnz)].
  - rewrite Z.eqb_refl. exists 0, s1, own1. split; [done|]. by apply Hnop.
  - rewrite (proj2 (Z.eqb_neq _ 0) Hnz), (bind_done _ _ _ _ _ (load64_run _ _)), (leaf_at _ _ _ _ Ht).
    assert (leaf (memory s1) pt va0 = leaf (memory s) pt va) as El.
    { rewrite Eleaf. by apply (ve_leaf _ _ _ Hext pt va0). }
    rewrite El. destruct (has (leaf (memory s) pt va) PTE_V) eqn:Ev; cbn [negb].
    + destruct (Hu Ev) as (e & [He0 _] & He).
      destruct (has (leaf (memory s) pt va) PTE_W) eqn:Ewr.
      * eexists _, s1, own1. split; [done|]. destruct Hext as [Ho Hf _ Hl Hm _].
        cbn [fst snd] in *. split; [done|exact Ho|exact Hm|]. right; left. split; [done|]. split; [done|]. split; [by left|].
        rewrite lor_PTE_W by done. intros r vb Hr' Hvb. rewrite (Hl r vb) by done.
        case_decide as Ed; [|done]. destruct Ed as [-> Ed]. by apply leaf_page.
      * rewrite <-El in Ev, Ewr, He |- *.
        assert (He1 : own1 (PTE2PA (leaf (memory s1) pt va0)) = OData e).
        { rewrite <-He. apply (ve_own _ _ _ Hext). cbn [snd]. congruence. }
        destruct (fault_entry_run s1 own1 roots pt va0 t e H1 Hr Hv0 Ht Ev Ewr He0 He1)
          as (r & s' & own' & E & Hfa).
        exists r, s', own'. split; [exact E|]. rewrite El in He.
        apply (faulted_ext s own roots s1 own1 pt va r s' own' e); try assumption. by apply Hsw.
    + exists 0, s1, own1. split; [done|]. by apply Hnop.
Qed.

(** ** Exclusive writers *)

(** A writable entry is the only entry that maps its page. *)
Definition exclusive (roots : Z → Prop) (s : kmem) : Prop :=
  ∀ r va, roots r → 0 ≤ va < MAXVA →
  has (leaf (memory s) r va) PTE_V = true → has (leaf (memory s) r va) PTE_W = true →
  ∀ x, maps (memory s) roots (PTE2PA (leaf (memory s) r va)) x → x = (r, va / PGSIZE).

(** Every reference is an entry or held by the kernel. *)
Definition settled (own : Z → owner) : Prop := ∀ p e, own p = OData e → 0 ≤ e.

Lemma sole_mapping s own roots p e x y :
  vm_inv s own roots → own p = OData e → 0 ≤ e → refcount s (p / PGSIZE) = 1 →
  maps (memory s) roots p x → maps (memory s) roots p y → x = y.
Proof.
  intros H He He0 Hrc Hx Hy. destruct (vi_data _ _ _ H p e He) as (_ & n & (L & Hnd & HL & ->) & E).
  apply HL in Hx, Hy. destruct L as [|a [|b L]]; [by apply elem_of_nil in Hx| |cbn in E; lia].
  apply list_elem_of_singleton in Hx, Hy. congruence.
Qed.

End cow.
