(* ===== verification/VmThms.v ===== *)
(** kernel/vm.c: the theorems on user memory.

    [grown], [leaf_clear], [copied_leaves] and [faulted] say what uvmalloc,
    uvmdealloc, uvmcopy and vmfault do to the abstract page tables and to the
    reference counts; the invariant [vm_inv] accounts for every reference.  On
    top of them [cow_step] is the relation of the calls the kernel makes on
    user memory, and in every state it reaches a writable page has one owner. *)

From S2P Require Import Prelude Riscv Memory Kalloc Vm VmSpec VmMap VmUser VmCow.

#[local] Opaque memset kmemset zeroed allocated mappages kalloc dropped uvmunmap walk.

Section thms.
Context `{KI : KernelImage}.

Lemma uvmalloc_run s own roots pt oldsz newsz xperm :
  vm_inv s own roots → roots pt → 0 ≤ oldsz ≤ newsz → newsz ≤ MAXVA → 0 ≤ xperm < 1024 →
  (∀ vb, PGROUNDUP oldsz ≤ vb < PGROUNDUP newsz → leaf (memory s) pt vb = 0) →
  ∃ r s' own', uvmalloc pt oldsz newsz xperm s = Done (r, s') ∧
    ((r = newsz ∧
      grown roots pt (PGROUNDUP oldsz) (Z.lor (Z.lor PTE_R PTE_U) xperm) s own (PGROUNDUP newsz) s' own') ∨
     (r = 0 ∧ vm_inv s' own' roots ∧ vm_keep (s, own) (s', own') ∧
      ∀ r vb, roots r → 0 ≤ vb < MAXVA → leaf (memory s') r vb = leaf (memory s) r vb)).
Proof.
  intros H Hr Hsz Hmax Hx Hz. unfold uvmalloc. rewrite (proj2 (Z.ltb_ge newsz oldsz)) by lia.
  destruct (PGROUNDUP_spec oldsz) as [Ho1 Ho2]; [lia..|].
  destruct (PGROUNDUP_spec newsz) as [Hn1 Hn2]; [lia..|].
  assert (Hperm : 0 ≤ Z.lor (Z.lor PTE_R PTE_U) xperm < 1024) by (apply lor_flags; [by split|done]).
  apply (uvmalloc_loop roots pt (PGROUNDUP oldsz) _ s own H Hr ltac:(lia) Ho1 Hperm newsz _ _ s own);
    try done; try dlia.
  by apply grown_start.
Qed.

(** C16: uvmalloc either returns the new size, with every page between the two
    sizes mapped readable for the user to its own zero-filled page that was
    free before, or returns 0 with every address space as it was, no data
    page more or less in use and no reference count changed; nothing else
    changes in both cases. *)
Theorem uvmalloc_correct s own roots pt oldsz newsz xperm :
  vm_inv s own roots → roots pt → 0 ≤ oldsz ≤ newsz → newsz ≤ MAXVA → 0 ≤ xperm < 1024 →
  (∀ vb, PGROUNDUP oldsz ≤ vb < PGROUNDUP newsz → leaf (memory s) pt vb = 0) →
  ∃ r s' own', uvmalloc pt oldsz newsz xperm s = Done (r, s') ∧
    ((r = newsz ∧
      grown roots pt (PGROUNDUP oldsz) (Z.lor (Z.lor PTE_R PTE_U) xperm) s own (PGROUNDUP newsz) s' own') ∨
     (r = 0 ∧ vm_inv s' own' roots ∧ vm_keep (s, own) (s', own') ∧
      ∀ r vb, roots r → 0 ≤ vb < MAXVA → leaf (memory s') r vb = leaf (memory s) r vb)).
Proof. apply uvmalloc_run. Qed.

(** uvmdealloc returns the smaller size and removes the mappings of the
    pages between the two sizes and no other; a page whose last mapping goes
    is freed, every other page keeps its bytes, and every reference count
    still is the number of mappings and kernel references. *)
Theorem uvmdealloc_correct s own roots pt oldsz newsz :
  vm_inv s own roots → roots pt → 0 ≤ newsz < 2^63 → 0 ≤ oldsz ≤ MAXVA →
  (∀ vb, PGROUNDUP newsz ≤ vb < PGROUNDUP oldsz → user_leaf own (leaf (memory s) pt vb)) →
  ∃ s' own', uvmdealloc pt oldsz newsz s = Done (Z.min oldsz newsz, s') ∧ vm_inv s' own' roots ∧
    leaf_clear roots s s' pt (PGROUNDUP newsz) (PGROUNDUP oldsz) ∧
    (∀ p, own' p = own p ∨ own p = OData 0 ∧ own' p = OFree) ∧
    (∀ a e, own' (page_of a) = OData e → memory s' a = memory s a).
Proof.
  intros H Hr Hn Ho Hu.
  destruct (uvmdealloc_run s own roots pt oldsz newsz) as (s' & own' & E & H' & Hsh & Hl); [done|done|lia|done|done|lia|].
  exists s', own'. split; [done|]. split; [done|]. split; [done|]. split; [apply Hsh|].
  intros a e Ha. apply (sh_mem _ _ Hsh); cbn [snd]; by rewrite Ha.
Qed.

(** ** Reading and writing user memory *)
Definition uread (s : kmem) (pt va : Z) : option Z :=
  let w := leaf (memory s) pt va in
  if has w PTE_V then Some (memory s (PTE2PA w + va mod PGSIZE)) else None.

Definition uwrite (s : kmem) (pt va b : Z) : kmem :=
  set_memory (fupd (memory s) (PTE2PA (leaf (memory s) pt va) + va mod PGSIZE) b) s.

(** C17: uvmcopy shares memory between parent and child.  When it returns 0,
    every mapped page below sz is mapped at the same address in the child, to
    the same page with the same flags but the write bit, which parent and
    child both lose; the child reads what the parent reads; the page's bytes
    are unchanged.  When it returns -1 the child has no mapping.  In both
    cases the invariant holds with the owners it had before, so every
    reference count is the number of mappings and kernel references.  (The
    comment above uvmcopy says that it copies the physical memory; it does not,
    the copy is made by vmfault when one of the processes writes.) *)
Theorem uvmcopy_shares s own roots old new sz :
  vm_inv s own roots → roots old → roots new → old ≠ new → 0 ≤ sz → PGROUNDUP sz ≤ MAXVA → sz ≤ MAXVA →
  (∀ vb, 0 ≤ vb < PGROUNDUP sz → user_leaf own (leaf (memory s) old vb)) →
  (∀ vb, 0 ≤ vb < PGROUNDUP sz → leaf (memory s) new vb = 0) →
  ∃ r s' own', uvmcopy old new sz s = Done (r, s') ∧ kept roots s own s' own' ∧
    ((r = 0 ∧ copied_leaves roots old new s (PGROUNDUP sz) s' ∧
      ∀ vb, 0 ≤ vb < PGROUNDUP sz → uread s' old vb = uread s old vb ∧ uread s' new vb = uread s old vb) ∨
     (r = -1 ∧ ∀ vb, 0 ≤ vb < PGROUNDUP sz →
        uread s' old vb = uread s old vb ∧ leaf (memory s') new vb = 0)).
Proof.
  intros H Hro Hrn Hne Hsz Htop Hmax Hold Hnew.
  destruct (uvmcopy_run roots old new (PGROUNDUP sz) s own H Hro Hrn Hne Htop Hold Hnew sz)
    as (r & s' & own' & E & K & Hp); [lia|done|].
  exists r, s', own'. split; [done|]. split; [done|].
  assert (Hread : ∀ rt vb, roots rt → 0 ≤ vb < PGROUNDUP sz →
    has (leaf (memory s') rt vb) PTE_V = has (leaf (memory s) old vb) PTE_V →
    (has (leaf (memory s) old vb) PTE_V = true →
     PTE2PA (leaf (memory s') rt vb) = PTE2PA (leaf (memory s) old vb)) →
    uread s' rt vb = uread s old vb).
  { intros rt vb _ Hvb Ev Epa. unfold uread. rewrite Ev.
    destruct (has (leaf (memory s) old vb) PTE_V) eqn:Ev0; [|done]. rewrite Epa by done. f_equal.
    destruct (Hold vb Hvb Ev0) as (e & _ & He). destruct (vi_data _ _ _ H _ _ He) as ([Ha _] & _).
    assert (page_of (PTE2PA (leaf (memory s) old vb) + vb mod PGSIZE) = PTE2PA (leaf (memory s) old vb)) as Ep.
    { apply page_of_in; [done|]. pose proof (Z.mod_pos_bound vb PGSIZE ltac:(lia)). lia. }
    apply (kp_mem _ _ _ _ _ K); rewrite Ep, He; done. }
  assert (Hpar : ∀ vb, 0 ≤ vb < PGROUNDUP sz →
    leaf (memory s') old vb = parent_entry (leaf (memory s) old vb) ∨
    leaf (memory s') old vb = leaf (memory s) old vb → uread s' old vb = uread s old vb).
  { intros vb Hvb Hl. destruct (parent_entry_maps (leaf (memory s) old vb)) as [E1 E2].
    apply Hread; [done..| |]; destruct Hl as [-> | ->]; done. }
  destruct Hp as [(-> & Hl)|(-> & i & Hi & Hl)]; [left|right]; (split; [done|]); [split; [done|]|]; intros vb Hvb.
  - assert (Hlo : leaf (memory s') old vb = parent_entry (leaf (memory s) old vb)).
    { rewrite Hl by (done || lia). by rewrite decide_True by lia. }
    split; [by apply Hpar; [|left]|].
    assert (Hln : leaf (memory s') new vb = child_entry (leaf (memory s) old vb)).
    { rewrite Hl by (done || lia). rewrite decide_False by naive_solver. by rewrite decide_True by lia. }
    apply Hread; [done..| |]; rewrite Hln; unfold child_entry;
      destruct (has (leaf (memory s) old vb) PTE_V) eqn:Ev; try done;
      destruct (Hold vb Hvb Ev) as (e & _ & He); destruct (vi_data _ _ _ H _ _ He) as (Hp & _);
      by destruct (pte_for_facts _ (PTE_FLAGS (ro (leaf (memory s) old vb))) Hp (PTE_FLAGS_range _)) as (? & _ & ? & _).
  - split.
    + apply Hpar; [done|]. rewrite Hl by (done || lia). case_decide; [by left|by right].
    + rewrite Hl by (done || lia). rewrite decide_False by naive_solver. by apply Hnew.
Qed.

(** ** Write faults *)
Lemma exclusive_ext roots s s' :
  (∀ r vb, roots r → 0 ≤ vb < MAXVA → leaf (memory s') r vb = leaf (memory s) r vb) →
  exclusive roots s → exclusive roots s'.
Proof.
  intros Hl Hex r va Hr Hv. rewrite Hl by done. intros HV HW x Hx. apply (Hex r va); [done..|].
  by apply (maps_leaf_ext (memory s) (memory s') roots) in Hx.
Qed.

Lemma div_mul_page n : (n * PGSIZE) / PGSIZE = n.
Proof. by apply Z.div_mul. Qed.

(** The page of an entry, seen from the entries that map it. *)
Lemma maps_self roots m r va : roots r → 0 ≤ va < MAXVA → has (leaf m r va) PTE_V = true →
  maps m roots (PTE2PA (leaf m r va)) (r, va / PGSIZE).
Proof. intros. by apply maps_at. Qed.

Section fault.
Context (s : kmem) (own : Z → owner) (roots : Z → Prop) (pt va r : Z) (s' : kmem) (own' : Z → owner).
Context (H : vm_inv s own roots) (Hr : roots pt) (Hv : 0 ≤ va < MAXVA).
Context (Hu : user_leaf own (leaf (memory s) pt va)) (Hex : exclusive roots s).
Context (Hfa : faulted s own roots pt va r s' own').
Let w := leaf (memory s) pt va.

Lemma fault_sole x : has w PTE_V = true → has w PTE_W = true ∨ refcount s (PTE2PA w / PGSIZE) = 1 →
  maps (memory s) roots (PTE2PA w) x → x = (pt, va / PGSIZE).
Proof.
  intros Ev [HW|Hrc] Hx; [by apply (Hex pt va)|]. destruct (Hu Ev) as (e & [He0 _] & He).
  apply (sole_mapping s own roots (PTE2PA w) e); try done. by apply maps_self.
Qed.

Lemma fault_exclusive : exclusive roots s'.
Proof.
  destruct Hfa as [H' Ho Hm Hc]. cbv zeta in Hc. fold w in Hc.
  destruct Hc as [(-> & _ & Hs)|[(Ev & Er & Hx & Hl)|(Ev & Enw & Hf & Ho2 & Hp & Hrc & Hl & _)]].
  - by apply (exclusive_ext roots s).
  - intros r0 v0 Hr0 Hv0. pose proof (λ p x, maps_store (memory s) (memory s') roots pt va _ p x Hr Hv Hl) as Hms.
    assert (Hmaps : ∀ p x, maps (memory s') roots p x → maps (memory s) roots p x).
    { intros p x Hx'. apply Hms in Hx' as [(-> & _ & <-)|[_ ?]]; [|done].
      rewrite PTE2PA_lor_W. by apply maps_self. }
    rewrite Hl by done. case_decide as Ed.
    + destruct Ed as [-> ->]. intros _ _ x Hx'. rewrite PTE2PA_lor_W in Hx'.
      apply fault_sole; [done|by rewrite <-Er|by apply Hmaps].
    + intros HV HW x Hx'. by apply (Hex r0 v0), Hmaps.
  - intros r0 v0 Hr0 Hv0. pose proof (λ p x, maps_store (memory s) (memory s') roots pt va _ p x Hr Hv Hl) as Hms.
    destruct (fault_entry_facts w r Hp Ev) as (Hfp & _).
    assert (Hnr : ∀ x, ¬ maps (memory s) roots r x).
    { intros x Hx. destruct (mapped_owner _ _ _ _ _ H Hx) as [[? ?]|?]; congruence. }
    rewrite Hl by done. case_decide as Ed.
    + destruct Ed as [-> ->]. intros _ _ x Hx'. rewrite Hfp in Hx'.
      apply Hms in Hx' as [(-> & _)|[_ Hx']]; [done|by apply Hnr in Hx'].
    + intros HV HW x Hx'. apply Hms in Hx' as [(-> & _ & Hpe)|[_ Hx']]; [|by apply (Hex r0 v0)].
      exfalso. apply (Hnr (r0, v0 / PGSIZE)). rewrite <-Hfp, Hpe. by apply maps_self.
Qed.

(** What the processes read does not change. *)
Lemma fault_reads rt vb : roots rt → 0 ≤ vb < MAXVA → user_leaf own (leaf (memory s) rt vb) →
  uread s' rt vb = uread s rt vb.
Proof.
  intros Hrt Hvb Hub. destruct Hfa as [H' Ho Hm Hc]. cbv zeta in Hc. fold w in Hc.
  pose proof (Z.mod_pos_bound vb PGSIZE ltac:(lia)) as Hmod.
  assert (Hbyte : has (leaf (memory s) rt vb) PTE_V = true →
    memory s' (PTE2PA (leaf (memory s) rt vb) + vb mod PGSIZE) =
    memory s (PTE2PA (leaf (memory s) rt vb) + vb mod PGSIZE)).
  { intros Ev. destruct (Hub Ev) as (e & _ & He). destruct (vi_data _ _ _ H _ _ He) as ([Ha _] & _).
    pose proof (page_of_in _ (PTE2PA (leaf (memory s) rt vb) + vb mod PGSIZE) Ha ltac:(lia)) as Ep.
    apply Hm; by rewrite Ep, He. }
  assert (Hsame : leaf (memory s') rt vb = leaf (memory s) rt vb → uread s' rt vb = uread s rt vb).
  { intros E. unfold uread. rewrite E. case_if; [|done]. f_equal. auto. }
  destruct Hc as [(-> & _ & Hs)|[(Ev & Er & Hx & Hl)|(Ev & Enw & Hf & Ho2 & Hp & Hrc & Hl & Hcp)]];
    [by apply Hsame, Hs|..]; pose proof (Hl rt vb Hrt Hvb) as El; (case_decide as Ed; [|by apply Hsame]);
    destruct Ed as [-> Ed]; assert (Ew : leaf (memory s) pt vb = w) by (by apply leaf_page);
    unfold uread; rewrite El, Ew in *; rewrite Ev in *; f_equal.
  - rewrite has_lor, Ev. cbn [orb]. rewrite PTE2PA_lor_W. f_equal. auto.
  - destruct (fault_entry_facts w r Hp Ev) as (-> & -> & _). f_equal. by apply Hcp.
Qed.

End fault.

(** C18: a write fault at a mapped user page either fails for want of memory
    and changes no address space, or makes the page writable for the faulting
    process alone: the entry of the page gets the write bit, in place if no
    one else refers to the page and else pointing to a fresh page with a copy
    of its bytes.  No other entry and no byte of a page in use changes.  This
    holds for every mapped user page, also for one that has been mapped
    read-only, like program text: there is no mark that a page is copy-on-write,
    and a store to text, which should be refused, succeeds on a private page. *)
Theorem vmfault_private s own roots pt va :
  vm_inv s own roots → roots pt → 0 ≤ va < MAXVA → user_leaf own (leaf (memory s) pt va) →
  has (leaf (memory s) pt va) PTE_V = true → exclusive roots s →
  ∃ r s' own', vmfault pt va true s = Done (r, s') ∧ faulted s own roots pt va r s' own' ∧
    (∀ rt vb, roots rt → 0 ≤ vb < MAXVA → user_leaf own (leaf (memory s) rt vb) → uread s' rt vb = uread s rt vb) ∧
    (r ≠ 0 → has (leaf (memory s') pt va) PTE_W = true ∧ PTE2PA (leaf (memory s') pt va) = r ∧
       ∀ x, maps (memory s') roots r x → x = (pt, va / PGSIZE)).
Proof.
  intros H Hr Hv Hu Ev Hex.
  destruct (vmfault_run s own roots pt va H Hr Hv Hu) as (r & s' & own' & E & Hfa).
  exists r, s', own'. split; [done|]. split; [done|]. split; [by eapply fault_reads|].
  intros Hr0. pose proof (fault_exclusive s own roots pt va r s' own' H Hr Hv Hu Hex Hfa) as Hex'.
  assert (Hl : has (leaf (memory s') pt va) PTE_V = true ∧ has (leaf (memory s') pt va) PTE_W = true ∧
    PTE2PA (leaf (memory s') pt va) = r).
  { destruct (fa_case _ _ _ _ _ _ _ _ Hfa) as [[? _]|[(_ & -> & _ & Hl)|(_ & _ & _ & _ & Hp & _ & Hl & _)]];
      [done|..]; rewrite Hl, decide_True by done.
    - rewrite !has_lor, Ev, PTE2PA_lor_W. by rewrite orb_true_r.
    - by destruct (fault_entry_facts _ r Hp Ev) as (? & ? & ? & _). }
  destruct Hl as (HV & HW & <-). split; [done|]. split; [done|]. by apply Hex'.
Qed.

(** ** All the calls together *)

(** User memory is below the trapframe: all that is mapped there are data
    pages. *)
Definition cow_inv (roots : Z → Prop) (s : kmem) : Prop :=
  exclusive roots s ∧ ∃ own, vm_inv s own roots ∧
  ∀ r va, roots r → 0 ≤ va < TRAPFRAME → user_leaf own (leaf (memory s) r va).

Inductive cow_step (roots : Z → Prop) (s : kmem) : kmem → Prop :=
| cow_alloc pt oldsz newsz xperm r s' :
    roots pt → 0 ≤ oldsz ≤ newsz → newsz ≤ TRAPFRAME → 0 ≤ xperm < 1024 →
    (∀ vb, PGROUNDUP oldsz ≤ vb < PGROUNDUP newsz → leaf (memory s) pt vb = 0) →
    uvmalloc pt oldsz newsz xperm s = Done (r, s') → cow_step roots s s'
| cow_dealloc pt oldsz newsz r s' :
    roots pt → 0 ≤ newsz < 2^63 → 0 ≤ oldsz ≤ TRAPFRAME →
    uvmdealloc pt oldsz newsz s = Done (r, s') → cow_step roots s s'
| cow_copy old new sz r s' :
    roots old → roots new → old ≠ new → 0 ≤ sz ≤ TRAPFRAME →
    (∀ vb, 0 ≤ vb < PGROUNDUP sz → leaf (memory s) new vb = 0) →
    uvmcopy old new sz s = Done (r, s') → cow_step roots s s'
| cow_fault pt va r s' :
    roots pt → 0 ≤ va < TRAPFRAME → vmfault pt va true s = Done (r, s') → cow_step roots s s'
| cow_write pt va b :
    roots pt → 0 ≤ va < TRAPFRAME → 0 ≤ b < 256 →
    has (leaf (memory s) pt va) PTE_V = true → has (leaf (memory s) pt va) PTE_W = true →
    cow_step roots s (uwrite s pt va b).

Lemma trapframe_round sz : 0 ≤ sz ≤ TRAPFRAME → 0 ≤ PGROUNDUP sz ≤ TRAPFRAME.
Proof. intros. destruct (PGROUNDUP_spec sz) as [? ?]; [lia..|]. dlia. Qed.

Lemma cow_alloc_inv roots s pt oldsz newsz xperm r s' :
  cow_inv roots s → roots pt → 0 ≤ oldsz ≤ newsz → newsz ≤ TRAPFRAME → 0 ≤ xperm < 1024 →
  (∀ vb, PGROUNDUP oldsz ≤ vb < PGROUNDUP newsz → leaf (memory s) pt vb = 0) →
  uvmalloc pt oldsz newsz xperm s = Done (r, s') → cow_inv roots s'.
Proof.
  intros (Hex & own & H & Hu) Hr Hsz Hmax Hx Hz E.
  destruct (uvmalloc_run s own roots pt oldsz newsz xperm) as (r1 & s1 & own' & E1 & Hres); [done..|lia|done|done|].
  assert (s1 = s') as -> by congruence. clear E E1 r. pose proof (trapframe_round newsz ltac:(lia)) as Hrn.
  assert (Hnf : ∀ rt vb e, own (PTE2PA (leaf (memory s) rt vb)) = OData e →
    (∀ p, own p ≠ OFree → own' p = own p) → own' (PTE2PA (leaf (memory s) rt vb)) = OData e).
  { intros rt vb e He Ho. rewrite Ho; congruence. }
  destruct Hres as [(_ & G)|(_ & H' & Hk & Hl)].
  - set (perm := Z.lor _ xperm) in G. assert (Hperm : 0 ≤ perm < 1024) by (apply lor_flags; [by split|done]).
    assert (Hnew : ∀ vb, PGROUNDUP oldsz ≤ vb < PGROUNDUP newsz → ∃ pg,
      PTE2PA (leaf (memory s') pt vb) = pg ∧ own pg = OFree ∧ own' pg = OData 0 ∧ refcount s' (pg / PGSIZE) = 1).
    { intros vb Hvb. destruct (gr_new _ _ _ _ _ _ _ _ _ G vb Hvb) as (pg & El & Hf & Ho & Hrc & _).
      destruct (vi_data _ _ _ (gr_inv _ _ _ _ _ _ _ _ _ G) _ _ Ho) as (Hp & _).
      destruct (pte_for_facts pg perm Hp Hperm) as (Hpp & _). exists pg. by rewrite El. }
    pose proof (gr_inv _ _ _ _ _ _ _ _ _ G) as H'.
    assert (Hdec : ∀ rt vb, roots rt → 0 ≤ vb < MAXVA →
      (rt = pt ∧ PGROUNDUP oldsz ≤ vb < PGROUNDUP newsz) ∨ leaf (memory s') rt vb = leaf (memory s) rt vb).
    { intros rt vb Hrt Hvb. destruct (decide (rt = pt ∧ PGROUNDUP oldsz ≤ vb < PGROUNDUP newsz)); [by left|right].
      by apply (gr_old _ _ _ _ _ _ _ _ _ G). }
    split.
    + intros rt vb Hrt Hvb HV HW x Hxm. destruct (Hdec rt vb Hrt Hvb) as [[-> Hb]|El].
      * destruct (Hnew vb Hb) as (pg & Epg & Hf & Ho & Hrc).
        apply (sole_mapping s' own' roots (PTE2PA (leaf (memory s') pt vb)) 0); try done; [by rewrite Epg..|].
        by apply maps_self.
      * rewrite El in *. apply (Hex rt vb); try done. destruct x as [r2 n], Hxm as (Hr2 & Hn & HV2 & Hp2).
        cbn [fst snd] in *. destruct (Hdec r2 (n * PGSIZE) Hr2 ltac:(lia)) as [[-> Hb]|El2].
        -- destruct (Hnew _ Hb) as (pg & Epg & Hf & _).
           destruct (vi_leaf _ _ _ H rt vb Hrt Hvb HV) as [[? ?]|?]; congruence.
        -- unfold maps. cbn [fst snd]. by rewrite <-El2.
    + exists own'. split; [done|]. intros rt vb Hrt Hvb HV. destruct (Hdec rt vb Hrt ltac:(lia)) as [[-> Hb]|El].
      * destruct (Hnew vb Hb) as (pg & -> & _ & Ho & _). by exists 0.
      * rewrite El in *. destruct (Hu rt vb Hrt Hvb HV) as (e & He0 & He). exists e. split; [done|].
        apply Hnf; [done|]. apply (gr_own _ _ _ _ _ _ _ _ _ G).
  - split; [by apply (exclusive_ext roots s)|]. exists own'. split; [done|]. intros rt vb Hrt Hvb.
    rewrite Hl by (done || lia). intros HV. destruct (Hu rt vb Hrt Hvb HV) as (e & He0 & He).
    exists e. split; [done|]. apply Hnf; [done|]. apply (ke_own _ _ Hk).
Qed.

Lemma cow_dealloc_inv roots s pt oldsz newsz r s' :
  cow_inv roots s → roots pt → 0 ≤ newsz < 2^63 → 0 ≤ oldsz ≤ TRAPFRAME →
  uvmdealloc pt oldsz newsz s = Done (r, s') → cow_inv roots s'.
Proof.
  intros (Hex & own & H & Hu) Hr Hn Ho E.
  pose proof (trapframe_round oldsz Ho) as Hro. destruct (PGROUNDUP_spec newsz) as [? ?]; [lia..|].
  destruct (uvmdealloc_run s own roots pt oldsz newsz) as (s1 & own' & E1 & H' & Hsh & Hl); [done|done|lia|lia| |lia|].
  { intros vb Hvb. apply Hu; [done|lia]. }
  assert (s1 = s') as -> by congruence.
  assert (Hsub : ∀ rt vb, roots rt → 0 ≤ vb < MAXVA → has (leaf (memory s') rt vb) PTE_V = true →
    leaf (memory s') rt vb = leaf (memory s) rt vb).
  { intros rt vb Hrt Hvb. rewrite Hl by done. case_decide as Ed; [|done]. destruct Ed as [-> _].
    unfold cleared. destruct (has (leaf (memory s) pt vb) PTE_V) eqn:Ev; [by rewrite has_0|done]. }
  assert (Hmaps : ∀ p x, maps (memory s') roots p x → maps (memory s) roots p x).
  { intros p x (Hrx & Hnx & HV & Hp). pose proof (Hsub x.1 (x.2 * PGSIZE) Hrx ltac:(lia) HV) as El.
    unfold maps. by rewrite <-El. }
  split.
  - intros rt vb Hrt Hvb HV HW x Hx. pose proof (Hsub _ _ Hrt Hvb HV) as El. rewrite El in *.
    by apply (Hex rt vb), Hmaps.
  - exists own'. split; [done|]. intros rt vb Hrt Hvb HV. pose proof (Hsub rt vb Hrt ltac:(lia) HV) as El.
    apply (shrink_user_leaf s own s' own' roots rt vb); try done; [lia|by apply Hu].
Qed.

Lemma parent_entry_W w : has (parent_entry w) PTE_V = true → has (parent_entry w) PTE_W = false.
Proof. unfold parent_entry. case_if; [|congruence]. intros _. apply has_ro_W. Qed.

Lemma child_entry_facts w : is_page (PTE2PA w) → has w PTE_V = true →
  PTE2PA (child_entry w) = PTE2PA w ∧ has (child_entry w) PTE_W = false.
Proof.
  intros Hp Hw. unfold child_entry. rewrite Hw.
  destruct (pte_for_facts _ (PTE_FLAGS (ro w)) Hp (PTE_FLAGS_range _)) as (Ep & _). split; [done|].
  unfold pte_for. rewrite !has_lor, has_PA2PTE, has_flags, has_ro_W by lia. done.
Qed.

Lemma child_entry_valid w : has (child_entry w) PTE_V = true → has w PTE_V = true.
Proof. unfold child_entry. case_if; [done|]. by rewrite has_0. Qed.

Lemma cow_copy_inv roots s old new sz r s' :
  cow_inv roots s → roots old → roots new → old ≠ new → 0 ≤ sz ≤ TRAPFRAME →
  (∀ vb, 0 ≤ vb < PGROUNDUP sz → leaf (memory s) new vb = 0) →
  uvmcopy old new sz s = Done (r, s') → cow_inv roots s'.
Proof.
  intros (Hex & own & H & Hu) Hro Hrn Hne Hsz Hnew E. pose proof (trapframe_round sz Hsz) as Htop.
  assert (Hold : ∀ vb, 0 ≤ vb < PGROUNDUP sz → user_leaf own (leaf (memory s) old vb)).
  { intros vb Hvb. apply Hu; [done|lia]. }
  destruct (uvmcopy_run roots old new (PGROUNDUP sz) s own H Hro Hrn Hne ltac:(lia) Hold Hnew sz)
    as (r1 & s1 & own' & E1 & K & Hp); [lia|done|].
  assert (s1 = s') as -> by congruence. clear E E1 r.
  assert (Hi : ∃ i c, 0 ≤ i ∧ (c = true → i = PGROUNDUP sz) ∧ i ≤ PGROUNDUP sz ∧ ∀ rt vb, roots rt → 0 ≤ vb < MAXVA →
    (rt = old ∧ vb < i ∧ leaf (memory s') rt vb = parent_entry (leaf (memory s) old vb)) ∨
    (¬ (rt = old ∧ vb < i) ∧ c = true ∧ rt = new ∧ vb < i ∧
     leaf (memory s') rt vb = child_entry (leaf (memory s) old vb)) ∨
    (¬ (rt = old ∧ vb < i) ∧ leaf (memory s') rt vb = leaf (memory s) rt vb)).
  { destruct (PGROUNDUP_spec sz) as [? ?]; [lia..|].
    destruct Hp as [(_ & Hl)|(_ & i & Hi & Hl)]; [exists (PGROUNDUP sz), true|exists i, false];
      (do 3 (split; [done || lia|])); intros rt vb Hrt Hvb; rewrite Hl by done;
      destruct (decide (vb < _ ∧ rt = old)) as [[? ?]|?]; [by left|right|by left|right]; [|right; tauto].
    destruct (decide (vb < _ ∧ rt = new)) as [[? ?]|?]; [left|right]; tauto. }
  destruct Hi as (i & c & Hi0 & Hc & Hit & Hcase). clear Hp.
  pose proof (λ vb (Hb : 0 ≤ vb < i) HV, child_entry_facts (leaf (memory s) old vb)
    (let '(ex_intro _ e (conj _ He)) := Hold vb ltac:(lia) HV in proj1 (vi_data _ _ _ H _ _ He)) HV) as Hchild.
  split.
  - intros rt vb Hrt Hvb HV HW x Hx.
    destruct (Hcase rt vb Hrt Hvb) as [(-> & _ & El)|[(_ & _ & -> & Hb & El)|[Hn El]]]; rewrite El in *.
    + by rewrite parent_entry_W in HW.
    + pose proof (child_entry_valid _ HV) as HV0. destruct (Hchild vb ltac:(lia) HV0) as [_ E]. congruence.
    + destruct x as [r2 n], Hx as (Hr2 & Hn2 & HV2 & Hp2). cbn [fst snd] in *.
      destruct (Hcase r2 (n * PGSIZE) Hr2 ltac:(lia)) as [(-> & _ & El2)|[(_ & Ec & -> & Hb & El2)|[_ El2]]]; rewrite El2 in *.
      * destruct (parent_entry_maps (leaf (memory s) old (n * PGSIZE))) as [E1 E2].
        apply (Hex rt vb); try done. unfold maps. cbn [fst snd]. by rewrite <-E1, <-E2.
      * exfalso. pose proof (child_entry_valid _ HV2) as HV0. destruct (Hchild (n * PGSIZE) ltac:(lia) HV0) as [E1 _].
        assert ((old, n) = (rt, vb / PGSIZE)) as Eq.
        { apply (Hex rt vb); try done. unfold maps. cbn [fst snd]. by rewrite <-E1. }
        injection Eq as <- En. apply Hn. split; [done|]. rewrite Hc by done.
        destruct (PGROUNDUP_spec sz) as [? ?]; [lia..|]. rewrite Hc in Hb by done. dlia.
      * apply (Hex rt vb); try done. 
  - exists own'. split; [apply K|]. intros rt vb Hrt Hvb HV.
    assert (Hk : ∀ e p, own p = OData e → own' p = OData e).
    { intros e p He. rewrite (kp_own _ _ _ _ _ K); congruence. }
    destruct (Hcase rt vb Hrt ltac:(lia)) as [(-> & _ & El)|[(_ & _ & -> & Hb & El)|[Hn El]]]; rewrite El in *.
    + destruct (parent_entry_maps (leaf (memory s) old vb)) as [E1 ->]. rewrite E1 in HV.
      destruct (Hu old vb Hro Hvb HV) as (e & ? & ?). eauto.
    + pose proof (child_entry_valid _ HV) as HV0. destruct (Hchild vb ltac:(lia) HV0) as [-> _].
      destruct (Hu old vb Hro Hvb HV0) as (e & ? & ?). eauto.
    + destruct (Hu rt vb Hrt Hvb HV) as (e & ? & ?). eauto.
Qed.

Lemma cow_fault_inv roots s pt va r s' :
  cow_inv roots s → roots pt → 0 ≤ va < TRAPFRAME → vmfault pt va true s = Done (r, s') → cow_inv roots s'.
Proof.
  intros (Hex & own & H & Hu) Hr Hv E. pose proof (Hu pt va Hr Hv) as Hua.
  destruct (vmfault_run s own roots pt va H Hr ltac:(lia) Hua) as (r1 & s1 & own' & E1 & Hfa).
  assert (s1 = s' ∧ r1 = r) as [-> ->] by (split; congruence).
  split; [by apply (fault_exclusive s own roots pt va r s' own'); [..|lia| | |]|].
  destruct Hfa as [H' Ho Hm Hc]. exists own'. split; [done|]. intros rt vb Hrt Hvb.
  assert (Hk : ∀ w, user_leaf own w → user_leaf own' w).
  { intros w Hw HV. destruct (Hw HV) as (e & ? & He). exists e. split; [done|]. rewrite Ho; congruence. }
  assert (Hsame : leaf (memory s') rt vb = leaf (memory s) rt vb → user_leaf own' (leaf (memory s') rt vb)).
  { intros ->. by apply Hk, Hu. }
  destruct Hc as [(-> & _ & Hs)|[(Ev & Er & Hx & Hl)|(Ev & Enw & Hf & Ho2 & Hp & Hrc & Hl & Hcp)]];
    [apply Hsame, Hs; [done|lia]|..]; pose proof (Hl rt vb Hrt ltac:(lia)) as El;
    (case_decide as Ed; [|by apply Hsame]); rewrite El.
  - intros _. rewrite PTE2PA_lor_W. by apply (Hk (leaf (memory s) pt va)).
  - intros _. destruct (fault_entry_facts _ r Hp Ev) as (-> & _). by exists 0.
Qed.

Lemma uwrite_frame roots s own pt va b :
  vm_inv s own roots → user_leaf own (leaf (memory s) pt va) → has (leaf (memory s) pt va) PTE_V = true →
  0 ≤ b < 256 →
  vm_inv (uwrite s pt va b) own roots ∧
  ∀ r vb, roots r → 0 ≤ vb < MAXVA → leaf (memory (uwrite s pt va b)) r vb = leaf (memory s) r vb.
Proof.
  intros H Hu HV Hb. destruct (Hu HV) as (e & _ & He). destruct (vi_data _ _ _ H _ _ He) as ([Ha _] & _).
  unfold uwrite. cbn [memory set_memory]. apply vm_write; [done|..].
  - destruct (vi_free _ _ _ H) as (free & Hok & _). intros x. rewrite fupd_spec. case_decide; [done|].
    apply (fl_mem _ _ (ko_fl _ _ Hok)).
  - intros y Hy. apply fupd_ne. intros ->. pose proof (Z.mod_pos_bound va PGSIZE ltac:(lia)).
    rewrite (page_of_in (PTE2PA (leaf (memory s) pt va))), He in Hy by (done || lia). naive_solver.
Qed.

Lemma cow_step_inv roots s s' : cow_inv roots s → cow_step roots s s' → cow_inv roots s'.
Proof.
  intros Hi Hs. destruct Hs.
  - eapply cow_alloc_inv; eassumption.
  - eapply cow_dealloc_inv; eassumption.
  - by apply (cow_copy_inv roots s old new sz r s').
  - eapply cow_fault_inv; eassumption.
  - destruct Hi as (Hex & own & Hinv & Hu).
    destruct (uwrite_frame roots s own pt va b) as [H' Hl]; [done|by apply Hu|done|done|].
    split; [by apply (exclusive_ext roots s)|]. exists own. split; [done|].
    intros rt vb Hrt Hvb. rewrite Hl by (done || lia). by apply Hu.
Qed.

Lemma uwrite_isolated roots s pt va b :
  cow_inv roots s → roots pt → 0 ≤ va < TRAPFRAME → 0 ≤ b < 256 →
  has (leaf (memory s) pt va) PTE_V = true → has (leaf (memory s) pt va) PTE_W = true →
  uread (uwrite s pt va b) pt va = Some b ∧
  ∀ r vb, roots r → 0 ≤ vb < MAXVA → (r, vb) ≠ (pt, va) →
    uread (uwrite s pt va b) r vb = uread s r vb.
Proof.
  intros Hi' Hr Hv Hb HV HW.
  destruct Hi' as (Hex & own & H & Hu). pose proof (Hu pt va Hr Hv) as Hua.
  destruct (uwrite_frame roots s own pt va b H Hua HV Hb) as [H' Hl]. unfold uread. split.
  - rewrite Hl, HV by (done || lia). cbn [memory uwrite set_memory]. by rewrite fupd_eq.
  - intros r vb Hr' Hvb Hne. rewrite Hl by done. destruct (has (leaf (memory s) r vb) PTE_V) eqn:Ev; [|done].
    f_equal. cbn [memory uwrite set_memory]. apply fupd_ne. intros Ea.
    destruct (Hua HV) as (e & _ & He). destruct (vi_data _ _ _ H _ _ He) as ([Ha _] & _).
    pose proof (PTE2PA_aligned (leaf (memory s) r vb)) as Ha'.
    assert (PTE2PA (leaf (memory s) r vb) = PTE2PA (leaf (memory s) pt va) ∧ vb mod PGSIZE = va mod PGSIZE) as [Ep Em]
      by dlia.
    assert ((r, vb / PGSIZE) = (pt, va / PGSIZE)) as [= -> Eq].
    { apply (Hex pt va); [done|lia|done|done|]. rewrite <-Ep. by apply maps_self. }
    apply Hne. f_equal. pose proof (Z.div_mod vb PGSIZE). pose proof (Z.div_mod va PGSIZE). lia.
Qed.

(** C3: isolation under copy-on-write.  In every state that calls of uvmalloc,
    uvmdealloc, uvmcopy and vmfault and user writes reach, a byte written
    through a writable page of one address space is read back there, and no
    other virtual address of this or any other address space reads a
    different byte. *)
Theorem cow_isolation roots s0 s pt va b :
  cow_inv roots s0 → rtc (cow_step roots) s0 s →
  roots pt → 0 ≤ va < TRAPFRAME → 0 ≤ b < 256 →
  has (leaf (memory s) pt va) PTE_V = true → has (leaf (memory s) pt va) PTE_W = true →
  uread (uwrite s pt va b) pt va = Some b ∧
  ∀ r vb, roots r → 0 ≤ vb < MAXVA → (r, vb) ≠ (pt, va) →
    uread (uwrite s pt va b) r vb = uread s r vb.
Proof.
  intros Hi Hrtc Hr Hv Hb HV HW.
  assert (Hi' : cow_inv roots s) by (revert Hi; induction Hrtc; eauto using cow_step_inv).
  by apply (uwrite_isolated roots).
Qed.

(** ** copyout and copyin *)

(** A user address the process may write, and one it may read. *)
Definition uwritable (s : kmem) (pt va : Z) : Prop :=
  has (leaf (memory s) pt va) PTE_V = true ∧ has (leaf (memory s) pt va) PTE_U = true ∧
  has (leaf (memory s) pt va) PTE_W = true.

Lemma page_offset va k : 0 ≤ k → va mod PGSIZE + k < PGSIZE →
  (va + k) / PGSIZE = va / PGSIZE ∧ (va + k) mod PGSIZE = va mod PGSIZE + k.
Proof. intros. split; dlia. Qed.

(** Bytes stored inside one page are so many user writes. *)
Lemma write_chunk roots pt : roots pt → ∀ l s va,
  cow_inv roots s → 0 ≤ va < TRAPFRAME → va mod PGSIZE + Z.of_nat (length l) ≤ PGSIZE →
  has (leaf (memory s) pt va) PTE_V = true → has (leaf (memory s) pt va) PTE_W = true →
  Forall (λ b, 0 ≤ b < 256) l →
  let s' := set_memory (write_bytes (memory s) (PTE2PA (leaf (memory s) pt va) + va mod PGSIZE) l) s in
  cow_inv roots s' ∧
  (∀ r vb, roots r → 0 ≤ vb < MAXVA → leaf (memory s') r vb = leaf (memory s) r vb) ∧
  ∀ r vb, roots r → 0 ≤ vb < MAXVA →
    uread s' r vb = if decide (r = pt ∧ va ≤ vb < va + Z.of_nat (length l))
                    then l !! Z.to_nat (vb - va) else uread s r vb.
Proof.
  intros Hr. induction l as [|b l IH]; intros s va Hi Hv Hlen HV HW Hl; cbn [write_bytes].
  - cbv zeta. replace (set_memory (memory s) s) with s by (by destruct s).
    split; [done|]. split; [done|]. intros r vb _ _. rewrite decide_False; [done|]. cbn. lia.
  - cbv zeta. apply Forall_cons in Hl as [Hb Hl]. cbn [length] in Hlen.
    replace (u8 b) with b by (unfold u8; rewrite Z.mod_small; lia).
    pose proof Hi as (_ & own & H & Hu).
    destruct (uwrite_frame roots s own pt va b H (Hu pt va Hr Hv) HV Hb) as [_ Hlf].
    destruct (uwrite_isolated roots s pt va b Hi Hr Hv Hb HV HW) as [Hsame Hother].
    assert (Hi1 : cow_inv roots (uwrite s pt va b)) by (apply (cow_step_inv roots s); [done|by constructor]).
    destruct (decide (l = [])) as [->|Hne].
    + cbn [write_bytes length]. split; [exact Hi1|]. split; [exact Hlf|]. intros r vb Hr' Hvb.
      destruct (decide (r = pt ∧ va ≤ vb < va + Z.of_nat 1)) as [[-> E]|E].
      * replace vb with va by lia. rewrite Z.sub_diag. exact Hsame.
      * apply Hother; [done..|]. intros [= -> ->]. apply E. split; [done|lia].
    + assert (0 < Z.of_nat (length l)) by (destruct l; [done|cbn; lia]).
      pose proof (Z.mod_pos_bound va PGSIZE ltac:(lia)) as Hmod.
      destruct (page_offset va 1) as [Hp1 Hp2]; [lia..|].
      assert (Hv1 : 0 ≤ va + 1 < TRAPFRAME) by dlia.
      assert (El : leaf (memory (uwrite s pt va b)) pt (va + 1) = leaf (memory s) pt va).
      { rewrite Hlf by (done || lia). by apply leaf_page. }
      destruct (IH (uwrite s pt va b) (va + 1)) as (Hi2 & Hlf2 & Hrd); [done|done|lia|by rewrite El..|done|].
      rewrite El, Hp2, Z.add_assoc in Hi2, Hlf2, Hrd.
      split; [exact Hi2|]. split.
      { intros r vb Hr' Hvb. etransitivity; [by apply Hlf2|by apply Hlf]. }
      intros r vb Hr' Hvb. etransitivity; [by apply Hrd|]. cbn [length].
      destruct (decide (r = pt ∧ va + 1 ≤ vb < va + 1 + Z.of_nat (length l))) as [[-> E]|E].
      * rewrite decide_True by lia. replace (Z.to_nat (vb - va)) with (S (Z.to_nat (vb - (va + 1)))) by lia. done.
      * destruct (decide (r = pt ∧ vb = va)) as [[-> ->]|E2].
        -- rewrite decide_True by lia. rewrite Z.sub_diag. exact Hsame.
        -- rewrite Hother; [|done..|intros [= -> ->]; by apply E2].
           rewrite decide_False; [done|]. intros [-> ?]. destruct (decide (vb = va)); [by apply E2|apply E; split; [done|lia]].
Qed.

Lemma user_page s own roots pt va : vm_inv s own roots → roots pt → 0 ≤ va < MAXVA →
  user_leaf own (leaf (memory s) pt va) → has (leaf (memory s) pt va) PTE_V = true →
  PTE2PA (leaf (memory s) pt va) ≠ 0.
Proof.
  intros H Hr Hv Hu HV. destruct (Hu HV) as (e & _ & He). destruct (vi_data _ _ _ H _ _ He) as (Hp & _).
  by apply page_nonzero.
Qed.

Lemma round_down_page va : 0 ≤ va →
  PGROUNDDOWN va / PGSIZE = va / PGSIZE ∧ va - PGROUNDDOWN va = va mod PGSIZE ∧
  0 ≤ PGROUNDDOWN va ≤ va ∧ va < PGROUNDDOWN va + PGSIZE ∧ PGROUNDDOWN va mod PGSIZE = 0.
Proof. intros. destruct (PGROUNDDOWN_spec va) as [? ?]; [done|]. repeat split; dlia. Qed.

(** One page of copyout. *)
Lemma copyout_page_run roots s pt va src :
  cow_inv roots s → roots pt → 0 ≤ va < TRAPFRAME → src ≠ [] → uwritable s pt va →
  Forall (λ b, 0 ≤ b < 256) src →
  let n := Z.min (PGSIZE - va mod PGSIZE) (Z.of_nat (length src)) in
  ∃ s', copyout_page pt va src s =
    Done (inl (PGROUNDDOWN va + PGSIZE, drop (Z.to_nat n) src), s') ∧ cow_inv roots s' ∧
    (∀ r vb, roots r → 0 ≤ vb < MAXVA → leaf (memory s') r vb = leaf (memory s) r vb) ∧
    ∀ r vb, roots r → 0 ≤ vb < MAXVA →
      uread s' r vb = if decide (r = pt ∧ va ≤ vb < va + n) then src !! Z.to_nat (vb - va) else uread s r vb.
Proof.
  intros Hi Hr Hv Hne (HV & HU & HW) Hl n. pose proof Hi as (_ & own & H & Hu).
  destruct (round_down_page va) as (Hpg & Hoff & Hd1 & Hd2 & Hd3); [lia|].
  assert (El : leaf (memory s) pt (PGROUNDDOWN va) = leaf (memory s) pt va) by (by apply leaf_page).
  unfold copyout_page. rewrite (proj2 (Z.leb_gt MAXVA _)) by lia.
  rewrite (bind_done _ _ _ _ _ (walkaddr_run s own roots pt (PGROUNDDOWN va) H Hr ltac:(lia))), El, HV, HU.
  rewrite (proj2 (Z.ltb_lt _ MAXVA)) by lia. cbn [andb]. pose proof (user_page s own roots pt va H Hr ltac:(lia) (Hu pt va Hr Hv) HV) as Hnz.
  rewrite (proj2 (Z.eqb_neq _ _) Hnz), (bind_done _ _ _ _ _ eq_refl), (proj2 (Z.eqb_neq _ _) Hnz).
  rewrite (bind_done _ _ _ _ _ (walk_false_run s pt (PGROUNDDOWN va) ltac:(lia))).
  destruct (table_of (memory s) pt (PGROUNDDOWN va) 2) as [t|] eqn:Ht;
    [|exfalso; revert HV; rewrite <-El; unfold leaf; by rewrite Ht, has_0].
  rewrite (entry_nonzero s own roots pt (PGROUNDDOWN va) t) by (done || lia).
  rewrite (bind_done _ _ _ _ _ (load64_run _ _)), (leaf_at _ _ _ _ Ht), El, HW. cbn [negb].
  rewrite Hoff. fold n. pose proof (Z.mod_pos_bound va PGSIZE ltac:(lia)) as Hmod.
  assert (Hn : 0 ≤ n ≤ Z.of_nat (length src)) by lia.
  assert (Hlen : Z.of_nat (length (take (Z.to_nat n) src)) = n) by (rewrite length_take; lia).
  destruct (write_chunk roots pt Hr (take (Z.to_nat n) src) s va) as (Hi2 & Hlf & Hrd);
    [done|done|lia|done|done|by apply Forall_take|].
  eexists. split; [unfold bind, modify, ret; rewrite u64_small by lia; reflexivity|].
  split; [exact Hi2|]. split; [exact Hlf|]. intros r vb Hr' Hvb. rewrite Hrd by done. rewrite Hlen.
  case_decide as E; [|done]. rewrite lookup_take_lt by lia. done.
Qed.

(** The loop of copyout over the pages. *)
Lemma copyout_loop roots pt : roots pt → ∀ k s va src,
  cow_inv roots s → 0 ≤ va → va + Z.of_nat (length src) ≤ TRAPFRAME →
  (∀ vb, va ≤ vb < va + Z.of_nat (length src) → uwritable s pt vb) → Forall (λ b, 0 ≤ b < 256) src →
  (va mod PGSIZE + Z.of_nat (length src) + PGSIZE - 1) / PGSIZE < Z.of_nat k →
  ∃ s', while k (λ '(dstva, src), match src with [] => ret (inr 0) | _ => copyout_page pt dstva src end)
          (va, src) s = Done (0, s') ∧ cow_inv roots s' ∧
    (∀ r vb, roots r → 0 ≤ vb < MAXVA → leaf (memory s') r vb = leaf (memory s) r vb) ∧
    ∀ r vb, roots r → 0 ≤ vb < MAXVA →
      uread s' r vb = if decide (r = pt ∧ va ≤ vb < va + Z.of_nat (length src))
                      then src !! Z.to_nat (vb - va) else uread s r vb.
Proof.
  intros Hr. induction k as [|k IH]; intros s va src Hi Hv Htop Hw Hl Hk.
  { exfalso. pose proof (Z.mod_pos_bound va PGSIZE ltac:(lia)). dlia. }
  rewrite while_S. destruct src as [|b src0].
  { exists s. split; [done|]. split; [done|]. split; [done|]. intros. rewrite decide_False; [done|]. cbn. lia. }
  set (src := b :: src0) in *. assert (0 < Z.of_nat (length src)) by (cbn; lia).
  destruct (copyout_page_run roots s pt va src) as (s1 & E & Hi1 & Hlf1 & Hrd1); [done|done|lia|done|apply Hw; lia|done|].
  set (n := Z.min _ _) in *. rewrite E. clear E.
  destruct (round_down_page va) as (Hpg & Hoff & Hd1 & Hd2 & Hd3); [lia|].
  pose proof (Z.mod_pos_bound va PGSIZE ltac:(lia)) as Hmod.
  assert (Hdl : Z.of_nat (length (drop (Z.to_nat n) src)) = Z.of_nat (length src) - n) by (rewrite length_drop; lia).
  destruct (decide (Z.of_nat (length src) ≤ PGSIZE - va mod PGSIZE)) as [Hfit|Hfit].
  - assert (n = Z.of_nat (length src)) as En by lia.
    assert (drop (Z.to_nat n) src = []) as -> by (apply drop_ge; lia).
    destruct k as [|k]; [exfalso; dlia|]. exists s1. split; [done|]. split; [done|]. split; [done|].
    intros r vb Hr' Hvb. rewrite Hrd1, En by done. done.
  - assert (n = PGSIZE - va mod PGSIZE) as En by lia. assert (PGROUNDDOWN va + PGSIZE = va + n) as Eva by lia.
    rewrite Eva. assert ((va + n) mod PGSIZE = 0) as Hal by (rewrite <-Eva; dlia).
    destruct (IH s1 (va + n) (drop (Z.to_nat n) src)) as (s2 & E2 & Hi2 & Hlf2 & Hrd2).
    { done. } { lia. } { rewrite Hdl. lia. }
    { rewrite Hdl. intros vb Hvb. unfold uwritable. rewrite Hlf1 by (done || lia). apply Hw. lia. }
    { by apply Forall_drop. } { rewrite Hdl, Hal. subst n. dlia. }
    exists s2. split; [exact E2|]. split; [done|]. split; [intros; by rewrite Hlf2, Hlf1|].
    intros r vb Hr' Hvb. rewrite Hrd2, Hdl, Hrd1 by done.
    destruct (decide (r = pt)) as [->|Hne]; [|by rewrite !decide_False by naive_solver].
    destruct (decide (va + n ≤ vb < va + Z.of_nat (length src))).
    + rewrite decide_True by lia. rewrite (decide_True (P := pt = pt ∧ va ≤ vb < va + Z.of_nat _)) by lia.
      rewrite lookup_drop. f_equal. lia.
    + rewrite decide_False by lia. destruct (decide (va ≤ vb < va + n)).
      * rewrite !decide_True by lia. done.
      * by rewrite !decide_False by lia.
Qed.

Definition ureadable (s : kmem) (pt va : Z) : Prop :=
  has (leaf (memory s) pt va) PTE_V = true ∧ has (leaf (memory s) pt va) PTE_U = true.

(** The loop of copyin. *)
Lemma copyin_loop roots pt s : roots pt → cow_inv roots s → ∀ k va len dst,
  0 ≤ va → 0 ≤ len → va + len ≤ TRAPFRAME →
  (∀ vb, va ≤ vb < va + len → ureadable s pt vb) →
  (va mod PGSIZE + len + PGSIZE - 1) / PGSIZE < Z.of_nat k →
  ∃ l, while k (λ '(srcva, len, dst),
                  if 0 <? len then copyin_page pt srcva len dst else ret (inr (0, dst)))
          (va, len, dst) s = Done ((0, dst ++ l), s) ∧ Z.of_nat (length l) = len ∧
    ∀ i, 0 ≤ i < len → uread s pt (va + i) = l !! Z.to_nat i.
Proof.
  intros Hr Hi. pose proof Hi as (_ & own & H & Hu).
  induction k as [|k IH]; intros va len dst Hv Hlen Htop Hrd Hk.
  { exfalso. pose proof (Z.mod_pos_bound va PGSIZE ltac:(lia)). dlia. }
  rewrite while_S. destruct (Z.ltb_spec 0 len) as [Hpos|?].
  2:{ exists []. rewrite app_nil_r. split; [done|]. split; [cbn; lia|]. intros. lia. }
  destruct (round_down_page va) as (Hpg & Hoff & Hd1 & Hd2 & Hd3); [lia|].
  assert (El : leaf (memory s) pt (PGROUNDDOWN va) = leaf (memory s) pt va) by (by apply leaf_page).
  destruct (Hrd va ltac:(lia)) as [HV HU]. unfold copyin_page.
  rewrite (bind_done _ _ _ _ _ (walkaddr_run s own roots pt (PGROUNDDOWN va) H Hr ltac:(lia))), El, HV, HU.
  rewrite (proj2 (Z.ltb_lt _ MAXVA)) by lia. cbn [andb].
  pose proof (user_page s own roots pt va H Hr ltac:(lia) (Hu pt va Hr ltac:(lia)) HV) as Hnz.
  rewrite (proj2 (Z.eqb_neq _ _) Hnz), (bind_done _ _ _ _ _ eq_refl), (proj2 (Z.eqb_neq _ _) Hnz).
  rewrite Hoff. pose proof (Z.mod_pos_bound va PGSIZE ltac:(lia)) as Hmod.
  set (n := Z.min (PGSIZE - va mod PGSIZE) len). unfold bind, gets, ret. rewrite u64_small by lia.
  set (chunk := bytes _ _ _). assert (Hlc : Z.of_nat (length chunk) = n) by (unfold chunk; rewrite bytes_length; lia).
  assert (Hch : ∀ i, 0 ≤ i < n → uread s pt (va + i) = chunk !! Z.to_nat i).
  { intros i Hin. destruct (page_offset va i) as [E1 E2]; [lia..|].
    unfold uread. rewrite (leaf_page _ pt (va + i) va E1), HV, E2. unfold chunk.
    rewrite bytes_lookup by lia. do 2 f_equal. lia. }
  assert (PGROUNDDOWN va + PGSIZE = va + n ∨ n = len) as Hnext by lia.
  destruct (decide (n = len)) as [En|En].
  - exists chunk. destruct k as [|k]; [exfalso; dlia|]. rewrite while_S, En, Z.sub_diag. cbn [Z.ltb Z.compare].
    split; [done|]. split; [lia|]. by rewrite <-En.
  - assert (PGROUNDDOWN va + PGSIZE = va + n) as Eva by lia. rewrite Eva.
    assert ((va + n) mod PGSIZE = 0) as Hal by (rewrite <-Eva; dlia).
    destruct (IH (va + n) (len - n) (dst ++ chunk)) as (l & E & Hl & Hlr).
    { lia. } { lia. } { lia. } { intros vb Hvb. apply Hrd. lia. } { rewrite Hal. subst n. dlia. }
    exists (chunk ++ l). rewrite app_assoc. split; [exact E|]. rewrite length_app. split; [lia|].
    intros i Hi'. destruct (decide (i < n)).
    + rewrite lookup_app_l by lia. apply Hch. lia.
    + rewrite lookup_app_r by lia. replace (va + i) with (va + n + (i - n)) by lia.
      rewrite Hlr by lia. f_equal. lia.
Qed.

(** C34: copyout writes the bytes it is given to the user addresses from dstva
    on, if the process may write them, and nothing else that any process can
    read changes; copyin of the same range then returns these bytes. *)
Theorem copyout_copyin roots s pt va src :
  cow_inv roots s → roots pt → 0 ≤ va → va + Z.of_nat (length src) ≤ TRAPFRAME →
  (∀ vb, va ≤ vb < va + Z.of_nat (length src) → uwritable s pt vb) → Forall (λ b, 0 ≤ b < 256) src →
  ∃ s', copyout pt va src s = Done (0, s') ∧
    (∀ r vb, roots r → 0 ≤ vb < MAXVA → ¬ (r = pt ∧ va ≤ vb < va + Z.of_nat (length src)) →
       uread s' r vb = uread s r vb) ∧
    copyin pt va (Z.of_nat (length src)) s' = Done ((0, src), s').
Proof.
  intros Hi Hr Hv Htop Hw Hl.
  pose proof (Z.mod_pos_bound va PGSIZE ltac:(lia)) as Hmod.
  assert (Hdiv : Z.of_nat (length src / Z.to_nat PGSIZE) = Z.of_nat (length src) / PGSIZE).
  { rewrite Nat2Z.inj_div. done. }
  destruct (copyout_loop roots pt Hr (length src / Z.to_nat PGSIZE + 3) s va src) as (s' & E & Hi' & Hlf & Hrd); try done.
  { rewrite Nat2Z.inj_add, Hdiv. dlia. }
  exists s'. split; [exact E|]. split.
  - intros r vb Hr' Hvb Hn. rewrite Hrd by done. by rewrite decide_False.
  - destruct (copyin_loop roots pt s' Hr Hi' (Z.to_nat (Z.of_nat (length src) / PGSIZE) + 3) va
      (Z.of_nat (length src)) []) as (l & El & Hll & Hlr); [lia..| | |].
    + intros vb Hvb. destruct (Hw vb Hvb) as (HV & HU & _). unfold ureadable. by rewrite Hlf by (done || lia).
    + rewrite Nat2Z.inj_add, Z2Nat.id by (apply Z.div_pos; lia). dlia.
    + unfold copyin. rewrite El. cbn [app]. do 3 f_equal. apply list_eq. intros i.
      destruct (decide (i < length src)%nat) as [Hin|Hin].
      * specialize (Hlr (Z.of_nat i) ltac:(lia)). rewrite Nat2Z.id in Hlr. rewrite <-Hlr, Hrd by (done || lia).
        rewrite decide_True by lia. f_equal. lia.
      * rewrite !lookup_ge_None_2 by lia. done.
Qed.

(** copyout to a user page that is mapped without the write bit, as every
    page is after uvmcopy, returns -1 and writes nothing: unlike a store of
    the process itself it does not make the page private. *)
Theorem copyout_cow_refused roots s pt va src :
  cow_inv roots s → roots pt → 0 ≤ va < TRAPFRAME → src ≠ [] →
  ureadable s pt va → has (leaf (memory s) pt va) PTE_W = false →
  copyout pt va src s = Done (-1, s).
Proof.
  intros (_ & own & H & Hu) Hr Hv Hne (HV & HU) HW. unfold copyout.
  destruct (round_down_page va) as (Hpg & Hoff & Hd1 & Hd2 & Hd3); [lia|].
  assert (El : leaf (memory s) pt (PGROUNDDOWN va) = leaf (memory s) pt va) by (by apply leaf_page).
  replace (length src / Z.to_nat PGSIZE + 3)%nat with (S (length src / Z.to_nat PGSIZE + 2)) by lia.
  rewrite while_S. destruct src as [|b src]; [done|]. unfold copyout_page.
  rewrite (proj2 (Z.leb_gt MAXVA _)) by lia.
  rewrite (bind_done _ _ _ _ _ (walkaddr_run s own roots pt (PGROUNDDOWN va) H Hr ltac:(lia))), El, HV, HU.
  rewrite (proj2 (Z.ltb_lt _ MAXVA)) by lia. cbn [andb].
  pose proof (user_page s own roots pt va H Hr ltac:(lia) (Hu pt va Hr Hv) HV) as Hnz.
  rewrite (proj2 (Z.eqb_neq _ _) Hnz), (bind_done _ _ _ _ _ eq_refl), (proj2 (Z.eqb_neq _ _) Hnz).
  rewrite (bind_done _ _ _ _ _ (walk_false_run s pt (PGROUNDDOWN va) ltac:(lia))).
  destruct (table_of (memory s) pt (PGROUNDDOWN va) 2) as [t|] eqn:Ht;
    [|exfalso; revert HV; rewrite <-El; unfold leaf; by rewrite Ht, has_0].
  rewrite (entry_nonzero s own roots pt (PGROUNDDOWN va) t) by (done || lia).
  rewrite (bind_done _ _ _ _ _ (load64_run _ _)), (leaf_at _ _ _ _ Ht), El, HW. done.
Qed.

(** copyin of a range inside one page that is mapped but not accessible to
    the user (the trapframe, say) does not fail: walkaddr refuses the page,
    but vmfault, which copyin calls next, does not look at PTE_U, and the
    bytes of the page are copied. *)
Theorem copyin_ignores_PTE_U s own roots pt va len e :
  vm_inv s own roots → roots pt → 0 ≤ va < MAXVA → 0 < len → va mod PGSIZE + len ≤ PGSIZE →
  let w := leaf (memory s) pt va in
  has w PTE_V = true → has w PTE_U = false → own (PTE2PA w) = OData e →
  copyin pt va len s =
  Done ((0, bytes (memory s) (PTE2PA w + va mod PGSIZE) (Z.to_nat len)), s).
Proof.
  intros H Hr Hv Hlen Hin w HV HU He. unfold copyin.
  destruct (round_down_page va) as (Hpg & Hoff & Hd1 & Hd2 & Hd3); [lia|].
  assert (El : leaf (memory s) pt (PGROUNDDOWN va) = w) by (by apply leaf_page).
  replace (Z.to_nat (len / PGSIZE) + 3)%nat with (S (S (Z.to_nat (len / PGSIZE) + 1))) by lia.
  rewrite while_S, (proj2 (Z.ltb_lt 0 len)) by lia. unfold copyin_page.
  rewrite (bind_done _ _ _ _ _ (walkaddr_run s own roots pt (PGROUNDDOWN va) H Hr ltac:(lia))), El, HV, HU.
  rewrite !andb_false_r, Z.eqb_refl.
  destruct (table_of (memory s) pt (PGROUNDDOWN va) 2) as [t|] eqn:Ht;
    [|exfalso; revert HV; rewrite <-El; unfold leaf; by rewrite Ht, has_0].
  assert (Hf : vmfault pt (PGROUNDDOWN va) false s = Done (PTE2PA w, s)).
  { unfold vmfault. rewrite (PGROUNDDOWN_aligned (PGROUNDDOWN va)) by (done || lia).
    rewrite (bind_done _ _ _ _ _ (walk_exists true s pt (PGROUNDDOWN va) t ltac:(lia) Ht)).
    rewrite (entry_nonzero s own roots pt (PGROUNDDOWN va) t) by (done || lia).
    rewrite (bind_done _ _ _ _ _ (load64_run _ _)), (leaf_at _ _ _ _ Ht), El, HV. done. }
  rewrite (bind_done _ _ _ _ _ Hf). destruct (vi_data _ _ _ H _ _ He) as (Hp & _).
  rewrite (proj2 (Z.eqb_neq _ _) (page_nonzero _ Hp)), Hoff, Z.min_r by lia. unfold bind, gets, ret.
  rewrite while_S, Z.sub_diag. done.
Qed.

End thms.
