(* ===== verification/VmWitness.v ===== *)
(** Concrete address spaces in which the theorems on user memory apply.

    Eight pages of memory: the root tables R1 and R2 of two address spaces,
    the lower tables T1, T2 and U1, U2 of the path to virtual address 0 in
    each, a data page D that R1 maps at 0, and one free page.  The state is
    built by the steps the lemmas describe: two new roots, four linked tables,
    one mapping. *)

From S2P Require Import Prelude Riscv Memory Kalloc Vm VmSpec VmMap VmUser VmCow VmThms.

#[local] Opaque memset kmemset zeroed allocated mappages kalloc dropped uvmunmap walk.

Module Small.
#[export] Instance small : KernelImage := {|
  kend := 0x87ff8000; etext := 0x80008000; trampoline := 0x80007000;
  kend_range := ltac:(lia); etext_range := ltac:(split; [lia|reflexivity]);
  trampoline_range := ltac:(split; [lia|reflexivity])
|}.

Abbreviation R1 := 0x87ff8000 (only parsing).
Abbreviation R2 := 0x87ff9000 (only parsing).
Abbreviation T1 := 0x87ffa000 (only parsing).
Abbreviation T2 := 0x87ffb000 (only parsing).
Abbreviation U1 := 0x87ffc000 (only parsing).
Abbreviation U2 := 0x87ffd000 (only parsing).
Abbreviation D := 0x87ffe000 (only parsing).
Abbreviation F := 0x87fff000 (only parsing).

Definition none (r : Z) : Prop := False.
Definition base_rc (i : Z) : Z := if decide (is_page (i * PGSIZE)) then (if decide (i * PGSIZE = F) then 0 else 1) else 0.
Definition base : kmem := mkKmem (λ _, 0) F base_rc.
Definition base_own (p : Z) : owner :=
  if decide (is_page p) then (if decide (p = F) then OFree else OData 1) else OOther.

Lemma rc_page p : is_page p → base_rc (p / PGSIZE) = if decide (p = F) then 0 else 1.
Proof.
  intros Hp. unfold base_rc. destruct (page_index p Hp) as [_ ->]. by rewrite decide_True.
Qed.

Lemma F_page : is_page F.
Proof. split; [done|]. cbn. lia. Qed.

Lemma base_ok : kmem_ok base [F].
Proof.
  split; [split|]; cbn [memory freelist refcount base].
  - by split.
  - apply NoDup_singleton.
  - intros p ->%list_elem_of_singleton. split; [apply F_page|]. by rewrite rc_page by apply F_page.
  - intros i. unfold base_rc. repeat case_decide; split; (lia || done).
  - intros a. cbn. lia.
  - intros p Hp. rewrite rc_page by done. case_decide; [subst; set_solver|done].
Qed.

Lemma base_inv : vm_inv base base_own none.
Proof.
  split.
  - exists [F]. split; [apply base_ok|]. intros p. rewrite list_elem_of_singleton. unfold base_own.
    pose proof F_page. repeat case_decide; subst; naive_solver.
  - intros p r d x. unfold base_own. by repeat case_decide.
  - intros p e. unfold base_own. repeat case_decide; [done| |done]. intros [= <-]. split; [done|].
    exists 0. split; [by apply mapped_times_none; intros x (? & _)|]. cbn. by rewrite rc_page, decide_False.
  - intros p. unfold base_own. by repeat case_decide.
  - done.
  - done.
  - done.
Qed.

Definition zero_page (m : mem) (p : Z) : Prop := ∀ y, p ≤ y < p + PGSIZE → m y = 0.

Definition roots (r : Z) : Prop := add_root (add_root none R1) R2 r.
Definition own2 : Z → owner := fupd (fupd base_own R1 (OTable R1 0 0)) R2 (OTable R2 0 0).

Lemma roots_inv : vm_inv base own2 roots.
Proof.
  apply vm_new_root; [apply vm_new_root; [apply base_inv|..]|..]; done.
Qed.

(** Linking the tables. *)
Definition link (t p : Z) (s : kmem) : kmem :=
  set_memory (st64 (memory s) t (Z.lor (PA2PTE p) PTE_V)) s.

Definition s3 := link R1 T1 base.
Definition s4 := link T1 T2 s3.
Definition s5 := link R2 U1 s4.
Definition s6 := link U1 U2 s5.
Definition own3 := fupd own2 T1 (OTable R1 1 0).
Definition own4 := fupd own3 T2 (OTable R1 2 0).
Definition own5 := fupd own4 U1 (OTable R2 1 0).
Definition own6 := fupd own5 U2 (OTable R2 2 0).

Lemma link_zero s t p q : zero_page (memory s) q → t + 8 ≤ q ∨ q + PGSIZE ≤ t → zero_page (memory (link t p s)) q.
Proof. intros H Ht y Hy. cbn [link memory set_memory]. rewrite st64_other by lia. by apply H. Qed.

Definition no_leaf (s : kmem) : Prop := ∀ r vb, roots r → 0 ≤ vb < MAXVA → leaf (memory s) r vb = 0.

Lemma roots_no_leaf : no_leaf base.
Proof. intros r vb _ _. by apply leaf_new_root. Qed.

Lemma link_step s own root d t p :
  vm_inv s own roots → roots root → (d < 2)%nat → table_of (memory s) root 0 d = Some t →
  ld64 (memory s) t = 0 → own p = OData 1 → refcount s (p / PGSIZE) = 1 → zero_page (memory s) p →
  no_leaf s →
  vm_inv (link t p s) (fupd own p (OTable root (S d) 0)) roots ∧ no_leaf (link t p s).
Proof.
  intros H Hr Hd Ht Hz Hp Hrc Hzp Hl.
  assert (E0 : PX (2 - Z.of_nat d) 0 = 0) by (destruct d as [|[|]]; [done|done|lia]).
  assert (Ep : prefix (S d) 0 = 0) by apply Zdiv_0_l.
  assert (Hno : has (ld64 (memory s) (t + 8 * PX (2 - Z.of_nat d) 0)) PTE_V = false).
  { by rewrite E0, Z.add_0_r, Hz, has_0. }
  pose proof (link_inv s own roots root 0 d t p H Hr ltac:(lia) Hd Ht Hno Hp Hrc Hzp) as H1.
  pose proof (link_leaf s own roots root 0 d t p H Hr ltac:(lia) Hd Ht Hno Hp Hrc Hzp) as H2.
  rewrite E0, Ep, Z.add_0_r in *. split; [done|]. intros r vb Hr' Hvb. cbn [link memory set_memory].
  rewrite H2 by done. by apply Hl.
Qed.

Lemma roots_1 : roots R1. Proof. by left; right. Qed.
Lemma roots_2 : roots R2. Proof. by right. Qed.

Ltac zero_pages := repeat (apply link_zero; [|lia]); intros ? _; reflexivity.

Lemma s6_inv : vm_inv s6 own6 roots ∧ no_leaf s6.
Proof.
  assert (vm_inv s3 own3 roots ∧ no_leaf s3) as [H3 L3].
  { apply link_step; [apply roots_inv|apply roots_1|lia|done..|apply roots_no_leaf]. }
  assert (vm_inv s4 own4 roots ∧ no_leaf s4) as [H4 L4].
  { apply link_step; [done|apply roots_1|lia|vm_compute; reflexivity..|zero_pages|done]. }
  assert (vm_inv s5 own5 roots ∧ no_leaf s5) as [H5 L5].
  { apply link_step; [done|apply roots_2|lia|vm_compute; reflexivity..|zero_pages|done]. }
  apply link_step; [done|apply roots_2|lia|vm_compute; reflexivity..|zero_pages|done].
Qed.

(** R1 maps D at 0 with the given permissions. *)
Section space.
Context (perm : Z) (Hperm : 0 ≤ perm < 1024).

Definition space : kmem := set_memory (st64 (memory s6) T2 (pte_for D perm)) s6.
Definition own7 : Z → owner := fupd own6 D (OData 0).

Lemma D_page : is_page D.
Proof. split; [done|]. cbn. lia. Qed.

Lemma space_inv : vm_inv space own7 roots ∧
  ∀ r vb, roots r → 0 ≤ vb < MAXVA →
    leaf (memory space) r vb = if decide (r = R1 ∧ vb / PGSIZE = 0) then pte_for D perm else 0.
Proof.
  destruct s6_inv as [H6 L6]. assert (Ht : table_of (memory s6) R1 0 2 = Some T2) by (vm_compute; reflexivity).
  destruct (pte_for_facts D perm D_page Hperm) as (Hp & _ & Hv & H64).
  assert (E0 : T2 + 8 * PX 0 0 = T2) by reflexivity. split.
  - pose proof (vm_map s6 own6 roots R1 0 T2 (pte_for D perm) H6 roots_1 ltac:(lia) Ht H64 D 1) as Hm.
    rewrite E0 in Hm. apply Hm; [|done..]. rewrite L6, has_0; [done|apply roots_1|lia].
  - intros r vb Hr Hvb. pose proof (entry_leaf s6 own6 roots R1 0 T2 (pte_for D perm) H6 roots_1 ltac:(lia) Ht H64 r vb Hr Hvb) as E.
    rewrite E0, Z.div_0_l in E by lia. unfold space. cbn [memory set_memory]. rewrite E.
    case_decide; [done|]. by apply L6.
Qed.

Lemma space_leaf_0 vb : 0 ≤ vb < PGSIZE → leaf (memory space) R1 vb = pte_for D perm.
Proof.
  intros Hvb. destruct space_inv as [_ ->]; [|apply roots_1|lia].
  rewrite decide_True; [done|]. split; [done|]. apply Z.div_small. lia.
Qed.

Lemma space_leaf_none r vb : roots r → 0 ≤ vb < MAXVA → ¬ (r = R1 ∧ vb < PGSIZE) → leaf (memory space) r vb = 0.
Proof.
  intros Hr Hvb Hn. destruct space_inv as [_ ->]; [|done..]. rewrite decide_False; [done|].
  intros [-> E]. apply Hn. split; [done|dlia].
Qed.

Lemma space_user vb : 0 ≤ vb < MAXVA → user_leaf own7 (leaf (memory space) R1 vb).
Proof.
  intros Hvb. destruct space_inv as [_ Hl]. rewrite Hl by (apply roots_1 || lia).
  case_decide; [|intros HV; by rewrite has_0 in HV]. intros _.
  destruct (pte_for_facts D perm D_page Hperm) as (-> & _). by exists 0.
Qed.

Lemma space_cow : cow_inv roots space.
Proof.
  destruct space_inv as [H Hl]. destruct (pte_for_facts D perm D_page Hperm) as (Hp & _). split.
  - intros r va Hr Hv. rewrite Hl by done. case_decide as E; [|by rewrite has_0].
    destruct E as [-> E]. rewrite Hp, E. intros _ _ [r2 n] (Hr2 & Hn & HV & _). cbn [fst snd] in *.
    rewrite Hl, div_mul_page in HV by (done || lia). case_decide as E2; [|by rewrite has_0 in HV].
    by destruct E2 as [-> ->].
  - exists own7. split; [done|]. intros r va Hr Hv. rewrite Hl by (done || lia).
    case_decide; [|intros HV; by rewrite has_0 in HV]. intros _. rewrite Hp. by exists 0.
Qed.

End space.

Abbreviation RU := 18 (only parsing).      (* PTE_R | PTE_U *)
Abbreviation RWU := 22 (only parsing).     (* PTE_R | PTE_W | PTE_U *)

Lemma uvmalloc_correct_witness :
  ∃ r s', uvmalloc R1 4096 8192 PTE_W (space RWU) = Done (r, s') ∧ (r = 8192 ∨ r = 0).
Proof.
  destruct (uvmalloc_correct (space RWU) own7 roots R1 4096 8192 PTE_W) as (r & s' & own' & E & Hres).
  - apply space_inv. lia.
  - apply roots_1.
  - lia.
  - lia.
  - lia.
  - intros vb Hvb. assert (4096 ≤ vb < 8192) by exact Hvb. apply space_leaf_none; [lia|apply roots_1|lia|lia].
  - exists r, s'. split; [exact E|]. destruct Hres as [[-> _]|[-> _]]; auto.
Defined.

Lemma uvmdealloc_correct_witness :
  ∃ s', uvmdealloc R1 4096 0 (space RWU) = Done (0, s') ∧ leaf (memory s') R1 0 = 0.
Proof.
  destruct (uvmdealloc_correct (space RWU) own7 roots R1 4096 0) as (s' & own' & E & H' & Hl & _).
  - apply space_inv. lia.
  - apply roots_1.
  - lia.
  - lia.
  - intros vb Hvb. assert (0 ≤ vb < 4096) by exact Hvb. apply space_user; lia.
  - exists s'. split; [exact E|]. rewrite Hl; [|apply roots_1|lia].
    rewrite decide_True by (split; [reflexivity|by split]). rewrite space_leaf_0 by lia. reflexivity.
Defined.

Lemma uvmcopy_shares_witness :
  ∃ r s', uvmcopy R1 R2 4096 (space RWU) = Done (r, s') ∧ (r = 0 ∨ r = -1).
Proof.
  destruct (uvmcopy_shares (space RWU) own7 roots R1 R2 4096) as (r & s' & own' & E & _ & Hres).
  - apply space_inv. lia.
  - apply roots_1.
  - apply roots_2.
  - lia.
  - lia.
  - vm_compute. discriminate.
  - lia.
  - intros vb Hvb. assert (0 ≤ vb < 4096) by exact Hvb. apply space_user; lia.
  - intros vb Hvb. assert (0 ≤ vb < 4096) by exact Hvb. apply space_leaf_none; [lia|apply roots_2|lia|lia].
  - exists r, s'. split; [exact E|]. destruct Hres as [[-> _]|[-> _]]; auto.
Defined.

Lemma vmfault_private_witness :
  ∃ r s', vmfault R1 0 true (space RU) = Done (r, s') ∧
    (r ≠ 0 → has (leaf (memory s') R1 0) PTE_W = true).
Proof.
  destruct (vmfault_private (space RU) own7 roots R1 0) as (r & s' & own' & E & _ & _ & Hw).
  - apply space_inv. lia.
  - apply roots_1.
  - lia.
  - apply space_user; lia.
  - rewrite space_leaf_0 by lia. reflexivity.
  - apply space_cow. lia.
  - exists r, s'. split; [exact E|]. intros Hr. by apply Hw.
Defined.

Lemma cow_isolation_witness :
  uread (uwrite (space RWU) R1 5 65) R1 5 = Some 65 ∧ uread (uwrite (space RWU) R1 5 65) R1 6 = uread (space RWU) R1 6.
Proof.
  destruct (cow_isolation roots (space RWU) (space RWU) R1 5 65) as [H1 H2].
  - apply space_cow. lia.
  - apply rtc_refl.
  - apply roots_1.
  - lia.
  - lia.
  - rewrite space_leaf_0 by lia. reflexivity.
  - rewrite space_leaf_0 by lia. reflexivity.
  - split; [exact H1|]. apply H2; [apply roots_1|lia|congruence].
Defined.

Lemma copyout_copyin_witness :
  ∃ s', copyout R1 4000 [104; 105] (space RWU) = Done (0, s') ∧ copyin R1 4000 2 s' = Done ((0, [104; 105]), s').
Proof.
  destruct (copyout_copyin roots (space RWU) R1 4000 [104; 105]) as (s' & E & _ & Ei).
  - apply space_cow. lia.
  - apply roots_1.
  - lia.
  - cbn. lia.
  - intros vb Hvb. cbn in Hvb. unfold uwritable. rewrite space_leaf_0 by lia. done.
  - repeat constructor; lia.
  - exists s'. split; [exact E|exact Ei].
Defined.

Lemma copyout_cow_refused_witness : copyout R1 0 [65] (space RU) = Done (-1, space RU).
Proof.
  apply (copyout_cow_refused roots).
  - apply space_cow. lia.
  - apply roots_1.
  - lia.
  - discriminate.
  - unfold ureadable. rewrite space_leaf_0 by lia. done.
  - rewrite space_leaf_0 by lia. reflexivity.
Defined.

Lemma copyin_ignores_PTE_U_witness :
  ∃ l, copyin R1 0 3 (space PTE_R) = Done ((0, l), space PTE_R).
Proof.
  eexists. eapply (copyin_ignores_PTE_U (space PTE_R) own7 roots R1 0 3 0).
  - apply space_inv. lia.
  - apply roots_1.
  - lia.
  - lia.
  - reflexivity || (vm_compute; discriminate).
  - rewrite space_leaf_0 by lia. reflexivity.
  - rewrite space_leaf_0 by lia. reflexivity.
  - rewrite space_leaf_0 by lia. reflexivity.
Defined.

End Small.
