(* ===== verification/Spinlock.v ===== *)
(** kernel/spinlock.c: spin locks on several CPUs.

    A CPU is a program counter inside [acquire] or [release] together with the
    fields of struct cpu the lock code uses.  The atomic steps are the memory
    accesses of the C code: the two reads of [holding], the atomic swap, the
    plain stores to lk->cpu and the atomic release; the steps of the CPUs
    interleave in any order.  Between two calls a CPU runs other code, which
    may turn interrupts on (when it is in no critical section) or off. *)

From S2P Require Import Prelude.

(** lk->locked and lk->cpu; -1 is the null cpu pointer. *)
Record spinlock := mkSpinlock { locked : Z; lcpu : Z }.

Definition initlock : spinlock := mkSpinlock 0 (-1).

(** Where a CPU is in the code of acquire(l) and release(l). *)
Inductive lock_pc :=
| Outside                 (* not in a lock function *)
| AcqLocked (l : Z)       (* acquire: holding reads lk->locked *)
| AcqOwner (l : Z)        (* acquire: holding reads lk->cpu *)
| AcqSwap (l : Z)         (* acquire: the test-and-set loop *)
| AcqCpu (l : Z)          (* acquire: lk->cpu = mycpu() *)
| RelLocked (l : Z)       (* release: holding reads lk->locked *)
| RelOwner (l : Z)        (* release: holding reads lk->cpu *)
| RelCpu (l : Z)          (* release: lk->cpu = 0 *)
| RelFree (l : Z)         (* release: __sync_lock_release *)
| RelPop                  (* release: pop_off *)
| Stuck (msg : string).   (* panic *)

(** noff and intena of struct cpu, sstatus.SIE, and two ghost fields: the
    locks whose acquire has returned and whose release has not been entered,
    and the interrupt state the code outside critical sections asked for. *)
Record cpu := mkCpu {
  noff : Z;
  intena : bool;
  intr : bool;
  pc : lock_pc;
  held : list Z;
  want : bool
}.

Definition set_pc (p : lock_pc) (c : cpu) : cpu :=
  mkCpu (noff c) (intena c) (intr c) p (held c) (want c).
Definition set_held (h : list Z) (c : cpu) : cpu :=
  mkCpu (noff c) (intena c) (intr c) (pc c) h (want c).

Definition push_off (c : cpu) : cpu :=
  let old := intr c in
  mkCpu (noff c + 1) (if noff c =? 0 then old else intena c) false (pc c) (held c) (want c).

(** pop_off, or the message of its panic. *)
Definition pop_off (c : cpu) : cpu + string :=
  if intr c then inr "pop_off - interruptible" else
  if noff c <? 1 then inr "pop_off" else
  let noff' := noff c - 1 in
  inl (mkCpu noff' (intena c) (if (noff' =? 0) && intena c then true else intr c)
         (pc c) (held c) (want c)).

Record smp := mkSmp { cpus : Z → cpu; locks : Z → spinlock }.

Definition set_cpu (i : Z) (c : cpu) (s : smp) : smp := mkSmp (fupd (cpus s) i c) (locks s).
Definition set_lock (l : Z) (lk : spinlock) (s : smp) : smp := mkSmp (cpus s) (fupd (locks s) l lk).

(** One step of CPU [i] inside acquire or release. *)
Definition lock_step (i : Z) (s : smp) : smp :=
  let c := cpus s i in
  match pc c with
  | Outside => s
  | AcqLocked l =>
      set_cpu i (set_pc (if locked (locks s l) =? 0 then AcqSwap l else AcqOwner l) c) s
  | AcqOwner l =>
      set_cpu i (set_pc (if lcpu (locks s l) =? i then Stuck "acquire" else AcqSwap l) c) s
  | AcqSwap l =>
      let old := locked (locks s l) in
      set_cpu i (set_pc (if negb (old =? 0) then AcqSwap l else AcqCpu l) c)
        (set_lock l (mkSpinlock 1 (lcpu (locks s l))) s)
  | AcqCpu l =>
      set_cpu i (set_pc Outside (set_held (l :: held c) c))
        (set_lock l (mkSpinlock (locked (locks s l)) i) s)
  | RelLocked l =>
      set_cpu i (set_pc (if locked (locks s l) =? 0 then Stuck "release" else RelOwner l) c) s
  | RelOwner l =>
      if lcpu (locks s l) =? i then
        set_cpu i (set_pc (RelCpu l) (set_held (filter (.≠ l) (held c)) c)) s
      else set_cpu i (set_pc (Stuck "release") c) s
  | RelCpu l =>
      set_cpu i (set_pc (RelFree l) c)
        (set_lock l (mkSpinlock (locked (locks s l)) (-1)) s)
  | RelFree l =>
      set_cpu i (set_pc RelPop c)
        (set_lock l (mkSpinlock 0 (lcpu (locks s l))) s)
  | RelPop =>
      match pop_off c with
      | inl c' => set_cpu i (set_pc Outside c') s
      | inr msg => set_cpu i (set_pc (Stuck msg) c) s
      end
  | Stuck _ => s
  end.

(** The entry of acquire: push_off, then the call of holding. *)
Definition acquire_enter (l : Z) (c : cpu) : cpu := set_pc (AcqLocked l) (push_off c).
Definition release_enter (l : Z) (c : cpu) : cpu := set_pc (RelLocked l) c.

(** intr_on() and intr_off() of riscv.h, by code outside the lock functions. *)
Definition set_intr (b : bool) (c : cpu) : cpu :=
  mkCpu (noff c) (intena c) b (pc c) (held c) (if noff c =? 0 then b else want c).

Inductive step : smp → smp → Prop :=
| step_inside i s : 0 ≤ i → step s (lock_step i s)
| step_acquire i l s : 0 ≤ i → pc (cpus s i) = Outside →
    step s (set_cpu i (acquire_enter l (cpus s i)) s)
| step_release i l s : 0 ≤ i → pc (cpus s i) = Outside →
    step s (set_cpu i (release_enter l (cpus s i)) s)
| step_intr_on i s : 0 ≤ i → pc (cpus s i) = Outside → noff (cpus s i) = 0 →
    step s (set_cpu i (set_intr true (cpus s i)) s)
| step_intr_off i s : 0 ≤ i → pc (cpus s i) = Outside →
    step s (set_cpu i (set_intr false (cpus s i)) s).

(** All locks as initlock leaves them, all CPUs outside the lock code. *)
Definition start : smp :=
  mkSmp (λ _, mkCpu 0 false false Outside [] false) (λ _, initlock).

(** CPU [i] owns [l] from the swap that found it free to the store that frees it;
    it is named in lk->cpu except just after the swap and just before the
    release. *)
Definition pc_owns (p : lock_pc) : option Z :=
  match p with AcqCpu l | RelCpu l | RelFree l => Some l | _ => None end.
Definition pc_named (p : lock_pc) : option Z :=
  match p with RelCpu l => Some l | _ => None end.

Definition owns (c : cpu) (l : Z) : Prop := l ∈ held c ∨ pc_owns (pc c) = Some l.
Definition named (c : cpu) (l : Z) : Prop := l ∈ held c ∨ pc_named (pc c) = Some l.

(** push_offs of acquires and releases under way. *)
Definition in_flight (p : lock_pc) : Z :=
  match p with
  | AcqLocked _ | AcqOwner _ | AcqSwap _ | AcqCpu _ | RelCpu _ | RelFree _ | RelPop => 1
  | _ => 0
  end.

Record cpu_ok (c : cpu) : Prop := {
  co_nodup : NoDup (held c);
  co_noff : (∀ msg, pc c ≠ Stuck msg) → noff c = Z.of_nat (length (held c)) + in_flight (pc c);
  co_off : 0 < noff c → intr c = false ∧ intena c = want c;
  co_on : noff c = 0 → intr c = want c;
  co_nonneg : Z.of_nat (length (held c)) ≤ noff c;
  co_fresh : ∀ l, pc_owns (pc c) = Some l → l ∉ held c
}.

Record smp_ok (s : smp) : Prop := {
  so_cpu : ∀ i, cpu_ok (cpus s i);
  so_free : ∀ l, locked (locks s l) = 0 → ∀ i, 0 ≤ i → ¬ owns (cpus s i) l;
  so_unique : ∀ l i j, 0 ≤ i → 0 ≤ j → owns (cpus s i) l → owns (cpus s j) l → i = j;
  so_named : ∀ l i, 0 ≤ i → named (cpus s i) l ↔ lcpu (locks s l) = i
}.

(** ** Preservation *)
Lemma cpus_set i c s j : cpus (set_cpu i c s) j = if decide (j = i) then c else cpus s j.
Proof. apply fupd_spec. Qed.

Lemma locks_set l lk s l' : locks (set_lock l lk s) l' = if decide (l' = l) then lk else locks s l'.
Proof. apply fupd_spec. Qed.

(** A step of one CPU that keeps its ownership and leaves the locks alone. *)
Lemma smp_ok_local i c s :
  smp_ok s → cpu_ok c →
  (∀ l, owns c l ↔ owns (cpus s i) l) → (∀ l, named c l ↔ named (cpus s i) l) →
  smp_ok (set_cpu i c s).
Proof.
  intros [Hc Hf Hu Hn] Hok Ho Hna. split.
  - intros j. rewrite cpus_set. by case_decide.
  - intros l Hl j Hj. rewrite cpus_set. case_decide as E; [|by apply (Hf l)].
    rewrite Ho. subst. by apply (Hf l).
  - intros l a b Ha Hb. rewrite !cpus_set.
    assert (∀ j, owns (if decide (j = i) then c else cpus s j) l → owns (cpus s j) l) as K.
    { intros j. case_decide as E; [|done]. rewrite Ho. by subst. }
    intros HA HB. exact (Hu l a b Ha Hb (K a HA) (K b HB)).
  - intros l j Hj. rewrite cpus_set. case_decide as E; [|by apply Hn].
    rewrite Hna. subst. by apply Hn.
Qed.

(** A step that also writes the lock the CPU owns before or after it. *)
Lemma smp_ok_lock i l c lk s : 0 ≤ i →
  smp_ok s → cpu_ok c →
  (∀ l', l' ≠ l → owns c l' ↔ owns (cpus s i) l') →
  (∀ l', l' ≠ l → named c l' ↔ named (cpus s i) l') →
  owns (cpus s i) l ∨ locked (locks s l) = 0 →
  (locked lk = 0 → ¬ owns c l) →
  (named c l ↔ lcpu lk = i) → (lcpu lk = lcpu (locks s l) ∨ lcpu lk < 0 ∨ lcpu lk = i) →
  smp_ok (set_cpu i c (set_lock l lk s)).
Proof.
  intros Hi Hs Hok Ho Hna Hown Hfree Hnm Hl. pose proof Hs as [Hc Hf Hu Hn].
  assert (∀ j, 0 ≤ j → j ≠ i → ¬ owns (cpus s j) l) as Hother.
  { intros j Hj Hne Hoj. destruct Hown as [H|H]; [|by apply (Hf l H j)]. by apply Hne, (Hu l). }
  assert (∀ j, named (cpus s j) l → owns (cpus s j) l) as Hno.
  { intros j [H|H]; [by left|right]. by destruct (pc (cpus s j)). }
  split.
  - intros j. rewrite cpus_set; change (cpus (set_lock l lk s)) with (cpus s). by case_decide.
  - intros l' Hl' j Hj. rewrite cpus_set; change (cpus (set_lock l lk s)) with (cpus s).
    change (locks (set_cpu _ _ ?x)) with (locks x) in Hl'. rewrite locks_set in Hl'.
    case_decide as E; case_decide as E'; subst.
    + by apply Hfree.
    + by apply Hother.
    + rewrite Ho by done. by apply Hf.
    + by apply (Hf l').
  - intros l' a b Ha Hb. rewrite !cpus_set; change (cpus (set_lock l lk s)) with (cpus s). destruct (decide (l' = l)) as [->|Hne].
    + intros H1 H2. destruct (decide (a = i)), (decide (b = i)); subst; try done; exfalso;
        first [by apply (Hother b) | by apply (Hother a)].
    + assert (∀ j, owns (if decide (j = i) then c else cpus s j) l' → owns (cpus s j) l') as K.
      { intros j. case_decide as E; [|done]. rewrite Ho by done. by subst. }
      intros HA HB. exact (Hu l' a b Ha Hb (K a HA) (K b HB)).
  - intros l' j Hj. rewrite cpus_set; change (cpus (set_lock l lk s)) with (cpus s).
    change (locks (set_cpu _ _ ?x)) with (locks x). rewrite locks_set.
    destruct (decide (l' = l)) as [->|Hne]; case_decide as E; subst.
    + done.
    + split; [intros H; exfalso; eapply Hother; eauto|].
      intros H. destruct Hl as [Hl|[Hl|Hl]]; [|lia..].
      exfalso. apply (Hother j Hj E), Hno, (Hn l j Hj). congruence.
    + rewrite Hna by done. by apply Hn.
    + by apply Hn.
Qed.

Lemma filter_notin (l : Z) (h : list Z) : l ∉ h → filter (.≠ l) h = h.
Proof.
  induction h as [|x h IH]; [done|]. rewrite not_elem_of_cons, filter_cons. intros [Hx Hl].
  rewrite decide_True by congruence. by rewrite IH.
Qed.

(** Removing a held lock shortens the list by one. *)
Lemma length_remove (l : Z) (h : list Z) : NoDup h → l ∈ h → length h = S (length (filter (.≠ l) h)).
Proof.
  induction 1 as [|x h Hx Hnd IH]; [by intros ?%elem_of_nil|].
  rewrite elem_of_cons, filter_cons. intros [->|Hl].
  - rewrite decide_False by tauto. by rewrite filter_notin.
  - rewrite decide_True by (intros ->; done). cbn. by rewrite IH.
Qed.

Lemma smp_ok_start : smp_ok start.
Proof.
  split; cbn.
  - intros i. split; cbn; try done; constructor.
  - intros l _ i _. unfold owns. cbn. intros [H|H]; [by apply elem_of_nil in H|done].
  - intros l i j _ _. unfold owns. cbn. intros [H|H]; [by apply elem_of_nil in H|done].
  - intros l i Hi. unfold named. cbn. split; [|lia].
    intros [H|H]; [by apply elem_of_nil in H|done].
Qed.

(** A change of the program counter alone. *)
Lemma smp_ok_pc i p s : smp_ok s →
  pc_owns p = pc_owns (pc (cpus s i)) → pc_named p = pc_named (pc (cpus s i)) →
  in_flight p = in_flight (pc (cpus s i)) ∨ (∃ msg, p = Stuck msg) →
  (∀ msg, pc (cpus s i) ≠ Stuck msg) →
  smp_ok (set_cpu i (set_pc p (cpus s i)) s).
Proof.
  intros Hs Ho Hn Hf Hns. destruct (so_cpu s Hs i) as [H1 H2 H3 H4 H5 H6].
  apply smp_ok_local; [done| |by intros l; unfold owns; cbn; rewrite Ho
                          |by intros l; unfold named; cbn; rewrite Hn].
  split; cbn; try done; [|by rewrite Ho].
  intros Hp. destruct Hf as [->|(msg & ->)]; [by apply H2|by destruct (Hp msg)].
Qed.

(** Swapping 1 into a lock that is already taken changes nothing. *)
Lemma smp_ok_taken l s : smp_ok s → locked (locks s l) ≠ 0 →
  smp_ok (set_lock l (mkSpinlock 1 (lcpu (locks s l))) s).
Proof.
  intros [Hc Hf Hu Hn] Hl. split; [done| |done|].
  - intros l'. rewrite locks_set. case_decide; [done|apply Hf].
  - intros l' i Hi. rewrite locks_set. case_decide; [subst; apply (Hn l i Hi)|by apply Hn].
Qed.

(** The step of pop_off at the end of release. *)
Lemma pop_off_ok c : cpu_ok c → pc c = RelPop →
  ∃ c', pop_off c = inl c' ∧ cpu_ok (set_pc Outside c') ∧ held c' = held c.
Proof.
  intros [H1 H2 H3 H4 H5 H6] Hp. rewrite Hp in H2. cbn in H2. specialize (H2 ltac:(done)).
  destruct H3 as [Hi He]; [lia|]. unfold pop_off. rewrite Hi.
  destruct (Z.ltb_spec (noff c) 1); [lia|]. eexists. split; [reflexivity|]. split; [|done].
  split; cbn; try done; [lia|..|lia].
  - intros. destruct (Z.eqb_spec (noff c - 1) 0); [lia|]. done.
  - intros ->. cbn. rewrite He. by destruct (want c).
Qed.

(** The steps that change a lock or the set of held locks. *)
Ltac own_cases Hp := intros ? ?; unfold owns, named; cbn; rewrite Hp; cbn; set_solver.

Lemma swap_free_ok i l s : 0 ≤ i → smp_ok s → pc (cpus s i) = AcqSwap l →
  locked (locks s l) = 0 →
  smp_ok (set_cpu i (set_pc (AcqCpu l) (cpus s i)) (set_lock l (mkSpinlock 1 (lcpu (locks s l))) s)).
Proof.
  intros Hi Hs Hp Hl. pose proof (so_cpu s Hs i) as [H1 H2 H3 H4 H5 H6].
  pose proof (so_free s Hs l Hl i Hi) as Hno. rewrite Hp in H2. cbn in H2.
  apply smp_ok_lock; try done; [|own_cases Hp..|by right| |by left].
  - split; cbn; try done; [auto|]. intros l' [= <-] Hin. apply Hno. by left.
  - cbn. rewrite <-(so_named s Hs l i Hi). unfold named. cbn. rewrite Hp. cbn. naive_solver.
Qed.

Lemma acq_cpu_ok i l s : 0 ≤ i → smp_ok s → pc (cpus s i) = AcqCpu l →
  smp_ok (set_cpu i (set_pc Outside (set_held (l :: held (cpus s i)) (cpus s i)))
    (set_lock l (mkSpinlock (locked (locks s l)) i) s)).
Proof.
  intros Hi Hs Hp. pose proof (so_cpu s Hs i) as [H1 H2 H3 H4 H5 H6].
  assert (owns (cpus s i) l) as Ho by (right; by rewrite Hp).
  rewrite Hp in H2, H6. cbn in H2, H6.
  apply smp_ok_lock; try done; [|own_cases Hp..|by left| | |by right; right].
  - specialize (H2 ltac:(done)). split; cbn; try done; [constructor; auto|lia..].
  - cbn. intros Hl. by destruct (so_free s Hs l Hl i Hi).
  - cbn. split; [done|]. intros _. left. cbn. set_solver.
Qed.

Lemma rel_owner_ok i l s : 0 ≤ i → smp_ok s → pc (cpus s i) = RelOwner l →
  lcpu (locks s l) = i →
  smp_ok (set_cpu i (set_pc (RelCpu l) (set_held (filter (.≠ l) (held (cpus s i))) (cpus s i))) s).
Proof.
  intros Hi Hs Hp Hl. pose proof (so_cpu s Hs i) as [H1 H2 H3 H4 H5 H6].
  assert (l ∈ held (cpus s i)) as Hin.
  { apply (so_named s Hs l i Hi) in Hl as [Hl|Hl]; [done|]. by rewrite Hp in Hl. }
  rewrite Hp in H2. cbn in H2. specialize (H2 ltac:(done)).
  pose proof (length_remove l (held (cpus s i)) H1 Hin).
  apply smp_ok_local; [done|..].
  - split; cbn; try done; [by apply NoDup_filter|lia..|].
    intros l' [= <-]. rewrite list_elem_of_filter. naive_solver.
  - intros l'. unfold owns. cbn. rewrite Hp, list_elem_of_filter. cbn.
    destruct (decide (l' = l)); naive_solver.
  - intros l'. unfold named. cbn. rewrite Hp, list_elem_of_filter. cbn.
    destruct (decide (l' = l)); naive_solver.
Qed.

Lemma rel_cpu_ok i l s : 0 ≤ i → smp_ok s → pc (cpus s i) = RelCpu l →
  smp_ok (set_cpu i (set_pc (RelFree l) (cpus s i))
    (set_lock l (mkSpinlock (locked (locks s l)) (-1)) s)).
Proof.
  intros Hi Hs Hp. pose proof (so_cpu s Hs i) as [H1 H2 H3 H4 H5 H6].
  assert (owns (cpus s i) l) as Ho by (right; by rewrite Hp).
  rewrite Hp in H2, H6. cbn in H2, H6.
  apply smp_ok_lock; try done; [|own_cases Hp..|by left| | |by right; left].
  - split; cbn; try done; auto.
  - cbn. intros Hl. by destruct (so_free s Hs l Hl i Hi).
  - cbn. split; [|lia]. intros [H|H]; [by destruct (H6 l)|done].
Qed.

Lemma rel_free_ok i l s : 0 ≤ i → smp_ok s → pc (cpus s i) = RelFree l →
  smp_ok (set_cpu i (set_pc RelPop (cpus s i))
    (set_lock l (mkSpinlock 0 (lcpu (locks s l))) s)).
Proof.
  intros Hi Hs Hp. pose proof (so_cpu s Hs i) as [H1 H2 H3 H4 H5 H6].
  assert (owns (cpus s i) l) as Ho by (right; by rewrite Hp).
  rewrite Hp in H2, H6. cbn in H2, H6.
  apply smp_ok_lock; try done; [|own_cases Hp..|by left| | |by left].
  - split; cbn; try done; auto.
  - intros _ [H|H]; [by destruct (H6 l)|done].
  - cbn. rewrite <-(so_named s Hs l i Hi). unfold named. cbn. by rewrite Hp.
Qed.

(** The invariant holds after every step of a CPU inside the lock code. *)
Lemma lock_step_ok i s : 0 ≤ i → smp_ok s → smp_ok (lock_step i s).
Proof.
  intros Hi Hs. unfold lock_step.
  destruct (pc (cpus s i)) as [|l|l|l|l|l|l|l|l| |] eqn:Hp; try done.
  - apply smp_ok_pc; [done|rewrite Hp; case_match; auto..|by rewrite Hp].
  - apply smp_ok_pc; [done|rewrite Hp; case_match; eauto..|by rewrite Hp].
  - destruct (Z.eqb_spec (locked (locks s l)) 0) as [Hl|Hl]; cbn; [by apply swap_free_ok|].
    apply (smp_ok_pc i (AcqSwap l) (set_lock l _ s)); try (cbn; by rewrite Hp); [|cbn; rewrite Hp; auto].
    by apply smp_ok_taken.
  - by apply acq_cpu_ok.
  - apply smp_ok_pc; [done|rewrite Hp; case_match; eauto..|by rewrite Hp].
  - case_match eqn:E; [apply Z.eqb_eq in E; by apply rel_owner_ok|].
    apply smp_ok_pc; [done|rewrite Hp; eauto..|by rewrite Hp].
  - by apply rel_cpu_ok.
  - by apply rel_free_ok.
  - destruct (pop_off_ok (cpus s i)) as (c' & E & Hok & Hh); [apply so_cpu, Hs|done|].
    rewrite E. apply smp_ok_local; [done..| |]; intros l; unfold owns, named; cbn; rewrite Hp, Hh;
      cbn; naive_solver.
Qed.

Lemma push_off_ok c l : cpu_ok c → pc c = Outside → cpu_ok (acquire_enter l c).
Proof.
  intros [H1 H2 H3 H4 H5 H6] Hp. rewrite Hp in H2. specialize (H2 ltac:(done)). cbn in H2.
  split; cbn; try done; [lia|..|lia|lia].
  intros _. split; [done|]. destruct (Z.eqb_spec (noff c) 0); [auto|]. apply H3. lia.
Qed.

Lemma set_intr_ok c b : cpu_ok c → pc c = Outside → noff c = 0 ∨ b = false → cpu_ok (set_intr b c).
Proof.
  intros [H1 H2 H3 H4 H5 H6] Hp Hb. split; cbn; try done.
  - intros Hn. destruct (Z.eqb_spec (noff c) 0); [lia|]. destruct Hb as [|Hb]; [lia|]. split; [done|].
    by apply H3.
  - intros ->. done.
Qed.

Lemma step_ok s s' : step s s' → smp_ok s → smp_ok s'.
Proof.
  destruct 1 as [i s Hi|i l s Hi Hp|i l s Hi Hp|i s Hi Hp Hn|i s Hi Hp]; intros Hs.
  - by apply lock_step_ok.
  - apply smp_ok_local; [done|by apply push_off_ok; [apply so_cpu|]|..];
      intros l'; unfold owns, named; cbn; by rewrite Hp.
  - apply smp_ok_pc; try done; rewrite Hp; auto.
  - apply smp_ok_local; [done|apply set_intr_ok; auto; by apply so_cpu|..]; done.
  - apply smp_ok_local; [done|apply set_intr_ok; auto; by apply so_cpu|..]; done.
Qed.

Definition reachable (s : smp) : Prop := rtc step start s.

Lemma reachable_ok s : reachable s → smp_ok s.
Proof.
  unfold reachable. pose proof smp_ok_start as H0. revert H0.
  induction 2 as [|x y z Hst _ IH]; [done|]. apply IH. by eapply step_ok.
Qed.

(** * Claims *)

(** C7: mutual exclusion.  However the CPUs interleave, at most one of them
    is between the swap that takes a lock and the store that frees it, and
    while a CPU holds a lock the lock word is set and names that CPU. *)
Theorem spinlock_mutual_exclusion s : reachable s →
  ∀ l i j, 0 ≤ i → 0 ≤ j → owns (cpus s i) l →
    (owns (cpus s j) l → i = j) ∧ locked (locks s l) ≠ 0 ∧
    (l ∈ held (cpus s j) → lcpu (locks s l) = i).
Proof.
  intros Hs%reachable_ok l i j Hi Hj Ho. split_and!.
  - intros Hoj. by apply (so_unique s Hs l).
  - intros Hl. by apply (so_free s Hs l Hl i Hi).
  - intros Hin. assert (j = i) as -> by (apply (so_unique s Hs l); [done..|by left|done]).
    apply (so_named s Hs l i Hi). by left.
Qed.

(** the interrupt and panic discipline.  Interrupts are off on a CPU
    that holds a lock or is inside the lock code with one, and on a CPU that
    holds none they are as the code outside last set them; a step panics
    only when a lock is acquired by the CPU that holds it or released by a
    CPU that does not. *)
Theorem spinlock_interrupt_discipline s : reachable s → ∀ i, 0 ≤ i →
  let c := cpus s i in
  (∀ l, owns c l → intr c = false) ∧
  (pc c = Outside → held c = [] → intr c = want c ∧ noff c = 0) ∧
  (∀ msg, (∀ m, pc c ≠ Stuck m) → pc (cpus (lock_step i s) i) = Stuck msg →
     ∃ l, (pc c = AcqOwner l ∧ l ∈ held c) ∨
          ((pc c = RelLocked l ∨ pc c = RelOwner l) ∧ l ∉ held c)).
Proof.
  intros Hs%reachable_ok i Hi c. pose proof (so_cpu s Hs i) as Hok. fold c in Hok.
  pose proof Hok as [H1 H2 H3 H4 H5 H6]. split_and!.
  - intros l Ho. apply H3. destruct Ho as [Ho|Ho].
    + destruct (held c); [by apply elem_of_nil in Ho|cbn in H5; lia].
    + rewrite H2 by (by destruct (pc c)). destruct (pc c); cbn in *; try done; lia.
  - intros Hp Hh. rewrite Hp, Hh in H2. cbn in H2. split; [apply H4|]; by apply H2.
  - intros msg Hns. unfold lock_step. fold c. destruct (pc c) as [|l|l|l|l|l|l|l|l| |] eqn:Hp; cbn;
      try rewrite fupd_eq; cbn; try done.
    + intros E. fold c in E. congruence.
    + by case_match.
    + case_match eqn:E; [|done]. intros _. exists l. left. split; [done|].
      apply Z.eqb_eq, (so_named s Hs l i Hi) in E as [E|E]; [done|]. fold c in E. by rewrite Hp in E.
    + by case_match.
    + case_match eqn:E; [|done]. intros _. exists l. right. split; [by left|].
      intros Hin. apply Z.eqb_eq in E. apply (so_free s Hs l E i Hi). by left.
    + case_match eqn:E; cbn; rewrite fupd_eq; cbn; [done|]. intros _. exists l. right. split; [by right|].
      intros Hin. apply Z.eqb_neq in E. apply E, (so_named s Hs l i Hi). by left.
    + destruct (pop_off_ok c Hok Hp) as (c' & -> & _ & _). cbn. by rewrite fupd_eq.
    + by destruct (Hns msg0).
Qed.

(** Two CPUs contend for lock 7: CPU 0 has it, CPU 1 spins. *)
Definition contended : smp :=
  let acq i s := set_cpu i (acquire_enter 7 (cpus s i)) s in
  lock_step 1 (lock_step 1 (lock_step 1 (acq 1 (lock_step 0 (lock_step 0 (lock_step 0
    (acq 0 start))))))).

Lemma contended_reachable : reachable contended.
Proof.
  unfold reachable, contended. do 8 (eapply rtc_r; [|first [by apply step_inside | by apply step_acquire]]).
  apply rtc_refl.
Qed.

Lemma spinlock_mutual_exclusion_witness :
  owns (cpus contended 0) 7 ∧ pc (cpus contended 1) = AcqSwap 7 ∧ locked (locks contended 7) ≠ 0.
Proof.
  assert (owns (cpus contended 0) 7) as H by (left; vm_compute; left).
  split_and!; [done|reflexivity|].
  apply (spinlock_mutual_exclusion contended contended_reachable 7 0 1 ltac:(lia) ltac:(lia) H).
Defined.

Lemma spinlock_interrupt_discipline_witness :
  owns (cpus contended 0) 7 ∧ intr (cpus contended 0) = false.
Proof.
  assert (owns (cpus contended 0) 7) as H by (left; vm_compute; left).
  split; [done|].
  apply (proj1 (spinlock_interrupt_discipline contended contended_reachable 0 ltac:(lia)) 7 H).
Defined.
