(* ===== verification/State.v ===== *)
(** The state of the kernel: the data structures of kernel/proc.h,
    kernel/file.h, kernel/buf.h, kernel/fs.h, kernel/sleeplock.h and of the
    files that own them (pipe.c, mbox.c, shm.c, console.c, log.c, fs.c), as one
    record.

    A pointer to an element of a table is its index, -1 for the null pointer;
    a pointer to a page is its physical address, 0 for the null pointer.  Spin
    locks do not appear: an operation runs its critical sections one after
    the other, and Spinlock.v verifies the locks themselves. *)

From S2P Require Import Prelude Riscv Memory Kalloc Vm.

(** ** Sleep channels: the addresses the code sleeps on. *)
Inductive chan :=
| ChProc (i : Z)          (* a struct proc, in kwait *)
| ChPipeRead (pi : Z)     (* &pi->nread *)
| ChPipeWrite (pi : Z)    (* &pi->nwrite *)
| ChBufLock (i : Z)       (* &bcache.buf[i].lock *)
| ChInodeLock (i : Z)     (* &itable.inode[i].lock *)
| ChLog                   (* &log *)
| ChTicks                 (* &ticks *)
| ChCons                  (* &cons.r *)
| ChTx                    (* &tx_chan of uart.c *)
| ChMbox (i : Z)          (* &mbox.box[i] *)
| ChBuf (i : Z)           (* &bcache.buf[i], in virtio_disk_rw *)
| ChDiskFree.             (* &disk.free[0] *)

#[export] Instance chan_eq_dec : EqDecision chan.
Proof. solve_decision. Defined.

(** ** kernel/proc.h *)
Inductive procstate := UNUSED | USED | SLEEPING | RUNNABLE | RUNNING | ZOMBIE.

#[export] Instance procstate_eq_dec : EqDecision procstate.
Proof. solve_decision. Defined.

(** struct proc; of the saved context only ra and sp are ever set by C code,
    and of struct pagestat only page_faults. *)
Record proc := mkProc {
  p_state : procstate;
  p_chan : option chan;
  p_killed : Z;
  p_xstate : Z;
  p_pid : Z;
  p_parent : Z;
  p_kstack : Z;
  p_sz : Z;
  p_pagetable : Z;
  p_trapframe : Z;
  p_context_ra : Z;
  p_context_sp : Z;
  p_ofile : Z → Z;
  p_cwd : Z;
  p_name : list Z;
  p_page_faults : Z
}.

Definition set_p_state (v : procstate) (x : proc) : proc :=
  mkProc v (p_chan x) (p_killed x) (p_xstate x) (p_pid x) (p_parent x) (p_kstack x) (p_sz x) (p_pagetable x) (p_trapframe x) (p_context_ra x) (p_context_sp x) (p_ofile x) (p_cwd x) (p_name x) (p_page_faults x).
Definition set_p_chan (v : option chan) (x : proc) : proc :=
  mkProc (p_state x) v (p_killed x) (p_xstate x) (p_pid x) (p_parent x) (p_kstack x) (p_sz x) (p_pagetable x) (p_trapframe x) (p_context_ra x) (p_context_sp x) (p_ofile x) (p_cwd x) (p_name x) (p_page_faults x).
Definition set_p_killed (v : Z) (x : proc) : proc :=
  mkProc (p_state x) (p_chan x) v (p_xstate x) (p_pid x) (p_parent x) (p_kstack x) (p_sz x) (p_pagetable x) (p_trapframe x) (p_context_ra x) (p_context_sp x) (p_ofile x) (p_cwd x) (p_name x) (p_page_faults x).
Definition set_p_xstate (v : Z) (x : proc) : proc :=
  mkProc (p_state x) (p_chan x) (p_killed x) v (p_pid x) (p_parent x) (p_kstack x) (p_sz x) (p_pagetable x) (p_trapframe x) (p_context_ra x) (p_context_sp x) (p_ofile x) (p_cwd x) (p_name x) (p_page_faults x).
Definition set_p_pid (v : Z) (x : proc) : proc :=
  mkProc (p_state x) (p_chan x) (p_killed x) (p_xstate x) v (p_parent x) (p_kstack x) (p_sz x) (p_pagetable x) (p_trapframe x) (p_context_ra x) (p_context_sp x) (p_ofile x) (p_cwd x) (p_name x) (p_page_faults x).
Definition set_p_parent (v : Z) (x : proc) : proc :=
  mkProc (p_state x) (p_chan x) (p_killed x) (p_xstate x) (p_pid x) v (p_kstack x) (p_sz x) (p_pagetable x) (p_trapframe x) (p_context_ra x) (p_context_sp x) (p_ofile x) (p_cwd x) (p_name x) (p_page_faults x).
Definition set_p_kstack (v : Z) (x : proc) : proc :=
  mkProc (p_state x) (p_chan x) (p_killed x) (p_xstate x) (p_pid x) (p_parent x) v (p_sz x) (p_pagetable x) (p_trapframe x) (p_context_ra x) (p_context_sp x) (p_ofile x) (p_cwd x) (p_name x) (p_page_faults x).
Definition set_p_sz (v : Z) (x : proc) : proc :=
  mkProc (p_state x) (p_chan x) (p_killed x) (p_xstate x) (p_pid x) (p_parent x) (p_kstack x) v (p_pagetable x) (p_trapframe x) (p_context_ra x) (p_context_sp x) (p_ofile x) (p_cwd x) (p_name x) (p_page_faults x).
Definition set_p_pagetable (v : Z) (x : proc) : proc :=
  mkProc (p_state x) (p_chan x) (p_killed x) (p_xstate x) (p_pid x) (p_parent x) (p_kstack x) (p_sz x) v (p_trapframe x) (p_context_ra x) (p_context_sp x) (p_ofile x) (p_cwd x) (p_name x) (p_page_faults x).
Definition set_p_trapframe (v : Z) (x : proc) : proc :=
  mkProc (p_state x) (p_chan x) (p_killed x) (p_xstate x) (p_pid x) (p_parent x) (p_kstack x) (p_sz x) (p_pagetable x) v (p_context_ra x) (p_context_sp x) (p_ofile x) (p_cwd x) (p_name x) (p_page_faults x).
Definition set_p_context_ra (v : Z) (x : proc) : proc :=
  mkProc (p_state x) (p_chan x) (p_killed x) (p_xstate x) (p_pid x) (p_parent x) (p_kstack x) (p_sz x) (p_pagetable x) (p_trapframe x) v (p_context_sp x) (p_ofile x) (p_cwd x) (p_name x) (p_page_faults x).
Definition set_p_context_sp (v : Z) (x : proc) : proc :=
  mkProc (p_state x) (p_chan x) (p_killed x) (p_xstate x) (p_pid x) (p_parent x) (p_kstack x) (p_sz x) (p_pagetable x) (p_trapframe x) (p_context_ra x) v (p_ofile x) (p_cwd x) (p_name x) (p_page_faults x).
Definition set_p_ofile (v : Z → Z) (x : proc) : proc :=
  mkProc (p_state x) (p_chan x) (p_killed x) (p_xstate x) (p_pid x) (p_parent x) (p_kstack x) (p_sz x) (p_pagetable x) (p_trapframe x) (p_context_ra x) (p_context_sp x) v (p_cwd x) (p_name x) (p_page_faults x).
Definition set_p_cwd (v : Z) (x : proc) : proc :=
  mkProc (p_state x) (p_chan x) (p_killed x) (p_xstate x) (p_pid x) (p_parent x) (p_kstack x) (p_sz x) (p_pagetable x) (p_trapframe x) (p_context_ra x) (p_context_sp x) (p_ofile x) v (p_name x) (p_page_faults x).
Definition set_p_name (v : list Z) (x : proc) : proc :=
  mkProc (p_state x) (p_chan x) (p_killed x) (p_xstate x) (p_pid x) (p_parent x) (p_kstack x) (p_sz x) (p_pagetable x) (p_trapframe x) (p_context_ra x) (p_context_sp x) (p_ofile x) (p_cwd x) v (p_page_faults x).
Definition set_p_page_faults (v : Z) (x : proc) : proc :=
  mkProc (p_state x) (p_chan x) (p_killed x) (p_xstate x) (p_pid x) (p_parent x) (p_kstack x) (p_sz x) (p_pagetable x) (p_trapframe x) (p_context_ra x) (p_context_sp x) (p_ofile x) (p_cwd x) (p_name x) v.

(** Offsets of struct trapframe. *)
Abbreviation TF_kernel_satp := 0 (only parsing).
Abbreviation TF_kernel_sp := 8 (only parsing).
Abbreviation TF_kernel_trap := 16 (only parsing).
Abbreviation TF_epc := 24 (only parsing).
Abbreviation TF_kernel_hartid := 32 (only parsing).
Abbreviation TF_sp := 48 (only parsing).
Abbreviation TF_a0 := 112 (only parsing).
Abbreviation TF_a1 := 120 (only parsing).
Abbreviation TF_a7 := 168 (only parsing).
Abbreviation TF_size := 288%nat (only parsing).

(** ** kernel/sleeplock.h *)
Record sleeplock := mkSleeplock {
  sl_locked : bool;
  sl_pid : Z
}.

(** ** kernel/file.h *)
Inductive filetype := FD_NONE | FD_PIPE | FD_INODE | FD_DEVICE.

#[export] Instance filetype_eq_dec : EqDecision filetype.
Proof. solve_decision. Defined.

Record file := mkFile {
  f_type : filetype;
  f_ref : Z;
  f_readable : bool;
  f_writable : bool;
  f_pipe : Z;
  f_ip : Z;
  f_off : Z;
  f_major : Z
}.

Definition set_f_type (v : filetype) (x : file) : file :=
  mkFile v (f_ref x) (f_readable x) (f_writable x) (f_pipe x) (f_ip x) (f_off x) (f_major x).
Definition set_f_ref (v : Z) (x : file) : file :=
  mkFile (f_type x) v (f_readable x) (f_writable x) (f_pipe x) (f_ip x) (f_off x) (f_major x).
Definition set_f_readable (v : bool) (x : file) : file :=
  mkFile (f_type x) (f_ref x) v (f_writable x) (f_pipe x) (f_ip x) (f_off x) (f_major x).
Definition set_f_writable (v : bool) (x : file) : file :=
  mkFile (f_type x) (f_ref x) (f_readable x) v (f_pipe x) (f_ip x) (f_off x) (f_major x).
Definition set_f_pipe (v : Z) (x : file) : file :=
  mkFile (f_type x) (f_ref x) (f_readable x) (f_writable x) v (f_ip x) (f_off x) (f_major x).
Definition set_f_ip (v : Z) (x : file) : file :=
  mkFile (f_type x) (f_ref x) (f_readable x) (f_writable x) (f_pipe x) v (f_off x) (f_major x).
Definition set_f_off (v : Z) (x : file) : file :=
  mkFile (f_type x) (f_ref x) (f_readable x) (f_writable x) (f_pipe x) (f_ip x) v (f_major x).
Definition set_f_major (v : Z) (x : file) : file :=
  mkFile (f_type x) (f_ref x) (f_readable x) (f_writable x) (f_pipe x) (f_ip x) (f_off x) v.

(** struct inode; addrs has NDIRECT+1 = 12 entries. *)
Record inode := mkInode {
  i_dev : Z;
  i_inum : Z;
  i_ref : Z;
  i_lock : sleeplock;
  i_valid : bool;
  i_type : Z;
  i_major : Z;
  i_minor : Z;
  i_nlink : Z;
  i_size : Z;
  i_addrs : Z → Z
}.

Definition set_i_dev (v : Z) (x : inode) : inode :=
  mkInode v (i_inum x) (i_ref x) (i_lock x) (i_valid x) (i_type x) (i_major x) (i_minor x) (i_nlink x) (i_size x) (i_addrs x).
Definition set_i_inum (v : Z) (x : inode) : inode :=
  mkInode (i_dev x) v (i_ref x) (i_lock x) (i_valid x) (i_type x) (i_major x) (i_minor x) (i_nlink x) (i_size x) (i_addrs x).
Definition set_i_ref (v : Z) (x : inode) : inode :=
  mkInode (i_dev x) (i_inum x) v (i_lock x) (i_valid x) (i_type x) (i_major x) (i_minor x) (i_nlink x) (i_size x) (i_addrs x).
Definition set_i_lock (v : sleeplock) (x : inode) : inode :=
  mkInode (i_dev x) (i_inum x) (i_ref x) v (i_valid x) (i_type x) (i_major x) (i_minor x) (i_nlink x) (i_size x) (i_addrs x).
Definition set_i_valid (v : bool) (x : inode) : inode :=
  mkInode (i_dev x) (i_inum x) (i_ref x) (i_lock x) v (i_type x) (i_major x) (i_minor x) (i_nlink x) (i_size x) (i_addrs x).
Definition set_i_type (v : Z) (x : inode) : inode :=
  mkInode (i_dev x) (i_inum x) (i_ref x) (i_lock x) (i_valid x) v (i_major x) (i_minor x) (i_nlink x) (i_size x) (i_addrs x).
Definition set_i_major (v : Z) (x : inode) : inode :=
  mkInode (i_dev x) (i_inum x) (i_ref x) (i_lock x) (i_valid x) (i_type x) v (i_minor x) (i_nlink x) (i_size x) (i_addrs x).
Definition set_i_minor (v : Z) (x : inode) : inode :=
  mkInode (i_dev x) (i_inum x) (i_ref x) (i_lock x) (i_valid x) (i_type x) (i_major x) v (i_nlink x) (i_size x) (i_addrs x).
Definition set_i_nlink (v : Z) (x : inode) : inode :=
  mkInode (i_dev x) (i_inum x) (i_ref x) (i_lock x) (i_valid x) (i_type x) (i_major x) (i_minor x) v (i_size x) (i_addrs x).
Definition set_i_size (v : Z) (x : inode) : inode :=
  mkInode (i_dev x) (i_inum x) (i_ref x) (i_lock x) (i_valid x) (i_type x) (i_major x) (i_minor x) (i_nlink x) v (i_addrs x).
Definition set_i_addrs (v : Z → Z) (x : inode) : inode :=
  mkInode (i_dev x) (i_inum x) (i_ref x) (i_lock x) (i_valid x) (i_type x) (i_major x) (i_minor x) (i_nlink x) (i_size x) v.

(** ** kernel/fs.h *)
Abbreviation ROOTINO := 1 (only parsing).
Abbreviation BSIZE := 1024 (only parsing).
Abbreviation FSMAGIC := 0x10203040 (only parsing).
Abbreviation NDIRECT := 11 (only parsing).
Abbreviation NINDIRECT := 256 (only parsing).      (* BSIZE / sizeof(uint) *)
Abbreviation MAXFILE := 65803 (only parsing).      (* NDIRECT + NINDIRECT + NINDIRECT*NINDIRECT *)
Abbreviation IPB := 16 (only parsing).      (* BSIZE / sizeof(struct dinode) *)
Abbreviation BPB := 8192 (only parsing).      (* BSIZE*8 *)
Abbreviation DIRSIZ := 14 (only parsing).
Abbreviation T_DIR := 1 (only parsing).
Abbreviation T_FILE := 2 (only parsing).
Abbreviation T_DEVICE := 3 (only parsing).
Abbreviation T_SYMLINK := 4 (only parsing).

Record superblock := mkSuperblock {
  sb_magic : Z;
  sb_size : Z;
  sb_nblocks : Z;
  sb_ninodes : Z;
  sb_nlog : Z;
  sb_logstart : Z;
  sb_inodestart : Z;
  sb_bmapstart : Z
}.

Definition IBLOCK (i : Z) (sb : superblock) : Z := u32 (i / IPB + sb_inodestart sb).
Definition BBLOCK (b : Z) (sb : superblock) : Z := u32 (b / BPB + sb_bmapstart sb).

(** ** kernel/buf.h; the bytes of a block are numbered from 0 to BSIZE - 1. *)
Record buf := mkBuf {
  b_valid : bool;
  b_dev : Z;
  b_blockno : Z;
  b_lock : sleeplock;
  b_refcnt : Z;
  b_data : mem
}.

Definition set_b_valid (v : bool) (x : buf) : buf :=
  mkBuf v (b_dev x) (b_blockno x) (b_lock x) (b_refcnt x) (b_data x).
Definition set_b_dev (v : Z) (x : buf) : buf :=
  mkBuf (b_valid x) v (b_blockno x) (b_lock x) (b_refcnt x) (b_data x).
Definition set_b_blockno (v : Z) (x : buf) : buf :=
  mkBuf (b_valid x) (b_dev x) v (b_lock x) (b_refcnt x) (b_data x).
Definition set_b_lock (v : sleeplock) (x : buf) : buf :=
  mkBuf (b_valid x) (b_dev x) (b_blockno x) v (b_refcnt x) (b_data x).
Definition set_b_refcnt (v : Z) (x : buf) : buf :=
  mkBuf (b_valid x) (b_dev x) (b_blockno x) (b_lock x) v (b_data x).
Definition set_b_data (v : mem) (x : buf) : buf :=
  mkBuf (b_valid x) (b_dev x) (b_blockno x) (b_lock x) (b_refcnt x) v.

(** ** struct log of kernel/log.c, with its logheader *)
Record log := mkLog {
  lg_start : Z;
  lg_outstanding : Z;
  lg_committing : bool;
  lg_dev : Z;
  lg_n : Z;
  lg_block : Z → Z
}.

Definition set_lg_start (v : Z) (x : log) : log :=
  mkLog v (lg_outstanding x) (lg_committing x) (lg_dev x) (lg_n x) (lg_block x).
Definition set_lg_outstanding (v : Z) (x : log) : log :=
  mkLog (lg_start x) v (lg_committing x) (lg_dev x) (lg_n x) (lg_block x).
Definition set_lg_committing (v : bool) (x : log) : log :=
  mkLog (lg_start x) (lg_outstanding x) v (lg_dev x) (lg_n x) (lg_block x).
Definition set_lg_dev (v : Z) (x : log) : log :=
  mkLog (lg_start x) (lg_outstanding x) (lg_committing x) v (lg_n x) (lg_block x).
Definition set_lg_n (v : Z) (x : log) : log :=
  mkLog (lg_start x) (lg_outstanding x) (lg_committing x) (lg_dev x) v (lg_block x).
Definition set_lg_block (v : Z → Z) (x : log) : log :=
  mkLog (lg_start x) (lg_outstanding x) (lg_committing x) (lg_dev x) (lg_n x) v.

(** ** struct pipe of kernel/pipe.c *)
Record pipe := mkPipe {
  pi_data : Z → Z;
  pi_nread : Z;
  pi_nwrite : Z;
  pi_readopen : bool;
  pi_writeopen : bool
}.

Definition set_pi_data (v : Z → Z) (x : pipe) : pipe :=
  mkPipe v (pi_nread x) (pi_nwrite x) (pi_readopen x) (pi_writeopen x).
Definition set_pi_nread (v : Z) (x : pipe) : pipe :=
  mkPipe (pi_data x) v (pi_nwrite x) (pi_readopen x) (pi_writeopen x).
Definition set_pi_nwrite (v : Z) (x : pipe) : pipe :=
  mkPipe (pi_data x) (pi_nread x) v (pi_readopen x) (pi_writeopen x).
Definition set_pi_readopen (v : bool) (x : pipe) : pipe :=
  mkPipe (pi_data x) (pi_nread x) (pi_nwrite x) v (pi_writeopen x).
Definition set_pi_writeopen (v : bool) (x : pipe) : pipe :=
  mkPipe (pi_data x) (pi_nread x) (pi_nwrite x) (pi_readopen x) v.

(** ** struct mailbox of kernel/mbox.c *)
Record mailbox := mkMailbox {
  mb_key : Z;
  mb_buf : Z → Z;
  mb_head : Z;
  mb_tail : Z;
  mb_count : Z
}.

Definition set_mb_key (v : Z) (x : mailbox) : mailbox :=
  mkMailbox v (mb_buf x) (mb_head x) (mb_tail x) (mb_count x).
Definition set_mb_buf (v : Z → Z) (x : mailbox) : mailbox :=
  mkMailbox (mb_key x) v (mb_head x) (mb_tail x) (mb_count x).
Definition set_mb_head (v : Z) (x : mailbox) : mailbox :=
  mkMailbox (mb_key x) (mb_buf x) v (mb_tail x) (mb_count x).
Definition set_mb_tail (v : Z) (x : mailbox) : mailbox :=
  mkMailbox (mb_key x) (mb_buf x) (mb_head x) v (mb_count x).
Definition set_mb_count (v : Z) (x : mailbox) : mailbox :=
  mkMailbox (mb_key x) (mb_buf x) (mb_head x) (mb_tail x) v.

(** ** the shm table of kernel/shm.c *)
Record shmtable := mkShm {
  shm_pages : Z → Z;
  shm_keys : Z → Z;
  shm_refcnt : Z → Z
}.

Definition set_shm_pages (v : Z → Z) (x : shmtable) : shmtable :=
  mkShm v (shm_keys x) (shm_refcnt x).
Definition set_shm_keys (v : Z → Z) (x : shmtable) : shmtable :=
  mkShm (shm_pages x) v (shm_refcnt x).
Definition set_shm_refcnt (v : Z → Z) (x : shmtable) : shmtable :=
  mkShm (shm_pages x) (shm_keys x) v.

(** ** cons of kernel/console.c *)
Record console := mkCons {
  cons_buf : Z → Z;
  cons_r : Z;
  cons_w : Z;
  cons_e : Z
}.

Definition set_cons_buf (v : Z → Z) (x : console) : console :=
  mkCons v (cons_r x) (cons_w x) (cons_e x).
Definition set_cons_r (v : Z) (x : console) : console :=
  mkCons (cons_buf x) v (cons_w x) (cons_e x).
Definition set_cons_w (v : Z) (x : console) : console :=
  mkCons (cons_buf x) (cons_r x) v (cons_e x).
Definition set_cons_e (v : Z) (x : console) : console :=
  mkCons (cons_buf x) (cons_r x) (cons_w x) v.

(** ** The whole state

    [lru] is the list through the buffers, most recently used first.  [disk]
    holds the blocks of the disk, [disk_size] their number, and [writes] the
    blocks written so far, oldest first: a crash keeps a prefix of them.
    [uart] is what has been sent to the serial line, oldest first, [tx_busy] the flag of
    uart.c; [first] is the
    static variable of forkret. *)
Record kstate := mkKstate {
  kmem_of : kmem;
  procs : Z → proc;
  nextpid : Z;
  initproc : Z;
  ftable : Z → file;
  itable : Z → inode;
  sb_of : superblock;
  bufs : Z → buf;
  lru : list Z;
  log_of : log;
  disk : Z → mem;
  disk_size : Z;
  writes : list (Z * mem);
  pipes : Z → pipe;
  mboxes : Z → mailbox;
  shm : shmtable;
  cons : console;
  uart : list Z;
  tx_busy : bool;
  first : bool;
  ticks : Z;
  plic : list (Z * Z)      (* completions written to the interrupt controller: hart and irq *)
}.

Definition set_kmem_of (v : kmem) (s : kstate) : kstate :=
  mkKstate v (procs s) (nextpid s) (initproc s) (ftable s) (itable s) (sb_of s) (bufs s) (lru s) (log_of s) (disk s) (disk_size s) (writes s) (pipes s) (mboxes s) (shm s) (cons s) (uart s) (tx_busy s) (first s) (ticks s) (plic s).
Definition set_procs (v : Z → proc) (s : kstate) : kstate :=
  mkKstate (kmem_of s) v (nextpid s) (initproc s) (ftable s) (itable s) (sb_of s) (bufs s) (lru s) (log_of s) (disk s) (disk_size s) (writes s) (pipes s) (mboxes s) (shm s) (cons s) (uart s) (tx_busy s) (first s) (ticks s) (plic s).
Definition set_nextpid (v : Z) (s : kstate) : kstate :=
  mkKstate (kmem_of s) (procs s) v (initproc s) (ftable s) (itable s) (sb_of s) (bufs s) (lru s) (log_of s) (disk s) (disk_size s) (writes s) (pipes s) (mboxes s) (shm s) (cons s) (uart s) (tx_busy s) (first s) (ticks s) (plic s).
Definition set_initproc (v : Z) (s : kstate) : kstate :=
  mkKstate (kmem_of s) (procs s) (nextpid s) v (ftable s) (itable s) (sb_of s) (bufs s) (lru s) (log_of s) (disk s) (disk_size s) (writes s) (pipes s) (mboxes s) (shm s) (cons s) (uart s) (tx_busy s) (first s) (ticks s) (plic s).
Definition set_ftable (v : Z → file) (s : kstate) : kstate :=
  mkKstate (kmem_of s) (procs s) (nextpid s) (initproc s) v (itable s) (sb_of s) (bufs s) (lru s) (log_of s) (disk s) (disk_size s) (writes s) (pipes s) (mboxes s) (shm s) (cons s) (uart s) (tx_busy s) (first s) (ticks s) (plic s).
Definition set_itable (v : Z → inode) (s : kstate) : kstate :=
  mkKstate (kmem_of s) (procs s) (nextpid s) (initproc s) (ftable s) v (sb_of s) (bufs s) (lru s) (log_of s) (disk s) (disk_size s) (writes s) (pipes s) (mboxes s) (shm s) (cons s) (uart s) (tx_busy s) (first s) (ticks s) (plic s).
Definition set_sb_of (v : superblock) (s : kstate) : kstate :=
  mkKstate (kmem_of s) (procs s) (nextpid s) (initproc s) (ftable s) (itable s) v (bufs s) (lru s) (log_of s) (disk s) (disk_size s) (writes s) (pipes s) (mboxes s) (shm s) (cons s) (uart s) (tx_busy s) (first s) (ticks s) (plic s).
Definition set_bufs (v : Z → buf) (s : kstate) : kstate :=
  mkKstate (kmem_of s) (procs s) (nextpid s) (initproc s) (ftable s) (itable s) (sb_of s) v (lru s) (log_of s) (disk s) (disk_size s) (writes s) (pipes s) (mboxes s) (shm s) (cons s) (uart s) (tx_busy s) (first s) (ticks s) (plic s).
Definition set_lru (v : list Z) (s : kstate) : kstate :=
  mkKstate (kmem_of s) (procs s) (nextpid s) (initproc s) (ftable s) (itable s) (sb_of s) (bufs s) v (log_of s) (disk s) (disk_size s) (writes s) (pipes s) (mboxes s) (shm s) (cons s) (uart s) (tx_busy s) (first s) (ticks s) (plic s).
Definition set_log_of (v : log) (s : kstate) : kstate :=
  mkKstate (kmem_of s) (procs s) (nextpid s) (initproc s) (ftable s) (itable s) (sb_of s) (bufs s) (lru s) v (disk s) (disk_size s) (writes s) (pipes s) (mboxes s) (shm s) (cons s) (uart s) (tx_busy s) (first s) (ticks s) (plic s).
Definition set_disk (v : Z → mem) (s : kstate) : kstate :=
  mkKstate (kmem_of s) (procs s) (nextpid s) (initproc s) (ftable s) (itable s) (sb_of s) (bufs s) (lru s) (log_of s) v (disk_size s) (writes s) (pipes s) (mboxes s) (shm s) (cons s) (uart s) (tx_busy s) (first s) (ticks s) (plic s).
Definition set_disk_size (v : Z) (s : kstate) : kstate :=
  mkKstate (kmem_of s) (procs s) (nextpid s) (initproc s) (ftable s) (itable s) (sb_of s) (bufs s) (lru s) (log_of s) (disk s) v (writes s) (pipes s) (mboxes s) (shm s) (cons s) (uart s) (tx_busy s) (first s) (ticks s) (plic s).
Definition set_writes (v : list (Z * mem)) (s : kstate) : kstate :=
  mkKstate (kmem_of s) (procs s) (nextpid s) (initproc s) (ftable s) (itable s) (sb_of s) (bufs s) (lru s) (log_of s) (disk s) (disk_size s) v (pipes s) (mboxes s) (shm s) (cons s) (uart s) (tx_busy s) (first s) (ticks s) (plic s).
Definition set_pipes (v : Z → pipe) (s : kstate) : kstate :=
  mkKstate (kmem_of s) (procs s) (nextpid s) (initproc s) (ftable s) (itable s) (sb_of s) (bufs s) (lru s) (log_of s) (disk s) (disk_size s) (writes s) v (mboxes s) (shm s) (cons s) (uart s) (tx_busy s) (first s) (ticks s) (plic s).
Definition set_mboxes (v : Z → mailbox) (s : kstate) : kstate :=
  mkKstate (kmem_of s) (procs s) (nextpid s) (initproc s) (ftable s) (itable s) (sb_of s) (bufs s) (lru s) (log_of s) (disk s) (disk_size s) (writes s) (pipes s) v (shm s) (cons s) (uart s) (tx_busy s) (first s) (ticks s) (plic s).
Definition set_shm (v : shmtable) (s : kstate) : kstate :=
  mkKstate (kmem_of s) (procs s) (nextpid s) (initproc s) (ftable s) (itable s) (sb_of s) (bufs s) (lru s) (log_of s) (disk s) (disk_size s) (writes s) (pipes s) (mboxes s) v (cons s) (uart s) (tx_busy s) (first s) (ticks s) (plic s).
Definition set_cons (v : console) (s : kstate) : kstate :=
  mkKstate (kmem_of s) (procs s) (nextpid s) (initproc s) (ftable s) (itable s) (sb_of s) (bufs s) (lru s) (log_of s) (disk s) (disk_size s) (writes s) (pipes s) (mboxes s) (shm s) v (uart s) (tx_busy s) (first s) (ticks s) (plic s).
Definition set_uart (v : list Z) (s : kstate) : kstate :=
  mkKstate (kmem_of s) (procs s) (nextpid s) (initproc s) (ftable s) (itable s) (sb_of s) (bufs s) (lru s) (log_of s) (disk s) (disk_size s) (writes s) (pipes s) (mboxes s) (shm s) (cons s) v (tx_busy s) (first s) (ticks s) (plic s).
Definition set_tx_busy (v : bool) (s : kstate) : kstate :=
  mkKstate (kmem_of s) (procs s) (nextpid s) (initproc s) (ftable s) (itable s) (sb_of s) (bufs s) (lru s) (log_of s) (disk s) (disk_size s) (writes s) (pipes s) (mboxes s) (shm s) (cons s) (uart s) v (first s) (ticks s) (plic s).
Definition set_first (v : bool) (s : kstate) : kstate :=
  mkKstate (kmem_of s) (procs s) (nextpid s) (initproc s) (ftable s) (itable s) (sb_of s) (bufs s) (lru s) (log_of s) (disk s) (disk_size s) (writes s) (pipes s) (mboxes s) (shm s) (cons s) (uart s) (tx_busy s) v (ticks s) (plic s).
Definition set_ticks (v : Z) (s : kstate) : kstate :=
  mkKstate (kmem_of s) (procs s) (nextpid s) (initproc s) (ftable s) (itable s) (sb_of s) (bufs s) (lru s) (log_of s) (disk s) (disk_size s) (writes s) (pipes s) (mboxes s) (shm s) (cons s) (uart s) (tx_busy s) (first s) v (plic s).
Definition set_plic (v : list (Z * Z)) (s : kstate) : kstate :=
  mkKstate (kmem_of s) (procs s) (nextpid s) (initproc s) (ftable s) (itable s) (sb_of s) (bufs s) (lru s) (log_of s) (disk s) (disk_size s) (writes s) (pipes s) (mboxes s) (shm s) (cons s) (uart s) (tx_busy s) (first s) (ticks s) v.

(** What a call that sleeps keeps in its local variables until it goes on:
    nothing, a count, a count with a buffer, or the clock it started at. *)
Inductive resume := R0 | RCount (i : Z) | RChunk (i : Z) (buf : list Z) | RTicks (t : Z).

(** ** Access to the tables *)
Definition upd_proc (i : Z) (f : proc → proc) (s : kstate) : kstate :=
  set_procs (fupd (procs s) i (f (procs s i))) s.
Definition upd_file (i : Z) (f : file → file) (s : kstate) : kstate :=
  set_ftable (fupd (ftable s) i (f (ftable s i))) s.
Definition upd_inode (i : Z) (f : inode → inode) (s : kstate) : kstate :=
  set_itable (fupd (itable s) i (f (itable s i))) s.
Definition upd_buf (i : Z) (f : buf → buf) (s : kstate) : kstate :=
  set_bufs (fupd (bufs s) i (f (bufs s i))) s.
Definition upd_pipe (i : Z) (f : pipe → pipe) (s : kstate) : kstate :=
  set_pipes (fupd (pipes s) i (f (pipes s i))) s.
Definition upd_mbox (i : Z) (f : mailbox → mailbox) (s : kstate) : kstate :=
  set_mboxes (fupd (mboxes s) i (f (mboxes s i))) s.
Definition upd_log (f : log → log) (s : kstate) : kstate := set_log_of (f (log_of s)) s.
Definition upd_shm (f : shmtable → shmtable) (s : kstate) : kstate := set_shm (f (shm s)) s.
Definition upd_cons (f : console → console) (s : kstate) : kstate := set_cons (f (cons s)) s.

(** The [n] low bytes of an integer, as the compiler lays them out. *)
Fixpoint le_bytes (n : nat) (v : Z) : list Z :=
  match n with
  | O => []
  | S n' => v mod 256 :: le_bytes n' (v / 256)
  end.

(** The integer in the first bytes of a buffer. *)
Fixpoint le_val (l : list Z) : Z :=
  match l with
  | [] => 0
  | b :: l' => b + 256 * le_val l'
  end.

(** Memory operations on the whole state. *)
Definition on_kmem {A} (c : M kmem A) : M kstate A := zoom kmem_of set_kmem_of c.

Definition in_table (i n : Z) : bool := (0 <=? i) && (i <? n).
