(* ===== verification/Printf.v ===== *)
(** kernel/printf.c and the output side of kernel/uart.c: formatted output to
    the serial line.

    Characters are byte values; a byte written to the THR register of the UART
    is appended to [uart]. *)

From S2P Require Import Prelude Riscv Memory Kalloc Vm State.

(** ** Conversions of printf *)

(** "0123456789abcdef"[d] *)
Definition digit (d : Z) : Z := if d <? 10 then 48 + d else 97 + (d - 10).

(** do { buf[i++] = digits[x % base]; } while((x /= base) != 0);
    A 64-bit number has at most 64 digits. *)
Fixpoint digits_loop (fuel : nat) (x base : Z) : list Z :=
  match fuel with
  | O => []
  | S fuel' =>
      let q := x / base in
      digit (x mod base) :: (if q =? 0 then [] else digits_loop fuel' q base)
  end.

(** The contents of buf when the second loop starts. *)
Definition printint_buf (xx base : Z) (sign : bool) : list Z :=
  let neg := sign && (xx <? 0) in
  let x := if neg then u64 (- xx) else u64 xx in
  digits_loop 64 x base ++ (if neg then [45] else []).

(** The characters printint prints; buf has 20 bytes. *)
Definition printint (xx base : Z) (sign : bool) : outcome (list Z) :=
  let buf := printint_buf xx base sign in
  if 20 <? Z.of_nat (length buf) then Undef "buf[i++]" else Done (rev buf).

(** for (i = 0; i < 16; i++, x <<= 4) consputc(digits[x >> 60]); *)
Fixpoint printptr_loop (n : nat) (x : Z) : list Z :=
  match n with
  | O => []
  | S n' => digit (Z.shiftr x 60) :: printptr_loop n' (u64 (Z.shiftl x 4))
  end.
Definition printptr (x : Z) : list Z := [48; 120] ++ printptr_loop 16 x.

(** The arguments after the format: a register-sized integer, or a string
    (None for the null pointer). *)
Inductive vararg := AInt (v : Z) | AStr (s : option (list Z)).

Definition s64 (x : Z) : Z := (x + 2^63) mod 2^64 - 2^63.

(** The conversions that print an integer: base, sign, and the value va_arg
    gives printint; the number is how many characters follow '%'. *)
Definition int_conv (c0 c1 c2 : Z) : option (nat * Z * bool * (Z → Z)) :=
  if c0 =? 100 then Some (1%nat, 10, true, s32) else                                     (* d *)
  if (c0 =? 108) && (c1 =? 100) then Some (2%nat, 10, true, s64) else                    (* ld *)
  if (c0 =? 108) && (c1 =? 108) && (c2 =? 100) then Some (3%nat, 10, true, s64) else     (* lld *)
  if c0 =? 117 then Some (1%nat, 10, false, u32) else                                    (* u *)
  if (c0 =? 108) && (c1 =? 117) then Some (2%nat, 10, false, s64) else                   (* lu *)
  if (c0 =? 108) && (c1 =? 108) && (c2 =? 117) then Some (3%nat, 10, false, s64) else    (* llu *)
  if c0 =? 120 then Some (1%nat, 16, false, u32) else                                    (* x *)
  if (c0 =? 108) && (c1 =? 120) then Some (2%nat, 16, false, s64) else                   (* lx *)
  if (c0 =? 108) && (c1 =? 108) && (c2 =? 120) then Some (3%nat, 16, false, s64)         (* llx *)
  else None.

(** What the conversion after '%' prints, how many format characters and
    arguments it uses up; None stops the loop. *)
Definition convert (fmt : list Z) (args : list vararg) :
    outcome (option (list Z * nat * list vararg)) :=
  let c0 := nth 0 fmt 0 in
  let c1 := if c0 =? 0 then 0 else nth 1 fmt 0 in
  let c2 := if c1 =? 0 then 0 else nth 2 fmt 0 in
  match int_conv c0 c1 c2 with
  | Some (k, base, sign, conv) =>
      match args with
      | AInt v :: args' =>
          match printint (conv v) base sign with
          | Done l => Done (Some (l, k, args'))
          | Panic e => Panic e | Undef e => Undef e | Block => Block | NoFuel => NoFuel
          end
      | _ => Undef "va_arg"
      end
  | None =>
      if c0 =? 112 then                                                                  (* p *)
        match args with AInt v :: args' => Done (Some (printptr (u64 v), 1%nat, args')) | _ => Undef "va_arg" end
      else if c0 =? 99 then                                                              (* c *)
        match args with AInt v :: args' => Done (Some ([s32 v], 1%nat, args')) | _ => Undef "va_arg" end
      else if c0 =? 115 then                                                             (* s *)
        match args with
        | AStr (Some l) :: args' => Done (Some (l, 1%nat, args'))
        | AStr None :: args' => Done (Some ([40; 110; 117; 108; 108; 41], 1%nat, args'))  (* (null) *)
        | _ => Undef "va_arg"
        end
      else if c0 =? 37 then Done (Some ([37], 1%nat, args))
      else if c0 =? 0 then Done None
      else Done (Some ([37; c0], 1%nat, args))
  end.

(** The loop over the format: the arguments of the calls of consputc. *)
Fixpoint printf_loop (fuel : nat) (fmt : list Z) (args : list vararg) : outcome (list Z) :=
  match fuel with
  | O => NoFuel
  | S fuel' =>
      match fmt with
      | [] => Done []
      | cx :: rest =>
          if negb (cx =? 37) then
            match printf_loop fuel' rest args with Done l => Done (cx :: l) | o => o end
          else
          match convert rest args with
          | Done (Some (out, k, args')) =>
              match printf_loop fuel' (drop k rest) args' with Done l => Done (out ++ l) | o => o end
          | Done None => Done []
          | Panic e => Panic e | Undef e => Undef e | Block => Block | NoFuel => NoFuel
          end
      end
  end.

(** ** The serial line *)
(** WriteReg(THR, c): the character goes out on the line. *)
Definition WriteReg_THR (c : Z) : M kstate unit := modify (λ s, set_uart (uart s ++ [u8 c]) s).

(** The wait for an idle transmitter has no effect on the state. *)
Definition uartputc_sync (c : Z) : M kstate unit := WriteReg_THR c.

Abbreviation BACKSPACE := 0x100 (only parsing).

Definition consputc (c : Z) : M kstate unit :=
  if c =? BACKSPACE then uartputc_sync 8 ;; uartputc_sync 32 ;; uartputc_sync 8
  else uartputc_sync c.

Fixpoint consputs (l : list Z) : M kstate unit :=
  match l with
  | [] => ret tt
  | c :: l' => consputc c ;; consputs l'
  end.

Definition printf (fmt : list Z) (args : list vararg) : M kstate Z :=
  match printf_loop (S (length fmt)) fmt args with
  | Done l => consputs l ;; ret 0
  | Panic e => panic e
  | Undef e => undef e
  | Block => block
  | NoFuel => λ _, NoFuel
  end.

(** The kernel's messages: the bytes of a string literal, and printf of one
    line whose result is not used. *)
Fixpoint bytes_of (s : string) : list Z :=
  match s with
  | EmptyString => []
  | String a s' => Z.of_N (Ascii.N_of_ascii a) :: bytes_of s'
  end.

Definition println (fmt : string) (args : list vararg) : M kstate unit :=
  printf (bytes_of fmt ++ [10]) args ;; ret tt.

(** ** Numbers *)

(** The value of a digit, and of a number with the last digit first. *)
Definition digit_val (c : Z) : Z := if c <? 58 then c - 48 else c - 87.
Fixpoint number (base : Z) (l : list Z) : Z :=
  match l with
  | [] => 0
  | c :: l' => digit_val c + base * number base l'
  end.

(** What a reader makes of the printed characters. *)
Definition read_int (base : Z) (l : list Z) : Z :=
  match l with
  | c :: l' => if c =? 45 then - number base (rev l') else number base (rev l)
  | [] => 0
  end.

Lemma digit_roundtrip d : 0 ≤ d < 16 → digit_val (digit d) = d ∧ digit d ≠ 45.
Proof. intros Hd. unfold digit, digit_val. repeat case_if; lia. Qed.

Lemma digits_loop_spec base : 2 ≤ base ≤ 16 → ∀ n x k, 0 ≤ x < base ^ Z.of_nat (S k) → (k < n)%nat →
  number base (digits_loop n x base) = x ∧ (1 ≤ length (digits_loop n x base) ≤ S k)%nat ∧
  Forall (λ c, c ≠ 45) (digits_loop n x base).
Proof.
  intros Hb. induction n as [|n IH]; intros x k Hx Hk; [lia|]. cbn [digits_loop number].
  pose proof (Z.mod_pos_bound x base ltac:(lia)) as Hm. destruct (digit_roundtrip (x mod base) ltac:(lia)) as [Hd Hd'].
  pose proof (Z.div_mod x base ltac:(lia)) as Hdm.
  destruct (Z.eqb_spec (x / base) 0) as [Hq|Hq]; cbn [number length].
  - rewrite Hd. split_and!; [lia|lia|lia|by repeat constructor].
  - pose proof (Z.div_pos x base ltac:(lia) ltac:(lia)). destruct k as [|k].
    { exfalso. change (Z.of_nat 1) with 1 in Hx. rewrite Z.pow_1_r in Hx. apply Hq. apply Z.div_small. lia. }
    destruct (IH (x / base) k) as (I1 & I2 & I3); [|lia|].
    { split; [lia|]. rewrite Nat2Z.inj_succ, Z.pow_succ_r in Hx by lia. apply Z.div_lt_upper_bound; lia. }
    rewrite Hd, I1. split_and!; [lia|lia|lia|by constructor].
Qed.

Lemma read_int_digits base l : Forall (λ c, c ≠ 45) l → read_int base (rev l) = number base l.
Proof.
  intros Hl. destruct (rev l) as [|c l'] eqn:E; apply (f_equal (@rev Z)) in E as E'; rewrite rev_involutive in E'.
  - by rewrite E'.
  - cbn [read_int]. assert (c ≠ 45) as Hc.
    { rewrite Forall_forall in Hl. apply Hl. rewrite list_elem_of_In, in_rev, E. by left. }
    rewrite (proj2 (Z.eqb_neq _ _) Hc). by rewrite E'.
Qed.

Lemma printint_digits base x k : base = 10 ∨ base = 16 → 0 ≤ x < base ^ Z.of_nat (S k) → (k < 64)%nat →
  let l := digits_loop 64 x base in
  number base l = x ∧ (length l ≤ S k)%nat ∧ read_int base (rev l) = x ∧ read_int base (rev (l ++ [45])) = - x.
Proof.
  intros Hb Hx Hk l. destruct (digits_loop_spec base ltac:(lia) 64 x k Hx Hk) as (H1 & H2 & H3). fold l in H1, H2, H3.
  split_and!; [done|lia|by rewrite read_int_digits|]. rewrite rev_app_distr.
  change (rev [45] ++ rev l) with (45 :: rev l). cbn [read_int Z.eqb Pos.eqb]. by rewrite rev_involutive, H1.
Qed.

Lemma printint_done xx base sign : base = 10 ∨ base = 16 → - 2^63 ≤ xx < 2^64 →
  ∃ l, printint xx base sign = Done l ∧ (length l ≤ 20)%nat ∧
    read_int base l = if sign && (xx <? 0) then xx else u64 xx.
Proof.
  intros Hb Hx. unfold printint, printint_buf. destruct (sign && (xx <? 0)) eqn:E; cbv zeta.
  - apply andb_true_iff in E as [_ E%Z.ltb_lt]. rewrite (u64_small (- xx)) by lia.
    destruct (printint_digits base (- xx) 18 Hb) as (_ & Hl & _ & Hr); [destruct Hb as [-> | ->]; cbn; lia|lia|].
    rewrite (proj2 (Z.ltb_ge _ _)) by (rewrite length_app; cbn [length]; lia). eexists. split; [done|].
    rewrite rev_length, length_app. cbn [length]. split; [lia|]. rewrite Hr. lia.
  - rewrite app_nil_r. pose proof (u64_range xx).
    destruct (printint_digits base (u64 xx) 19 Hb) as (_ & Hl & Hr & _); [destruct Hb as [-> | ->]; cbn; lia|lia|].
    rewrite (proj2 (Z.ltb_ge _ _)) by lia. eexists. split; [done|]. rewrite rev_length. split; [lia|done].
Qed.

(** printint prints the number.  For decimal and hexadecimal conversions
    of any 64-bit argument the digits, and the sign, fit the 20 bytes of buf,
    and what is printed reads back as the argument, taken as unsigned unless
    the conversion is signed. *)
Theorem printint_roundtrip xx base sign : base = 10 ∨ base = 16 → - 2^63 ≤ xx < 2^64 →
  ∃ l, printint xx base sign = Done l ∧ (length l ≤ 20)%nat ∧
    read_int base l = if sign && (xx <? 0) then xx else u64 xx.
Proof. apply printint_done. Qed.

(** The smallest number. *)
Lemma printint_roundtrip_witness : ∃ l, printint (- 2^63) 10 true = Done l ∧ read_int 10 l = - 2^63.
Proof.
  destruct (printint_roundtrip (- 2^63) 10 true) as (l & E & _ & H); [by left|lia|]. exists l. split; [exact E|exact H].
Defined.

(** ** Messages *)

(** The arguments have the types the conversions ask for: the number of format
    characters used and the arguments left, None when one does not fit. *)
Definition arg_fits (fmt : list Z) (args : list vararg) : option (nat * list vararg) :=
  let c0 := nth 0 fmt 0 in
  let c1 := if c0 =? 0 then 0 else nth 1 fmt 0 in
  let c2 := if c1 =? 0 then 0 else nth 2 fmt 0 in
  match int_conv c0 c1 c2, args with
  | Some (k, _, _, _), AInt _ :: args' => Some (k, args')
  | Some _, _ => None
  | None, _ =>
      if (c0 =? 112) || (c0 =? 99) then match args with AInt _ :: args' => Some (1%nat, args') | _ => None end
      else if c0 =? 115 then match args with AStr _ :: args' => Some (1%nat, args') | _ => None end
      else Some (1%nat, args)
  end.

Fixpoint fits (fuel : nat) (fmt : list Z) (args : list vararg) : bool :=
  match fuel, fmt with
  | O, _ => false
  | S _, [] => true
  | S fuel', cx :: rest =>
      if negb (cx =? 37) then fits fuel' rest args else
      match arg_fits rest args with Some (k, args') => fits fuel' (drop k rest) args' | None => false end
  end.

Lemma int_conv_range c0 c1 c2 k base sign conv : int_conv c0 c1 c2 = Some (k, base, sign, conv) →
  (base = 10 ∨ base = 16) ∧ ∀ v, - 2^63 ≤ conv v < 2^64.
Proof.
  assert (∀ v, - 2^63 ≤ s32 v < 2^64) by (intros v; unfold s32; dlia).
  assert (∀ v, - 2^63 ≤ u32 v < 2^64) by (intros v; unfold u32; dlia).
  assert (∀ v, - 2^63 ≤ s64 v < 2^64) by (intros v; unfold s64; dlia).
  unfold int_conv. repeat case_if; intros [= <- <- <- <-]; auto.
Qed.

Lemma convert_returns fmt args k args' : arg_fits fmt args = Some (k, args') →
  convert fmt args = Done None ∨ ∃ out, convert fmt args = Done (Some (out, k, args')).
Proof.
  unfold arg_fits, convert. set (c0 := nth 0 fmt 0). set (c1 := if c0 =? 0 then 0 else _).
  set (c2 := if c1 =? 0 then 0 else _). clearbody c0 c1 c2.
  destruct (int_conv c0 c1 c2) as [[[[k0 base] sign] conv]|] eqn:Ec.
  - destruct args as [|[v|l] args]; [done| |done]. intros [= <- <-].
    destruct (int_conv_range _ _ _ _ _ _ _ Ec) as [Hb Hv].
    destruct (printint_done (conv v) base sign Hb (Hv v)) as (l & -> & _). right. by eexists.
  - intros H. repeat (case_if; cbn [orb] in * ); try done;
      repeat (case_match; try done); simplify_eq; eauto.
Qed.

Lemma printf_loop_returns fuel : ∀ fmt args, fits fuel fmt args = true → ∃ l, printf_loop fuel fmt args = Done l.
Proof.
  induction fuel as [|fuel IH]; intros [|cx rest] args H; cbn [fits printf_loop] in *; [done|done|by eexists|].
  destruct (negb (cx =? 37)); [destruct (IH _ _ H) as (l & ->); by eexists|].
  destruct (arg_fits rest args) as [[k args']|] eqn:E; [|done].
  destruct (convert_returns _ _ _ _ E) as [-> | (out & ->)]; [by eexists|]. destruct (IH _ _ H) as (l & ->). by eexists.
Qed.

(** Output changes the serial line only. *)
Lemma consputc_wp c s (Q : unit → kstate → Prop) : (∀ u, Q tt (set_uart u s)) → wp (consputc c) Q s.
Proof. intros HQ. unfold consputc, uartputc_sync, WriteReg_THR. case_if; wp_steps; apply HQ. Qed.

Lemma consputs_wp l : ∀ s (Q : unit → kstate → Prop), (∀ u, Q tt (set_uart u s)) → wp (consputs l) Q s.
Proof.
  induction l as [|c l IH]; intros s Q HQ; cbn [consputs].
  - wp_step. specialize (HQ (uart s)). by destruct s.
  - wp_step. apply consputc_wp. intros u. apply IH. intros u'. apply HQ.
Qed.

Lemma printf_wp fmt args s (Q : Z → kstate → Prop) : fits (S (length fmt)) fmt args = true →
  (∀ u, Q 0 (set_uart u s)) → wp (printf fmt args) Q s.
Proof.
  intros H HQ. unfold printf. destruct (printf_loop_returns _ _ _ H) as (l & ->).
  wp_step. apply consputs_wp. intros u. wp_step. apply HQ.
Qed.

Lemma println_wp fmt args s (Q : unit → kstate → Prop) :
  fits (S (length (bytes_of fmt ++ [10]))) (bytes_of fmt ++ [10]) args = true →
  (∀ u, Q tt (set_uart u s)) → wp (println fmt args) Q s.
Proof. intros H HQ. unfold println. wp_step. apply printf_wp; [done|]. intros u. wp_step. apply HQ. Qed.

(** A message whose format is a literal. *)
Ltac wp_print u := apply println_wp; [reflexivity|intros u].
