(* ===== verification/Proc.v ===== *)
(** kernel/proc.c, the part below the file system: process table, sleep and
    wakeup, kill, process memory.

    [me] is the index of the current process, myproc(); -1 where there is
    none.  A function that may sleep is cut at the sleep: [sleep] is the code
    up to the switch to the scheduler, [sleep_return] the code after it, and
    the function itself returns [inl] when it has gone to sleep and is to be
    called again once its process runs. *)

From S2P Require Import Prelude Riscv Memory Kalloc Vm State.

(** memset(&p->context, 0, ...); context.ra = forkret; the address is fixed by
    the linker. *)
Class KernelEntry := { forkret_addr : Z }.

Section proc.
Context `{KI : KernelImage} `{KE : KernelEntry}.

Definition procinit : M kstate unit :=
  foreach (Z.to_nat NPROC) 0 (λ p,
    modify (upd_proc p (set_p_state UNUSED)) ;;
    modify (upd_proc p (set_p_kstack (KSTACK p)))).

Definition allocpid : M kstate Z :=
  pid <- gets nextpid ;;
  modify (set_nextpid (s32 (pid + 1))) ;;
  ret pid.

Definition proc_pagetable (trapframe : Z) : M kmem Z :=
  pagetable <- uvmcreate ;;
  if pagetable =? 0 then ret 0 else
  r <- mappages pagetable TRAMPOLINE PGSIZE trampoline (Z.lor PTE_R PTE_X) ;;
  if r <? 0 then
    uvmfree pagetable 0 ;; ret 0
  else
  r <- mappages pagetable TRAPFRAME PGSIZE trapframe (Z.lor PTE_R PTE_W) ;;
  if r <? 0 then
    uvmunmap pagetable TRAMPOLINE 1 false ;;
    uvmfree pagetable 0 ;; ret 0
  else ret pagetable.

Definition proc_freepagetable (pagetable sz : Z) : M kmem unit :=
  uvmunmap pagetable TRAMPOLINE 1 false ;;
  uvmunmap pagetable TRAPFRAME 1 false ;;
  uvmfree pagetable sz.

Definition freeproc (p : Z) : M kstate unit :=
  pr <- gets (λ s, procs s p) ;;
  (when negb (p_trapframe pr =? 0) do on_kmem (kfree (p_trapframe pr))) ;;
  modify (upd_proc p (set_p_trapframe 0)) ;;
  (when negb (p_pagetable pr =? 0) do on_kmem (proc_freepagetable (p_pagetable pr) (p_sz pr))) ;;
  modify (upd_proc p (set_p_pagetable 0)) ;;
  modify (upd_proc p (set_p_sz 0)) ;;
  modify (upd_proc p (set_p_pid 0)) ;;
  modify (upd_proc p (set_p_parent (-1))) ;;
  modify (upd_proc p (set_p_name [])) ;;
  modify (upd_proc p (set_p_chan None)) ;;
  modify (upd_proc p (set_p_killed 0)) ;;
  modify (upd_proc p (set_p_xstate 0)) ;;
  modify (upd_proc p (set_p_state UNUSED)).

(** The scan of allocproc: the first UNUSED entry. *)
Definition find_unused : M kstate (option Z) :=
  for_ (Z.to_nat NPROC) 0 (λ p,
    st <- gets (λ s, p_state (procs s p)) ;;
    if decide (st = UNUSED) then ret (Some p) else ret None).

(** The new process, or -1. *)
Definition allocproc : M kstate Z :=
  r <- find_unused ;;
  match r with
  | None => ret (-1)
  | Some p =>
      pid <- allocpid ;;
      modify (upd_proc p (set_p_pid pid)) ;;
      modify (upd_proc p (set_p_state USED)) ;;
      tf <- on_kmem kalloc ;;
      modify (upd_proc p (set_p_trapframe tf)) ;;
      if tf =? 0 then freeproc p ;; ret (-1) else
      pt <- on_kmem (proc_pagetable tf) ;;
      modify (upd_proc p (set_p_pagetable pt)) ;;
      if pt =? 0 then freeproc p ;; ret (-1) else
      ks <- gets (λ s, p_kstack (procs s p)) ;;
      modify (upd_proc p (set_p_context_ra forkret_addr)) ;;
      modify (upd_proc p (set_p_context_sp (u64 (ks + PGSIZE)))) ;;
      ret p
  end.

Definition growproc (me n : Z) : M kstate Z :=
  p <- gets (λ s, procs s me) ;;
  let sz := p_sz p in
  if 0 <? n then
    sz <- on_kmem (uvmalloc (p_pagetable p) sz (u64 (sz + n)) PTE_W) ;;
    if sz =? 0 then ret (-1) else
    modify (upd_proc me (set_p_sz sz)) ;; ret 0
  else
  sz <- (if n <? 0 then on_kmem (uvmdealloc (p_pagetable p) sz (u64 (sz + n))) else ret sz) ;;
  modify (upd_proc me (set_p_sz sz)) ;;
  ret 0.

(** ** Sleep and wakeup *)

(** sched() up to swtch; that p->lock is held and is the only lock, with
    interrupts off, is in Spinlock.v's terms and not checked here. *)
Definition sched (me : Z) : M kstate unit :=
  st <- gets (λ s, p_state (procs s me)) ;;
  if decide (st = RUNNING) then panic "sched RUNNING" else ret tt.

Definition sleep (me : Z) (c : chan) : M kstate unit :=
  modify (upd_proc me (set_p_chan (Some c))) ;;
  modify (upd_proc me (set_p_state SLEEPING)) ;;
  sched me.

Definition sleep_return (me : Z) : M kstate unit := modify (upd_proc me (set_p_chan None)).

Definition wakeup (me : Z) (c : chan) : M kstate unit :=
  foreach (Z.to_nat NPROC) 0 (λ p,
    if p =? me then ret tt else
    pr <- gets (λ s, procs s p) ;;
    if bool_decide (p_state pr = SLEEPING) && bool_decide (p_chan pr = Some c) then
      modify (upd_proc p (set_p_state RUNNABLE))
    else ret tt).

(** yield up to swtch. *)
Definition yield (me : Z) : M kstate unit :=
  modify (upd_proc me (set_p_state RUNNABLE)) ;;
  sched me.

(** One pass of scheduler over the table, on a CPU that finds [p] runnable:
    p->state = RUNNING before the switch to it. *)
Definition schedule (p : Z) : M kstate bool :=
  st <- gets (λ s, p_state (procs s p)) ;;
  if decide (st = RUNNABLE) then
    modify (upd_proc p (set_p_state RUNNING)) ;; ret true
  else ret false.

(** ** Kill *)
Definition kkill (pid : Z) : M kstate Z :=
  r <- for_ (Z.to_nat NPROC) 0 (λ p,
    pr <- gets (λ s, procs s p) ;;
    if p_pid pr =? pid then
      modify (upd_proc p (set_p_killed 1)) ;;
      (when bool_decide (p_state pr = SLEEPING) do modify (upd_proc p (set_p_state RUNNABLE))) ;;
      ret (Some 0)
    else ret None) ;;
  ret (default (-1) r).

Definition setkilled (p : Z) : M kstate unit := modify (upd_proc p (set_p_killed 1)).

Definition killed (p : Z) : M kstate bool := gets (λ s, negb (p_killed (procs s p) =? 0)).

Definition find_proc_by_pid (pid : Z) : M kstate Z :=
  r <- for_ (Z.to_nat NPROC) 0 (λ p,
    q <- gets (λ s, p_pid (procs s p)) ;;
    if q =? pid then ret (Some p) else ret None) ;;
  ret (default (-1) r).

(** ** Copies between the kernel and either address space

    A kernel address is that of a physical page or that of a local variable
    of the caller, whose new contents are then returned. *)
Inductive kdst := ToUser (va : Z) | ToPage (pa : Z) | ToLocal.
Inductive ksrc := FromUser (va : Z) | FromLocal (l : list Z).

Definition either_copyout (me : Z) (dst : kdst) (src : list Z) : M kstate (Z * list Z) :=
  match dst with
  | ToUser va =>
      pt <- gets (λ s, p_pagetable (procs s me)) ;;
      r <- on_kmem (copyout pt va src) ;; ret (r, [])
  | ToPage pa =>
      on_kmem (modify (λ s, set_memory (write_bytes (memory s) pa src) s)) ;; ret (0, [])
  | ToLocal => ret (0, src)
  end.

(** The result code and the bytes copied to dst. *)
Definition either_copyin (me : Z) (src : ksrc) (len : Z) : M kstate (Z * list Z) :=
  match src with
  | FromUser va =>
      pt <- gets (λ s, p_pagetable (procs s me)) ;;
      on_kmem (copyin pt va len)
  | FromLocal l => ret (0, take (Z.to_nat len) l)
  end.

(** dst + n and src + n. *)
Definition dst_add (d : kdst) (n : Z) : kdst :=
  match d with
  | ToUser va => ToUser (u64 (va + n))
  | ToPage pa => ToPage (pa + n)
  | ToLocal => ToLocal
  end.
Definition src_add (d : ksrc) (n : Z) : ksrc :=
  match d with
  | FromUser va => FromUser (u64 (va + n))
  | FromLocal l => FromLocal (drop (Z.to_nat n) l)
  end.

(** ** Parents, exit and wait *)
Definition reparent (me p : Z) : M kstate unit :=
  foreach (Z.to_nat NPROC) 0 (λ pp,
    par <- gets (λ s, p_parent (procs s pp)) ;;
    if par =? p then
      ip <- gets initproc ;;
      modify (upd_proc pp (set_p_parent ip)) ;;
      wakeup me (ChProc ip)
    else ret tt).

(** The end of kexit, once files and directory are released: from
    acquire(&wait_lock) to the last switch to the scheduler. *)
Definition exit_zombie (me status : Z) : M kstate unit :=
  reparent me me ;;
  par <- gets (λ s, p_parent (procs s me)) ;;
  wakeup me (ChProc par) ;;
  modify (upd_proc me (set_p_xstate status)) ;;
  modify (upd_proc me (set_p_state ZOMBIE)) ;;
  sched me.

(** The scan of kwait for one table entry: [Some r] returns [r] from kwait;
    the flag is havekids. *)
Definition kwait_entry (me addr pp : Z) : M kstate (option Z * bool) :=
  pr <- gets (λ s, procs s pp) ;;
  if p_parent pr =? me then
    if decide (p_state pr = ZOMBIE) then
      let pid := p_pid pr in
      pt <- gets (λ s, p_pagetable (procs s me)) ;;
      r <- (if negb (addr =? 0) then on_kmem (copyout pt addr (le_bytes 4 (p_xstate pr))) else ret 0) ;;
      if r <? 0 then ret (Some (-1), true) else
      freeproc pp ;;
      ret (Some pid, true)
    else ret (None, true)
  else ret (None, false).

Fixpoint kwait_scan (n : nat) (me addr pp : Z) (havekids : bool) : M kstate (option Z * bool) :=
  match n with
  | O => ret (None, havekids)
  | S n' =>
      r <- kwait_entry me addr pp ;;
      match r with
      | (Some v, h) => ret (Some v, h)
      | (None, h) => kwait_scan n' me addr (pp + 1) (havekids || h)
      end
  end.

(** One turn of the loop of kwait; [inl] has gone to sleep. *)
Definition kwait (me addr : Z) : M kstate (unit + Z) :=
  r <- kwait_scan (Z.to_nat NPROC) me addr 0 false ;;
  match r with
  | (Some v, _) => ret (inr v)
  | (None, havekids) =>
      k <- killed me ;;
      if negb havekids || k then ret (inr (-1)) else
      sleep me (ChProc me) ;;
      ret (inl tt)
  end.

End proc.

(** * Facts *)

Lemma set_procs_id s : set_procs (procs s) s = s.
Proof. by destruct s. Qed.

Lemma set_kmem_id s : set_kmem_of (kmem_of s) s = s.
Proof. by destruct s. Qed.

(** An operation on memory that returns without changing it. *)
Lemma wp_on_kmem_pure {A} (c : M kmem A) a s (Q : A → kstate → Prop) :
  c (kmem_of s) = Done (a, kmem_of s) → Q a s → wp (on_kmem c) Q s.
Proof. intros E HQ. apply wp_zoom. unfold wp. rewrite E. by rewrite set_kmem_id. Qed.

(** What wakeup does to a process. *)
Definition woken (me : Z) (c : chan) (p : Z) (pr : proc) : proc :=
  if decide (0 ≤ p < NPROC ∧ p ≠ me ∧ p_state pr = SLEEPING ∧ p_chan pr = Some c)
  then set_p_state RUNNABLE pr else pr.

(** wakeup changes nothing but the states of the sleepers on its channel. *)
Lemma wakeup_wp me c s Q :
  (∀ f, (∀ p, f p = woken me c p (procs s p)) → Q tt (set_procs f s)) →
  wp (wakeup me c) Q s.
Proof.
  intros HQ. unfold wakeup.
  eapply wp_mono; [eapply (wp_foreach (λ i s', ∃ f, s' = set_procs f s ∧
    ∀ p, f p = if decide (p < i) then woken me c p (procs s p) else procs s p))|].
  - exists (procs s). rewrite set_procs_id. split; [done|]. intros p. case_decide; [|done].
    unfold woken. rewrite decide_False by lia. done.
  - intros j s' Hj (f & -> & Hf). case_if.
    + apply wp_ret. exists f. split; [done|]. intros p. rewrite Hf.
      destruct (decide (p = j)) as [->|]; [|repeat case_decide; done || lia].
      rewrite decide_False, decide_True by lia. unfold woken. rewrite decide_False by lia. done.
    + wp_steps. cbn [procs set_procs]. pose proof (Hf j) as Hfj. rewrite decide_False in Hfj by lia.
      rewrite Hfj. case_if.
      * rewrite !bool_decide_eq_true in Hif0. wp_steps. eexists. split; [reflexivity|]. intros p. cbn.
        rewrite fupd_spec. destruct (decide (p = j)) as [->|].
        -- rewrite decide_True by lia. unfold woken. rewrite decide_True by (split_and!; naive_solver lia).
           by rewrite Hfj.
        -- rewrite Hf. repeat case_decide; done || lia.
      * wp_steps. exists f. split; [done|]. intros p. rewrite Hf.
        destruct (decide (p = j)) as [->|]; [|repeat case_decide; done || lia].
        rewrite decide_False, decide_True by lia. unfold woken. rewrite decide_False; [done|].
        intros (_ & _ & H1 & H2). rewrite !bool_decide_eq_false in Hif0. tauto.
  - intros [] s' (f & -> & Hf). apply HQ. intros p. rewrite Hf. case_decide; [done|].
    unfold woken. rewrite decide_False by lia. done.
Qed.

(** sleep up to the switch. *)
Lemma sleep_wp me c s Q :
  Q tt (upd_proc me (set_p_state SLEEPING) (upd_proc me (set_p_chan (Some c)) s)) →
  wp (sleep me c) Q s.
Proof.
  intros HQ. unfold sleep, sched. wp_steps. cbn. rewrite fupd_eq. cbn.
  rewrite decide_False by done. by wp_steps.
Qed.

(** Process [p] is asleep on channel [c]. *)
Definition sleeps_on (c : chan) (p : Z) (s : kstate) : Prop :=
  0 ≤ p < NPROC ∧ p_state (procs s p) = SLEEPING ∧ p_chan (procs s p) = Some c.

(** After a wakeup only the caller can be asleep on the channel. *)
Lemma woken_none me c f s p :
  (∀ p, f p = woken me c p (procs s p)) → p_state (procs s me) = RUNNING →
  ¬ sleeps_on c p (set_procs f s).
Proof.
  intros Hf Hr (Hp & Hs & Hc). cbn in Hs, Hc. rewrite Hf in Hs, Hc. unfold woken in *.
  case_decide as E; [done|]. apply E. split_and!; try done; try lia. intros ->. congruence.
Qed.

Lemma sleep_sleepers me c s p c' :
  sleeps_on c p (upd_proc me (set_p_state SLEEPING) (upd_proc me (set_p_chan (Some c')) s)) →
  p = me ∨ sleeps_on c p s.
Proof.
  intros (Hp & Hs & Hc). cbn in Hs, Hc. destruct (decide (p = me)); [by left|right].
  rewrite !fupd_ne in Hs, Hc by done. done.
Qed.
