(* ===== verification/Pipe.v ===== *)
(** kernel/pipe.c: pipes.  pipealloc is in File.v, with the file table.

    A struct pipe is named by the address of the page it lives in.  The
    read and write calls run under pi->lock; they are cut at their sleeps. *)

From S2P Require Import Prelude Riscv Memory Kalloc Vm State Proc.

Abbreviation PIPESIZE := 512 (only parsing).

Section pipe.
Context `{KI : KernelImage}.

Definition pipeclose (me pi : Z) (writable : bool) : M kstate unit :=
  (if writable then
     modify (upd_pipe pi (set_pi_writeopen false)) ;;
     wakeup me (ChPipeRead pi)
   else
     modify (upd_pipe pi (set_pi_readopen false)) ;;
     wakeup me (ChPipeWrite pi)) ;;
  p <- gets (λ s, pipes s pi) ;;
  if negb (pi_readopen p) && negb (pi_writeopen p) then on_kmem (kfree pi) else ret tt.

(** pi->data[pi->nwrite++ % PIPESIZE] = ch; *)
Definition pipe_put (ch : Z) (p : pipe) : pipe :=
  mkPipe (fupd (pi_data p) (pi_nwrite p mod PIPESIZE) ch)
    (pi_nread p) (u32 (pi_nwrite p + 1)) (pi_readopen p) (pi_writeopen p).

(** ch = pi->data[pi->nread++ % PIPESIZE]; *)
Definition pipe_get (p : pipe) : Z * pipe :=
  (pi_data p (pi_nread p mod PIPESIZE), set_pi_nread (u32 (pi_nread p + 1)) p).

Definition pipe_full (p : pipe) : bool := pi_nwrite p =? u32 (pi_nread p + PIPESIZE).
Definition pipe_empty (p : pipe) : bool := pi_nread p =? pi_nwrite p.

(** The loop of pipewrite from byte [i]; [inl i] sleeps with [i] bytes written. *)
Fixpoint pipewrite_loop (fuel : nat) (me pi addr n i : Z) : M kstate (Z + Z) :=
  match fuel with
  | O => λ _, NoFuel
  | S fuel' =>
      if i <? n then
        p <- gets (λ s, pipes s pi) ;;
        k <- killed me ;;
        if negb (pi_readopen p) || k then ret (inr (-1)) else
        if pipe_full p then
          wakeup me (ChPipeRead pi) ;;
          sleep me (ChPipeWrite pi) ;;
          ret (inl i)
        else
        pt <- gets (λ s, p_pagetable (procs s me)) ;;
        r <- on_kmem (copyin pt (u64 (addr + i)) 1) ;;
        if fst r =? -1 then
          wakeup me (ChPipeRead pi) ;; ret (inr i)
        else
        modify (upd_pipe pi (pipe_put (hd 0 (snd r)))) ;;
        pipewrite_loop fuel' me pi addr n (i + 1)
      else
      wakeup me (ChPipeRead pi) ;;
      ret (inr i)
  end.

(** pipewrite, entered with [i] = 0 and again with [i] after each sleep. *)
Definition pipewrite (me pi addr n i : Z) : M kstate (Z + Z) :=
  pipewrite_loop (S (Z.to_nat (n - i))) me pi addr n i.

(** The copy loop of piperead. *)
Fixpoint piperead_loop (fuel : nat) (me pi addr n i : Z) : M kstate Z :=
  match fuel with
  | O => λ _, NoFuel
  | S fuel' =>
      if i <? n then
        p <- gets (λ s, pipes s pi) ;;
        if pipe_empty p then ret i else
        let '(ch, p') := pipe_get p in
        modify (upd_pipe pi (λ _, p')) ;;
        pt <- gets (λ s, p_pagetable (procs s me)) ;;
        r <- on_kmem (copyout pt (u64 (addr + i)) [ch]) ;;
        if r =? -1 then ret i else
        piperead_loop fuel' me pi addr n (i + 1)
      else ret i
  end.

(** piperead, entered at the top and again after each sleep. *)
Definition piperead (me pi addr n : Z) : M kstate (unit + Z) :=
  p <- gets (λ s, pipes s pi) ;;
  if pipe_empty p && pi_writeopen p then
    k <- killed me ;;
    if (k : bool) then ret (inr (-1)) else
    sleep me (ChPipeRead pi) ;;
    ret (inl tt)
  else
  i <- piperead_loop (S (Z.to_nat n)) me pi addr n 0 ;;
  wakeup me (ChPipeWrite pi) ;;
  ret (inr i).

End pipe.

(** * The pipe as a queue *)

(** The bytes written and not yet read. *)
Definition pipe_len (p : pipe) : Z := u32 (pi_nwrite p - pi_nread p).
Definition pipe_queue (p : pipe) : list Z :=
  (λ k, pi_data p ((pi_nread p + k) mod PIPESIZE)) <$> seqZ 0 (pipe_len p).

Record pipe_ok (p : pipe) : Prop := {
  pk_nread : 0 ≤ pi_nread p < 2^32;
  pk_nwrite : 0 ≤ pi_nwrite p < 2^32;
  pk_len : pipe_len p ≤ PIPESIZE
}.

Lemma pipe_queue_length p : length (pipe_queue p) = Z.to_nat (pipe_len p).
Proof. unfold pipe_queue. by rewrite length_fmap, length_seqZ. Qed.

Lemma pipe_queue_len p : Z.of_nat (length (pipe_queue p)) = pipe_len p.
Proof. rewrite pipe_queue_length. pose proof (u32_range (pi_nwrite p - pi_nread p)). unfold pipe_len. lia. Qed.

Lemma pipe_full_len p : pipe_ok p → pipe_full p = (pipe_len p =? PIPESIZE).
Proof. intros [H1 H2 H3]. unfold pipe_full, pipe_len, u32 in *. apply eq_true_iff_eq. rewrite !Z.eqb_eq. dlia. Qed.

Lemma pipe_empty_len p : pipe_ok p → pipe_empty p = (pipe_len p =? 0).
Proof. intros [H1 H2 H3]. unfold pipe_empty, pipe_len, u32 in *. apply eq_true_iff_eq. rewrite !Z.eqb_eq. dlia. Qed.

(** Writing a byte puts it at the end of the queue, whatever the counters. *)
Lemma pipe_put_queue p ch : pipe_ok p → pipe_len p < PIPESIZE →
  pipe_ok (pipe_put ch p) ∧ pipe_queue (pipe_put ch p) = pipe_queue p ++ [ch].
Proof.
  intros [H1 H2 H3] Hl.
  assert (pipe_len (pipe_put ch p) = pipe_len p + 1) as El.
  { unfold pipe_len, pipe_put, u32 in *. cbn. dlia. }
  split.
  - split; cbn; [done|apply u32_range|lia].
  - unfold pipe_queue. rewrite El.
    pose proof (u32_range (pi_nwrite p - pi_nread p)) as Hr. fold (pipe_len p) in Hr.
    rewrite seqZ_app by lia. rewrite fmap_app. f_equal.
    + apply list_fmap_ext. intros k x Hx. apply lookup_seqZ in Hx as [-> Hx]. cbn.
      rewrite fupd_ne; [done|]. unfold pipe_len, u32 in *. dlia.
    + change (seqZ (0 + pipe_len p) 1) with [0 + pipe_len p]. cbn.
      replace ((pi_nread p + (0 + pipe_len p)) mod PIPESIZE) with (pi_nwrite p mod PIPESIZE);
        [by rewrite fupd_eq|]. unfold pipe_len, u32 in *. dlia.
Qed.

(** Reading a byte takes it from the front. *)
Lemma pipe_get_queue p : pipe_ok p → 0 < pipe_len p →
  pipe_ok (snd (pipe_get p)) ∧
  pipe_queue p = fst (pipe_get p) :: pipe_queue (snd (pipe_get p)).
Proof.
  intros [H1 H2 H3] Hl.
  assert (pipe_len (snd (pipe_get p)) = pipe_len p - 1) as El.
  { unfold pipe_len, pipe_get, u32 in *. cbn. dlia. }
  split.
  - split; [apply u32_range|done|lia].
  - unfold pipe_queue. rewrite El, (seqZ_cons 0) by lia. cbn [fmap list_fmap]. f_equal.
    + cbn. f_equal. f_equal. lia.
    + change (Z.succ 0) with (0 + 1). rewrite <-(Z.add_comm 1), <-fmap_add_seqZ, <-list_fmap_compose.
      replace (Z.pred (pipe_len p)) with (pipe_len p - 1) by lia.
      apply list_fmap_ext. intros k x _. cbn. f_equal. unfold u32. dlia.
Qed.

(** A user buffer of [n] bytes that copyin can read a byte at a time: byte [k]
    is [w k].  Vm's theorems on copyin give this for mapped user pages. *)
Definition readable_buffer (km : kmem) (pt addr n : Z) (w : Z → Z) : Prop :=
  ∀ k, 0 ≤ k < n → copyin pt (u64 (addr + k)) 1 km = Done ((0, [w k]), km).

(** copyout of the bytes of [l] to consecutive addresses, one at a time, up to
    the first that fails: how many were delivered. *)
Fixpoint copyout_each `{KernelImage} (pt addr i : Z) (l : list Z) : M kmem nat :=
  match l with
  | [] => ret 0%nat
  | b :: l' =>
      r <- copyout pt (u64 (addr + i)) [b] ;;
      if r =? -1 then ret 0%nat else
      n <- copyout_each pt addr (i + 1) l' ;;
      ret (S n)
  end.

(** Every sleeper on [c] other than [me] is runnable. *)
Definition all_woken (me : Z) (c : chan) (s : kstate) : Prop :=
  ∀ p, 0 ≤ p < NPROC → p ≠ me → ¬ (p_state (procs s p) = SLEEPING ∧ p_chan (procs s p) = Some c).

Lemma all_woken_intro me c f s :
  (∀ p, f p = woken me c p (procs s p)) → all_woken me c (set_procs f s).
Proof.
  intros Hf p Hp Hne. cbn. rewrite Hf. unfold woken. case_decide as E; [by intros [[=] _]|tauto].
Qed.

Section pipe_thms.
Context `{KI : KernelImage}.

(** What pipewrite does with [m] bytes of the buffer from [i]. *)
Definition appended (pi i m : Z) (w : Z → Z) (s s' : kstate) : Prop :=
  pipe_ok (pipes s' pi) ∧
  pipe_queue (pipes s' pi) = pipe_queue (pipes s pi) ++ (w <$> seqZ i m) ∧
  kmem_of s' = kmem_of s ∧ (∀ pj, pj ≠ pi → pipes s' pj = pipes s pj).

Lemma appended_put pi i m w s s' : 0 ≤ m → pipe_ok (pipes s pi) → pipe_len (pipes s pi) < PIPESIZE →
  appended pi (i + 1) m w (upd_pipe pi (pipe_put (w i)) s) s' → appended pi i (m + 1) w s s'.
Proof.
  intros Hm Hok Hl (H1 & H2 & H3 & H4). split_and!; [done|..].
  - rewrite H2. cbn [pipes upd_pipe set_pipes]. rewrite fupd_eq.
    rewrite (proj2 (pipe_put_queue _ _ Hok Hl)), <-(assoc_L (++)). f_equal.
    rewrite (seqZ_cons i) by lia. cbn. f_equal. f_equal. f_equal; lia.
  - done.
  - intros pj Hne. rewrite H4 by done. cbn. by rewrite fupd_ne.
Qed.

Lemma pipewrite_loop_wp me pi addr n w : ∀ fuel i s,
  (Z.to_nat (n - i) < fuel)%nat → 0 ≤ i ≤ n →
  pipe_ok (pipes s pi) → pi_readopen (pipes s pi) = true → p_killed (procs s me) = 0 →
  readable_buffer (kmem_of s) (p_pagetable (procs s me)) addr n w →
  let room := PIPESIZE - pipe_len (pipes s pi) in
  wp (pipewrite_loop fuel me pi addr n i) (λ r s',
    all_woken me (ChPipeRead pi) s' ∧
    if n - i <=? room then r = inr n ∧ appended pi i (n - i) w s s' ∧
      p_state (procs s' me) = p_state (procs s me)
    else r = inl (i + room) ∧ appended pi i room w s s' ∧
      p_state (procs s' me) = SLEEPING ∧ p_chan (procs s' me) = Some (ChPipeWrite pi)) s.
Proof.
  induction fuel as [|fuel IH]; intros i s Hf Hi Hok Hro Hk Hb room; [lia|].
  cbn [pipewrite_loop]. destruct (Z.ltb_spec i n).
  2:{ wp_step. apply wakeup_wp. intros f Hf'. apply wp_ret.
      split; [by apply all_woken_intro|]. assert (i = n) as -> by lia.
      destruct Hok as [? ? Hlen]. rewrite (proj2 (Z.leb_le _ _)) by (subst room; lia).
      replace (n - n) with 0 by lia. split_and!; [done| |].
      - split_and!; cbn; try done. by rewrite app_nil_r.
      - cbn. rewrite Hf'. unfold woken. case_decide; [tauto|done]. }
  unfold killed. wp_steps. rewrite Hro, Hk. cbn [negb orb]. change (negb (0 =? 0)) with false. cbn iota.
  rewrite (pipe_full_len _ Hok). destruct (Z.eqb_spec (pipe_len (pipes s pi)) PIPESIZE) as [Hl|Hl].
  - wp_step. apply wakeup_wp. intros f Hf'. wp_step. apply sleep_wp. apply wp_ret.
    rewrite (proj2 (Z.leb_gt _ _)) by (subst room; lia).
    split.
    + intros p Hp Hne. cbn. rewrite !fupd_ne by done. by apply (all_woken_intro me _ f s Hf').
    + subst room. rewrite Hl. split_and!; [f_equal; lia| |by cbn; rewrite !fupd_eq..].
      split_and!; cbn; try done. by rewrite app_nil_r.
  - wp_steps. eapply wp_on_kmem_pure; [apply Hb; lia|]. cbn. wp_steps.
    destruct Hok as [Hp1 Hp2 Hp3]. assert (pipe_len (pipes s pi) < PIPESIZE) as Hlt by lia.
    pose proof (Build_pipe_ok _ Hp1 Hp2 Hp3) as Hok.
    destruct (pipe_put_queue (pipes s pi) (w i) Hok Hlt) as [Hok' Hq'].
    set (s1 := upd_pipe pi (pipe_put (w i)) s).
    assert (pipes s1 pi = pipe_put (w i) (pipes s pi)) as Ep by apply fupd_eq.
    assert (pipe_len (pipes s1 pi) = pipe_len (pipes s pi) + 1) as El.
    { rewrite <-!pipe_queue_len, Ep, Hq', length_app. cbn. lia. }
    eapply wp_mono; [apply (IH (i + 1) s1); try done; [lia|lia|by rewrite Ep|by rewrite Ep]|].
    rewrite El. intros r s' [Hw Hr]. split; [done|]. subst room.
    replace (PIPESIZE - (pipe_len (pipes s pi) + 1)) with (PIPESIZE - pipe_len (pipes s pi) - 1) in Hr by lia.
    revert Hr. destruct (Z.leb_spec (n - (i + 1)) (PIPESIZE - pipe_len (pipes s pi) - 1)).
    + rewrite (proj2 (Z.leb_le _ _)) by lia. intros (-> & Ha & Hs). split_and!; [done| |done].
      replace (n - i) with (n - (i + 1) + 1) by lia. apply appended_put; try done. lia.
    + rewrite (proj2 (Z.leb_gt _ _)) by lia. intros (-> & Ha & Hs). split_and!; [f_equal; lia| |tauto..].
      replace (PIPESIZE - pipe_len (pipes s pi)) with (PIPESIZE - pipe_len (pipes s pi) - 1 + 1) by lia.
      apply appended_put; try done. lia.
Qed.
(** C32: pipewrite.  With the read end open, the bytes of the user buffer from
    [i] on go to the end of the queue in order, as many as there is room for,
    and every reader is woken; the call returns n when all are in, and
    otherwise sleeps on the writers' channel with the queue full.  Memory and
    the other pipes are not touched. *)
Theorem pipewrite_appends me pi addr n i w s :
  0 ≤ i ≤ n → pipe_ok (pipes s pi) → pi_readopen (pipes s pi) = true →
  p_killed (procs s me) = 0 →
  readable_buffer (kmem_of s) (p_pagetable (procs s me)) addr n w →
  let room := PIPESIZE - Z.of_nat (length (pipe_queue (pipes s pi))) in
  wp (pipewrite me pi addr n i) (λ r s',
    all_woken me (ChPipeRead pi) s' ∧
    if n - i <=? room then r = inr n ∧ appended pi i (n - i) w s s' ∧
      p_state (procs s' me) = p_state (procs s me)
    else r = inl (i + room) ∧ appended pi i room w s s' ∧
      p_state (procs s' me) = SLEEPING ∧ p_chan (procs s' me) = Some (ChPipeWrite pi)) s.
Proof.
  intros Hi Hok Hro Hk Hb. rewrite pipe_queue_len. apply pipewrite_loop_wp; try done. lia.
Qed.

(** The loop takes one byte more than it delivers when a copyout fails. *)
Lemma piperead_loop_wp me pi addr n : ∀ fuel i s j km',
  (Z.to_nat (n - i) < fuel)%nat → 0 ≤ i → pipe_ok (pipes s pi) →
  let q := pipe_queue (pipes s pi) in
  let k := Z.to_nat (Z.min (Z.max 0 (n - i)) (pipe_len (pipes s pi))) in
  copyout_each (p_pagetable (procs s me)) addr i (take k q) (kmem_of s) = Done (j, km') →
  wp (piperead_loop fuel me pi addr n i) (λ r s',
    r = i + Z.of_nat j ∧ kmem_of s' = km' ∧ procs s' = procs s ∧ pipe_ok (pipes s' pi) ∧
    pipe_queue (pipes s' pi) = drop (Nat.min k (S j)) q ∧
    (∀ pj, pj ≠ pi → pipes s' pj = pipes s pj)) s.
Proof.
  induction fuel as [|fuel IH]; intros i s j km' Hf Hi Hok q k E; [lia|]. cbn [piperead_loop].
  pose proof (pipe_queue_len (pipes s pi)) as Hql.
  destruct (Z.ltb_spec i n).
  2:{ replace k with 0%nat in * by lia. injection E as <- <-. apply wp_ret. split_and!; try done; lia. }
  wp_steps. rewrite (pipe_empty_len _ Hok).
  destruct (Z.eqb_spec (pipe_len (pipes s pi)) 0) as [Hz|Hz].
  { replace k with 0%nat in * by lia. injection E as <- <-. apply wp_ret. split_and!; try done; lia. }
  destruct (pipe_get_queue (pipes s pi) Hok ltac:(lia)) as [Hok' Hq].
  destruct (pipe_get (pipes s pi)) as [ch p'] eqn:Eg. cbn [fst snd] in Hok', Hq.
  assert (pipe_len p' = pipe_len (pipes s pi) - 1) as El.
  { rewrite <-!pipe_queue_len, Hq. cbn. lia. }
  assert (∃ k', k = S k') as [k' Ek] by (exists (Nat.pred k); lia). unfold q in *. rewrite Hq, Ek in *.
  cbn [take copyout_each] in E. wp_steps. cbn [procs upd_pipe set_pipes].
  unfold bind in E. apply wp_zoom. unfold wp. cbn [kmem_of upd_pipe set_pipes].
  destruct (copyout _ _ [ch] (kmem_of s)) as [[r km1]| | | |]; try done.
  set (s1 := set_kmem_of km1 (upd_pipe pi (λ _, p') s)).
  assert (pipes s1 pi = p') as Ep by apply fupd_eq.
  destruct (Z.eqb_spec r (-1)).
  { injection E as <- <-. split_and!; try done; [lia|by rewrite Ep|by rewrite Ep, Nat.min_r by lia|].
    intros pj Hne. cbn. by rewrite fupd_ne. }
  destruct (copyout_each _ _ _ (take k' _) km1) as [[j' km2]| | | |] eqn:E'; try done. injection E as <- <-.
  assert (Z.to_nat (Z.min (Z.max 0 (n - (i + 1))) (pipe_len (pipes s1 pi))) = k') as Ek' by (rewrite Ep; lia).
  eapply wp_mono; [apply (IH (i + 1) s1 j' km2); [lia|lia|by rewrite Ep|by rewrite Ek', Ep]|].
  intros v s' (-> & Hk & Hp & Ho & Hqq & Hoth). rewrite Ek', Ep in Hqq.
  split_and!; try done; [lia|]. intros pj Hne. rewrite Hoth by done. cbn. by rewrite fupd_ne.
Qed.

(** C33: piperead, on every branch.  With the queue empty and the write end
    open, the call returns -1 if the process is killed and sleeps otherwise.
    In all other cases it delivers bytes from the front of the queue, in order
    and to consecutive user addresses, wakes every writer and returns how many
    it delivered, [j]: the first min(n, length), up to the first for which
    copyout fails.  Those bytes leave the queue, and with them, when a copyout
    has failed, the one byte that could not be delivered, which is lost. *)
Theorem piperead_takes me pi addr n s j km' :
  0 ≤ n → pipe_ok (pipes s pi) →
  let q := pipe_queue (pipes s pi) in
  let k := Z.to_nat (Z.min n (Z.of_nat (length q))) in
  copyout_each (p_pagetable (procs s me)) addr 0 (take k q) (kmem_of s) = Done (j, km') →
  wp (piperead me pi addr n) (λ r s',
    pipe_ok (pipes s' pi) ∧ pipe_queue (pipes s' pi) = drop (Nat.min k (S j)) q ∧ kmem_of s' = km' ∧
    (∀ pj, pj ≠ pi → pipes s' pj = pipes s pj) ∧
    if bool_decide (q = []) && pi_writeopen (pipes s pi) then
      if decide (p_killed (procs s me) = 0)
      then r = inl tt ∧ p_state (procs s' me) = SLEEPING ∧ p_chan (procs s' me) = Some (ChPipeRead pi)
      else r = inr (-1) ∧ procs s' = procs s
    else r = inr (Z.of_nat j) ∧ all_woken me (ChPipeWrite pi) s') s.
Proof.
  intros Hn Hok q k E. unfold piperead. wp_steps. rewrite (pipe_empty_len _ Hok).
  assert ((pipe_len (pipes s pi) =? 0) = bool_decide (q = [])) as ->.
  { apply eq_true_iff_eq. rewrite bool_decide_eq_true, Z.eqb_eq, <-pipe_queue_len.
    fold q. destruct q; naive_solver lia. }
  destruct (bool_decide (q = []) && pi_writeopen (pipes s pi)) eqn:Ew.
  - apply andb_true_iff in Ew as [Eq%bool_decide_eq_true _].
    assert (k = 0%nat) as Ek by (unfold k; rewrite Eq; cbn; lia). rewrite Ek in *. injection E as <- <-.
    unfold killed. wp_steps. destruct (decide (p_killed (procs s me) = 0)) as [Hk|Hk].
    + rewrite Hk. change (negb (0 =? 0)) with false. cbn iota. wp_step. apply sleep_wp, wp_ret.
      split_and!; try done; cbn; by rewrite !fupd_eq.
    + rewrite (proj2 (Z.eqb_neq _ _) Hk). by wp_steps.
  - wp_step. unfold k, q in E. rewrite pipe_queue_len in E.
    eapply wp_mono; [apply (piperead_loop_wp _ _ _ _ _ 0 s j km'); try done; [lia|]|].
    { by replace (Z.max 0 (n - 0)) with n by lia. }
    replace (Z.max 0 (n - 0)) with n by lia. rewrite <-pipe_queue_len. fold q k.
    intros r s' (-> & Hkm & Hpr & Ho & Hq & Hoth). wp_step. apply wakeup_wp. intros f Hf. apply wp_ret.
    split_and!; try done. by apply all_woken_intro.
Qed.
End pipe_thms.
