(* ===== verification/Mbox.v ===== *)
(** kernel/mbox.c: mailboxes, bounded queues of integers named by a key. *)

From S2P Require Import Prelude Riscv Memory Kalloc Vm State Proc.

Abbreviation MAX_MBOX := 32 (only parsing).
Abbreviation MBOX_SIZE := 16 (only parsing).

Definition mboxinit : M kstate unit :=
  foreach (Z.to_nat MAX_MBOX) 0 (λ i, modify (upd_mbox i (set_mb_key (-1)))).

Definition mbox_create (key : Z) : M kstate Z :=
  r <- for_ (Z.to_nat MAX_MBOX) 0 (λ i,
    m <- gets (λ s, mboxes s i) ;;
    if mb_key m =? key then ret (Some i) else
    if mb_key m =? -1 then
      modify (upd_mbox i (set_mb_key key)) ;;
      modify (upd_mbox i (set_mb_count 0)) ;;
      modify (upd_mbox i (set_mb_tail 0)) ;;
      modify (upd_mbox i (set_mb_head 0)) ;;
      ret (Some i)
    else ret None) ;;
  ret (default (-1) r).

(** m->buf[m->tail] = msg; m->tail = (m->tail+1) % MBOX_SIZE; m->count++; *)
Definition mbox_put (msg : Z) (m : mailbox) : mailbox :=
  mkMailbox (mb_key m) (fupd (mb_buf m) (mb_tail m) msg) (mb_head m)
    (Z.rem (mb_tail m + 1) MBOX_SIZE) (mb_count m + 1).

(** *msg = m->buf[m->head]; m->head = (m->head+1) % MBOX_SIZE; m->count--; *)
Definition mbox_take (m : mailbox) : Z * mailbox :=
  (mb_buf m (mb_head m),
   mkMailbox (mb_key m) (mb_buf m) (Z.rem (mb_head m + 1) MBOX_SIZE) (mb_tail m) (mb_count m - 1)).

(** One turn of mbox_send; [inl] sleeps, to be called again. *)
Definition mbox_send (me id msg : Z) : M kstate (unit + Z) :=
  if (id <? 0) || (MAX_MBOX <=? id) then ret (inr (-1)) else
  m <- gets (λ s, mboxes s id) ;;
  if mb_count m =? MBOX_SIZE then
    sleep me (ChMbox id) ;; ret (inl tt)
  else
  if negb (in_table (mb_tail m) MBOX_SIZE) then undef "m->buf[m->tail]" else
  modify (upd_mbox id (mbox_put msg)) ;;
  wakeup me (ChMbox id) ;;
  ret (inr 0).

(** One turn of mbox_recv: the result code and the message. *)
Definition mbox_recv (me id : Z) : M kstate (unit + (Z * Z)) :=
  if (id <? 0) || (MAX_MBOX <=? id) then ret (inr (-1, 0)) else
  m <- gets (λ s, mboxes s id) ;;
  if mb_count m =? 0 then
    sleep me (ChMbox id) ;; ret (inl tt)
  else
  if negb (in_table (mb_head m) MBOX_SIZE) then undef "m->buf[m->head]" else
  let '(msg, m') := mbox_take m in
  modify (upd_mbox id (λ _, m')) ;;
  wakeup me (ChMbox id) ;;
  ret (inr (0, msg)).

(** * A mailbox as a queue *)
Definition mbox_queue (m : mailbox) : list Z :=
  (λ k, mb_buf m ((mb_head m + k) mod MBOX_SIZE)) <$> seqZ 0 (mb_count m).

Record mbox_ok (m : mailbox) : Prop := {
  mk_head : 0 ≤ mb_head m < MBOX_SIZE;
  mk_count : 0 ≤ mb_count m ≤ MBOX_SIZE;
  mk_tail : mb_tail m = (mb_head m + mb_count m) mod MBOX_SIZE
}.

Lemma mbox_queue_len m : mbox_ok m → Z.of_nat (length (mbox_queue m)) = mb_count m.
Proof. intros [_ H _]. unfold mbox_queue. rewrite length_fmap, length_seqZ. lia. Qed.

Lemma mbox_put_queue msg m : mbox_ok m → mb_count m < MBOX_SIZE →
  mbox_ok (mbox_put msg m) ∧ mbox_queue (mbox_put msg m) = mbox_queue m ++ [msg].
Proof.
  intros [H1 H2 H3] Hl. unfold mbox_put. split.
  - split; cbn; [done|lia|]. rewrite Z.rem_mod_nonneg by dlia. dlia.
  - unfold mbox_queue. cbn. rewrite seqZ_app by lia. rewrite fmap_app. f_equal.
    + apply list_fmap_ext. intros k x Hx. apply lookup_seqZ in Hx as [-> Hx].
      rewrite fupd_ne; [done|]. dlia.
    + change (seqZ (0 + mb_count m) 1) with [0 + mb_count m]. cbn [fmap list_fmap].
      rewrite fupd_spec, decide_True; [done|]. by rewrite H3.
Qed.

Lemma mbox_take_queue m : mbox_ok m → 0 < mb_count m →
  mbox_ok (snd (mbox_take m)) ∧ mbox_queue m = fst (mbox_take m) :: mbox_queue (snd (mbox_take m)).
Proof.
  intros [H1 H2 H3] Hl. unfold mbox_take. split.
  - split; cbn; [|lia|]; rewrite Z.rem_mod_nonneg by lia; dlia.
  - unfold mbox_queue. rewrite (seqZ_cons 0) by lia. cbn [fmap list_fmap fst snd mb_buf mb_head mb_count].
    f_equal; [f_equal; dlia|]. change (Z.succ 0) with (1 + 0).
    rewrite <-fmap_add_seqZ, <-list_fmap_compose. replace (Z.pred (mb_count m)) with (mb_count m - 1) by lia.
    apply list_fmap_ext. intros k x _. cbn. f_equal. rewrite Z.rem_mod_nonneg by lia. dlia.
Qed.

(** A run of the system seen from mailbox [id], with the messages sent to it
    and received from it so far.  Other code may do anything to the rest of
    the state, but puts no process to sleep on the mailbox. *)
Inductive mbox_step (id : Z) : kstate * list Z * list Z → kstate * list Z * list Z → Prop :=
| ms_send me msg s r s' sent got :
    p_state (procs s me) = RUNNING → mbox_send me id msg s = Done (r, s') →
    mbox_step id (s, sent, got) (s', if r is inr _ then sent ++ [msg] else sent, got)
| ms_recv me s r s' sent got :
    p_state (procs s me) = RUNNING → mbox_recv me id s = Done (r, s') →
    mbox_step id (s, sent, got) (s', sent, if r is inr (_, msg) then got ++ [msg] else got)
| ms_other s s' sent got :
    mboxes s' id = mboxes s id → (∀ p, sleeps_on (ChMbox id) p s' → sleeps_on (ChMbox id) p s) →
    mbox_step id (s, sent, got) (s', sent, got).

Record mbox_inv (id : Z) (s : kstate) (sent got : list Z) : Prop := {
  mi_ok : mbox_ok (mboxes s id);
  mi_fifo : sent = got ++ mbox_queue (mboxes s id);
  mi_sleep : ∀ p, sleeps_on (ChMbox id) p s → mb_count (mboxes s id) = 0 ∨ mb_count (mboxes s id) = MBOX_SIZE
}.

Lemma mbox_send_inv me id msg s sent got : 0 ≤ id < MAX_MBOX →
  mbox_inv id s sent got → p_state (procs s me) = RUNNING →
  wp (mbox_send me id msg) (λ r s', mbox_inv id s' (if r is inr _ then sent ++ [msg] else sent) got) s.
Proof.
  intros Hid [Hok Hf Hsl] Hr. unfold mbox_send.
  rewrite (proj2 (Z.ltb_ge _ _)), (proj2 (Z.leb_gt _ _)) by lia. cbn [orb]. wp_steps.
  pose proof Hok as [H1 H2 H3].
  destruct (Z.eqb_spec (mb_count (mboxes s id)) MBOX_SIZE) as [Hc|Hc].
  - wp_step. apply sleep_wp, wp_ret. split; [done..|]. by right.
  - unfold in_table. rewrite (proj2 (Z.leb_le 0 _)), (proj2 (Z.ltb_lt _ MBOX_SIZE)) by (rewrite H3; dlia).
    cbn [andb negb]. wp_steps. apply wakeup_wp. intros f Hf'. wp_steps.
    destruct (mbox_put_queue msg (mboxes s id) Hok ltac:(lia)) as [Hok' Hq].
    split; cbn [mboxes set_procs upd_mbox set_mboxes]; rewrite ?fupd_eq; [done| |].
    + by rewrite Hf, Hq, <-(assoc_L (++)).
    + intros p Hp. exfalso. by eapply (woken_none me).
Qed.

Lemma mbox_recv_inv me id s sent got : 0 ≤ id < MAX_MBOX →
  mbox_inv id s sent got → p_state (procs s me) = RUNNING →
  wp (mbox_recv me id) (λ r s', mbox_inv id s' sent (if r is inr (_, msg) then got ++ [msg] else got)) s.
Proof.
  intros Hid [Hok Hf Hsl] Hr. unfold mbox_recv.
  rewrite (proj2 (Z.ltb_ge _ _)), (proj2 (Z.leb_gt _ _)) by lia. cbn [orb]. wp_steps.
  pose proof Hok as [H1 H2 H3].
  destruct (Z.eqb_spec (mb_count (mboxes s id)) 0) as [Hc|Hc].
  - wp_step. apply sleep_wp, wp_ret. split; [done..|]. by left.
  - unfold in_table. rewrite (proj2 (Z.leb_le 0 _)), (proj2 (Z.ltb_lt _ MBOX_SIZE)) by lia.
    cbn [andb negb]. destruct (mbox_take_queue (mboxes s id) Hok ltac:(lia)) as [Hok' Hq].
    destruct (mbox_take (mboxes s id)) as [msg m']. cbn [fst snd] in Hok', Hq.
    wp_steps. apply wakeup_wp. intros f Hf'. wp_steps.
    split; cbn [mboxes set_procs upd_mbox set_mboxes]; rewrite ?fupd_eq; [done| |].
    + by rewrite Hf, Hq, <-(assoc_L (++)).
    + intros p Hp. exfalso. by eapply (woken_none me).
Qed.

Lemma mbox_step_inv id s s' : 0 ≤ id < MAX_MBOX → mbox_step id s s' →
  mbox_inv id (fst (fst s)) (snd (fst s)) (snd s) → mbox_inv id (fst (fst s')) (snd (fst s')) (snd s').
Proof.
  intros Hid Hst Hi. destruct Hst as [me msg s r s' sent got Hr E|me s r s' sent got Hr E|s s' sent got Hm Hs];
    cbn [fst snd] in *.
  - pose proof (mbox_send_inv me id msg s sent got Hid Hi Hr) as H. unfold wp in H. by rewrite E in H.
  - pose proof (mbox_recv_inv me id s sent got Hid Hi Hr) as H. unfold wp in H. by rewrite E in H.
  - destruct Hi as [H1 H2 H3]. split; rewrite Hm; eauto.
Qed.

(** C9: a mailbox is a bounded first-in first-out queue.  However senders and
    receivers interleave, the messages received so far are exactly the first
    ones sent, the rest are in the box in order, at most MBOX_SIZE of them,
    and a process sleeps on the box only while it is full or empty: no
    wakeup is lost. *)
Theorem mbox_fifo id s0 s sent got :
  0 ≤ id < MAX_MBOX → mbox_inv id s0 [] [] → rtc (mbox_step id) (s0, [], []) (s, sent, got) →
  sent = got ++ mbox_queue (mboxes s id) ∧ (length (mbox_queue (mboxes s id)) ≤ 16)%nat ∧
  ∀ p, sleeps_on (ChMbox id) p s →
    mbox_queue (mboxes s id) = [] ∨ length (mbox_queue (mboxes s id)) = 16%nat.
Proof.
  intros Hid H0 Hrt.
  assert (mbox_inv id s sent got) as [Hok Hf Hs].
  { change (mbox_inv id (fst (fst (s, sent, got))) (snd (fst (s, sent, got))) (snd (s, sent, got))).
    remember (s0, [], []) as a eqn:Ea. assert (mbox_inv id (fst (fst a)) (snd (fst a)) (snd a)) as Ha by by subst.
    clear Ea H0. induction Hrt as [|x y z Hst _ IH]; [done|]. apply IH. by eapply mbox_step_inv. }
  pose proof (mbox_queue_len _ Hok) as Hl. destruct Hok as [_ Hc _].
  split_and!; [done|lia|]. intros p Hp. destruct (Hs p Hp); [left|right; lia].
  apply length_zero_iff_nil. lia.
Qed.

(** * The table of mailboxes *)

(** Slots are taken in order and never given back: the first [n] are in use,
    under different keys. *)
Record mbox_table (s : kstate) (n : Z) : Prop := {
  mt_n : 0 ≤ n ≤ MAX_MBOX;
  mt_used : ∀ i, 0 ≤ i < n → mb_key (mboxes s i) ≠ -1;
  mt_free : ∀ i, n ≤ i < MAX_MBOX → mb_key (mboxes s i) = -1;
  mt_inj : ∀ i j, 0 ≤ i < n → 0 ≤ j < n → mb_key (mboxes s i) = mb_key (mboxes s j) → i = j
}.

(** The slot mbox_create claims. *)
Definition claimed (n key : Z) (s : kstate) : kstate :=
  upd_mbox n (λ m, mkMailbox key (mb_buf m) 0 0 0) s.

(** What mbox_create does on a well-formed table, for a key other than -1:
    the slot of the key if it has one, otherwise the first free slot. *)
Lemma mbox_create_wp key n s Q : key ≠ -1 → mbox_table s n →
  (∀ i, 0 ≤ i < n → mb_key (mboxes s i) = key → Q i s) →
  ((∀ i, 0 ≤ i < n → mb_key (mboxes s i) ≠ key) → n = MAX_MBOX → Q (-1) s) →
  ((∀ i, 0 ≤ i < n → mb_key (mboxes s i) ≠ key) → n < MAX_MBOX →
     ∀ s', (∀ i, mboxes s' i = mboxes (claimed n key s) i) → procs s' = procs s → Q n s') →
  wp (mbox_create key) Q s.
Proof.
  intros Hk [Hn Hu Hf Hi] Q1 Q2 Q3. unfold mbox_create. wp_step.
  eapply (wp_for (λ j s', s' = s ∧ j ≤ n ∧ ∀ i, 0 ≤ i < j → mb_key (mboxes s i) ≠ key)).
  - split_and!; [done|lia|]. intros. lia.
  - intros j s' Hj (-> & Hjn & Hne). wp_steps.
    destruct (Z.eqb_spec (mb_key (mboxes s j)) key) as [E|E].
    { wp_steps. cbn. apply Q1; [|done].
      destruct (decide (j < n)); [lia|]. rewrite Hf in E by lia. congruence. }
    destruct (Z.eqb_spec (mb_key (mboxes s j)) (-1)) as [E1|E1].
    + assert (j = n) as -> by (destruct (decide (j < n)); [destruct (Hu j); [lia|done]|lia]).
      wp_steps. apply Q3; [done|lia| |done]. intros i. cbn. rewrite !fupd_spec.
      by repeat case_decide.
    + wp_steps. split_and!; [done| |].
      * destruct (decide (j = n)) as [->|]; [|lia]. by rewrite Hf in E1 by lia.
      * intros i Hij. destruct (decide (i = j)) as [->|]; [done|]. apply Hne. lia.
  - intros s' (-> & Hjn & Hne). wp_steps. apply Q2; [intros; apply Hne; lia|lia].
Qed.

Lemma claimed_table n key s s' : key ≠ -1 → n < MAX_MBOX → mbox_table s n →
  (∀ i, 0 ≤ i < n → mb_key (mboxes s i) ≠ key) →
  (∀ i, mboxes s' i = mboxes (claimed n key s) i) → mbox_table s' (n + 1).
Proof.
  intros Hk Hn [H1 H2 H3 H4] Hne Hs.
  assert (∀ i, mb_key (mboxes s' i) = if decide (i = n) then key else mb_key (mboxes s i)) as K.
  { intros i. rewrite Hs. cbn. rewrite fupd_spec. by case_decide. }
  split; [lia|..].
  - intros i Hi. rewrite K. case_decide; [done|]. apply H2. lia.
  - intros i Hi. rewrite K, decide_False by lia. apply H3. lia.
  - intros i j Hi Hj. rewrite !K. repeat case_decide; subst; try done.
    + intros E. destruct (Hne j); [lia|done].
    + intros E. destruct (Hne i); [lia|done].
    + apply H4; lia.
Qed.

(** mbox_create is the look-up of a key.  On a table whose used slots
    have different keys it either reports that the table is full, changing
    nothing, or returns the slot of the key, which it has set up empty if the
    key is new; the table stays well-formed, and creating the same key again
    returns the same slot and changes nothing. *)
Theorem mbox_create_lookup key n s :
  key ≠ -1 → mbox_table s n →
  wp (mbox_create key) (λ id s',
    (id = -1 ∧ s' = s ∧ n = MAX_MBOX) ∨
    (0 ≤ id < MAX_MBOX ∧ mb_key (mboxes s' id) = key ∧
     (∃ n', mbox_table s' n' ∧ n ≤ n' ∧ id < n') ∧
     (∀ i, 0 ≤ i < n → mboxes s' i = mboxes s i) ∧
     (n ≤ id → mbox_ok (mboxes s' id) ∧ mbox_queue (mboxes s' id) = []) ∧
     mbox_create key s' = Done (id, s'))) s.
Proof.
  intros Hk Ht. pose proof Ht as [Hn _ _ Hinj].
  assert (∀ s n id, mbox_table s n → 0 ≤ id < n → mb_key (mboxes s id) = key → mbox_create key s = Done (id, s)) as Hagain.
  { intros s1 n1 id Ht1 Hid E. pose proof (mbox_create_wp key n1 s1 (λ r s', r = id ∧ s' = s1) Hk Ht1) as H.
    pose proof Ht1 as [_ _ _ Hi1].
    destruct (wp_elim _ _ _ (H ltac:(intros i Hi Ei; split; [apply Hi1; congruence|done])
      ltac:(intros Hno; by destruct (Hno id)) ltac:(intros Hno; by destruct (Hno id)))) as (r & s' & Er & -> & ->). done. }
  apply (mbox_create_wp key n s _ Hk Ht).
  - intros i Hi E. right. split_and!; try done; try lia; [exists n; split_and!; [done|lia..]|by eapply Hagain].
  - intros _ ->. by left.
  - intros Hno Hlt s' Hs _. right.
    assert (mboxes s' n = mkMailbox key (mb_buf (mboxes s n)) 0 0 0) as En by (rewrite Hs; cbn; by rewrite fupd_eq).
    assert (mbox_table s' (n + 1)) as Ht' by by eapply claimed_table.
    rewrite En. split_and!; try done; try lia.
    + exists (n + 1). split_and!; [done|lia..].
    + intros i Hi. rewrite Hs. cbn. rewrite fupd_ne; [done|lia].
    + apply (Hagain s' (n + 1) n); [done|lia|by rewrite En].
Qed.

(** -1 is not refused as a key.  It is the mark of a free slot, so
    mbox_create(-1) returns a free slot without claiming it, and the next
    mbox_create of a new key returns the same mailbox to its caller. *)
Theorem mbox_create_minus_one key n s :
  key ≠ -1 → mbox_table s n → n < MAX_MBOX → (∀ i, 0 ≤ i < n → mb_key (mboxes s i) ≠ key) →
  mbox_create (-1) s = Done (n, s) ∧ ∃ s', mbox_create key s = Done (n, s') ∧ mb_key (mboxes s' n) = key.
Proof.
  intros Hk Ht Hn Hno. pose proof Ht as [Hn0 Hu Hf _]. split.
  - assert (wp (mbox_create (-1)) (λ r s', r = n ∧ s' = s) s) as Hw.
    { unfold mbox_create. wp_step. eapply (wp_for (λ j s', s' = s ∧ j ≤ n)).
      - split; [done|lia].
      - intros j s' Hj (-> & Hjn). wp_steps. destruct (Z.eqb_spec (mb_key (mboxes s j)) (-1)) as [E|E].
        + wp_steps. cbn. split; [|done]. destruct (decide (j < n)); [destruct (Hu j); [lia|done]|lia].
        + wp_steps. split; [done|]. destruct (decide (j = n)) as [->|]; [destruct E; apply Hf; lia|lia].
      - intros s' (-> & Hjn). lia. }
    destruct (wp_elim _ _ _ Hw) as (r & s' & E & -> & ->). done.
  - pose proof (mbox_create_wp key n s (λ r s', r = n ∧ mb_key (mboxes s' n) = key) Hk Ht) as Hw.
    destruct (wp_elim _ _ _ (Hw ltac:(intros i Hi E; by destruct (Hno i Hi)) ltac:(lia)
      ltac:(intros _ _ s' Hs _; split; [done|rewrite Hs; cbn; by rewrite fupd_eq]))) as (r & s' & E & -> & H). eauto.
Qed.
