(* ===== verification/Shm.v ===== *)
(** kernel/shm.c: shared memory pages named by a key. *)

From S2P Require Import Prelude Riscv Memory Kalloc Vm State Printf Proc.

Abbreviation SHM_MAX := 16 (only parsing).

Section shm.
Context `{KI : KernelImage}.

Definition shminit : M kstate unit :=
  foreach (Z.to_nat SHM_MAX) 0 (λ i,
    modify (upd_shm (λ t, set_shm_pages (fupd (shm_pages t) i 0) t)) ;;
    modify (upd_shm (λ t, set_shm_keys (fupd (shm_keys t) i (-1)) t)) ;;
    modify (upd_shm (λ t, set_shm_refcnt (fupd (shm_refcnt t) i 0) t))).

(** shm.keys[i] == key && shm.pages[i] != 0 *)
Definition shm_match (key i : Z) (s : kstate) : bool :=
  (shm_keys (shm s) i =? key) && negb (shm_pages (shm s) i =? 0).

Definition shm_create (key : Z) : M kstate Z :=
  r <- for_ (Z.to_nat SHM_MAX) 0 (λ i,
    b <- gets (shm_match key i) ;;
    if (b : bool) then
      c <- gets (λ s, shm_refcnt (shm s) i) ;;
      println "shm_create: key=%d exists at idx=%d refcnt=%d" [AInt key; AInt i; AInt c] ;;
      ret (Some i)
    else ret None) ;;
  match r with
  | Some i => ret i
  | None =>
      r <- for_ (Z.to_nat SHM_MAX) 0 (λ i,
        k <- gets (λ s, shm_keys (shm s) i) ;;
        if k =? -1 then
          page <- on_kmem kalloc ;;
          if page =? 0 then
            println "shm_create: kalloc failed for key=%d" [AInt key] ;;
            ret (Some (-1))
          else
          on_kmem (kmemset page 0 (Z.to_nat PGSIZE)) ;;
          modify (upd_shm (λ t, set_shm_pages (fupd (shm_pages t) i page) t)) ;;
          modify (upd_shm (λ t, set_shm_keys (fupd (shm_keys t) i key) t)) ;;
          modify (upd_shm (λ t, set_shm_refcnt (fupd (shm_refcnt t) i 1) t)) ;;
          println "shm_create: key=%d idx=%d page=%p" [AInt key; AInt i; AInt page] ;;
          ret (Some i)
        else ret None) ;;
      match r with
      | Some v => ret v
      | None => println "shm_create: table full for key=%d" [AInt key] ;; ret (-1)
      end
  end.

(** The virtual address shm_get maps at: the first page above the process. *)
Definition shm_va (sz : Z) : Z :=
  let va := PGROUNDUP sz in
  if va <? PGSIZE then PGSIZE else va.

Definition shm_get (me key : Z) : M kstate Z :=
  if me =? -1 then println "shm_get: no current process" [] ;; ret 0 else
  r <- for_ (Z.to_nat SHM_MAX) 0 (λ i,
    b <- gets (shm_match key i) ;;
    if (b : bool) then
      pa <- gets (λ s, shm_pages (shm s) i) ;;
      if negb (Z.land pa (PGSIZE - 1) =? 0) then
        println "shm_get: ERROR - kernel page not page-aligned %p" [AInt pa] ;;
        ret (Some 0)
      else
      p <- gets (λ s, procs s me) ;;
      let va := shm_va (p_sz p) in
      println "shm_get: pid=%d key=%d idx=%d kva=%p pa=0x%lx va=0x%lx"
        [AInt (p_pid p); AInt key; AInt i; AInt pa; AInt pa; AInt va] ;;
      if negb (Z.land pa (PGSIZE - 1) =? 0) then
        println "shm_get: ERROR - pa not page-aligned pa=0x%lx" [AInt pa] ;;
        ret (Some 0)
      else
      let flags := Z.lor (Z.lor (Z.lor PTE_V PTE_R) PTE_W) PTE_U in
      m <- on_kmem (mappages (p_pagetable p) va PGSIZE pa flags) ;;
      if m <? 0 then
        println "shm_get: mappages failed for pid=%d va=0x%lx pa=0x%lx" [AInt (p_pid p); AInt va; AInt pa] ;;
        ret (Some 0)
      else
      (when p_sz p <? u64 (va + PGSIZE) do modify (upd_proc me (set_p_sz (u64 (va + PGSIZE))))) ;;
      modify (upd_shm (λ t, set_shm_refcnt (fupd (shm_refcnt t) i (s32 (shm_refcnt t i + 1))) t)) ;;
      c <- gets (λ s, shm_refcnt (shm s) i) ;;
      println "shm_get: success pid=%d va=0x%lx refcnt=%d" [AInt (p_pid p); AInt va; AInt c] ;;
      ret (Some va)
    else ret None) ;;
  match r with
  | Some v => ret v
  | None => println "shm_get: key=%d not found" [AInt key] ;; ret 0
  end.

Definition shm_close (key : Z) : M kstate Z :=
  r <- for_ (Z.to_nat SHM_MAX) 0 (λ i,
    b <- gets (shm_match key i) ;;
    if (b : bool) then
      c <- gets (λ s, shm_refcnt (shm s) i) ;;
      let c := s32 (c - 1) in
      modify (upd_shm (λ t, set_shm_refcnt (fupd (shm_refcnt t) i c) t)) ;;
      println "shm_close: key=%d refcnt now=%d" [AInt key; AInt c] ;;
      (when c <=? 0 do
        (pa <- gets (λ s, shm_pages (shm s) i) ;;
         println "shm_close: freeing key=%d page=%p" [AInt key; AInt pa] ;;
         on_kmem (kfree pa) ;;
         modify (upd_shm (λ t, set_shm_pages (fupd (shm_pages t) i 0) t)) ;;
         modify (upd_shm (λ t, set_shm_keys (fupd (shm_keys t) i (-1)) t)) ;;
         modify (upd_shm (λ t, set_shm_refcnt (fupd (shm_refcnt t) i 0) t)))) ;;
      ret (Some 0)
    else ret None) ;;
  match r with
  | Some v => ret v
  | None => println "shm_close: key=%d not found" [AInt key] ;; ret (-1)
  end.

End shm.
