(* ===== verification/ShmThms.v ===== *)
(** Shared memory pages and lazily grown memory: who owns a page. *)

From S2P Require Import Prelude Riscv Memory Kalloc Vm VmSpec VmMap VmUser VmCow VmThms State Printf Proc Shm.

Section shm.
Context `{KI : KernelImage}.

Lemma wp_on_kmem {A} (c : M kmem A) s a km (Q : A → kstate → Prop) :
  c (kmem_of s) = Done (a, km) → Q a (set_kmem_of km s) → wp (on_kmem c) Q s.
Proof. intros E HQ. unfold on_kmem, wp, zoom. by rewrite E. Qed.

(** Unmapping a page whose only counted reference is this mapping frees it. *)
Lemma unmap_frees s own roots pt va e : let pa := PTE2PA (leaf (memory s) pt va) in
  vm_inv s own roots → roots pt → 0 ≤ va → va + PGSIZE ≤ MAXVA → va mod PGSIZE = 0 →
  has (leaf (memory s) pt va) PTE_V = true → own pa = OData e → refcount s (pa / PGSIZE) = 1 →
  ∃ s', uvmunmap pt va 1 true s = Done (tt, s') ∧ refcount s' (pa / PGSIZE) = 0.
Proof.
  intros pa H Hr Hv Htop Hal HV He Hrc. destruct (vi_data _ _ _ H pa e He) as (Hp & _).
  unfold uvmunmap. rewrite Hal. cbn [Z.eqb negb]. rewrite u64_small by lia.
  change (S (Z.to_nat 1)) with 2%nat. rewrite while_S, (proj2 (Z.ltb_lt _ _)) by lia.
  destruct (table_of (memory s) pt va 2) as [t|] eqn:Ht; [|exfalso; revert HV; unfold leaf; by rewrite Ht, has_0].
  assert (unmap_page pt va true s = Done (tt, set_memory (st64 (memory (dropped pa s)) (t + 8 * PX 0 va) 0) (dropped pa s))) as E.
  { unfold unmap_page. rewrite (bind_done _ _ _ _ _ (walk_false_run s pt va ltac:(lia))), Ht.
    rewrite (entry_nonzero s own roots pt va t) by (done || lia).
    rewrite (bind_done _ _ _ _ _ (load64_run _ _)), (leaf_at _ _ _ _ Ht), HV. cbn [negb]. fold pa.
    rewrite (bind_done _ _ _ _ _ (ref_dec_run s pa Hp ltac:(lia))). apply store64_run. }
  eexists. split.
  - unfold bind at 1 2. rewrite E. unfold ret at 1. rewrite while_S, u64_small by lia. by rewrite Z.mul_1_l, Z.ltb_irrefl.
  - cbn [refcount set_memory]. rewrite dropped_refcount, decide_True by done. lia.
Qed.

Lemma shm_va_aligned sz : 0 ≤ sz < MAXVA → shm_va sz mod PGSIZE = 0 ∧ PGSIZE ≤ shm_va sz.
Proof. intros Hsz. unfold shm_va. destruct (PGROUNDUP_spec sz); [lia..|]. cbv zeta. case_if; [done|lia]. Qed.

(** C37: a shared page has no reference of its own.  shm_get maps the page of
    the table into the process without counting the mapping: table and process
    share the one reference of the allocation.  When the process then unmaps
    the page, as it does when it exits, the page is freed, with count 0, while
    the table still names it for others to map. *)
Theorem shm_page_freed_in_use me key i s own roots :
  let p := procs s me in let pt := p_pagetable p in let va := shm_va (p_sz p) in let pa := shm_pages (shm s) i in
  vm_inv (kmem_of s) own roots → roots pt → 0 ≤ p_sz p < MAXVA → va + PGSIZE ≤ MAXVA → has (leaf (memory (kmem_of s)) pt va) PTE_V = false →
  own pa = OData 1 → refcount (kmem_of s) (pa / PGSIZE) = 1 →
  me ≠ -1 → 0 ≤ i < SHM_MAX → shm_match key i s = true → (∀ j, 0 ≤ j < i → shm_match key j s = false) →
  wp (shm_get me key) (λ r s1, r = 0 ∨
    (r = va ∧ shm_pages (shm s1) i = pa ∧ refcount (kmem_of s1) (pa / PGSIZE) = 1 ∧
     wp (on_kmem (uvmunmap pt va 1 true)) (λ _ s2,
       shm_pages (shm s2) i = pa ∧ refcount (kmem_of s2) (pa / PGSIZE) = 0) s1)) s.
Proof.
  intros p pt va pa H Hr Hsz Htop Hno He Hrc Hme Hi Hmatch Hfirst. unfold shm_get. rewrite (proj2 (Z.eqb_neq _ _) Hme). wp_step.
  destruct (shm_va_aligned (p_sz p) Hsz) as [Hal Hva]. fold va in Hal, Hva.
  destruct (vi_data _ _ _ H pa 1 He) as (Hp & _). pose proof Hp as (Hpa & _).
  apply (wp_for (λ j s', s' = s ∧ j ≤ i)); [split; [done|lia]| |intros s' [-> ?]; lia].
  intros j s' Hj [-> Hji]. do 2 wp_step. destruct (decide (j = i)) as [->|Hne].
  2:{ rewrite Hfirst by lia. wp_step. split; [done|lia]. }
  rewrite Hmatch. do 2 wp_step. fold pa. rewrite (proj2 (Z.eqb_eq (Z.land pa (PGSIZE - 1)) 0)).
  2:{ change (PGSIZE - 1) with (Z.ones 12). rewrite Z.land_ones by lia. exact Hpa. }
  cbn [negb]. do 2 wp_step. fold p. cbv zeta. wp_step. wp_print u. fold pt va. set (flags := Z.lor (Z.lor (Z.lor PTE_V PTE_R) PTE_W) PTE_U).
  destruct (mappages_data (kmem_of s) own roots pt va pa flags 1) as (r & km & own1 & E & Hk & _ & Hres); [done|done|lia|done|done|done|done|].
  wp_step. eapply wp_on_kmem; [exact E|]. destruct Hres as [(-> & _)|(-> & H1 & Hl)].
  - change (-1 <? 0) with true. cbv iota. wp_step. wp_print u1. do 2 wp_step. by left.
  - change (0 <? 0) with false. cbv iota. cbn [fst snd] in *.
    pose proof (ke_rc _ _ Hk pa Hp) as Hrc1. cbn [fst snd] in Hrc1. rewrite Hrc in Hrc1. specialize (Hrc1 ltac:(congruence)).
    destruct (pte_for_facts pa flags Hp ltac:(done)) as (Hpp & _ & Hpv & _).
    assert (leaf (memory km) pt va = pte_for pa flags) as Hleaf by (rewrite Hl by (done || lia); by rewrite decide_True).
    destruct (unmap_frees km (fupd own1 pa (OData (1 - 1))) roots pt va 0) as (km' & E' & Hrc'); rewrite ?Hleaf, ?Hpp; try done; try lia.
    { apply fupd_eq. }
    rewrite Hleaf, Hpp in Hrc'.
    wp_step. match goal with |- wp (if ?b then _ else _) _ _ => destruct b end; do 5 wp_step; wp_step; wp_print u1; do 2 wp_step; right;
      (split_and!; [done|done|done|]; eapply wp_on_kmem; [exact E'|]; done).
Qed.
End shm.
