(* ===== verification/Virtio.v ===== *)
(** kernel/virtio_disk.c: the disk driver.

    The descriptor table, the two rings and the driver's own fields are the
    record [vdisk]; an address in a descriptor names the object it points to.
    Each stretch of code under vdisk_lock is atomic: virtio_disk_rw returns to
    its caller where it sleeps, with what it needs to go on.  The registers that
    are read are a function of their offset; those that are written are kept in
    [mmio]. *)

From S2P Require Import Prelude Riscv Memory Kalloc Vm State Proc.

Abbreviation NUM := 8 (only parsing).
Abbreviation VRING_DESC_F_NEXT := 1 (only parsing).
Abbreviation VRING_DESC_F_WRITE := 2 (only parsing).
Abbreviation VIRTIO_BLK_T_IN := 0 (only parsing).
Abbreviation VIRTIO_BLK_T_OUT := 1 (only parsing).

(** ** The queue *)
Inductive vaddr :=
| ANull
| AOps (i : Z)           (* &disk.ops[i] *)
| AData (b : Z)          (* the data of buffer b *)
| AStatus (i : Z).       (* &disk.info[i].status *)

Record virtq_desc := mkDesc { d_addr : vaddr; d_len : Z; d_flags : Z; d_next : Z }.
Record virtio_blk_req := mkReq { rq_type : Z; rq_reserved : Z; rq_sector : Z }.

Record vdisk := mkVdisk {
  desc : Z → virtq_desc;    (* disk.desc[] *)
  avail_idx : Z;    (* disk.avail->idx *)
  avail_ring : Z → Z;    (* disk.avail->ring[] *)
  u_idx : Z;    (* disk.used->idx *)
  u_ring : Z → Z;    (* disk.used->ring[].id *)
  vfree : Z → bool;    (* disk.free[] *)
  used_idx : Z;    (* disk.used_idx *)
  info_b : Z → Z;    (* disk.info[].b, -1 for null *)
  info_status : Z → Z;    (* disk.info[].status *)
  ops : Z → virtio_blk_req;    (* disk.ops[] *)
  b_disk : Z → bool;    (* the disk field of each struct buf *)
  mmio : list (Z * Z)    (* registers written, last first *)
}.

Definition set_desc (w : Z → virtq_desc) (x : vdisk) : vdisk :=
  mkVdisk w (avail_idx x) (avail_ring x) (u_idx x) (u_ring x) (vfree x) (used_idx x) (info_b x) (info_status x) (ops x) (b_disk x) (mmio x).
Definition set_avail_idx (w : Z) (x : vdisk) : vdisk :=
  mkVdisk (desc x) w (avail_ring x) (u_idx x) (u_ring x) (vfree x) (used_idx x) (info_b x) (info_status x) (ops x) (b_disk x) (mmio x).
Definition set_avail_ring (w : Z → Z) (x : vdisk) : vdisk :=
  mkVdisk (desc x) (avail_idx x) w (u_idx x) (u_ring x) (vfree x) (used_idx x) (info_b x) (info_status x) (ops x) (b_disk x) (mmio x).
Definition set_u_idx (w : Z) (x : vdisk) : vdisk :=
  mkVdisk (desc x) (avail_idx x) (avail_ring x) w (u_ring x) (vfree x) (used_idx x) (info_b x) (info_status x) (ops x) (b_disk x) (mmio x).
Definition set_u_ring (w : Z → Z) (x : vdisk) : vdisk :=
  mkVdisk (desc x) (avail_idx x) (avail_ring x) (u_idx x) w (vfree x) (used_idx x) (info_b x) (info_status x) (ops x) (b_disk x) (mmio x).
Definition set_vfree (w : Z → bool) (x : vdisk) : vdisk :=
  mkVdisk (desc x) (avail_idx x) (avail_ring x) (u_idx x) (u_ring x) w (used_idx x) (info_b x) (info_status x) (ops x) (b_disk x) (mmio x).
Definition set_used_idx (w : Z) (x : vdisk) : vdisk :=
  mkVdisk (desc x) (avail_idx x) (avail_ring x) (u_idx x) (u_ring x) (vfree x) w (info_b x) (info_status x) (ops x) (b_disk x) (mmio x).
Definition set_info_b (w : Z → Z) (x : vdisk) : vdisk :=
  mkVdisk (desc x) (avail_idx x) (avail_ring x) (u_idx x) (u_ring x) (vfree x) (used_idx x) w (info_status x) (ops x) (b_disk x) (mmio x).
Definition set_info_status (w : Z → Z) (x : vdisk) : vdisk :=
  mkVdisk (desc x) (avail_idx x) (avail_ring x) (u_idx x) (u_ring x) (vfree x) (used_idx x) (info_b x) w (ops x) (b_disk x) (mmio x).
Definition set_ops (w : Z → virtio_blk_req) (x : vdisk) : vdisk :=
  mkVdisk (desc x) (avail_idx x) (avail_ring x) (u_idx x) (u_ring x) (vfree x) (used_idx x) (info_b x) (info_status x) w (b_disk x) (mmio x).
Definition set_b_disk (w : Z → bool) (x : vdisk) : vdisk :=
  mkVdisk (desc x) (avail_idx x) (avail_ring x) (u_idx x) (u_ring x) (vfree x) (used_idx x) (info_b x) (info_status x) (ops x) w (mmio x).
Definition set_mmio (w : list (Z * Z)) (x : vdisk) : vdisk :=
  mkVdisk (desc x) (avail_idx x) (avail_ring x) (u_idx x) (u_ring x) (vfree x) (used_idx x) (info_b x) (info_status x) (ops x) (b_disk x) w.


(** The kernel and the driver. *)
Record dstate := mkDstate { ks : kstate; vd : vdisk }.
Definition set_ks (k : kstate) (s : dstate) : dstate := mkDstate k (vd s).
Definition set_vd (v : vdisk) (s : dstate) : dstate := mkDstate (ks s) v.
Definition upd_vd (f : vdisk → vdisk) (s : dstate) : dstate := set_vd (f (vd s)) s.
Definition on_ks {A} (c : M kstate A) : M dstate A := zoom ks set_ks c.

Definition set_desc_at (i : Z) (d : virtq_desc) (v : vdisk) : vdisk := set_desc (fupd (desc v) i d) v.
Definition R_write (r x : Z) : M dstate unit := modify (upd_vd (λ v, set_mmio ((r, x) :: mmio v) v)).

(** ** Descriptors *)
Definition alloc_desc : M dstate Z :=
  r <- for_ (Z.to_nat NUM) 0 (λ i,
    f <- gets (λ s, vfree (vd s) i) ;;
    if (f : bool) then
      modify (upd_vd (λ v, set_vfree (fupd (vfree v) i false) v)) ;;
      ret (Some i)
    else ret None) ;;
  ret (default (-1) r).

Definition free_desc (me i : Z) : M dstate unit :=
  if NUM <=? i then panic "free_desc 1" else
  f <- gets (λ s, vfree (vd s) i) ;;
  if (f : bool) then panic "free_desc 2" else
  modify (upd_vd (set_desc_at i (mkDesc ANull 0 0 0))) ;;
  modify (upd_vd (λ v, set_vfree (fupd (vfree v) i true) v)) ;;
  on_ks (wakeup me ChDiskFree).

(** A descriptor is freed once: the loop runs at most NUM times. *)
Definition free_chain (me i : Z) : M dstate unit :=
  while (S (Z.to_nat NUM)) (λ i,
    d <- gets (λ s, desc (vd s) i) ;;
    free_desc me i ;;
    ret (if Z.testbit (d_flags d) 0 then inl (d_next d) else inr tt)) i.

(** for(int j = 0; j < i; j++) free_desc(idx[j]); *)
Fixpoint free_all (me : Z) (idx : list Z) : M dstate unit :=
  match idx with
  | [] => ret tt
  | i :: idx' => free_desc me i ;; free_all me idx'
  end.

(** [n] more descriptors after [idx]; None is the result -1. *)
Fixpoint alloc_loop (me : Z) (n : nat) (idx : list Z) : M dstate (option (list Z)) :=
  match n with
  | O => ret (Some idx)
  | S n' =>
      i <- alloc_desc ;;
      if i <? 0 then free_all me idx ;; ret None
      else alloc_loop me n' (idx ++ [i])
  end.

Definition alloc3_desc (me : Z) : M dstate (option (list Z)) := alloc_loop me 3 [].

(** ** Requests *)

(** The three descriptors of a transfer of buffer [b]. *)
Definition format_request (b blockno : Z) (write : bool) (i0 i1 i2 : Z) (v : vdisk) : vdisk :=
  let sector := u32 (blockno * (BSIZE / 512)) in
  let v := set_ops (fupd (ops v) i0 (mkReq (if write then VIRTIO_BLK_T_OUT else VIRTIO_BLK_T_IN) 0 sector)) v in
  let v := set_desc_at i0 (mkDesc (AOps i0) 16 VRING_DESC_F_NEXT i1) v in
  let v := set_desc_at i1 (mkDesc (AData b) BSIZE
             (Z.lor (if write then 0 else VRING_DESC_F_WRITE) VRING_DESC_F_NEXT) i2) v in
  let v := set_info_status (fupd (info_status v) i0 0xff) v in
  let v := set_desc_at i2 (mkDesc (AStatus i0) 1 VRING_DESC_F_WRITE 0) v in
  let v := set_b_disk (fupd (b_disk v) b true) v in
  set_info_b (fupd (info_b v) i0 b) v.

Definition publish (i0 : Z) (v : vdisk) : vdisk :=
  let v := set_avail_ring (fupd (avail_ring v) (avail_idx v mod NUM) i0) v in
  set_avail_idx (u16 (avail_idx v + 1)) v.

(** Where virtio_disk_rw sleeps: for descriptors, or for the request with
    first descriptor [i0]. *)
Inductive vresume := VStart | VWait (i0 : Z).

(** The second loop and what follows it. *)
Definition disk_wait (me b i0 : Z) : M dstate (vresume + unit) :=
  busy <- gets (λ s, b_disk (vd s) b) ;;
  if (busy : bool) then
    on_ks (sleep me (ChBuf b)) ;;
    ret (inl (VWait i0))
  else
  modify (upd_vd (λ v, set_info_b (fupd (info_b v) i0 (-1)) v)) ;;
  free_chain me i0 ;;
  ret (inr tt).

Definition virtio_disk_rw (me b : Z) (write : bool) (k : vresume) : M dstate (vresume + unit) :=
  match k with
  | VWait i0 => disk_wait me b i0
  | VStart =>
      r <- alloc3_desc me ;;
      match r with
      | Some [i0; i1; i2] =>
          x <- gets (λ s, bufs (ks s) b) ;;
          modify (upd_vd (format_request b (b_blockno x) write i0 i1 i2)) ;;
          modify (upd_vd (publish i0)) ;;
          R_write 0x050 0 ;;                                            (* QUEUE_NOTIFY *)
          disk_wait me b i0
      | _ =>
          on_ks (sleep me ChDiskFree) ;;
          ret (inl VStart)
      end
  end.

(** One turn of the loop of virtio_disk_intr. *)
Definition intr_turn (me : Z) (_ : unit) : M dstate (unit + unit) :=
  v <- gets vd ;;
  if used_idx v =? u_idx v then ret (inr tt) else
  let id := u_ring v (used_idx v mod NUM) in
  if negb (info_status v id =? 0) then panic "virtio_disk_intr status" else
  let b := info_b v id in
  if b =? -1 then undef "b->disk" else
  modify (upd_vd (λ v, set_b_disk (fupd (b_disk v) b false) v)) ;;
  on_ks (wakeup me (ChBuf b)) ;;
  modify (upd_vd (λ v, set_used_idx (u16 (used_idx v + 1)) v)) ;;
  ret (inl tt).

(** Each turn moves used_idx one closer to disk.used->idx, which the device
    does not move while the loop runs. *)
Definition virtio_disk_intr (me istatus : Z) : M dstate unit :=
  R_write 0x064 (Z.land istatus 3) ;;                                   (* INTERRUPT_ACK *)
  v <- gets vd ;;
  while (S (Z.to_nat (u16 (u_idx v - used_idx v)))) (intr_turn me) tt.

(** ** Initialisation *)
Section init.
Context `{KI : KernelImage}.
Context (reg : Z → Z).           (* what a register reads *)

Definition clear_bits (l : list Z) (x : Z) : Z := foldl (λ x b, Z.land x (Z.lnot (Z.shiftl 1 b))) x l.

Definition virtio_disk_init : M dstate unit :=
  if negb (reg 0x000 =? 0x74726976) || negb (reg 0x004 =? 2) || negb (reg 0x008 =? 2) || negb (reg 0x00c =? 0x554d4551)
  then panic "could not find virtio disk" else
  R_write 0x070 0 ;;
  R_write 0x070 1 ;;                                                    (* ACKNOWLEDGE *)
  R_write 0x070 3 ;;                                                    (* DRIVER *)
  R_write 0x020 (u32 (clear_bits [5; 7; 11; 12; 27; 29; 28] (reg 0x010))) ;;
  R_write 0x070 11 ;;                                                   (* FEATURES_OK *)
  let status := reg 0x070 in
  if negb (Z.testbit status 3) then panic "virtio disk FEATURES_OK unset" else
  R_write 0x030 0 ;;
  if negb (reg 0x044 =? 0) then panic "virtio disk should not be ready" else
  if reg 0x034 =? 0 then panic "virtio disk has no queue 0" else
  if reg 0x034 <? NUM then panic "virtio disk max queue too short" else
  dp <- on_ks (on_kmem kalloc) ;;
  ap <- on_ks (on_kmem kalloc) ;;
  up <- on_ks (on_kmem kalloc) ;;
  if (dp =? 0) || (ap =? 0) || (up =? 0) then panic "virtio disk kalloc" else
  modify (upd_vd (set_desc (λ _, mkDesc ANull 0 0 0))) ;;
  on_ks (on_kmem (kmemset dp 0 (Z.to_nat PGSIZE))) ;;
  modify (upd_vd (λ v, set_avail_idx 0 (set_avail_ring (λ _, 0) v))) ;;
  on_ks (on_kmem (kmemset ap 0 (Z.to_nat PGSIZE))) ;;
  modify (upd_vd (λ v, set_u_idx 0 (set_u_ring (λ _, 0) v))) ;;
  on_ks (on_kmem (kmemset up 0 (Z.to_nat PGSIZE))) ;;
  R_write 0x038 NUM ;;
  R_write 0x080 (u32 dp) ;; R_write 0x084 (u32 (Z.shiftr dp 32)) ;;
  R_write 0x090 (u32 ap) ;; R_write 0x094 (u32 (Z.shiftr ap 32)) ;;
  R_write 0x0a0 (u32 up) ;; R_write 0x0a4 (u32 (Z.shiftr up 32)) ;;
  R_write 0x044 1 ;;
  foreach (Z.to_nat NUM) 0 (λ i, modify (upd_vd (λ v, set_vfree (fupd (vfree v) i true) v))) ;;
  R_write 0x070 (Z.lor status 4).                                       (* DRIVER_OK *)
End init.
