(* ===== verification/Bio.v ===== *)
(** kernel/sleeplock.c and kernel/bio.c: sleep locks and the buffer cache.

    File-system code is modelled from one call to its return; where it would
    wait for a sleep lock that is taken, the outcome is [Block].  The list
    through the prev and next pointers of the buffers is [lru], head.next
    first.  b_refcnt is an unbounded integer: the processes that use a buffer
    and the one reference of the log are far fewer than a uint can count.  The
    disk driver is the transfer of one block between buffer and
    disk; a request beyond the disk makes the driver panic. *)

From S2P Require Import Prelude Riscv Memory Kalloc Vm State Proc.

(** ** Sleep locks: the locks of the buffers and of the inodes. *)
Inductive lockref := BufLock (i : Z) | InodeLock (i : Z).

Definition lock_chan (l : lockref) : chan :=
  match l with BufLock i => ChBufLock i | InodeLock i => ChInodeLock i end.
Definition get_lock (l : lockref) (s : kstate) : sleeplock :=
  match l with BufLock i => b_lock (bufs s i) | InodeLock i => i_lock (itable s i) end.
Definition set_lock (l : lockref) (lk : sleeplock) : kstate → kstate :=
  match l with
  | BufLock i => upd_buf i (set_b_lock lk)
  | InodeLock i => upd_inode i (set_i_lock lk)
  end.

Definition initsleeplock (l : lockref) : M kstate unit := modify (set_lock l (mkSleeplock false 0)).

(** One turn of the loop of acquiresleep: [false] has gone to sleep. *)
Definition acquiresleep_turn (me : Z) (l : lockref) : M kstate bool :=
  lk <- gets (get_lock l) ;;
  if sl_locked lk then
    sleep me (lock_chan l) ;; ret false
  else
  pid <- gets (λ s, p_pid (procs s me)) ;;
  modify (set_lock l (mkSleeplock true pid)) ;;
  ret true.

Definition acquiresleep (me : Z) (l : lockref) : M kstate unit :=
  ok <- acquiresleep_turn me l ;;
  if (ok : bool) then ret tt else block.

Definition releasesleep (me : Z) (l : lockref) : M kstate unit :=
  modify (set_lock l (mkSleeplock false 0)) ;;
  wakeup me (lock_chan l).

Definition holdingsleep (me : Z) (l : lockref) : M kstate bool :=
  gets (λ s, sl_locked (get_lock l s) && (sl_pid (get_lock l s) =? p_pid (procs s me))).

(** ** The buffer cache *)

(** b->next = head.next; ...; head.next = b, for each buffer in turn. *)
Definition binit : M kstate unit :=
  modify (set_lru []) ;;
  foreach (Z.to_nat NBUF) 0 (λ b,
    initsleeplock (BufLock b) ;;
    modify (λ s, set_lru (b :: lru s) s)).

(** Search along the list for the first buffer that satisfies [f]. *)
Fixpoint find_buf (f : buf → bool) (s : kstate) (l : list Z) : option Z :=
  match l with
  | [] => None
  | b :: l' => if f (bufs s b) then Some b else find_buf f s l'
  end.

Definition buf_is (dev blockno : Z) (b : buf) : bool := (b_dev b =? dev) && (b_blockno b =? blockno).

Definition bget (me dev blockno : Z) : M kstate Z :=
  r <- gets (λ s, find_buf (buf_is dev blockno) s (lru s)) ;;
  match r with
  | Some b =>
      modify (upd_buf b (λ x, set_b_refcnt (b_refcnt x + 1) x)) ;;
      acquiresleep me (BufLock b) ;;
      ret b
  | None =>
      r <- gets (λ s, find_buf (λ x, b_refcnt x =? 0) s (rev (lru s))) ;;
      match r with
      | Some b =>
          modify (upd_buf b (λ x, mkBuf false dev blockno (b_lock x) 1 (b_data x))) ;;
          acquiresleep me (BufLock b) ;;
          ret b
      | None => panic "bget: no buffers"
      end
  end.

(** The transfer of kernel/virtio_disk.c, one block at b->blockno. *)
Definition virtio_disk_rw (b : Z) (write : bool) : M kstate unit :=
  x <- gets (λ s, bufs s b) ;;
  sz <- gets disk_size ;;
  if sz <=? b_blockno x then panic "virtio_disk_intr status" else
  if write then
    modify (λ s, set_disk (fupd (disk s) (b_blockno x) (b_data x)) s) ;;
    modify (λ s, set_writes (writes s ++ [(b_blockno x, b_data x)]) s)
  else modify (λ s, upd_buf b (set_b_data (disk s (b_blockno x))) s).

Definition bread (me dev blockno : Z) : M kstate Z :=
  b <- bget me dev blockno ;;
  v <- gets (λ s, b_valid (bufs s b)) ;;
  (when negb v do
    (virtio_disk_rw b false ;;
     modify (upd_buf b (set_b_valid true)))) ;;
  ret b.

Definition bwrite (me b : Z) : M kstate unit :=
  h <- holdingsleep me (BufLock b) ;;
  if negb h then panic "bwrite" else virtio_disk_rw b true.

Definition brelse (me b : Z) : M kstate unit :=
  h <- holdingsleep me (BufLock b) ;;
  if negb h then panic "brelse" else
  releasesleep me (BufLock b) ;;
  modify (upd_buf b (λ x, set_b_refcnt (b_refcnt x - 1) x)) ;;
  r <- gets (λ s, b_refcnt (bufs s b)) ;;
  if r =? 0 then modify (λ s, set_lru (b :: filter (.≠ b) (lru s)) s) else ret tt.

Definition bpin (b : Z) : M kstate unit := modify (upd_buf b (λ x, set_b_refcnt (b_refcnt x + 1) x)).
Definition bunpin (b : Z) : M kstate unit := modify (upd_buf b (λ x, set_b_refcnt (b_refcnt x - 1) x)).

(** bp->data, and a store to it. *)
Definition buf_data (b : Z) : M kstate mem := gets (λ s, b_data (bufs s b)).
Definition buf_store (b : Z) (f : mem → mem) : M kstate unit :=
  modify (upd_buf b (λ x, set_b_data (f (b_data x)) x)).
