(* ===== verification/VirtioThms.v ===== *)
(** The disk driver keeps its descriptors and rings in order, and does the
    transfers that the buffer cache relies on. *)

From S2P Require Import Prelude Riscv Memory Kalloc Vm State Proc Bio Virtio.

(** ** Descriptors *)

(** Exactly the descriptors in [L] are in use. *)
Definition taken (v : vdisk) (L : list Z) : Prop := ∀ i, 0 ≤ i < NUM → vfree v i = negb (bool_decide (i ∈ L)).

(** [v'] is [v] but for the contents of the free descriptors. *)
Record same_but (L : list Z) (v v' : vdisk) : Prop := {
  sb_desc : ∀ i, i ∉ L → desc v' i = desc v i;
  sb_rest : v' = set_vfree (vfree v') (set_desc (desc v') v)
}.

(** Processes have only been woken up. *)
Record wakes (s s' : kstate) : Prop := {
  wk_rest : s' = set_procs (procs s') s;
  wk_chan : ∀ p, p_chan (procs s' p) = p_chan (procs s p);
  wk_state : ∀ p, p_state (procs s' p) = p_state (procs s p) ∨ p_state (procs s p) = SLEEPING ∧ p_state (procs s' p) = RUNNABLE
}.

(** No process but [me] is asleep on [c]. *)
Definition none_on (me : Z) (c : chan) (s : kstate) : Prop := ∀ p, p ≠ me → ¬ sleeps_on c p s.

#[export] Instance wakes_preorder : PreOrder wakes.
Proof.
  split.
  - intros s. split; [by destruct s|done|by left].
  - intros s1 s2 s3 [A1 A2 A3] [B1 B2 B3]. split.
    + rewrite B1, A1. done.
    + intros p. by rewrite B2.
    + intros p. destruct (B3 p) as [->|[? ->]]; [apply A3|]. destruct (A3 p) as [<-|[? _]]; auto.
Qed.

Lemma wakes_none me c s s' : wakes s s' → none_on me c s → none_on me c s'.
Proof.
  intros [W1 W2 W3] Hn p Hp (Hr & Hs & Hc). apply (Hn p Hp). split; [done|]. rewrite W2 in Hc. split; [|done].
  destruct (W3 p) as [<-|[? E]]; [done|]. congruence.
Qed.

Lemma wakeup_wakes me c s (Q : unit → kstate → Prop) :
  (∀ s', wakes s s' → none_on me c s' → Q tt s') → wp (wakeup me c) Q s.
Proof.
  intros HQ. apply wakeup_wp. intros f Hf. apply HQ.
  - split; [done|..]; intros p; cbn; rewrite Hf; unfold woken; case_decide; naive_solver.
  - intros p Hp (Hr & Hs & Hc). cbn in Hs, Hc. rewrite Hf in Hs, Hc. unfold woken in *. case_decide as E; [done|]. naive_solver.
Qed.

Lemma wp_on_ks {A} (c : M kstate A) (Q : A → dstate → Prop) s :
  wp c (λ a k, Q a (set_ks k s)) (ks s) → wp (on_ks c) Q s.
Proof. apply wp_zoom. Qed.

Lemma taken_false v L i : taken v L → 0 ≤ i < NUM → i ∈ L → vfree v i = false.
Proof. intros HL Hi Hin. rewrite HL by done. by rewrite bool_decide_true. Qed.

(** alloc_desc takes the first free descriptor. *)
Lemma alloc_desc_wp L s (Q : Z → dstate → Prop) : taken (vd s) L →
  (∀ i f, 0 ≤ i < NUM → i ∉ L → let v := set_vfree f (vd s) in taken v (i :: L) → Q i (set_vd v s)) →
  ((∀ i, 0 ≤ i < NUM → i ∈ L) → Q (-1) s) → wp alloc_desc Q s.
Proof.
  intros HL HQ Hno. unfold alloc_desc. wp_step.
  apply (wp_for (λ j s', s' = s ∧ ∀ i, 0 ≤ i < j → i ∈ L)); [split; [done|lia]| |].
  - intros j s' Hj [-> Hin]. do 2 wp_step. rewrite HL by lia. case_bool_decide as Hjl; cbn [negb].
    + wp_step. split; [done|]. intros i Hi. destruct (decide (i = j)) as [->|]; [done|]. apply Hin. lia.
    + do 2 wp_step. wp_step. apply wp_ret. change (default (-1) (Some j)) with j. apply HQ; [lia|done|]. intros i Hi. cbn. rewrite fupd_spec.
      case_decide as E; [subst; by rewrite bool_decide_true by left|]. rewrite HL by done. do 2 f_equal.
      apply bool_decide_ext. set_solver.
  - intros s' [-> Hin]. wp_step. apply Hno. intros i Hi. apply Hin. lia.
Qed.

Lemma free_desc_wp me i L s (Q : unit → dstate → Prop) : taken (vd s) (i :: L) → i ∉ L → 0 ≤ i < NUM →
  (∀ s', taken (vd s') L → same_but [i] (vd s) (vd s') → wakes (ks s) (ks s') → none_on me ChDiskFree (ks s') → Q tt s') →
  wp (free_desc me i) Q s.
Proof.
  intros HL Hn Hi HQ. unfold free_desc. rewrite (proj2 (Z.leb_gt _ _)) by lia. do 2 wp_step.
  rewrite (taken_false _ _ _ HL) by (done || left). do 4 wp_step. apply wp_on_ks, wakeup_wakes. intros k Hk Hno.
  apply HQ; [..|done|done].
  - intros j Hj. cbn. rewrite fupd_spec. case_decide as E; [subst; by rewrite bool_decide_false|].
    rewrite HL by done. f_equal. apply bool_decide_ext. set_solver.
  - split; [|done]. intros j Hj. cbn. rewrite fupd_ne; [done|]. set_solver.
Qed.

Lemma same_but_refl L v : same_but L v v.
Proof. split; [done|by destruct v]. Qed.

Lemma same_but_trans L1 L2 v1 v2 v3 : same_but L1 v1 v2 → same_but L2 v2 v3 → same_but (L1 ++ L2) v1 v3.
Proof.
  intros [A1 A2] [B1 B2]. split.
  - intros i Hi. rewrite B1, A1; set_solver.
  - rewrite B2, A2. done.
Qed.

Lemma same_but_vfree L f v : same_but L v (set_vfree f v).
Proof. split; [done|by destruct v]. Qed.

Lemma taken_ext v L L' : taken v L → (∀ i, i ∈ L ↔ i ∈ L') → taken v L'.
Proof. intros HL HLL i Hi. rewrite HL by done. f_equal. apply bool_decide_ext. apply HLL. Qed.

Lemma free_all_wp me L : ∀ idx s (Q : unit → dstate → Prop), taken (vd s) (idx ++ L) → NoDup (idx ++ L) →
  Forall (λ i, 0 ≤ i < NUM) idx →
  (∀ s', taken (vd s') L → same_but idx (vd s) (vd s') → wakes (ks s) (ks s') → Q tt s') → wp (free_all me idx) Q s.
Proof.
  induction idx as [|i idx IH]; intros s Q HL Hnd Hr HQ; cbn [free_all].
  - wp_step. by apply HQ; [|apply same_but_refl|].
  - apply NoDup_cons in Hnd as [Hi Hnd]. apply Forall_cons in Hr as [Hi' Hr]. wp_step.
    apply (free_desc_wp me i (idx ++ L)); [done|done|done|]. intros s1 T1 S1 W1 _.
    apply IH; [done|done|done|]. intros s2 T2 S2 W2. apply HQ; [done| |by etrans].
    by apply (same_but_trans [i] idx _ (vd s1)).
Qed.

(** alloc3_desc takes three descriptors, or finds fewer than three free and
    puts back what it took. *)
Lemma alloc_loop_wp me L s0 : taken (vd s0) L → ∀ n idx f (Q : option (list Z) → dstate → Prop),
  let s := set_vd (set_vfree f (vd s0)) s0 in
  taken (vd s) (idx ++ L) → NoDup idx → (∀ i, i ∈ idx → i ∉ L) → NoDup L → Forall (λ i, 0 ≤ i < NUM) idx →
  (∀ idx' f', length idx' = (length idx + n)%nat → NoDup idx' → (∀ i, i ∈ idx' → i ∉ L) → Forall (λ i, 0 ≤ i < NUM) idx' →
    let v := set_vfree f' (vd s0) in taken v (idx' ++ L) → Q (Some idx') (set_vd v s0)) →
  (∀ J s', (length J < length idx + n)%nat → (∀ i, i ∈ J → i ∉ L) → (∀ i, 0 ≤ i < NUM → i ∈ J ++ L) →
    taken (vd s') L → same_but J (vd s0) (vd s') → wakes (ks s0) (ks s') → Q None s') →
  wp (alloc_loop me n idx) Q s.
Proof.
  intros HL0. induction n as [|n IH]; intros idx f Q s HL Hnd Hdis HndL Hr HQ Hno; cbn [alloc_loop].
  - wp_step. apply HQ; [lia|done..].
  - wp_step. apply (alloc_desc_wp (idx ++ L)); [done|..].
    + intros i g Hi Hin v Hv. rewrite (proj2 (Z.ltb_ge i 0)) by lia.
      change (set_vd v s) with (set_vd (set_vfree g (vd s0)) s0). apply not_elem_of_app in Hin as [Hi1 Hi2]. apply IH.
      * eapply taken_ext; [exact Hv|]. intros j. set_solver.
      * apply NoDup_app. split; [done|]. split; [set_solver|apply NoDup_singleton].
      * set_solver.
      * done.
      * apply Forall_app. split; [done|]. apply Forall_singleton. done.
      * intros idx' f' Hlen. rewrite length_app in Hlen. apply HQ. cbn in Hlen. lia.
      * intros J s' HJ. rewrite length_app in HJ. apply Hno. cbn in HJ. lia.
    + intros Hall. change (-1 <? 0) with true. cbv iota. wp_step.
      apply (free_all_wp me L); [done| |done|].
      { apply NoDup_app. split; [done|]. split; [done|done]. }
      intros s' T S W. wp_step. apply (Hno idx); [lia|done|done|done| |done].
      eapply (same_but_trans [] idx) in S; [exact S|apply same_but_vfree].
Qed.

Lemma alloc3_desc_wp me L s (Q : option (list Z) → dstate → Prop) : taken (vd s) L → NoDup L →
  (∀ i0 i1 i2 f, NoDup [i0; i1; i2] → (∀ i, i ∈ [i0; i1; i2] → i ∉ L ∧ 0 ≤ i < NUM) →
    let v := set_vfree f (vd s) in taken v ([i0; i1; i2] ++ L) → Q (Some [i0; i1; i2]) (set_vd v s)) →
  (∀ J s', (6 ≤ length L)%nat → (∀ i, i ∈ J → i ∉ L) → taken (vd s') L → same_but J (vd s) (vd s') → wakes (ks s) (ks s') → Q None s') →
  wp (alloc3_desc me) Q s.
Proof.
  intros HL Hnd HQ Hno. unfold alloc3_desc. assert (s = set_vd (set_vfree (vfree (vd s)) (vd s)) s) as Es by (by destruct s as [? []]).
  rewrite Es at 1. apply (alloc_loop_wp me L s HL); [by rewrite <-Es|constructor|by intros i ?%elem_of_nil|done|constructor|..].
  - intros [|i0 [|i1 [|i2 [|? ?]]]] f' Hlen Hn Hd Hr v Hv; try done. apply HQ; [done| |done].
    intros i Hi. split; [by apply Hd|]. rewrite Forall_forall in Hr. by apply Hr.
  - intros J s' HJ Hd Hall T S W. apply (Hno J); [|done..].
    assert (length (seqZ 0 8) ≤ length (J ++ L))%nat as Hle.
    { apply submseteq_length, NoDup_submseteq; [apply NoDup_seqZ|]. intros i Hi%elem_of_seqZ. apply Hall. lia. }
    rewrite length_app, length_seqZ in Hle. cbn in HJ. lia.
Qed.

(** ** Rings

    The entries of a ring from index [lo] up to [hi], which count modulo 2^16. *)
Record ring_ok (lo hi : Z) (ring : Z → Z) (l : list Z) : Prop := {
  rg_lo : 0 ≤ lo < 2^16;
  rg_hi : 0 ≤ hi < 2^16;
  rg_len : u16 (hi - lo) = Z.of_nat (length l);
  rg_get : ∀ k x, l !! k = Some x → ring ((lo + Z.of_nat k) mod NUM) = x
}.

Lemma ring_push lo hi ring l x : ring_ok lo hi ring l → (length l < 8)%nat →
  ring_ok lo (u16 (hi + 1)) (fupd ring (hi mod NUM) x) (l ++ [x]).
Proof.
  intros [H1 H2 H3 H4] Hl. unfold u16 in *. change (2^16) with 65536 in *. split; unfold u16; change (2^16) with 65536; [done|apply Z.mod_pos_bound; lia|rewrite length_app; cbn; dlia|].
  intros k y Hk. destruct (decide (k < length l)%nat) as [Hlt|Hge].
  - rewrite lookup_app_l in Hk by done. rewrite fupd_ne; [by apply H4|]. dlia.
  - rewrite lookup_app_r in Hk by lia. apply list_lookup_singleton_Some in Hk as [Hk <-].
    replace ((lo + Z.of_nat k) mod NUM) with (hi mod NUM) by dlia. by rewrite fupd_eq.
Qed.

Lemma ring_pop lo hi ring x l : ring_ok lo hi ring (x :: l) →
  lo ≠ hi ∧ ring (lo mod NUM) = x ∧ ring_ok (u16 (lo + 1)) hi ring l.
Proof.
  intros [H1 H2 H3 H4]. cbn [length] in H3. unfold u16 in *. change (2^16) with 65536 in *. split_and!.
  - intros ->. rewrite Z.sub_diag in H3. rewrite Z.mod_0_l in H3 by lia. lia.
  - rewrite <-(H4 0%nat x) by done. by rewrite Z.add_0_r.
  - split; unfold u16; change (2^16) with 65536; [apply Z.mod_pos_bound; lia|done|dlia|]. intros k y Hk. rewrite <-(H4 (S k) y) by done. f_equal. dlia.
Qed.

Lemma ring_empty lo hi ring l : ring_ok lo hi ring l → lo = hi → l = [].
Proof. intros [H1 H2 H3 _] ->. rewrite Z.sub_diag in H3. by destruct l. Qed.

Lemma ring_nil lo ring : 0 ≤ lo < 2^16 → ring_ok lo lo ring [].
Proof. intros H. split; [done|done|by rewrite Z.sub_diag|done]. Qed.

(** ** Requests in progress *)

(** A call of virtio_disk_rw, with the kernel as it was at the call. *)
Record req := mkRq { r_me : Z; r_b : Z; r_w : bool; r_at : kstate }.

Definition blk (r : req) : Z := b_blockno (bufs (r_at r) (r_b r)).

(** The block that is moved. *)
Definition val (r : req) : mem := if r_w r then b_data (bufs (r_at r) (r_b r)) else disk (r_at r) (blk r).

(** A request that has its descriptors. *)
Record areq := mkA { a_r : req; a_0 : Z; a_1 : Z; a_2 : Z }.
Definition idx (a : areq) : list Z := [a_0 a; a_1 a; a_2 a].

Definition chain_ok (v : vdisk) (a : areq) : Prop :=
  let r := a_r a in
  desc v (a_0 a) = mkDesc (AOps (a_0 a)) 16 VRING_DESC_F_NEXT (a_1 a) ∧
  desc v (a_1 a) = mkDesc (AData (r_b r)) BSIZE (Z.lor (if r_w r then 0 else VRING_DESC_F_WRITE) VRING_DESC_F_NEXT) (a_2 a) ∧
  desc v (a_2 a) = mkDesc (AStatus (a_0 a)) 1 VRING_DESC_F_WRITE 0 ∧
  ops v (a_0 a) = mkReq (if r_w r then VIRTIO_BLK_T_OUT else VIRTIO_BLK_T_IN) 0 (2 * blk r) ∧
  info_b v (a_0 a) = r_b r.

(** Requests by how far they have come: in the available ring, taken by the
    device, in the used ring, and seen by the interrupt handler. *)
Record queues := mkQ { q_avail : list areq; q_dev : list areq; q_used : list areq; q_done : list areq }.
Definition active (q : queues) : list areq := q_avail q ++ q_dev q ++ q_used q ++ q_done q.

Section virtio.
(** ** The device

    What the device does with a queue is documented in the virtio
    specification; [seen] is how far it has read the available ring, [inflight]
    the chains it works on. *)
Context {Dev : Type} (inflight : Dev → list Z) (seen : Dev → Z) (device : Dev * dstate → Dev * dstate → Prop).

(** How the device reads a chain: sector, whether to write, buffer and the
    place of the status byte; None for a chain that is no block request. *)
Definition chain (v : vdisk) (h : Z) : option (Z * bool * Z * Z) :=
  let d0 := desc v h in
  let d1 := desc v (d_next d0) in
  let d2 := desc v (d_next d1) in
  match d_addr d0, d_addr d1, d_addr d2 with
  | AOps i, AData b, AStatus j =>
      let rq := ops v i in
      if (d_len d0 =? 16) && (d_flags d0 =? 1) && (d_len d1 =? BSIZE) && (d_len d2 =? 1) && (d_flags d2 =? 2) then
        if (rq_type rq =? VIRTIO_BLK_T_OUT) && (d_flags d1 =? 1) then Some (rq_sector rq, true, b, j)
        else if (rq_type rq =? VIRTIO_BLK_T_IN) && (d_flags d1 =? 3) then Some (rq_sector rq, false, b, j)
        else None
      else None
  | _, _, _ => None
  end.

(** The transfer, with the status byte 0, or 1 for a sector beyond the disk,
    and the entry in the used ring. *)
Definition move_block (w : bool) (b c : Z) (k : kstate) : kstate :=
  if w then set_disk (fupd (disk k) c (b_data (bufs k b))) k
  else upd_buf b (set_b_data (disk k c)) k.
Definition complete (h sector : Z) (w : bool) (b j : Z) (s : dstate) : dstate :=
  let ok := sector / 2 <? disk_size (ks s) in
  let v := set_info_status (fupd (info_status (vd s)) j (if ok then 0 else 1)) (vd s) in
  let v := set_u_ring (fupd (u_ring v) (u_idx v mod NUM) h) v in
  mkDstate (if ok then move_block w b (sector / 2) (ks s) else ks s) (set_u_idx (u16 (u_idx v + 1)) v).

Definition fetches (x y : Dev * dstate) : Prop :=
  let '(d, s) := x in let '(d', s') := y in
  seen d ≠ avail_idx (vd s) ∧ s' = s ∧ seen d' = u16 (seen d + 1) ∧
  inflight d' ≡ₚ avail_ring (vd s) (seen d mod NUM) :: inflight d.

Definition completes (h : Z) (x y : Dev * dstate) : Prop :=
  let '(d, s) := x in let '(d', s') := y in
  seen d' = seen d ∧ inflight d ≡ₚ h :: inflight d' ∧
  ∃ sector w b j, chain (vd s) h = Some (sector, w, b, j) ∧ s' = complete h sector w b j s.

(** The device only does these two things; with a chain that is no block
    request it may do anything. *)
Class VirtioBlk : Prop := virtio_blk : ∀ x y, device x y →
  fetches x y ∨ ∃ h, h ∈ inflight x.1 ∧ (completes h x y ∨ chain (vd x.2) h = None).

(** ** The system: processes inside virtio_disk_rw, the device, interrupts,
    and the rest of the kernel. *)
Definition sys : Type := list (req * vresume) * Dev * dstate.

Definition going (r : req) (res : vresume + unit) (cs : list (req * vresume)) : list (req * vresume) :=
  match res with inl k => (r, k) :: cs | inr _ => cs end.

(** The buffer cache calls with a locked buffer, the only one of its block. *)
Definition may_call (N : Z) (r : req) (cs : list (req * vresume)) (k : kstate) : Prop :=
  r_at r = k ∧ 0 ≤ r_me r < NPROC ∧ p_state (procs k (r_me r)) = RUNNING ∧ 0 ≤ r_b r ∧ 0 ≤ blk r < N ∧
  ∀ r' k', (r', k') ∈ cs → r_me r' ≠ r_me r ∧ r_b r' ≠ r_b r ∧ b_blockno (bufs k (r_b r')) ≠ blk r.

(** What the rest of the kernel leaves alone: the disk, the buffers of the
    requests, and the sleep of their processes. *)
Definition minds (cs : list (req * vresume)) (k k' : kstate) : Prop :=
  disk k' = disk k ∧ disk_size k' = disk_size k ∧
  ∀ r x, (r, x) ∈ cs → bufs k' (r_b r) = bufs k (r_b r) ∧
    (p_state (procs k' (r_me r)) = SLEEPING → p_state (procs k (r_me r)) = SLEEPING ∧ p_chan (procs k' (r_me r)) = p_chan (procs k (r_me r))).

Definition resume_rw (r : req) (k : vresume) : M dstate (vresume + unit) :=
  on_ks (sleep_return (r_me r)) ;; virtio_disk_rw (r_me r) (r_b r) (r_w r) k.

Inductive sys_step (N : Z) : sys → sys → Prop :=
| SCall r res cs d s s' : may_call N r cs (ks s) →
    virtio_disk_rw (r_me r) (r_b r) (r_w r) VStart s = Done (res, s') → sys_step N (cs, d, s) (going r res cs, d, s')
| SResume r k res cs cs' d s s' : cs ≡ₚ (r, k) :: cs' → p_state (procs (ks s) (r_me r)) = RUNNING →
    resume_rw r k s = Done (res, s') → sys_step N (cs, d, s) (going r res cs', d, s')
| SIntr me istatus cs d s s' : p_state (procs (ks s) me) = RUNNING →
    virtio_disk_intr me istatus s = Done (tt, s') → sys_step N (cs, d, s) (cs, d, s')
| SDevice cs d s d' s' : device (d, s) (d', s') → sys_step N (cs, d, s) (cs, d', s')
| SOther cs d s k' : minds cs (ks s) k' → sys_step N (cs, d, s) (cs, d, set_ks k' s).

(** After virtio_disk_init, with a device that has just been reset. *)
Definition sys_init (N : Z) (x : sys) : Prop :=
  let '(cs, d, s) := x in
  cs = [] ∧ inflight d = [] ∧ seen d = 0 ∧ avail_idx (vd s) = 0 ∧ u_idx (vd s) = 0 ∧ used_idx (vd s) = 0 ∧
  (∀ i, 0 ≤ i < NUM → vfree (vd s) i = true) ∧ disk_size (ks s) = N ∧ N < 2^31.

(** ** The invariant *)

(** The descriptors and headers of the requests in progress. *)
Record vshape (v : vdisk) (l : list areq) : Prop := {
  vs_nodup : NoDup (l ≫= idx);
  vs_range : ∀ i, i ∈ l ≫= idx → 0 ≤ i < NUM;
  vs_taken : taken v (l ≫= idx);
  vs_chain : ∀ a, a ∈ l → chain_ok v a
}.

Record vinv (v : vdisk) (d : Dev) (q : queues) : Prop := {
  vi_shape : vshape v (active q);
  vi_busy : ∀ a, a ∈ q_avail q ++ q_dev q ++ q_used q → b_disk v (r_b (a_r a)) = true;
  vi_idle : ∀ a, a ∈ q_done q → b_disk v (r_b (a_r a)) = false;
  vi_avail : ring_ok (seen d) (avail_idx v) (avail_ring v) (a_0 <$> q_avail q);
  vi_dev : inflight d ≡ₚ a_0 <$> q_dev q;
  vi_used : ring_ok (used_idx v) (u_idx v) (u_ring v) (a_0 <$> q_used q);
  vi_status : ∀ a, a ∈ q_used q → info_status v (a_0 a) = 0
}.

(** Processes, buffers and blocks of the requests are distinct. *)
Record kshape (N : Z) (k : kstate) (rs : list req) : Prop := {
  ksh_size : disk_size k = N ∧ N < 2^31;
  ksh_procs : NoDup (r_me <$> rs);
  ksh_bufs : NoDup (r_b <$> rs);
  ksh_blks : NoDup (blk <$> rs);
  ksh_blk : ∀ r, r ∈ rs → b_blockno (bufs k (r_b r)) = blk r ∧ 0 ≤ blk r < N ∧ 0 ≤ r_me r < NPROC ∧ 0 ≤ r_b r ∧
    disk_size (r_at r) = N
}.

Definition reqs (q : queues) (ws : list req) : list req := (a_r <$> active q) ++ ws.

Definition before (k : kstate) (r : req) : Prop :=
  if r_w r then b_data (bufs k (r_b r)) = val r else disk k (blk r) = val r.
Definition moved (k : kstate) (r : req) : Prop := b_data (bufs k (r_b r)) = val r ∧ disk k (blk r) = val r.
Definition asleep (k : kstate) (r : req) : Prop := p_state (procs k (r_me r)) = SLEEPING.
Definition asleep_for (k : kstate) (r : req) (c : chan) : Prop := asleep k r → p_chan (procs k (r_me r)) = Some c.

Record kinv (N : Z) (k : kstate) (q : queues) (ws : list req) : Prop := {
  ki_shape : kshape N k (reqs q ws);
  ki_before : ∀ a, a ∈ q_avail q ++ q_dev q → before k (a_r a);
  ki_start : ∀ r, r ∈ ws → before k r ∧ asleep_for k r ChDiskFree ∧ (asleep k r → (2 ≤ length (active q))%nat);
  ki_moved : ∀ a, a ∈ q_used q ++ q_done q → moved k (a_r a);
  ki_wait : ∀ a, a ∈ active q → asleep_for k (a_r a) (ChBuf (r_b (a_r a)));
  ki_awake : ∀ a, a ∈ q_done q → ¬ asleep k (a_r a)
}.

Definition conts (q : queues) (ws : list req) : list (req * vresume) :=
  ((λ a, (a_r a, VWait (a_0 a))) <$> active q) ++ ((λ r, (r, VStart)) <$> ws).

Definition inv (N : Z) (x : sys) : Prop :=
  let '(cs, d, s) := x in ∃ q ws, cs ≡ₚ conts q ws ∧ vinv (vd s) d q ∧ kinv N (ks s) q ws.

#[local] Instance vshape_proper v : Proper ((≡ₚ) ==> iff) (vshape v).
Proof.
  assert (∀ l l', l ≡ₚ l' → vshape v l → vshape v l') as H; [|intros l l' E; split; by apply H].
  intros l l' E [H1 H2 H3 H4]. split.
  - by rewrite <-E.
  - intros i. rewrite <-E. apply H2.
  - eapply taken_ext; [exact H3|]. intros i. by rewrite E.
  - intros a. rewrite <-E. apply H4.
Qed.

#[local] Instance kshape_proper N k : Proper ((≡ₚ) ==> iff) (kshape N k).
Proof.
  assert (∀ l l', l ≡ₚ l' → kshape N k l → kshape N k l') as H; [|intros l l' E; split; by apply H].
  intros l l' E [H1 H2 H3 H4 H5]. split; rewrite <-?E; try done. intros r. rewrite <-E. apply H5.
Qed.

Lemma kshape_cons N k r rs : kshape N k (r :: rs) → kshape N k rs.
Proof.
  intros [H1 H2 H3 H4 H5]. rewrite fmap_cons in H2, H3, H4.
  apply NoDup_cons in H2 as [_ H2], H3 as [_ H3], H4 as [_ H4]. split; try done. intros r' Hr. apply H5. by right.
Qed.

(** Another request has another process, buffer and block. *)
Lemma kshape_other N k r rs r' : kshape N k (r :: rs) → r' ∈ rs → r_me r' ≠ r_me r ∧ r_b r' ≠ r_b r ∧ blk r' ≠ blk r.
Proof.
  intros [_ H2 H3 H4 _] Hr. rewrite fmap_cons in H2, H3, H4.
  apply NoDup_cons in H2 as [H2 _], H3 as [H3 _], H4 as [H4 _].
  split_and!; intros E; [apply H2|apply H3|apply H4]; rewrite <-E; by apply list_elem_of_fmap_2.
Qed.

Lemma idx_length (l : list areq) : length (l ≫= idx) = (3 * length l)%nat.
Proof. induction l as [|a l IH]; [done|]. rewrite bind_cons, length_app, IH. cbn. lia. Qed.

(** At most two requests are in progress. *)
Lemma vshape_length v l : vshape v l → (length l ≤ 2)%nat.
Proof.
  intros [H1 H2 _ _].
  assert (length (l ≫= idx) ≤ length (seqZ 0 8))%nat as Hle.
  { apply submseteq_length, NoDup_submseteq; [done|]. intros i Hi%H2. apply elem_of_seqZ. lia. }
  rewrite idx_length, length_seqZ in Hle. lia.
Qed.

Lemma vshape_other v a l i : vshape v (a :: l) → i ∈ l ≫= idx → i ∉ idx a.
Proof.
  intros [H1 _ _ _] Hi Hi'. rewrite bind_cons in H1. apply NoDup_app in H1 as (_ & H1 & _). by apply (H1 i).
Qed.

Lemma idx_in a l : a ∈ l → ∀ i, i ∈ idx a → i ∈ l ≫= idx.
Proof. intros Ha i Hi. apply list_elem_of_bind. by exists a. Qed.

(** ** Steps of the device *)
Lemma chain_reads v a : chain_ok v a → chain v (a_0 a) = Some (2 * blk (a_r a), r_w (a_r a), r_b (a_r a), a_0 a).
Proof. intros (E0 & E1 & E2 & E3 & _). unfold chain. rewrite E0. cbn. rewrite E1. cbn. rewrite E2. cbn. rewrite E3. by destruct (r_w (a_r a)). Qed.

Lemma inv_fetch N cs d s d' s' : inv N (cs, d, s) → fetches (d, s) (d', s') → inv N (cs, d', s').
Proof.
  intros ([qa qd qu qn] & ws & Hcs & [V1 V2 V3 V4 V5 V6 V7] & [K1 K2 K3 K4 K5 K6]) (Hne & -> & Hs & Hi).
  unfold active, conts, reqs in *. cbn [q_avail q_dev q_used q_done] in *.
  destruct qa as [|a qa]; [exfalso; apply Hne; destruct V4 as [R1 R2 R3 _]; cbn in R3; unfold u16 in R3; change (2^16) with 65536 in *; dlia|].
  rewrite fmap_cons in V4. apply ring_pop in V4 as (_ & E & V4).
  assert (qa ++ (a :: qd) ++ qu ++ qn ≡ₚ (a :: qa) ++ qd ++ qu ++ qn) as HP by solve_Permutation.
  exists (mkQ qa (a :: qd) qu qn), ws. unfold active, conts, reqs. cbn [q_avail q_dev q_used q_done]. split_and!.
  - by rewrite HP.
  - split; cbn [q_avail q_dev q_used q_done active]; try done.
    + by rewrite HP.
    + intros x Hx. apply V2. set_solver.
    + by rewrite Hs.
    + rewrite Hi, E, V5. done.
  - split; unfold reqs, active; cbn [q_avail q_dev q_used q_done]; try done.
    + by rewrite HP.
    + intros x Hx. apply K2. set_solver.
    + intros r Hr. rewrite HP. by apply K3.
    + intros x Hx. apply K5. set_solver.
Qed.

Lemma move_block_same N k r rs r' w : kshape N k (r :: rs) → r' ∈ rs → let k' := move_block w (r_b r) (blk r) k in
  bufs k' (r_b r') = bufs k (r_b r') ∧ disk k' (blk r') = disk k (blk r').
Proof.
  intros HK Hr k'. destruct (kshape_other _ _ _ _ _ HK Hr) as (_ & Hb & Hc). unfold k', move_block.
  destruct w; cbn; by rewrite fupd_ne.
Qed.

Lemma move_block_moved k r : before k r → moved (move_block (r_w r) (r_b r) (blk r) k) r.
Proof. unfold before, moved, move_block. intros H. destruct (r_w r); cbn; rewrite ?fupd_eq; done. Qed.

Lemma kshape_bufs N k k' rs : kshape N k rs → disk_size k' = disk_size k →
  (∀ r, r ∈ rs → b_blockno (bufs k' (r_b r)) = b_blockno (bufs k (r_b r))) → kshape N k' rs.
Proof.
  intros [H1 H2 H3 H4 H5] Hs Hb. split; try done; [by rewrite Hs|]. intros r Hr. rewrite Hb by done. by apply H5.
Qed.

Lemma move_block_procs w b c k : procs (move_block w b c k) = procs k ∧ disk_size (move_block w b c k) = disk_size k ∧
  ∀ b', b_blockno (bufs (move_block w b c k) b') = b_blockno (bufs k b').
Proof. unfold move_block. destruct w; cbn; split_and!; try done. intros b'. rewrite fupd_spec. by case_decide; subst. Qed.

Lemma inv_complete N cs d s d' s' h : inv N (cs, d, s) → h ∈ inflight d → completes h (d, s) (d', s') → inv N (cs, d', s').
Proof.
  intros ([qa qd qu qn] & ws & Hcs & [V1 V2 V3 V4 V5 V6 V7] & [K1 K2 K3 K4 K5 K6]) Hh (Hs & Hi & sec & w & b & j & Hch & ->).
  unfold active, conts, reqs in *. cbn [q_avail q_dev q_used q_done] in *.
  rewrite V5 in Hh. apply list_elem_of_fmap in Hh as (a & -> & Ha). apply list_elem_of_split in Ha as (l1 & l2 & ->).
  assert (qa ++ (l1 ++ a :: l2) ++ qu ++ qn ≡ₚ a :: qa ++ (l1 ++ l2) ++ qu ++ qn) as HP by solve_Permutation.
  assert (qa ++ (l1 ++ l2) ++ (qu ++ [a]) ++ qn ≡ₚ a :: qa ++ (l1 ++ l2) ++ qu ++ qn) as HP' by solve_Permutation.
  rewrite HP in V1, K1, Hcs. pose proof (vs_chain _ _ V1 a ltac:(left)) as Ca. rewrite (chain_reads _ _ Ca) in Hch. injection Hch as <- <- <- <-.
  destruct (ksh_blk _ _ _ K1 (a_r a) ltac:(left)) as (Hb & Hr & _). pose proof (ksh_size _ _ _ K1) as [Hsz HN].
  pose proof (vshape_length _ _ V1) as Hlen. cbn [length] in Hlen. rewrite !length_app in Hlen.
  unfold complete. rewrite Z.mul_comm, Z.div_mul, Hsz, (proj2 (Z.ltb_lt _ _)) by lia.
  set (k' := move_block _ _ _ (ks s)). destruct (move_block_procs (r_w (a_r a)) (r_b (a_r a)) (blk (a_r a)) (ks s)) as (Ep & Ed & Eb).
  fold k' in Ep, Ed, Eb. rewrite fmap_cons in K1. cbn [app] in K1.
  assert (∀ r', r' ∈ (a_r <$> qa ++ (l1 ++ l2) ++ qu ++ qn) ++ ws → bufs k' (r_b r') = bufs (ks s) (r_b r') ∧ disk k' (blk r') = disk (ks s) (blk r')) as Hsame.
  { intros r' Hr'. eapply move_block_same; [exact K1|done]. }
  assert (∀ x, x ∈ qa ++ (l1 ++ l2) ++ qu ++ qn → a_r x ∈ (a_r <$> qa ++ (l1 ++ l2) ++ qu ++ qn) ++ ws) as Hin.
  { intros x Hx. apply elem_of_app. left. by apply list_elem_of_fmap_2. }
  exists (mkQ qa (l1 ++ l2) (qu ++ [a]) qn), ws. unfold active, conts, reqs. cbn [q_avail q_dev q_used q_done vd ks]. split_and!.
  - by rewrite HP'.
  - split; cbn [q_avail q_dev q_used q_done]; unfold active; cbn [q_avail q_dev q_used q_done]; try done.
    + rewrite HP'. destruct V1 as [? ? ? ?]. by split.
    + intros x Hx. apply V2. set_solver.
    + by rewrite Hs.
    + rewrite V5, !fmap_app, fmap_cons in Hi. rewrite fmap_app. apply (Permutation_cons_inv (a := a_0 a)). rewrite <-Hi. solve_Permutation.
    + rewrite fmap_app. apply ring_push; [done|]. rewrite length_fmap. lia.
    + intros x Hx. cbn. rewrite fupd_spec. case_decide; [done|]. apply elem_of_app in Hx as [Hx|Hx%list_elem_of_singleton]; [by apply V7|congruence].
  - split; unfold reqs, active; cbn [q_avail q_dev q_used q_done]; try done.
    + rewrite HP', fmap_cons. eapply kshape_bufs; [exact K1|done|]. intros r _. apply Eb.
    + intros x Hx. destruct (Hsame (a_r x)) as [E1 E2]; [apply Hin; set_solver|]. unfold before. rewrite E1, E2. apply K2. set_solver.
    + intros r Hr'. destruct (Hsame r) as [E1 E2]; [set_solver|]. unfold before, asleep_for, asleep. rewrite E1, E2, Ep, HP', <-HP. by apply K3.
    + intros x Hx. assert (x = a ∨ x ∈ qu ++ qn) as [->|Hx2] by set_solver.
      * apply move_block_moved, K2. set_solver.
      * destruct (Hsame (a_r x)) as [E1 E2]; [apply Hin; set_solver|]. unfold moved. rewrite E1, E2. apply K4. set_solver.
    + intros x Hx. unfold asleep_for, asleep. rewrite Ep. apply K5. set_solver.
    + intros x Hx. unfold asleep. rewrite Ep. by apply K6.
Qed.

(** ** Steps of the kernel *)

(** What the rest of the kernel does to the requests [rs]. *)
Definition quiet (rs : list req) (k k' : kstate) : Prop :=
  disk k' = disk k ∧ disk_size k' = disk_size k ∧
  ∀ r, r ∈ rs → bufs k' (r_b r) = bufs k (r_b r) ∧ (asleep k' r → asleep k r ∧ p_chan (procs k' (r_me r)) = p_chan (procs k (r_me r))).

Lemma conts_reqs q ws r : r ∈ reqs q ws → ∃ x, (r, x) ∈ conts q ws.
Proof.
  unfold reqs, conts. intros [Hr|Hr]%elem_of_app.
  - apply list_elem_of_fmap in Hr as (a & -> & Ha). exists (VWait (a_0 a)). apply elem_of_app. left.
    apply list_elem_of_fmap. by exists a.
  - exists VStart. apply elem_of_app. right. apply list_elem_of_fmap. by exists r.
Qed.

Lemma active_reqs q ws a : a ∈ active q → a_r a ∈ reqs q ws.
Proof. intros Ha. apply elem_of_app. left. by apply list_elem_of_fmap_2. Qed.

Lemma wakes_quiet rs k k' : wakes k k' → quiet rs k k'.
Proof.
  intros [W1 W2 W3]. unfold quiet, asleep. rewrite W1. cbn. split_and!; [done|done|]. intros r _. split; [done|].
  intros Ha. rewrite W2. destruct (W3 (r_me r)) as [<-|[? E]]; [done|congruence].
Qed.

Lemma kinv_quiet N k k' q ws : kinv N k q ws → quiet (reqs q ws) k k' → kinv N k' q ws.
Proof.
  intros [K1 K2 K3 K4 K5 K6] (Hd & Hs & Hq).
  assert (∀ a, a ∈ active q → bufs k' (r_b (a_r a)) = bufs k (r_b (a_r a)) ∧
    (asleep k' (a_r a) → asleep k (a_r a) ∧ p_chan (procs k' (r_me (a_r a))) = p_chan (procs k (r_me (a_r a))))) as Hqa.
  { intros a Ha. by apply Hq, active_reqs. }
  unfold active in *. split.
  - eapply kshape_bufs; [exact K1|done|]. intros r Hr. by rewrite (proj1 (Hq r Hr)).
  - intros a Ha. destruct (Hqa a) as [E _]; [set_solver|]. unfold before. rewrite E, Hd. by apply K2.
  - intros r Hr. destruct (Hq r) as [E Ha]; [set_solver|]. destruct (K3 r Hr) as (A1 & A2 & A3). unfold before, asleep_for.
    rewrite E, Hd. split_and!; [done|..]; intros [Has Hch]%Ha; [rewrite Hch; by apply A2|by apply A3].
  - intros a Ha. destruct (Hqa a) as [E _]; [set_solver|]. unfold moved. rewrite E, Hd. by apply K4.
  - intros a Ha. destruct (Hqa a Ha) as [E Hal]. intros [Has ->]%Hal. by apply K5.
  - intros a Ha [Has _]%Hqa; [by apply (K6 a)|set_solver].
Qed.

(** A process stops running for channel [c]. *)
Definition to_sleep (me : Z) (c : chan) (k : kstate) : kstate :=
  upd_proc me (set_p_state SLEEPING) (upd_proc me (set_p_chan (Some c)) k).

Lemma to_sleep_other me c k r : r_me r ≠ me → procs (to_sleep me c k) (r_me r) = procs k (r_me r).
Proof. intros Hr. cbn. by rewrite !fupd_ne. Qed.

Lemma to_sleep_chan me c k : p_chan (procs (to_sleep me c k) me) = Some c.
Proof. cbn. by rewrite !fupd_eq. Qed.

Lemma going_running me k k' : wakes k k' → p_state (procs k me) = RUNNING → p_state (procs k' me) = RUNNING.
Proof. intros [_ _ W3] Hr. destruct (W3 me) as [->|[? _]]; congruence. Qed.

(** The interrupt handler takes one entry of the used ring. *)
Lemma intr_turn_wp N cs d s me (Q : unit + unit → dstate → Prop) : inv N (cs, d, s) → p_state (procs (ks s) me) = RUNNING →
  (used_idx (vd s) = u_idx (vd s) → Q (inr tt) s) →
  (∀ s', inv N (cs, d, s') → p_state (procs (ks s') me) = RUNNING → 1 ≤ u16 (u_idx (vd s) - used_idx (vd s)) →
    u16 (u_idx (vd s') - used_idx (vd s')) = u16 (u_idx (vd s) - used_idx (vd s)) - 1 → avail_idx (vd s') = avail_idx (vd s) → Q (inl tt) s') →
  wp (intr_turn me tt) Q s.
Proof.
  intros ([qa qd qu qn] & ws & Hcs & [V1 V2 V3 V4 V5 V6 V7] & K) Hrun Hend HQ. unfold intr_turn. do 2 wp_step.
  destruct (Z.eqb_spec (used_idx (vd s)) (u_idx (vd s))) as [E|E]; [wp_step; by apply Hend|].
  unfold active, conts, reqs in *. cbn [q_avail q_dev q_used q_done] in *.
  destruct qu as [|a qu]; [exfalso; apply E; destruct V6 as [R1 R2 R3 _]; cbn in R3; unfold u16 in R3; change (2^16) with 65536 in *; dlia|].
  rewrite fmap_cons in V6. pose proof (rg_len _ _ _ _ V6) as Hl0. apply ring_pop in V6 as (_ & Eid & V6). pose proof (rg_len _ _ _ _ V6) as Hl1.
  pose proof (vs_chain _ _ V1 a ltac:(set_solver)) as (_ & _ & _ & _ & Eb). rewrite Eid, V7 by left. cbn [negb Z.eqb]. rewrite Eb.
  assert (qa ++ qd ++ qu ++ a :: qn ≡ₚ qa ++ qd ++ (a :: qu) ++ qn) as HP by solve_Permutation.
  assert (qa ++ qd ++ (a :: qu) ++ qn ≡ₚ a :: qa ++ qd ++ qu ++ qn) as HP2 by solve_Permutation.
  pose proof K as [K1 K2 K3 K4 K5 K6]. unfold reqs, active in *. cbn [q_avail q_dev q_used q_done] in *.
  assert (∀ x, x ∈ qa ++ qd ++ qu ++ qn → r_b (a_r x) ≠ r_b (a_r a)) as Hother.
  { intros x Hx. rewrite HP2, fmap_cons in K1. apply (kshape_other _ _ _ _ (a_r x)) in K1 as (_ & ? & _); [done|].
    apply elem_of_app. left. by apply list_elem_of_fmap_2. }
  destruct (Z.eqb_spec (r_b (a_r a)) (-1)) as [Em|_]; [exfalso; destruct (ksh_blk _ _ _ K1 (a_r a)) as (_ & _ & _ & ?); [set_solver|lia]|].
  do 3 wp_step. apply wp_on_ks, wakeup_wakes. intros k' Hw Hnone. do 3 wp_step.
  apply HQ; cbn [vd ks set_ks upd_vd set_vd]; [|by eapply going_running|cbn [length] in Hl0; lia|cbn in *; lia|done].
  pose proof (kinv_quiet _ _ _ _ _ K (wakes_quiet _ _ _ Hw)) as [L1 L2 L3 L4 L5 L6].
  unfold reqs, active in *. cbn [q_avail q_dev q_used q_done] in *.
  exists (mkQ qa qd qu (a :: qn)), ws. unfold active, conts. cbn [q_avail q_dev q_used q_done]. split_and!; [by rewrite HP|..].
  - split; cbn [q_avail q_dev q_used q_done]; unfold active; cbn [q_avail q_dev q_used q_done vd]; try done.
    + rewrite HP. destruct V1. by split.
    + intros x Hx. cbn. rewrite fupd_ne; [|apply Hother]; set_solver.
    + intros x Hx. cbn. rewrite fupd_spec. case_decide; [done|]. apply V3. set_solver.
    + intros x Hx. apply V7. by right.
  - split; unfold reqs, active; cbn [q_avail q_dev q_used q_done ks]; try done.
    + by rewrite HP.
    + intros r Hr. rewrite HP. by apply L3.
    + intros x Hx. apply L4. set_solver.
    + intros x Hx. apply L5. set_solver.
    + intros x Hx Has. apply elem_of_cons in Hx as [->|Hx]; [|by apply (L6 x)].
      destruct (ksh_blk _ _ _ K1 (a_r a)) as (_ & _ & Hme & _); [set_solver|].
      apply (Hnone (r_me (a_r a))); [|split_and!; [lia|lia|exact Has|apply L5; [set_solver|exact Has]]].
      intros Eme. pose proof (going_running me _ _ Hw Hrun) as Hr'. unfold asleep in Has. rewrite Eme in Has. cbn in Has, Hr'. congruence.
Qed.

Lemma virtio_disk_intr_wp N cs d s me istatus (Q : unit → dstate → Prop) : inv N (cs, d, s) → p_state (procs (ks s) me) = RUNNING →
  (∀ s', inv N (cs, d, s') → used_idx (vd s') = u_idx (vd s') → avail_idx (vd s') = avail_idx (vd s) → Q tt s') →
  wp (virtio_disk_intr me istatus) Q s.
Proof.
  intros HI Hrun HQ. unfold virtio_disk_intr, R_write. do 4 wp_step. cbn [vd upd_vd set_vd set_mmio u_idx used_idx].
  apply (wp_while (λ n _ s', inv N (cs, d, s') ∧ p_state (procs (ks s') me) = RUNNING ∧ avail_idx (vd s') = avail_idx (vd s) ∧
    n = S (Z.to_nat (u16 (u_idx (vd s') - used_idx (vd s')))))).
  - intros n [] s' (HI' & Hr' & Ha & ->). eexists. split; [done|]. apply (intr_turn_wp N cs d); [done|done| |].
    + intros E. by apply HQ.
    + intros s2 HI2 Hr2 Hge Hdec Ha2. split_and!; [done|done|congruence|]. rewrite Hdec. lia.
  - split_and!; [|done|done|done]. destruct HI as (q & ws & Hcs & [[] ? ? ? ? ? ?] & HK). exists q, ws.
    split; [done|]. split; [split; [by split|done..]|done].
Qed.

(** ** Waiting for a request *)
Lemma free_chain_wp me a L f s (Q : unit → dstate → Prop) : taken (vd s) (idx a ++ L) → NoDup (idx a ++ L) →
  (∀ i, i ∈ idx a → 0 ≤ i < NUM) → chain_ok (set_info_b f (vd s)) a →
  (∀ s', taken (vd s') L → same_but (idx a) (vd s) (vd s') → wakes (ks s) (ks s') → none_on me ChDiskFree (ks s') → Q tt s') →
  wp (free_chain me (a_0 a)) Q s.
Proof.
  intros HT Hnd Hr (E0 & E1 & E2 & _) HQ. cbn [desc set_info_b] in E0, E1, E2. unfold free_chain, idx in *. cbn [app] in *.
  apply NoDup_cons in Hnd as [N0 Hnd]. apply NoDup_cons in Hnd as [N1 Hnd]. apply NoDup_cons in Hnd as [N2 Hnd].
  change (S (Z.to_nat NUM)) with 9%nat. apply wp_while_S. wp_step. wp_step. wp_step.
  apply (free_desc_wp me (a_0 a) (a_1 a :: a_2 a :: L)); [done|done|apply Hr; set_solver|].
  intros s1 T1 [S1 S1'] W1 _. wp_step. rewrite E0. cbn [d_flags d_next]. change (Z.testbit 1 0) with true. cbv iota.
  apply wp_while_S. wp_step. wp_step. wp_step.
  apply (free_desc_wp me (a_1 a) (a_2 a :: L)); [done|done|apply Hr; set_solver|].
  intros s2 T2 [S2 S2'] W2 _. wp_step. rewrite S1, E1 by set_solver. cbn [d_flags d_next].
  replace (Z.testbit _ 0) with true by (by destruct (r_w (a_r a))). cbv iota.
  apply wp_while_S. wp_step. wp_step. wp_step.
  apply (free_desc_wp me (a_2 a) L); [done|done|apply Hr; set_solver|].
  intros s3 T3 S3 W3 Hn. wp_step. rewrite S2, S1, E2 by set_solver. cbn [d_flags]. change (Z.testbit 2 0) with false. cbv iota.
  apply HQ; [done| |by do 2 (etrans; [eassumption|])|done].
  apply (same_but_trans [a_0 a] [a_1 a; a_2 a] _ (vd s1)); [by split|].
  apply (same_but_trans [a_1 a] [a_2 a] _ (vd s2)); [by split|done].
Qed.

(** The rest of the requests after one is done. *)
Lemma vshape_free v v' a l : vshape v (a :: l) → taken v' (l ≫= idx) → ops v' = ops v →
  (∀ i, i ∉ idx a → desc v' i = desc v i ∧ info_b v' i = info_b v i) → vshape v' l.
Proof.
  intros HV HT Ho Hd. pose proof HV as [H1 H2 H3 H4]. rewrite bind_cons in H1, H2. apply NoDup_app in H1 as (_ & Hdis & H1). split.
  - done.
  - intros i Hi. apply H2. set_solver.
  - done.
  - intros x Hx. assert (∀ i, i ∈ idx x → desc v' i = desc v i ∧ info_b v' i = info_b v i) as Hx'.
    { intros i Hi. apply Hd. eapply vshape_other; [exact HV|]. by eapply idx_in. }
    destruct (H4 x ltac:(by right)) as (E0 & E1 & E2 & E3 & E4). unfold chain_ok. rewrite Ho.
    destruct (Hx' (a_0 x)) as [-> ->]; [set_solver|]. destruct (Hx' (a_1 x)) as [-> _]; [set_solver|].
    by destruct (Hx' (a_2 x)) as [-> _]; [set_solver|].
Qed.

Lemma fmap_inj_in {A} (f : A → Z) l x y : NoDup (f <$> l) → x ∈ l → y ∈ l → f x = f y → x = y.
Proof.
  intros Hnd (i & Hi)%list_elem_of_lookup (j & Hj)%list_elem_of_lookup E.
  assert (i = j) as ->; [|congruence]. eapply NoDup_lookup; [exact Hnd|..]; rewrite list_lookup_fmap; [by rewrite Hi|]. by rewrite Hj, E.
Qed.

Lemma kshape_same N k rs r r' : kshape N k rs → r ∈ rs → r' ∈ rs → r_me r = r_me r' → r = r'.
Proof. intros [_ H _ _ _]. by apply fmap_inj_in. Qed.

Lemma reqs_disjoint N k q ws a r : kshape N k (reqs q ws) → a ∈ active q → r ∈ ws → a_r a ≠ r.
Proof.
  intros [_ H _ _ _] Ha Hr E. unfold reqs in H. rewrite fmap_app in H. apply NoDup_app in H as (_ & H & _).
  apply (H (r_me r)); [|by apply list_elem_of_fmap_2]. rewrite <-E. by do 2 apply list_elem_of_fmap_2.
Qed.

Lemma kinv_to_sleep N k q ws r c : kinv N k q ws → r ∈ reqs q ws → (∀ a, a ∈ active q → a_r a = r → c = ChBuf (r_b r)) →
  (∀ a, a ∈ q_done q → a_r a ≠ r) → (r ∈ ws → c = ChDiskFree ∧ (2 ≤ length (active q))%nat) → kinv N (to_sleep (r_me r) c k) q ws.
Proof.
  intros [K1 K2 K3 K4 K5 K6] Hr Hc Hd Hw.
  assert (∀ x, x ∈ reqs q ws → x = r ∨ procs (to_sleep (r_me r) c k) (r_me x) = procs k (r_me x)) as Hx.
  { intros x Hx. destruct (decide (r_me x = r_me r)) as [E|E]; [left; by eapply kshape_same|right; by apply to_sleep_other]. }
  split; try done.
  - eapply kshape_bufs; [exact K1|done|done].
  - intros x Hin. destruct (K3 x Hin) as (A1 & A2 & A3). split; [exact A1|]. unfold asleep_for, asleep.
    destruct (Hx x) as [->|E]; [set_solver| |rewrite E; by split].
    destruct (Hw Hin) as [-> Hl]. split; [intros _; apply to_sleep_chan|done].
  - intros a Ha. unfold asleep_for, asleep. destruct (Hx (a_r a)) as [E|E]; [by apply active_reqs| |rewrite E; by apply K5].
    rewrite E, to_sleep_chan. intros _. by rewrite (Hc a).
  - intros a Ha. unfold asleep. destruct (Hx (a_r a)) as [E|E]; [apply active_reqs; unfold active; set_solver|by apply (Hd a) in Ha|].
    rewrite E. by apply K6.
Qed.

(** A request leaves. *)
Lemma inv_leave N k d q l1 a l2 ws v v' k' me : let q' := mkQ (q_avail q) (q_dev q) (q_used q) (l1 ++ l2) in
  q_done q = l1 ++ a :: l2 → vinv v d q → kinv N k q ws → r_me (a_r a) = me →
  v' = set_vfree (vfree v') (set_desc (desc v') (set_info_b (fupd (info_b v) (a_0 a) (-1)) v)) →
  (∀ i, i ∉ idx a → desc v' i = desc v i) → taken v' (active q' ≫= idx) → wakes k k' → none_on me ChDiskFree k' →
  vinv v' d q' ∧ kinv N k' q' ws.
Proof.
  intros q' Hq [V1 V2 V3 V4 V5 V6 V7] HK Hme Ev Hd HT Hw Hn.
  assert (active q ≡ₚ a :: active q') as HP by (unfold active, q'; cbn; rewrite Hq; solve_Permutation).
  pose proof (kinv_quiet _ _ _ _ _ HK (wakes_quiet _ _ _ Hw)) as [K1 K2 K3 K4 K5 K6]. rewrite HP in V1. unfold reqs in K1. rewrite HP, fmap_cons in K1.
  split.
  - split; try done; try (rewrite Ev; done).
    + eapply vshape_free; [exact V1|done|by rewrite Ev|]. intros i Hi. split; [by apply Hd|]. rewrite Ev. cbn. rewrite fupd_ne; [done|set_solver].
    + intros x Hx. rewrite Ev. cbn. apply V3. rewrite Hq. cbn in Hx. set_solver.
  - split; try done.
    + by eapply kshape_cons.
    + intros r Hr. destruct (K3 r Hr) as (A1 & A2 & A3). split_and!; [done|done|]. intros Has. exfalso.
      destruct (kshape_other _ _ _ _ r K1) as (Hne & _ & _); [set_solver|]. rewrite Hme in Hne. apply (Hn (r_me r) Hne).
      destruct (ksh_blk _ _ _ K1 r) as (_ & _ & ? & _); [set_solver|]. split_and!; [lia|lia|done|by apply A2].
    + intros x Hx. apply K4. rewrite Hq. cbn in Hx. set_solver.
    + intros x Hx. apply K5. rewrite HP. by right.
    + intros x Hx. apply K6. rewrite Hq. cbn in Hx. set_solver.
Qed.

Lemma conts_wait q ws r i : (r, VWait i) ∈ conts q ws → ∃ a, a ∈ active q ∧ r = a_r a ∧ i = a_0 a.
Proof.
  intros [H|H]%elem_of_app; apply list_elem_of_fmap in H as (a & E & Ha); [|done]. injection E as -> ->. by exists a.
Qed.

Lemma disk_wait_wp N cs cs' d s r i : inv N (cs, d, s) → cs ≡ₚ (r, VWait i) :: cs' → p_state (procs (ks s) (r_me r)) = RUNNING →
  wp (disk_wait (r_me r) (r_b r) i) (λ res s', inv N (going r res cs', d, s') ∧
    match res with inr _ => b_disk (vd s) (r_b r) = false ∧ moved (ks s') r | inl k => k = VWait i ∧ b_disk (vd s) (r_b r) = true end) s.
Proof.
  intros (q & ws & Hcs & HV & HK) Hcs' Hrun. rewrite Hcs' in Hcs.
  destruct (conts_wait q ws r i) as (a & Ha & -> & ->); [rewrite <-Hcs; left|].
  unfold disk_wait. do 2 wp_step. destruct (b_disk (vd s) (r_b (a_r a))) eqn:Eb.
  - wp_step. apply wp_on_ks, sleep_wp. wp_step. split; [|by split]. exists q, ws. split; [done|]. split; [done|].
    apply kinv_to_sleep; [done|by apply active_reqs|done|..].
    + intros x Hx E. pose proof (vi_idle _ _ _ HV x Hx) as Hi. congruence.
    + intros Hr. by destruct (reqs_disjoint _ _ _ _ _ _ (ki_shape _ _ _ _ HK) Ha Hr).
  - assert (a ∈ q_done q) as Hd.
    { unfold active in Ha. rewrite !elem_of_app in Ha. destruct Ha as [Ha|[Ha|[Ha|Ha]]]; [..|done];
        (pose proof (vi_busy _ _ _ HV a ltac:(set_solver)); congruence). }
    apply list_elem_of_split in Hd as (l1 & l2 & Hq). set (q' := mkQ (q_avail q) (q_dev q) (q_used q) (l1 ++ l2)).
    assert (active q ≡ₚ a :: active q') as HP by (unfold active, q'; cbn; rewrite Hq; solve_Permutation).
    pose proof (vi_shape _ _ _ HV) as HS. rewrite HP in HS. destruct HS as [S1 S2 S3 S4]. rewrite bind_cons in S1, S2, S3.
    do 3 wp_step. apply (free_chain_wp (r_me (a_r a)) a (active q' ≫= idx) (info_b (vd s)));
      [done|done|intros j Hj; apply S2; set_solver|exact (S4 a ltac:(left))|].
    intros s' T [S5 S6] W Hn. wp_step.
    destruct (inv_leave N (ks s) d q l1 a l2 ws (vd s) (vd s') (ks s') (r_me (a_r a))) as [HV' HK']; try done.
    split; [|split; [done|]].
    + exists q', ws. split; [|by split]. apply (Permutation_cons_inv (a := (a_r a, VWait (a_0 a)))). rewrite Hcs.
      unfold conts. rewrite HP. done.
    + apply (kinv_quiet _ _ _ _ _ HK (wakes_quiet _ _ _ W)). rewrite Hq. set_solver.
Qed.

(** ** Starting a request *)
Lemma vinv_same v v' d q J : vinv v d q → (∀ i, i ∈ J → i ∉ active q ≫= idx) → taken v' (active q ≫= idx) → same_but J v v' → vinv v' d q.
Proof.
  intros [[S1 S2 S3 S4] V2 V3 V4 V5 V6 V7] HJ HT [Sd Sr]. split; try done; try (rewrite Sr; done). split; try done.
  intros a Ha. assert (∀ i, i ∈ idx a → desc v' i = desc v i) as E.
  { intros i Hi. apply Sd. intros HiJ. apply (HJ i HiJ). by eapply idx_in. }
  destruct (S4 a Ha) as (E0 & E1 & E2 & E3 & E4). unfold chain_ok.
  rewrite !E by set_solver. rewrite Sr. done.
Qed.

(** The request with the three new descriptors joins the available ring. *)
Lemma inv_publish v d q r i0 i1 i2 f : let a := mkA r i0 i1 i2 in let q' := mkQ (q_avail q ++ [a]) (q_dev q) (q_used q) (q_done q) in
  let v' := publish i0 (format_request (r_b r) (blk r) (r_w r) i0 i1 i2 (set_vfree f v)) in
  vinv v d q → NoDup [i0; i1; i2] → (∀ i, i ∈ [i0; i1; i2] → i ∉ active q ≫= idx ∧ 0 ≤ i < NUM) →
  taken (set_vfree f v) ([i0; i1; i2] ++ (active q ≫= idx)) → 0 ≤ blk r < 2^31 → (∀ x, x ∈ active q → r_b (a_r x) ≠ r_b r) → vinv v' d q'.
Proof.
  intros a q' v' [V1 V2 V3 V4 V5 V6 V7] Hnd Hn HT Hb Hother.
  assert (active q' ≡ₚ a :: active q) as HP by (unfold active, q'; cbn; solve_Permutation).
  pose proof (vshape_length _ _ V1) as Hlen. unfold active in Hlen. rewrite !length_app in Hlen.
  assert (i0 ≠ i1 ∧ i0 ≠ i2 ∧ i1 ≠ i2) as (N01 & N02 & N12).
  { apply NoDup_cons in Hnd as [N0 Hnd]. apply NoDup_cons in Hnd as [N1 _]. set_solver. }
  destruct V1 as [S1 S2 S3 S4]. split; try done.
  - rewrite HP. split.
    + rewrite bind_cons. apply NoDup_app. split; [done|]. split; [|done]. intros i Hi. by apply Hn.
    + intros i Hi. rewrite bind_cons in Hi. apply elem_of_app in Hi as [Hi|Hi]; [by apply Hn|by apply S2].
    + by rewrite bind_cons.
    + intros x [->|Hx]%elem_of_cons.
      * unfold chain_ok, v', publish, format_request. change (BSIZE / 512) with 2. rewrite (u32_small (blk r * 2)), (Z.mul_comm (blk r) 2) by lia.
        cbn. by rewrite !fupd_eq, !(fupd_ne _ _ _ i0), !(fupd_ne _ _ _ i1), !fupd_eq by done.
      * assert (∀ i, i ∈ idx x → i ≠ i0 ∧ i ≠ i1 ∧ i ≠ i2) as Hi.
        { intros i Hi. apply (idx_in x (active q) Hx) in Hi.
          split_and!; intros ->; [destruct (Hn i0)|destruct (Hn i1)|destruct (Hn i2)]; set_solver. }
        destruct (Hi (a_0 x)) as (? & ? & ?); [set_solver|]. destruct (Hi (a_1 x)) as (? & ? & ?); [set_solver|].
        destruct (Hi (a_2 x)) as (? & ? & ?); [set_solver|]. unfold chain_ok. cbn. rewrite !fupd_ne by done. by apply S4.
  - intros x Hx. cbn. rewrite fupd_spec. case_decide as E; [done|]. apply V2. cbn in Hx. assert (x ≠ a) by (by intros ->). set_solver.
  - intros x Hx. cbn. rewrite fupd_ne; [by apply V3|]. apply Hother. unfold active. cbn in Hx. set_solver.
  - cbn. rewrite fmap_app. apply ring_push; [done|]. rewrite length_fmap. lia.
  - intros x Hx. cbn. rewrite fupd_ne; [by apply V7|]. intros E. destruct (Hn i0) as [Hni _]; [set_solver|]. apply Hni.
    rewrite <-E. apply (idx_in x); [unfold active; set_solver|set_solver].
Qed.

Lemma vinv_mmio v d q l : vinv v d q → vinv (set_mmio l v) d q.
Proof. intros [[S1 S2 S3 S4] V2 V3 V4 V5 V6 V7]. by split. Qed.

(** A process that got its descriptors. *)
Lemma kinv_join N k q w1 r w2 a : kinv N k q (w1 ++ r :: w2) → a_r a = r → ¬ asleep k r →
  kinv N k (mkQ (q_avail q ++ [a]) (q_dev q) (q_used q) (q_done q)) (w1 ++ w2).
Proof.
  intros [K1 K2 K3 K4 K5 K6] Ha Hr. set (q' := mkQ _ _ _ _).
  assert (active q' ≡ₚ a :: active q) as HP by (unfold active, q'; cbn; solve_Permutation). split.
  - unfold reqs in *. rewrite HP, fmap_cons, Ha. eapply kshape_proper; [|exact K1]. solve_Permutation.
  - intros x Hx. cbn in Hx. assert (x = a ∨ x ∈ q_avail q ++ q_dev q) as [->|Hx'] by set_solver; [|by apply K2].
    rewrite Ha. apply K3. set_solver.
  - intros x Hx. destruct (K3 x) as (A1 & A2 & A3); [set_solver|]. split_and!; [done|done|]. intros Has. rewrite HP. cbn. specialize (A3 Has). lia.
  - intros x Hx. by apply K4.
  - intros x Hx. rewrite HP in Hx. apply elem_of_cons in Hx as [->|Hx]; [|by apply K5]. intros Has. by rewrite Ha in Has.
  - intros x Hx. by apply K6.
Qed.

Lemma conts_start q ws r : (r, VStart) ∈ conts q ws → r ∈ ws.
Proof. intros [H|H]%elem_of_app; apply list_elem_of_fmap in H as (a & E & Ha); [done|]. by injection E as ->. Qed.

Lemma start_wp N cs cs' d s r : inv N (cs, d, s) → cs ≡ₚ (r, VStart) :: cs' → p_state (procs (ks s) (r_me r)) = RUNNING →
  wp (virtio_disk_rw (r_me r) (r_b r) (r_w r) VStart) (λ res s', inv N (going r res cs', d, s') ∧
    ∃ k, res = inl k ∧ (k = VStart → ∃ r' i, (r', VWait i) ∈ cs')) s.
Proof.
  intros (q & ws & Hcs & HV & HK) Hcs' Hrun. rewrite Hcs' in Hcs. pose proof (ki_shape _ _ _ _ HK) as HS.
  assert (r ∈ ws) as Hr by (apply (conts_start q); rewrite <-Hcs; left). apply list_elem_of_split in Hr as (w1 & w2 & ->).
  assert (reqs q (w1 ++ r :: w2) ≡ₚ r :: reqs q (w1 ++ w2)) as HPr by (unfold reqs; solve_Permutation).
  assert (conts q (w1 ++ r :: w2) ≡ₚ (r, VStart) :: conts q (w1 ++ w2)) as HPc.
  { unfold conts. rewrite !fmap_app, fmap_cons. solve_Permutation. }
  rewrite HPc in Hcs. apply Permutation_cons_inv in Hcs. rewrite HPr in HS. pose proof (vi_shape _ _ _ HV) as [S1 S2 S3 S4].
  unfold virtio_disk_rw. wp_step. apply (alloc3_desc_wp (r_me r) (active q ≫= idx)); [done|done|..].
  - intros i0 i1 i2 f Hnd Hn v HT. do 4 wp_step. unfold R_write. do 4 wp_step.
    destruct (ksh_blk _ _ _ HS r ltac:(left)) as (Eb & Hb & _). destruct (ksh_size _ _ _ HS) as [_ HN].
    cbn [vd ks upd_vd set_vd]. rewrite Eb. set (a := mkA r i0 i1 i2). set (q' := mkQ (q_avail q ++ [a]) (q_dev q) (q_used q) (q_done q)).
    assert (active q' ≡ₚ a :: active q) as HP by (unfold active, q'; cbn; solve_Permutation).
    eapply wp_mono; [apply (disk_wait_wp N ((r, VWait i0) :: cs') cs' d); [|done|exact Hrun]|].
    + exists q', (w1 ++ w2). split; [unfold conts; by rewrite HP, Hcs|]. split.
      * apply vinv_mmio, inv_publish; try done; [lia|]. intros x Hx.
        apply (kshape_other N (ks s) r (reqs q (w1 ++ w2)) (a_r x)); [done|by apply active_reqs].
      * apply (kinv_join N (ks s) q w1 r w2 a); [done|done|]. unfold asleep. by rewrite Hrun.
    + intros [k|] s' [HI Hk]; cbn in Hk; [|by rewrite fupd_eq in Hk; destruct Hk].
      split; [done|]. exists k. split; [done|]. by destruct Hk as [-> _].
  - intros J s' Hlen HJ HT Hsb Hw. wp_step. apply wp_on_ks, sleep_wp. wp_step. rewrite idx_length in Hlen. split.
    + exists q, (w1 ++ r :: w2). split; [cbn; by rewrite HPc, Hcs|]. split; [by eapply vinv_same|].
      apply kinv_to_sleep; [eapply kinv_quiet; [done|by apply wakes_quiet]|set_solver|..].
      * intros a Ha E. by destruct (reqs_disjoint _ _ _ _ _ r (ki_shape _ _ _ _ HK) Ha); [set_solver|].
      * intros a Ha. apply (reqs_disjoint _ _ _ _ _ r (ki_shape _ _ _ _ HK)); [unfold active; set_solver|set_solver].
      * intros _. split; [done|lia].
    + exists VStart. split; [done|]. intros _. destruct (active q) as [|a l] eqn:Ea; [cbn in Hlen; lia|].
      exists (a_r a), (a_0 a). rewrite Hcs. unfold conts. rewrite Ea. left.
Qed.

(** ** All steps *)
Lemma inv_call N cs d s r : inv N (cs, d, s) → may_call N r cs (ks s) → inv N ((r, VStart) :: cs, d, s).
Proof.
  intros (q & ws & Hcs & HV & [K1 K2 K3 K4 K5 K6]) (Hat & Hme & Hrun & Hb & Hblk & Hother).
  assert (∀ r', r' ∈ reqs q ws → r_me r' ≠ r_me r ∧ r_b r' ≠ r_b r ∧ blk r' ≠ blk r) as Hne.
  { intros r' Hr'. destruct (conts_reqs _ _ _ Hr') as (x & Hx). rewrite <-Hcs in Hx. destruct (Hother _ _ Hx) as (A1 & A2 & A3).
    rewrite (proj1 (ksh_blk _ _ _ K1 r' Hr')) in A3. done. }
  assert (reqs q (r :: ws) ≡ₚ r :: reqs q ws) as HP by (unfold reqs; solve_Permutation).
  assert (¬ asleep (ks s) r) as Hns by (unfold asleep; by rewrite Hrun).
  exists q, (r :: ws). split; [unfold conts in *; rewrite Hcs, fmap_cons; solve_Permutation|]. split; [done|]. split; try done.
  - rewrite HP. destruct K1 as [H1 H2 H3 H4 H5]. split; rewrite ?fmap_cons; [done|..].
    1-3: apply NoDup_cons; (split; [|done]); intros (r' & E & Hr')%list_elem_of_fmap; destruct (Hne r' Hr') as (? & ? & ?); congruence.
    intros r' [->|Hr']%elem_of_cons; [|by apply H5]. unfold blk in *. rewrite Hat in *. split_and!; done || lia || tauto.
  - intros r' [->|Hr']%elem_of_cons; [|by apply K3]. split_and!; [|by intros ?..].
    unfold before, val, blk. rewrite Hat. by destruct (r_w r).
Qed.

Lemma sleep_return_inv N cs d s me : inv N (cs, d, s) → p_state (procs (ks s) me) = RUNNING →
  inv N (cs, d, set_ks (upd_proc me (set_p_chan None) (ks s)) s) ∧
  p_state (procs (upd_proc me (set_p_chan None) (ks s)) me) = RUNNING.
Proof.
  intros (q & ws & Hcs & HV & HK) Hrun. split; [|cbn; by rewrite fupd_eq].
  exists q, ws. split; [done|]. split; [done|]. eapply kinv_quiet; [done|]. split_and!; [done|done|]. intros r _. split; [done|].
  unfold asleep. cbn. rewrite fupd_spec. case_decide as E; [subst; cbn; intros; congruence|done].
Qed.

Lemma resume_rw_wp N cs cs' d s r k : inv N (cs, d, s) → cs ≡ₚ (r, k) :: cs' → p_state (procs (ks s) (r_me r)) = RUNNING →
  wp (resume_rw r k) (λ res s', inv N (going r res cs', d, s') ∧
    match res with
    | inr _ => moved (ks s') r
    | inl k' => if k is VWait _ then b_disk (vd s) (r_b r) = true else k' = VStart → ∃ r' i, (r', VWait i) ∈ cs'
    end) s.
Proof.
  intros HI Hcs Hrun. destruct (sleep_return_inv _ _ _ _ _ HI Hrun) as [HI' Hrun']. unfold resume_rw, sleep_return.
  wp_step. apply wp_on_ks. wp_step. destruct k as [|i].
  - eapply wp_mono; [by apply (start_wp N cs cs' d)|]. by intros res s' (HI2 & k & -> & Hk).
  - eapply wp_mono; [by apply (disk_wait_wp N cs cs' d)|]. intros [k|[]] s' [HI2 Hr]; (split; [done|]); by destruct Hr.
Qed.

Lemma call_rw_wp N cs d s r : inv N (cs, d, s) → may_call N r cs (ks s) →
  wp (virtio_disk_rw (r_me r) (r_b r) (r_w r) VStart) (λ res s', inv N (going r res cs, d, s')) s.
Proof.
  intros HI Hc. pose proof Hc as (_ & _ & Hrun & _). eapply wp_mono; [apply (start_wp N ((r, VStart) :: cs) cs d); [by apply inv_call|done|done]|].
  by intros res s' [? _].
Qed.

Context (HD : VirtioBlk).

Lemma inv_device N cs d s d' s' : inv N (cs, d, s) → device (d, s) (d', s') → inv N (cs, d', s').
Proof.
  intros HI [Hf|(h & Hh & [Hc|Hc])]%HD; [by eapply inv_fetch|by eapply inv_complete|]. cbn in Hh, Hc.
  destruct HI as (q & ws & _ & HV & _). rewrite (vi_dev _ _ _ HV) in Hh. apply list_elem_of_fmap in Hh as (a & -> & Ha).
  pose proof (vs_chain _ _ (vi_shape _ _ _ HV) a) as Ca. rewrite chain_reads in Hc; [done|]. apply Ca. unfold active. set_solver.
Qed.

Lemma inv_step N x y : sys_step N x y → inv N x → inv N y.
Proof.
  intros [r res cs d s s' Hc E|r k res cs cs' d s s' Hcs Hrun E|me ist cs d s s' Hrun E|cs d s d' s' Hd|cs d s k' Hm] HI.
  - pose proof (call_rw_wp _ _ _ _ _ HI Hc) as H. unfold wp in H. by rewrite E in H.
  - pose proof (resume_rw_wp _ _ _ _ _ _ _ HI Hcs Hrun) as H. unfold wp in H. rewrite E in H. apply H.
  - eapply (virtio_disk_intr_wp N cs d s me ist (λ _ s', inv N (cs, d, s'))) in HI; [|done|done]. unfold wp in HI. by rewrite E in HI.
  - by eapply inv_device.
  - destruct HI as (q & ws & Hcs & HV & HK). exists q, ws. split; [done|]. split; [done|]. eapply kinv_quiet; [done|].
    destruct Hm as (M1 & M2 & M3). split_and!; [done|done|]. intros r Hr. destruct (conts_reqs _ _ _ Hr) as (w & Hw). rewrite <-Hcs in Hw.
    by destruct (M3 r w Hw).
Qed.

Lemma inv_init N x : sys_init N x → inv N x.
Proof.
  destruct x as [[cs d] s]. intros (-> & Hi & Hs & Ha & Hu & Hu' & Hf & Hsz). exists (mkQ [] [] [] []), []. split; [done|]. split.
  - split; try (by intros a ?%elem_of_nil).
    + split; [constructor|by intros i ?%elem_of_nil| |by intros a ?%elem_of_nil]. intros i Hr. rewrite Hf by done. done.
    + rewrite Hs, Ha. by apply ring_nil.
    + by rewrite Hi.
    + rewrite Hu, Hu'. by apply ring_nil.
  - split; try (by intros a ?%elem_of_nil). split; [tauto|constructor..|by intros r ?%elem_of_nil].
Qed.

Lemma reachable_inv N x y : sys_init N x → rtc (sys_step N) x y → inv N y.
Proof. intros Hx%inv_init Hr. induction Hr as [|x y z Hs _ IH]; [done|]. apply IH. by eapply inv_step. Qed.

(** The transfer the buffer cache counts on. *)
Lemma moved_rw N k r : moved k r → 0 ≤ blk r < N → disk_size (r_at r) = N →
  ∃ k1, Bio.virtio_disk_rw (r_b r) (r_w r) (r_at r) = Done (tt, k1) ∧
    b_data (bufs k (r_b r)) = b_data (bufs k1 (r_b r)) ∧ disk k (blk r) = disk k1 (blk r).
Proof.
  intros [H1 H2] Hb Hsz. unfold Bio.virtio_disk_rw, bind, gets. rewrite Hsz. fold (blk r). rewrite (proj2 (Z.leb_gt _ _)) by lia.
  rewrite H1, H2. unfold val. destruct (r_w r); eexists; (split; [reflexivity|]); cbn; by rewrite fupd_eq.
Qed.

(** C4: the disk driver does what the buffer cache asks.  Processes call
    virtio_disk_rw for distinct locked buffers, wait for descriptors and for
    their requests, the device takes and completes requests in any order, and
    interrupts come at any time.  Then no descriptor is freed twice, no ring
    entry is lost, and neither the calls nor the interrupt handler panic.  When
    a call returns, buffer and disk hold the block as if the transfer had been
    done at once when the call was made. *)
Theorem virtio_disk_transfers N x0 cs d s : sys_init N x0 → rtc (sys_step N) x0 (cs, d, s) →
  (∀ me istatus, p_state (procs (ks s) me) = RUNNING → wp (virtio_disk_intr me istatus) (λ _ s', inv N (cs, d, s')) s) ∧
  (∀ r, may_call N r cs (ks s) → wp (virtio_disk_rw (r_me r) (r_b r) (r_w r) VStart) (λ res s', inv N (going r res cs, d, s')) s) ∧
  (∀ r k cs', cs ≡ₚ (r, k) :: cs' → p_state (procs (ks s) (r_me r)) = RUNNING →
    wp (resume_rw r k) (λ res s', inv N (going r res cs', d, s') ∧ ∀ u, res = inr u →
      ∃ k1, Bio.virtio_disk_rw (r_b r) (r_w r) (r_at r) = Done (tt, k1) ∧
        b_data (bufs (ks s') (r_b r)) = b_data (bufs k1 (r_b r)) ∧ disk (ks s') (blk r) = disk k1 (blk r)) s).
Proof.
  intros Hx Hr. pose proof (reachable_inv _ _ _ Hx Hr) as HI. split_and!.
  - intros me ist Hrun. by apply (virtio_disk_intr_wp N cs d).
  - intros r Hc. by apply call_rw_wp.
  - intros r k cs' Hcs Hrun. eapply wp_mono; [by apply (resume_rw_wp N cs cs' d)|]. intros res s' [HI' Hm]. split; [done|].
    intros u ->. destruct HI as (q & ws & Hq & _ & HK). assert (r ∈ reqs q ws) as Hin.
    { assert ((r, k) ∈ conts q ws) as H by (rewrite <-Hq, Hcs; left). apply elem_of_app in H as [H|H]; apply list_elem_of_fmap in H as (a & E & Ha);
        injection E as -> _; [by apply active_reqs|set_solver]. }
    destruct (ksh_blk _ _ _ (ki_shape _ _ _ _ HK) r Hin) as (_ & Hb & _ & _ & Hsz). by apply (moved_rw N).
Qed.

(** C12: requests finish.  Once the device has worked off the requests it was
    given, one interrupt wakes every process that waits for its request, and
    each of them then returns from virtio_disk_rw; a process that waits for
    descriptors only sleeps while others have requests, and gets them when
    there are none. *)
Theorem virtio_disk_progress N x0 cs d s me istatus : sys_init N x0 → rtc (sys_step N) x0 (cs, d, s) →
  inflight d = [] → seen d = avail_idx (vd s) → p_state (procs (ks s) me) = RUNNING →
  wp (virtio_disk_intr me istatus) (λ _ s', ∀ r k, (r, k) ∈ cs →
    match k with
    | VWait i => ¬ asleep (ks s') r ∧ (p_state (procs (ks s') (r_me r)) = RUNNING → wp (resume_rw r k) (λ res _, res = inr tt) s')
    | VStart => (∀ r' i, (r', VWait i) ∉ cs) → ¬ asleep (ks s') r ∧
        (p_state (procs (ks s') (r_me r)) = RUNNING → wp (resume_rw r k) (λ res _, res ≠ inl VStart) s')
    end) s.
Proof.
  intros Hx Hr Hi Hs Hrun. pose proof (reachable_inv _ _ _ Hx Hr) as HI.
  apply (virtio_disk_intr_wp N cs d); [done|done|]. intros s' HI' Hu Ha r k Hrk. pose proof HI' as ([qa qd qu qn] & ws & Hq & HV & HK).
  assert (qa = [] ∧ qd = [] ∧ qu = []) as (-> & -> & ->).
  { pose proof (ring_empty _ _ _ _ (vi_avail _ _ _ HV) ltac:(congruence)) as E1. pose proof (ring_empty _ _ _ _ (vi_used _ _ _ HV) Hu) as E2.
    pose proof (vi_dev _ _ _ HV) as E3. rewrite Hi in E3. apply Permutation_nil_l in E3. cbn in E1, E2, E3.
    apply fmap_nil_inv in E1, E2. symmetry in E3. by apply fmap_nil_inv in E3. }
  assert (∃ cs', cs ≡ₚ (r, k) :: cs') as (cs' & Hcs) by by apply elem_of_Permutation. rewrite Hq in Hrk. destruct k as [|i].
  - intros Hnone. apply conts_start in Hrk. assert (qn = []) as ->.
    { destruct qn as [|a qn]; [done|]. destruct (Hnone (a_r a) (a_0 a)). rewrite Hq. left. }
    destruct (ki_start _ _ _ _ HK r Hrk) as (_ & _ & Hfull). split; [intros Has%Hfull; cbn in Has; lia|]. intros Hrun'.
    eapply wp_mono; [by apply (resume_rw_wp N cs cs' d)|]. intros [k'|u] s2 [_ H2]; [|done]. intros [= ->].
    destruct H2 as (r' & i & Hin); [done|]. apply (Hnone r' i). rewrite Hcs. by right.
  - apply conts_wait in Hrk as (a & Hin & -> & ->). cbn in Hin. split; [by apply (ki_awake _ _ _ _ HK)|]. intros Hrun'.
    eapply wp_mono; [by apply (resume_rw_wp N cs cs' d)|]. intros [k'|[]] s2 [_ H2]; [|done].
    rewrite (vi_idle _ _ _ HV a Hin) in H2. done.
Qed.
End virtio.
