(* ===== verification/BioThms.v ===== *)
(** The buffer cache as a coherent view of the disk.

    [view s b] is the current contents of block [b], in the cache or on disk,
    and [pins s b] the number of references to its buffer.  The operations of
    bio.c are characterised by what they do to these two and to the disk;
    clients (the log, the file system) are verified against these rules. *)

From S2P Require Import Prelude Riscv Memory Kalloc Vm State Proc Bio.

(** ** The view *)
Definition lookup_buf (s : kstate) (b : Z) : option Z := find_buf (buf_is ROOTDEV b) s (seqZ 0 NBUF).

Definition view (s : kstate) (b : Z) : mem :=
  match lookup_buf s b with
  | Some i => if b_valid (bufs s i) then b_data (bufs s i) else disk s b
  | None => disk s b
  end.

Definition pins (s : kstate) (b : Z) : Z :=
  match lookup_buf s b with Some i => b_refcnt (bufs s i) | None => 0 end.

(** Buffer [i] caches block [b]. *)
Definition cached (s : kstate) (b i : Z) : Prop :=
  0 ≤ i < NBUF ∧ b_dev (bufs s i) = ROOTDEV ∧ b_blockno (bufs s i) = b.

(** The invariant, for a process [me] that holds the buffers [H] and runs
    alone: one buffer per block, the list is a permutation of the buffers,
    exactly the held buffers are locked, and a buffer nobody refers to agrees
    with the disk. *)
Record cache_ok (me : Z) (H : list Z) (s : kstate) : Prop := {
  ck_lru : lru s ≡ₚ seqZ 0 NBUF;
  ck_ref : ∀ i, 0 ≤ i < NBUF → 0 ≤ b_refcnt (bufs s i);
  ck_dev : ∀ i, 0 ≤ i < NBUF → b_dev (bufs s i) = ROOTDEV ∨ b_dev (bufs s i) = 0 ∧ b_refcnt (bufs s i) = 0;
  ck_uniq : ∀ b i j, cached s b i → cached s b j → i = j;
  ck_free : ∀ i, 0 ≤ i < NBUF → i ∉ H → sl_locked (b_lock (bufs s i)) = false;
  ck_held : ∀ i, i ∈ H → 0 ≤ i < NBUF ∧ b_lock (bufs s i) = mkSleeplock true (p_pid (procs s me)) ∧
    b_dev (bufs s i) = ROOTDEV ∧ b_valid (bufs s i) = true ∧ 1 ≤ b_refcnt (bufs s i);
  ck_clean : ∀ b i, cached s b i → b_valid (bufs s i) = true → b_refcnt (bufs s i) = 0 →
    b_data (bufs s i) = disk s b
}.

Lemma find_buf_some f s l i : find_buf f s l = Some i → i ∈ l ∧ f (bufs s i) = true.
Proof.
  induction l as [|x l IH]; [done|]. cbn. destruct (f (bufs s x)) eqn:E.
  - intros [= <-]. split; [by left|done].
  - intros H. destruct (IH H). split; [by right|done].
Qed.

Lemma find_buf_none f s l : find_buf f s l = None → ∀ i, i ∈ l → f (bufs s i) = false.
Proof.
  induction l as [|x l IH]; [by intros _ i ?%elem_of_nil|]. cbn. destruct (f (bufs s x)) eqn:E; [done|].
  intros H i [->|Hi]%elem_of_cons; [done|]. by apply IH.
Qed.

Lemma buf_is_true d b x : buf_is d b x = true ↔ b_dev x = d ∧ b_blockno x = b.
Proof. unfold buf_is. by rewrite andb_true_iff, !Z.eqb_eq. Qed.

Lemma in_bufs i : i ∈ seqZ 0 NBUF ↔ 0 ≤ i < NBUF.
Proof. rewrite elem_of_seqZ. lia. Qed.

(** Moving an element to the front. *)
Lemma to_front (i : Z) (l : list Z) : NoDup l → i ∈ l → l ≡ₚ i :: filter (.≠ i) l.
Proof.
  induction 1 as [|x l Hx Hnd IH]; [by intros ?%elem_of_nil|].
  rewrite elem_of_cons, filter_cons. intros [->|Hi].
  - rewrite decide_False by tauto. f_equiv. clear IH Hnd. induction l as [|y l IH]; [done|].
    apply not_elem_of_cons in Hx as [Hy Hx]. rewrite filter_cons, decide_True by congruence. by rewrite <-IH.
  - rewrite decide_True by (intros ->; done). rewrite (IH Hi) at 1. apply Permutation_swap.
Qed.

Section cache.
Context (me : Z).

Lemma lookup_cached H s b i : cache_ok me H s → cached s b i → lookup_buf s b = Some i.
Proof.
  intros Hok Hc. unfold lookup_buf. destruct (find_buf _ _ _) as [j|] eqn:E.
  - apply find_buf_some in E as [Hj Hb]. apply in_bufs in Hj. apply buf_is_true in Hb as [H1 H2].
    f_equal. by apply (ck_uniq me H s Hok b).
  - destruct Hc as (Hi & Hc). pose proof (find_buf_none _ _ _ E i (proj2 (in_bufs i) Hi)) as Hn.
    apply buf_is_true in Hc. congruence.
Qed.

Lemma lookup_uncached s b : (∀ i, ¬ cached s b i) → lookup_buf s b = None.
Proof.
  intros Hn. unfold lookup_buf. destruct (find_buf _ _ _) as [j|] eqn:E; [|done].
  apply find_buf_some in E as [Hj Hb]. apply in_bufs in Hj. apply buf_is_true in Hb. by destruct (Hn j).
Qed.

Lemma lookup_some s b i : lookup_buf s b = Some i → cached s b i.
Proof. intros [Hi Hb]%find_buf_some. apply in_bufs in Hi. by apply buf_is_true in Hb. Qed.

Lemma view_cached H s b i : cache_ok me H s → cached s b i →
  view s b = if b_valid (bufs s i) then b_data (bufs s i) else disk s b.
Proof. intros Hok Hc. unfold view. by rewrite (lookup_cached H s b i). Qed.

Lemma pins_cached H s b i : cache_ok me H s → cached s b i → pins s b = b_refcnt (bufs s i).
Proof. intros Hok Hc. unfold pins. by rewrite (lookup_cached H s b i). Qed.

Lemma view_uncached s b : (∀ i, ¬ cached s b i) → view s b = disk s b ∧ pins s b = 0.
Proof. intros Hn. unfold view, pins. by rewrite lookup_uncached. Qed.

Lemma view_held H s i : cache_ok me H s → i ∈ H → view s (b_blockno (bufs s i)) = b_data (bufs s i).
Proof.
  intros Hok Hi. destruct (ck_held me H s Hok i Hi) as (Hr & _ & Hd & Hv & _).
  rewrite (view_cached H s _ i Hok (conj Hr (conj Hd eq_refl))). by rewrite Hv.
Qed.

(** A block is in the cache or not. *)
Lemma cached_dec s b : (∃ i, cached s b i) ∨ (∀ i, ¬ cached s b i).
Proof.
  destruct (lookup_buf s b) as [i|] eqn:E; [left; exists i; by apply lookup_some|right].
  intros i (Hi & Hb). pose proof (find_buf_none _ _ _ E i (proj2 (in_bufs i) Hi)) as Hn.
  apply buf_is_true in Hb. congruence.
Qed.

(** ** Reading a block *)

(** The buffer bread returns. *)
Definition loaded (b : Z) (s : kstate) : buf :=
  mkBuf true ROOTDEV b (mkSleeplock true (p_pid (procs s me))) (pins s b + 1) (view s b).

(** [s'] is [s] with buffer [i] holding block [b]. *)
Definition with_buf (i : Z) (x : buf) (s s' : kstate) : Prop :=
  ∃ f, s' = set_bufs f s ∧ f i = x ∧ ∀ j, j ≠ i → f j = bufs s j.

(** The buffer that has the block, or one that can be recycled for it. *)
Definition usable (s : kstate) (b i : Z) : Prop :=
  cached s b i ∨ (∀ j, ¬ cached s b j) ∧ 0 ≤ i < NBUF ∧ b_refcnt (bufs s i) = 0.

Lemma cached_with_buf s s' b i x c j : 0 ≤ i < NBUF → with_buf i x s s' → b_dev x = ROOTDEV → b_blockno x = b →
  cached s' c j ↔ (j = i ∧ c = b) ∨ (j ≠ i ∧ cached s c j).
Proof.
  intros Hi (f & -> & E1 & E2) Hd Hb. unfold cached. cbn. destruct (decide (j = i)) as [->|Hj].
  - rewrite E1. naive_solver.
  - rewrite E2 by done. naive_solver.
Qed.

(** Buffer [i] is now the one of block [b], with its contents: the view is
    the same everywhere, and the block has one more reference. *)
Lemma loaded_view H s s' b i c : cache_ok me H s → usable s b i → with_buf i (loaded b s) s s' →
  view s' c = view s c ∧ pins s' c = pins s c + (if decide (c = b) then 1 else 0).
Proof.
  intros Hok Hu Hw. assert (0 ≤ i < NBUF) as Hi by (destruct Hu as [(? & _)|(_ & ? & _)]; done).
  pose proof Hw as (f & Es & E1 & E2).
  assert (∀ d j, cached s' d j ↔ (j = i ∧ d = b) ∨ (j ≠ i ∧ cached s d j)) as Hc.
  { intros d j. by eapply cached_with_buf. }
  assert (lookup_buf s' b = Some i) as Lb.
  { destruct (lookup_buf s' b) as [j|] eqn:E.
    - apply lookup_some, Hc in E as [[-> _]|[Hj Hcj]]; [done|]. exfalso. destruct Hu as [Hu|[Hn _]]; [|by apply (Hn j)].
      apply Hj. by apply (ck_uniq me H s Hok b).
    - exfalso. pose proof (find_buf_none _ _ _ E i (proj2 (in_bufs i) Hi)) as Hn.
      rewrite Es in Hn. cbn in Hn. rewrite E1 in Hn. unfold buf_is in Hn. cbn in Hn. by rewrite Z.eqb_refl in Hn. }
  destruct (decide (c = b)) as [->|Hcb].
  { unfold view at 1, pins at 1. rewrite Lb, Es. cbn. rewrite E1. done. }
  rewrite Z.add_0_r. destruct (cached_dec s' c) as [(j & Hj)|Hn].
  - pose proof Hj as [[_ ->]|[Hji Hcj]]%Hc; [done|].
    assert (lookup_buf s' c = Some j) as Lc.
    { destruct (lookup_buf s' c) as [k|] eqn:E.
      - apply lookup_some, Hc in E as [[_ ->]|[Hk Hck]]; [done|]. f_equal. by apply (ck_uniq me H s Hok c).
      - exfalso. destruct Hj as (Hj & Hjb). pose proof (find_buf_none _ _ _ E j (proj2 (in_bufs j) Hj)) as Hn.
        apply buf_is_true in Hjb. congruence. }
    unfold view, pins. rewrite Lc, (lookup_cached H s c j), Es by done. cbn. by rewrite E2.
  - destruct (view_uncached s' c Hn) as [-> ->]. rewrite Es. cbn.
    destruct (cached_dec s c) as [(j & Hj)|Hn']; [|by destruct (view_uncached s c Hn') as [-> ->]].
    destruct (decide (j = i)) as [->|Hji]; [|by destruct (Hn j); apply Hc; right].
    destruct Hu as [Hu|(_ & _ & Hr)]; [destruct Hj as (_ & _ & <-), Hu as (_ & _ & <-); done|].
    rewrite (view_cached H s c i Hok Hj), (pins_cached H s c i Hok Hj). split; [|done].
    destruct (b_valid (bufs s i)) eqn:Ev; [|done]. symmetry. by apply (ck_clean me H s Hok).
Qed.

Lemma loaded_ok H s s' b i : cache_ok me H s → usable s b i → i ∉ H → with_buf i (loaded b s) s s' →
  cache_ok me (i :: H) s'.
Proof.
  intros Hok Hu HiH Hw. assert (0 ≤ i < NBUF) as Hi by (destruct Hu as [(? & _)|(_ & ? & _)]; done).
  assert (∀ d j, cached s' d j ↔ (j = i ∧ d = b) ∨ (j ≠ i ∧ cached s d j)) as Hc.
  { intros d j. by eapply cached_with_buf. }
  assert (0 ≤ pins s b) as Hp.
  { destruct Hu as [Hu|[Hn _]]; [rewrite (pins_cached H s b i) by done; by apply (ck_ref me H s Hok)|].
    destruct (view_uncached s b Hn) as [_ ->]. done. }
  destruct Hok as [K1 K2 K3 K4 K5 K6 K7], Hw as (f & -> & E1 & E2). split; cbn.
  - done.
  - intros j Hj. destruct (decide (j = i)) as [->|]; [rewrite E1; cbn; lia|]. rewrite E2 by done. by apply K2.
  - intros j Hj. destruct (decide (j = i)) as [->|]; [rewrite E1; by left|]. rewrite E2 by done. by apply K3.
  - intros d j k [[-> ->]|[Hj Hcj]]%Hc [[-> E]|[Hk Hck]]%Hc; try done.
    + exfalso. destruct Hu as [Hu|[Hn _]]; [|by apply (Hn k)]. apply Hk. by apply (K4 b).
    + exfalso. subst. destruct Hu as [Hu|[Hn _]]; [|by apply (Hn j)]. apply Hj. by apply (K4 b).
    + by apply (K4 d).
  - intros j Hj [Hji HjH]%not_elem_of_cons. rewrite E2 by done. by apply K5.
  - intros j [->|Hj]%elem_of_cons; [rewrite E1; cbn; split_and!; done || lia|].
    rewrite E2 by congruence. by apply K6.
  - intros d j [[-> ->]|[Hji Hcj]]%Hc; [rewrite E1; cbn; lia|]. rewrite E2 by done. by apply K7.
Qed.

(** Some buffer is unused. *)
Definition room (s : kstate) : Prop := ∃ i, 0 ≤ i < NBUF ∧ b_refcnt (bufs s i) = 0.

(** With fewer blocks in use than buffers there is one. *)
Lemma room_pins H s (L : list Z) : cache_ok me H s → (∀ c, 0 < pins s c → c ∈ L) → (length L < 30)%nat → room s.
Proof.
  intros Hok HL Hlen. destruct (find_buf (λ x, b_refcnt x =? 0) s (seqZ 0 NBUF)) as [i|] eqn:E.
  { apply find_buf_some in E as [Hi Hr%Z.eqb_eq]. exists i. by rewrite <-in_bufs. }
  exfalso. assert (∀ i, 0 ≤ i < NBUF → b_refcnt (bufs s i) ≠ 0 ∧ cached s (b_blockno (bufs s i)) i) as Hall.
  { intros i Hi. pose proof (find_buf_none _ _ _ E i (proj2 (in_bufs i) Hi)) as Hn%Z.eqb_neq.
    split; [done|]. destruct (ck_dev me H s Hok i Hi) as [Hd|[_ Hd]]; [by split_and!; try lia|lia]. }
  set (bl := (λ i, b_blockno (bufs s i)) <$> seqZ 0 NBUF).
  assert (NoDup bl) as Hnd.
  { apply NoDup_fmap_2_strong; [|apply NoDup_seqZ]. intros i j Hi%in_bufs Hj%in_bufs Hij.
    apply (ck_uniq me H s Hok (b_blockno (bufs s i))); [by apply Hall|]. cbn in Hij. rewrite Hij. by apply Hall. }
  assert (bl ⊆ L) as Hsub.
  { intros c (i & -> & Hi%in_bufs)%list_elem_of_fmap. apply HL. destruct (Hall i Hi) as [Hr Hc].
    rewrite (pins_cached H s _ i Hok Hc). pose proof (ck_ref me H s Hok i Hi). lia. }
  pose proof (submseteq_length _ _ (NoDup_submseteq _ _ Hnd Hsub)) as Hl.
  unfold bl in Hl. rewrite length_fmap, length_seqZ in Hl. lia.
Qed.

Lemma acquiresleep_wp l s (Q : unit → kstate → Prop) : sl_locked (get_lock l s) = false →
  Q tt (set_lock l (mkSleeplock true (p_pid (procs s me))) s) → wp (acquiresleep me l) Q s.
Proof. intros Hl HQ. unfold acquiresleep, acquiresleep_turn. wp_steps. rewrite Hl. by wp_steps. Qed.

Lemma with_buf_upd i x g s s' : with_buf i x s s' → with_buf i (g x) s (upd_buf i g s').
Proof.
  intros (f & -> & E1 & E2). exists (fupd f i (g x)). cbn. split_and!.
  - unfold upd_buf. cbn. by rewrite E1.
  - apply fupd_eq.
  - intros j Hj. rewrite fupd_ne by done. by apply E2.
Qed.

Lemma with_buf_refl i s : with_buf i (bufs s i) s s.
Proof. exists (bufs s). split_and!; [by destruct s|done..]. Qed.

(** The end of bread: the block is read from disk unless it is valid. *)
Lemma bload_wp i v b lk n d s s1 (Q : Z → kstate → Prop) :
  with_buf i (mkBuf v ROOTDEV b lk n d) s s1 → 0 ≤ b < disk_size s →
  (∀ s', with_buf i (mkBuf true ROOTDEV b lk n (if v then d else disk s b)) s s' → Q i s') →
  wp (v <- gets (λ s, b_valid (bufs s i)) ;;
      (when negb v do (virtio_disk_rw i false ;; modify (upd_buf i (set_b_valid true)))) ;;
      ret i) Q s1.
Proof.
  intros Hw Hb HQ. wp_steps. pose proof Hw as (f & Es & E1 & E2).
  assert (bufs s1 i = mkBuf v ROOTDEV b lk n d ∧ disk s1 = disk s ∧ disk_size s1 = disk_size s) as (-> & Hd & Hsz) by (by subst s1).
  destruct v; cbn; wp_steps; [by apply HQ|]. unfold virtio_disk_rw. wp_steps.
  assert (bufs s1 i = mkBuf false ROOTDEV b lk n d) as -> by by subst s1. cbn [b_blockno].
  rewrite Hsz, (proj2 (Z.leb_gt _ _)) by lia. wp_steps. apply HQ.
  rewrite <-Hd. exact (with_buf_upd i _ (set_b_valid true) _ _ (with_buf_upd i _ (set_b_data (disk s1 b)) _ _ Hw)).
Qed.

(** A block that is held by nobody is read: bread returns its buffer, locked. *)
Lemma bread_wp H s b (Q : Z → kstate → Prop) :
  cache_ok me H s → 0 ≤ b < disk_size s → (∀ i, i ∈ H → b_blockno (bufs s i) ≠ b) →
  room s ∨ 0 < pins s b →
  (∀ i s', usable s b i → i ∉ H → with_buf i (loaded b s) s s' → Q i s') →
  wp (bread me ROOTDEV b) Q s.
Proof.
  intros Hok Hb HH Hroom HQ. unfold bread, bget. wp_steps.
  assert (∀ i, cached s b i → i ∉ H) as HnH.
  { intros i (_ & _ & Hi) Hin. by destruct (HH i Hin). }
  destruct (find_buf (buf_is ROOTDEV b) s (lru s)) as [i|] eqn:E.
  - apply find_buf_some in E as [Hi Hbi%buf_is_true]. rewrite (ck_lru me H s Hok), in_bufs in Hi.
    assert (cached s b i) as Hc by done. wp_steps. apply acquiresleep_wp.
    { cbn. rewrite fupd_eq. apply (ck_free me H s Hok); auto. }
    set (LK := mkSleeplock true (p_pid (procs s me))).
    pose proof (with_buf_upd i _ (set_b_lock LK) _ _
      (with_buf_upd i _ (λ x, set_b_refcnt (b_refcnt x + 1) x) _ _ (with_buf_refl i s))) as Hw.
    assert (set_b_lock LK (set_b_refcnt (b_refcnt (bufs s i) + 1) (bufs s i)) =
      mkBuf (b_valid (bufs s i)) ROOTDEV b LK (b_refcnt (bufs s i) + 1) (b_data (bufs s i))) as Ex.
    { unfold set_b_lock. cbn. by rewrite (proj1 Hbi), (proj2 Hbi). }
    cbn beta in Hw. rewrite Ex in Hw.
    apply wp_ret. eapply bload_wp; [exact Hw|done|]. intros s' Hs'. apply HQ; [by left|by apply HnH|].
    unfold loaded. rewrite (pins_cached H s b i), (view_cached H s b i) by done. exact Hs'.
  - assert (∀ j, ¬ cached s b j) as Hn.
    { intros j (Hj & Hjb). apply buf_is_true in Hjb.
      rewrite (find_buf_none _ _ _ E j) in Hjb; [done|]. by rewrite (ck_lru me H s Hok), in_bufs. }
    destruct (view_uncached s b Hn) as [Hv Hp]. destruct Hroom as [(k & Hk & Hkr)|?]; [|lia]. wp_steps.
    assert (∀ j, j ∈ rev (lru s) ↔ 0 ≤ j < NBUF) as Hrev.
    { intros j. rewrite list_elem_of_In, <-in_rev, <-list_elem_of_In. by rewrite (ck_lru me H s Hok), in_bufs. }
    destruct (find_buf (λ x, b_refcnt x =? 0) s (rev (lru s))) as [i|] eqn:E'.
    2:{ exfalso. pose proof (find_buf_none _ _ _ E' k (proj2 (Hrev k) Hk)) as Hk'. cbn beta in Hk'. by rewrite Hkr in Hk'. }
    apply find_buf_some in E' as [Hi%Hrev Hir%Z.eqb_eq].
    assert (i ∉ H) as HiH by (intros Hin; destruct (ck_held me H s Hok i Hin) as (_ & _ & _ & _ & ?); lia).
    wp_steps. apply acquiresleep_wp; [cbn; rewrite fupd_eq; by apply (ck_free me H s Hok)|]. apply wp_ret.
    eapply (bload_wp i false b (mkSleeplock true (p_pid (procs s me))) 1 (b_data (bufs s i)) s); [|done|].
    { exact (with_buf_upd i _ (set_b_lock _) _ _
        (with_buf_upd i _ (λ x, mkBuf false ROOTDEV b (b_lock x) 1 (b_data x)) _ _ (with_buf_refl i s))). }
    intros s' Hs'. apply HQ; [by right|done|]. unfold loaded. by rewrite Hp, Hv.
Qed.

(** Output on the console does not touch the cache. *)
Lemma cache_ok_uart H u s : cache_ok me H s → cache_ok me H (set_uart u s).
Proof. by intros []; split. Qed.

Lemma cache_ok_perm H H' s : (∀ i, i ∈ H ↔ i ∈ H') → cache_ok me H s → cache_ok me H' s.
Proof.
  intros HH [K1 K2 K3 K4 K5 K6 K7]. split; try done.
  - intros i Hi Hn. apply K5; [done|]. by rewrite HH.
  - intros i Hi. apply K6. by rewrite HH.
Qed.

(** ** Changing a buffer in place *)

(** Buffer [i], held, is replaced by [x] of the same block, still locked,
    perhaps with the disk written. *)
Lemma changed_view H s s' i x : cache_ok me H s → i ∈ H → bufs s' i = x → (∀ j, j ≠ i → bufs s' j = bufs s j) →
  b_dev x = ROOTDEV → b_blockno x = b_blockno (bufs s i) → b_valid x = true →
  (∀ c, c ≠ b_blockno x → disk s' c = disk s c) →
  ∀ c, view s' c = (if decide (c = b_blockno x) then b_data x else view s c) ∧
       pins s' c = (if decide (c = b_blockno x) then b_refcnt x else pins s c).
Proof.
  intros Hok Hi E1 E2 Hd Hb Hv Hdk c. destruct (ck_held me H s Hok i Hi) as (Hr & _ & Hdi & _ & _).
  assert (∀ d j, cached s' d j ↔ cached s d j) as Hc.
  { intros d j. unfold cached. destruct (decide (j = i)) as [->|]; [rewrite E1, Hd, Hb; naive_solver|by rewrite E2]. }
  assert (∀ d j, cached s d j → lookup_buf s' d = Some j) as Hlk.
  { intros d j Hj. destruct (lookup_buf s' d) as [k|] eqn:E.
    - apply lookup_some, Hc in E. f_equal. by apply (ck_uniq me H s Hok d).
    - exfalso. pose proof Hj as Hj'. apply Hc in Hj' as (Hjr & Hjb).
      pose proof (find_buf_none _ _ _ E j (proj2 (in_bufs j) Hjr)) as Hn. apply buf_is_true in Hjb. congruence. }
  destruct (cached_dec s c) as [(j & Hj)|Hn].
  - unfold view, pins. rewrite (Hlk c j Hj), (lookup_cached H s c j Hok Hj).
    destruct (decide (j = i)) as [->|Hji].
    + destruct Hj as (_ & _ & <-). rewrite decide_True, decide_True by done. by rewrite E1, Hv.
    + assert (c ≠ b_blockno x) as Hcb.
      { intros ->. apply Hji, (ck_uniq me H s Hok (b_blockno x)); [done|]. by rewrite Hb. }
      rewrite !decide_False by done. rewrite E2 by done. by rewrite Hdk.
  - assert (∀ j, ¬ cached s' c j) as Hn' by (intros j; rewrite Hc; apply Hn).
    assert (c ≠ b_blockno x) as Hcb by (intros ->; apply (Hn i); by rewrite Hb).
    rewrite !decide_False by done. destruct (view_uncached s c Hn) as [-> ->], (view_uncached s' c Hn') as [-> ->].
    by rewrite Hdk.
Qed.

Lemma changed_ok H H' s s' i x : cache_ok me H s → i ∈ H → bufs s' i = x →
  (∀ j, j ≠ i → bufs s' j = bufs s j) → b_dev x = ROOTDEV → b_blockno x = b_blockno (bufs s i) →
  0 ≤ b_refcnt x → lru s' ≡ₚ lru s → p_pid (procs s' me) = p_pid (procs s me) →
  (∀ c, c ≠ b_blockno x → disk s' c = disk s c) → (∀ j, j ≠ i → j ∈ H' ↔ j ∈ H) →
  (i ∈ H' → b_lock x = mkSleeplock true (p_pid (procs s me)) ∧ b_valid x = true ∧ 1 ≤ b_refcnt x) →
  (i ∉ H' → sl_locked (b_lock x) = false) →
  (b_valid x = true → b_refcnt x = 0 → b_data x = disk s' (b_blockno x)) →
  cache_ok me H' s'.
Proof.
  intros Hok Hi E1 E2 Hd Hb Hr Hl Hp Hdk HH Hin Hout Hcl.
  destruct (ck_held me H s Hok i Hi) as (Hir & _ & Hdi & _ & _).
  assert (∀ d j, cached s' d j ↔ cached s d j) as Hc.
  { intros d j. unfold cached. destruct (decide (j = i)) as [->|]; [rewrite E1, Hd, Hb; naive_solver|by rewrite E2]. }
  assert (∀ d j, j ≠ i → cached s d j → d ≠ b_blockno x) as Hne.
  { intros d j Hji Hj ->. apply Hji, (ck_uniq me H s Hok (b_blockno x)); [done|]. by rewrite Hb. }
  destruct Hok as [K1 K2 K3 K4 K5 K6 K7]. split.
  - by rewrite Hl.
  - intros j Hj. destruct (decide (j = i)) as [->|]; [by rewrite E1|]. rewrite E2 by done. by apply K2.
  - intros j Hj. destruct (decide (j = i)) as [->|]; [left; by rewrite E1|]. rewrite E2 by done. by apply K3.
  - intros d j k. rewrite !Hc. apply K4.
  - intros j Hj Hn. destruct (decide (j = i)) as [->|Hji]; [rewrite E1; by apply Hout|]. rewrite E2 by done.
    apply K5; [done|]. by rewrite <-HH.
  - intros j Hj. destruct (decide (j = i)) as [->|Hji].
    + destruct (Hin Hj) as (Hlk & Hv & Hrf). rewrite E1, Hp. done.
    + rewrite E2, Hp by done. apply K6. by rewrite <-HH.
  - intros d j Hj. rewrite Hc in Hj. destruct (decide (j = i)) as [->|Hji].
    + destruct Hj as (_ & _ & <-). rewrite E1, <-Hb. done.
    + rewrite E2, Hdk by eauto. by apply K7.
Qed.

(** The parts of the state the cache does not touch. *)
Record frame (s s' : kstate) : Prop := {
  fr_log : log_of s' = log_of s;
  fr_size : disk_size s' = disk_size s;
  fr_sb : sb_of s' = sb_of s;
  fr_itable : itable s' = itable s;
  fr_kmem : kmem_of s' = kmem_of s;
  fr_pid : p_pid (procs s' me) = p_pid (procs s me)
}.

#[export] Instance frame_preorder : PreOrder frame.
Proof.
  split; [by intros s|]. intros s1 s2 s3 [] []. split; congruence.
Qed.

(** What an operation of the cache does, seen from its client. *)
Record cache_op (H H' : list Z) (s s' : kstate) (V : Z → mem) (P : Z → Z) : Prop := {
  op_ok : cache_ok me H' s';
  op_view : ∀ c, view s' c = V c;
  op_pins : ∀ c, pins s' c = P c;
  op_blk : ∀ j, j ∈ H → b_blockno (bufs s' j) = b_blockno (bufs s j);
  op_frame : frame s s'
}.

Definition plus (b : Z) (n : Z) (f : Z → Z) (c : Z) : Z := f c + (if decide (c = b) then n else 0).

(** bread. *)
Lemma bread_op H s b (Q : Z → kstate → Prop) :
  cache_ok me H s → 0 ≤ b < disk_size s → (∀ i, i ∈ H → b_blockno (bufs s i) ≠ b) →
  room s ∨ 0 < pins s b →
  (∀ i s', cache_op H (i :: H) s s' (view s) (plus b 1 (pins s)) → i ∉ H → b_blockno (bufs s' i) = b →
     disk s' = disk s → writes s' = writes s → Q i s') →
  wp (bread me ROOTDEV b) Q s.
Proof.
  intros Hok Hb HH Hroom HQ. apply (bread_wp H); [done..|]. intros i s' Hu Hi Hw.
  pose proof Hw as (f & Es & E1 & E2). apply HQ.
  - split.
    + by eapply loaded_ok.
    + intros c. by eapply loaded_view.
    + intros c. by eapply loaded_view.
    + intros j Hj. rewrite Es. cbn. rewrite E2; [done|]. congruence.
    + by subst s'.
  - done.
  - rewrite Es. cbn. by rewrite E1.
  - by subst s'.
  - by subst s'.
Qed.

(** A store to the data of a held buffer. *)
Lemma buf_store_op H s i g (Q : unit → kstate → Prop) :
  cache_ok me H s → i ∈ H →
  (∀ s', cache_op H H s s' (fupd (view s) (b_blockno (bufs s i)) (g (view s (b_blockno (bufs s i))))) (pins s) →
     disk s' = disk s → writes s' = writes s → Q tt s') →
  wp (buf_store i g) Q s.
Proof.
  intros Hok Hi HQ. unfold buf_store. wp_steps. pose proof (view_held H s i Hok Hi) as Hv.
  destruct (ck_held me H s Hok i Hi) as (Hr & Hl & Hd & Hva & Hrf).
  set (s' := upd_buf i _ s).
  assert (bufs s' i = set_b_data (g (b_data (bufs s i))) (bufs s i)) as E1 by (cbn; by rewrite fupd_eq).
  assert (∀ j, j ≠ i → bufs s' j = bufs s j) as E2 by (intros j Hj; cbn; by rewrite fupd_ne).
  pose proof (changed_view H s s' i _ Hok Hi E1 E2 Hd eq_refl Hva ltac:(done)) as Hcv.
  apply HQ; [|done..]. split.
  - eapply (changed_ok H H s s' i); try done; cbn; lia.
  - intros c. rewrite (proj1 (Hcv c)). cbn. rewrite fupd_spec. by rewrite Hv.
  - intros c. rewrite (proj2 (Hcv c)). cbn. case_decide as Hc; [|done]. subst c.
    symmetry. by apply (pins_cached H).
  - intros j Hj. destruct (decide (j = i)) as [->|]; [by rewrite E1|by rewrite E2].
  - done.
Qed.

(** The data of a held buffer. *)
Lemma buf_data_op H s i (Q : mem → kstate → Prop) :
  cache_ok me H s → i ∈ H → Q (view s (b_blockno (bufs s i))) s → wp (buf_data i) Q s.
Proof. intros Hok Hi HQ. unfold buf_data. wp_steps. by rewrite <-(view_held H s i). Qed.

Lemma holdingsleep_held H s i : cache_ok me H s → i ∈ H →
  sl_locked (get_lock (BufLock i) s) && (sl_pid (get_lock (BufLock i) s) =? p_pid (procs s me)) = true.
Proof. intros Hok Hi. destruct (ck_held me H s Hok i Hi) as (_ & Hl & _). cbn. rewrite Hl. cbn. by rewrite Z.eqb_refl. Qed.

(** bwrite: the disk gets the contents of the buffer. *)
Lemma bwrite_op H s i (Q : unit → kstate → Prop) :
  cache_ok me H s → i ∈ H → b_blockno (bufs s i) < disk_size s →
  (∀ s', let b := b_blockno (bufs s i) in
     cache_op H H s s' (view s) (pins s) → disk s' = fupd (disk s) b (view s b) →
     writes s' = writes s ++ [(b, view s b)] → Q tt s') →
  wp (bwrite me i) Q s.
Proof.
  intros Hok Hi Hb HQ. unfold bwrite, holdingsleep. wp_steps. rewrite (holdingsleep_held H) by done. cbn [negb].
  unfold virtio_disk_rw. wp_steps. rewrite (proj2 (Z.leb_gt _ _)) by done. wp_steps.
  pose proof (view_held H s i Hok Hi) as Hv. destruct (ck_held me H s Hok i Hi) as (Hr & Hl & Hd & Hva & Hrf).
  set (s' := set_writes _ _).
  assert (∀ c, c ≠ b_blockno (bufs s i) → disk s' c = disk s c) as Hdk by (intros c Hc; cbn; by rewrite fupd_ne).
  pose proof (changed_view H s s' i _ Hok Hi eq_refl ltac:(done) Hd eq_refl Hva Hdk) as Hcv.
  apply HQ; [|unfold s'; cbn; by rewrite Hv..]. split.
  - eapply (changed_ok H H s s' i); try done; cbn; lia.
  - intros c. rewrite (proj1 (Hcv c)). case_decide as Hc; [|done]. subst c. exact (eq_sym Hv).
  - intros c. rewrite (proj2 (Hcv c)). case_decide as Hc; [|done]. subst c.
    exact (eq_sym (pins_cached H s _ i Hok (conj Hr (conj Hd eq_refl)))).
  - done.
  - done.
Qed.

(** brelse: one reference less; the last reference may only go when the disk
    is up to date. *)
Lemma brelse_op H s i (Q : unit → kstate → Prop) :
  cache_ok me (i :: H) s → i ∉ H → (let b := b_blockno (bufs s i) in 1 < pins s b ∨ view s b = disk s b) →
  (∀ s', cache_op H H s s' (view s) (plus (b_blockno (bufs s i)) (-1) (pins s)) →
     disk s' = disk s → writes s' = writes s → Q tt s') →
  wp (brelse me i) Q s.
Proof.
  intros Hok HiH Hcl HQ. assert (i ∈ i :: H) as Hi by left. unfold brelse, holdingsleep. wp_steps.
  rewrite (holdingsleep_held (i :: H)) by done. cbn [negb]. unfold releasesleep. wp_steps.
  apply wakeup_wp. intros f Hf. wp_steps.
  pose proof (view_held _ s i Hok Hi) as Hv. destruct (ck_held me _ s Hok i Hi) as (Hr & Hl & Hd & Hva & Hrf).
  cbv zeta in Hcl. rewrite (pins_cached _ s _ i Hok (conj Hr (conj Hd eq_refl))) in Hcl.
  set (s1 := upd_buf i _ (set_procs f _)).
  set (x := set_b_refcnt (b_refcnt (bufs s i) - 1) (set_b_lock (mkSleeplock false 0) (bufs s i))).
  assert (bufs s1 i = x) as E1 by (unfold s1; cbn; by rewrite !fupd_eq).
  assert (∀ j, j ≠ i → bufs s1 j = bufs s j) as E2 by (intros j Hj; unfold s1; cbn; by rewrite !fupd_ne).
  assert (p_pid (f me) = p_pid (procs s me)) as Hpid by (rewrite Hf; unfold woken; by case_decide).
  assert (∀ s', bufs s' = bufs s1 → lru s' ≡ₚ lru s → procs s' = f → disk s' = disk s → writes s' = writes s →
    frame s s' → Q tt s') as Hfin.
  { intros s' Eb El Ep Ed Ew Hfr.
    assert (bufs s' i = x) as E1' by by rewrite Eb. assert (∀ j, j ≠ i → bufs s' j = bufs s j) as E2' by by rewrite Eb.
    pose proof (changed_view _ s s' i x Hok Hi E1' E2' Hd eq_refl Hva ltac:(intros; by rewrite Ed)) as Hcv.
    apply HQ; [|done..]. split; [|..|done].
    - eapply (changed_ok (i :: H) H s s' i x); try done; try (by rewrite ?Ep, ?Ed); cbn.
      + lia.
      + intros j Hj. rewrite elem_of_cons. naive_solver.
      + intros _ Hz. rewrite Ed, <-Hv. destruct Hcl as [?|?]; [lia|done].
    - intros c. rewrite (proj1 (Hcv c)). case_decide as Hc; [|done]. by subst c.
    - intros c. rewrite (proj2 (Hcv c)). unfold plus.
      change (b_blockno x) with (b_blockno (bufs s i)). case_decide as Hc; [|lia]. subst c. cbn.
      rewrite (pins_cached _ s _ i Hok (conj Hr (conj Hd eq_refl))). lia.
    - intros j Hj. by rewrite E2' by congruence. }
  case_if; wp_steps; apply Hfin; try done.
  cbn. symmetry. apply to_front; [|rewrite (ck_lru me _ s Hok); by apply in_bufs].
  rewrite (ck_lru me _ s Hok). apply NoDup_seqZ.
Qed.

(** bpin and bunpin of a held buffer. *)
Lemma repin_op H s i n (Q : unit → kstate → Prop) :
  cache_ok me H s → i ∈ H → 1 ≤ b_refcnt (bufs s i) + n →
  (∀ s', cache_op H H s s' (view s) (plus (b_blockno (bufs s i)) n (pins s)) →
     disk s' = disk s → writes s' = writes s → Q tt s') →
  wp (modify (upd_buf i (λ x, set_b_refcnt (b_refcnt x + n) x))) Q s.
Proof.
  intros Hok Hi Hn HQ. wp_steps. pose proof (view_held H s i Hok Hi) as Hv.
  destruct (ck_held me H s Hok i Hi) as (Hr & Hl & Hd & Hva & Hrf).
  set (s' := upd_buf i _ s). set (x := set_b_refcnt (b_refcnt (bufs s i) + n) (bufs s i)).
  assert (bufs s' i = x) as E1 by (cbn; by rewrite fupd_eq).
  assert (∀ j, j ≠ i → bufs s' j = bufs s j) as E2 by (intros j Hj; cbn; by rewrite fupd_ne).
  pose proof (changed_view H s s' i x Hok Hi E1 E2 Hd eq_refl Hva ltac:(done)) as Hcv.
  apply HQ; [|done..]. split.
  - eapply (changed_ok H H s s' i x); try done; cbn; lia.
  - intros c. rewrite (proj1 (Hcv c)). case_decide as Hc; [|done]. subst c. exact (eq_sym Hv).
  - intros c. rewrite (proj2 (Hcv c)). unfold plus. change (b_blockno x) with (b_blockno (bufs s i)).
    case_decide as Hc; [|lia]. subst c. by rewrite (pins_cached H s _ i Hok (conj Hr (conj Hd eq_refl))).
  - intros j Hj. destruct (decide (j = i)) as [->|]; [by rewrite E1|by rewrite E2].
  - done.
Qed.

Lemma bpin_op H s i (Q : unit → kstate → Prop) : cache_ok me H s → i ∈ H →
  (∀ s', cache_op H H s s' (view s) (plus (b_blockno (bufs s i)) 1 (pins s)) →
     disk s' = disk s → writes s' = writes s → Q tt s') →
  wp (bpin i) Q s.
Proof.
  intros Hok Hi HQ. destruct (ck_held me H s Hok i Hi) as (_ & _ & _ & _ & Hrf).
  apply (repin_op H s i 1); try done. lia.
Qed.

Lemma bunpin_op H s i (Q : unit → kstate → Prop) : cache_ok me H s → i ∈ H →
  1 < pins s (b_blockno (bufs s i)) →
  (∀ s', cache_op H H s s' (view s) (plus (b_blockno (bufs s i)) (-1) (pins s)) →
     disk s' = disk s → writes s' = writes s → Q tt s') →
  wp (bunpin i) Q s.
Proof.
  intros Hok Hi Hp HQ. destruct (ck_held me H s Hok i Hi) as (Hr & _ & Hd & _ & _).
  rewrite (pins_cached H s _ i Hok (conj Hr (conj Hd eq_refl))) in Hp.
  apply (repin_op H s i (-1)); try done. lia.
Qed.

(** C22: the cache is coherent.  For a block that no one is using, bread
    returns a buffer, the only one for that block, locked by the caller and
    holding the current contents; brelse gives it back, and the pair leaves
    the contents and the references of every block, the disk and the rest of
    the state as they were. *)
Theorem bread_brelse_coherent s b :
  cache_ok me [] s → 0 ≤ b < disk_size s → room s ∨ 0 < pins s b → 0 < pins s b ∨ view s b = disk s b →
  wp (bread me ROOTDEV b) (λ i s1,
    cache_ok me [i] s1 ∧ cached s1 b i ∧ b_data (bufs s1 i) = view s b ∧ pins s1 b = pins s b + 1 ∧
    wp (brelse me i) (λ _ s2, cache_ok me [] s2 ∧ (∀ c, view s2 c = view s c) ∧ (∀ c, pins s2 c = pins s c) ∧
      disk s2 = disk s ∧ frame s s2) s1) s.
Proof.
  intros Hok Hb Hroom Hcl. apply (bread_op []); [done|done|by intros i ?%elem_of_nil|done|].
  intros i s1 [K1 K2 K3 _ K5] Hi Hbi Hd Hw. assert (i ∈ [i]) as Hin by left.
  destruct (ck_held me _ s1 K1 i Hin) as (Hr & _ & Hdv & _ & _).
  split_and!; [done|by split_and!; try lia| | |].
  - rewrite <-(view_held [i] s1 i K1 Hin), Hbi. apply K2.
  - rewrite K3. unfold plus. by rewrite decide_True.
  - apply (brelse_op []); [done|by intros ?%elem_of_nil| |].
    + cbv zeta. rewrite Hbi, K2, K3, Hd. unfold plus. rewrite decide_True by done. destruct Hcl; [left; lia|by right].
    + intros s2 [J1 J2 J3 _ J5] Hd2 Hw2. split_and!; [done|by intros c; rewrite J2, K2| |congruence|by etrans].
      intros c. rewrite J3. unfold plus. rewrite K3, Hbi. unfold plus. case_decide; lia.
Qed.
End cache.
