(* ===== verification/Log.v ===== *)
(** kernel/log.c: the write-ahead log. *)

From S2P Require Import Prelude Riscv Memory Kalloc Vm State Printf Proc Bio.

(** struct logheader in a block: n at offset 0, block[i] at 4 + 4*i. *)
Definition hdr_n (m : mem) : Z := s32 (ld32 m 0).
Definition hdr_block (m : mem) (i : Z) : Z := s32 (ld32 m (4 + 4 * i)).

(** for (i = 0; i < n; i++) hb->block[i] = log.lh.block[i]; *)
Fixpoint put_blocks (n : nat) (f : Z → Z) (i : Z) (m : mem) : mem :=
  match n with
  | O => m
  | S n' => put_blocks n' f (i + 1) (st32 m (4 + 4 * i) (f i))
  end.
Definition put_header (n : Z) (f : Z → Z) (m : mem) : mem :=
  put_blocks (Z.to_nat n) f 0 (st32 m 0 n).

Definition install_trans (me : Z) (recovering : bool) : M kstate unit :=
  lg <- gets log_of ;;
  foreach (Z.to_nat (lg_n lg)) 0 (λ tail,
    (when recovering do println "recovering tail %d dst %d" [AInt tail; AInt (lg_block lg tail)]) ;;
    lbuf <- bread me (u32 (lg_dev lg)) (u32 (lg_start lg + tail + 1)) ;;
    dbuf <- bread me (u32 (lg_dev lg)) (u32 (lg_block lg tail)) ;;
    d <- buf_data lbuf ;;
    buf_store dbuf (λ _, d) ;;
    bwrite me dbuf ;;
    (when negb recovering do bunpin dbuf) ;;
    brelse me lbuf ;;
    brelse me dbuf).

Definition read_head (me : Z) : M kstate unit :=
  lg <- gets log_of ;;
  b <- bread me (u32 (lg_dev lg)) (u32 (lg_start lg)) ;;
  lh <- buf_data b ;;
  let n := hdr_n lh in
  if LOGBLOCKS <? n then undef "log.lh.block[i]" else
  modify (upd_log (set_lg_n n)) ;;
  modify (upd_log (λ l, set_lg_block (λ i, if in_table i n then hdr_block lh i else lg_block l i) l)) ;;
  brelse me b.

Definition write_head (me : Z) : M kstate unit :=
  lg <- gets log_of ;;
  b <- bread me (u32 (lg_dev lg)) (u32 (lg_start lg)) ;;
  buf_store b (put_header (lg_n lg) (lg_block lg)) ;;
  bwrite me b ;;
  brelse me b.

Definition recover_from_log (me : Z) : M kstate unit :=
  read_head me ;;
  install_trans me true ;;
  modify (upd_log (set_lg_n 0)) ;;
  write_head me.

(** sizeof(struct logheader) is 4 + 4*LOGBLOCKS. *)
Definition initlog (me dev : Z) (sb : superblock) : M kstate unit :=
  if BSIZE <=? 4 + 4 * LOGBLOCKS then panic "initlog: too big logheader" else
  modify (upd_log (set_lg_start (s32 (sb_logstart sb)))) ;;
  modify (upd_log (set_lg_dev dev)) ;;
  recover_from_log me.

(** One turn of begin_op: [false] has gone to sleep. *)
Definition begin_op_turn (me : Z) : M kstate bool :=
  lg <- gets log_of ;;
  if lg_committing lg then sleep me ChLog ;; ret false else
  if LOGBLOCKS <? lg_n lg + (lg_outstanding lg + 1) * MAXOPBLOCKS then
    sleep me ChLog ;; ret false
  else
  modify (upd_log (set_lg_outstanding (lg_outstanding lg + 1))) ;;
  ret true.

Definition begin_op (me : Z) : M kstate unit :=
  ok <- begin_op_turn me ;;
  if (ok : bool) then ret tt else block.

Definition write_log (me : Z) : M kstate unit :=
  lg <- gets log_of ;;
  foreach (Z.to_nat (lg_n lg)) 0 (λ tail,
    to <- bread me (u32 (lg_dev lg)) (u32 (lg_start lg + tail + 1)) ;;
    from <- bread me (u32 (lg_dev lg)) (u32 (lg_block lg tail)) ;;
    d <- buf_data from ;;
    buf_store to (λ _, d) ;;
    bwrite me to ;;
    brelse me from ;;
    brelse me to).

Definition commit (me : Z) : M kstate unit :=
  n <- gets (λ s, lg_n (log_of s)) ;;
  if 0 <? n then
    write_log me ;;
    write_head me ;;
    install_trans me false ;;
    modify (upd_log (set_lg_n 0)) ;;
    write_head me
  else ret tt.

(** The first critical section of end_op: whether to commit. *)
Definition end_op_begin (me : Z) : M kstate bool :=
  lg <- gets log_of ;;
  modify (upd_log (set_lg_outstanding (lg_outstanding lg - 1))) ;;
  if lg_committing lg then panic "log.committing" else
  if lg_outstanding lg - 1 =? 0 then
    modify (upd_log (set_lg_committing true)) ;; ret true
  else wakeup me ChLog ;; ret false.

Definition end_op (me : Z) : M kstate unit :=
  do_commit <- end_op_begin me ;;
  if (do_commit : bool) then
    commit me ;;
    modify (upd_log (set_lg_committing false)) ;;
    wakeup me ChLog
  else ret tt.

(** The search of log_write for an entry to absorb into. *)
Fixpoint log_find (n : nat) (i blockno : Z) (l : log) : Z :=
  match n with
  | O => i
  | S n' => if u32 (lg_block l i) =? blockno then i else log_find n' (i + 1) blockno l
  end.

Definition log_write (b : Z) : M kstate unit :=
  lg <- gets log_of ;;
  if LOGBLOCKS <=? lg_n lg then panic "too big a transaction" else
  if lg_outstanding lg <? 1 then panic "log_write outside of trans" else
  bno <- gets (λ s, b_blockno (bufs s b)) ;;
  let i := log_find (Z.to_nat (lg_n lg)) 0 bno lg in
  modify (upd_log (λ l, set_lg_block (fupd (lg_block l) i (s32 bno)) l)) ;;
  if i =? lg_n lg then
    bpin b ;;
    modify (upd_log (set_lg_n (lg_n lg + 1)))
  else ret tt.
