(* ===== verification/LogThms.v ===== *)
(** The write-ahead log: what commit writes to the disk and in what order,
    what recovery makes of any disk, and that a crash at any point of a commit
    leaves either the old or the new contents of all blocks. *)

From S2P Require Import Prelude Riscv Memory Kalloc Vm State Printf Proc Bio BioThms Log.

(** ** The header block *)
Lemma put_blocks_below f m : ∀ n i x, x < 4 + 4 * i → put_blocks n f i m x = m x.
Proof.
  intros n. revert m. induction n as [|n IH]; intros m i x Hx; cbn [put_blocks]; [done|].
  rewrite IH by lia. unfold st32. by rewrite stn_other by lia.
Qed.

Lemma put_blocks_get f : ∀ n m i j, i ≤ j < i + Z.of_nat n →
  ld32 (put_blocks n f i m) (4 + 4 * j) = u32 (f j).
Proof.
  induction n as [|n IH]; intros m i j Hj; cbn [put_blocks]; [lia|].
  destruct (decide (j = i)) as [->|]; [|apply IH; lia].
  unfold ld32. rewrite (ldn_ext 4 _ (st32 m (4 + 4 * i) (f i))).
  - unfold st32. by rewrite ldn_stn_same.
  - intros x Hx. apply put_blocks_below. lia.
Qed.

(** Reading back the header that was written. *)
Lemma header_n n f m : 0 ≤ n < 2^31 → hdr_n (put_header n f m) = n.
Proof.
  intros Hn. unfold hdr_n, put_header. rewrite (ldn_ext 4 _ (st32 m 0 n)).
  - unfold st32. rewrite ldn_stn_same. rewrite Z.mod_small by lia. apply s32_small. lia.
  - intros x Hx. apply put_blocks_below. lia.
Qed.

Lemma header_block n f m i : 0 ≤ i < n → 0 ≤ f i < 2^31 → hdr_block (put_header n f m) i = f i.
Proof.
  intros Hi Hf. unfold hdr_block, put_header. rewrite put_blocks_get by lia.
  rewrite u32_small by lia. apply s32_small. lia.
Qed.

(** ** Sequences of block writes *)
Definition replay (ws : list (Z * mem)) (D : Z → mem) : Z → mem := foldl (λ D w, fupd D w.1 w.2) D ws.

Lemma replay_cons b m ws D : replay ((b, m) :: ws) D = replay ws (fupd D b m).
Proof. done. Qed.

Lemma replay_app ws ws' D : replay (ws ++ ws') D = replay ws' (replay ws D).
Proof. apply foldl_app. Qed.

Lemma replay_other ws D c : c ∉ ws.*1 → replay ws D c = D c.
Proof.
  revert D. induction ws as [|[b m] ws IH]; intros D; [done|]. rewrite replay_cons. intros [Hb Hc]%not_elem_of_cons.
  rewrite IH by done. by rewrite fupd_ne.
Qed.

Lemma replay_in ws D c m : NoDup ws.*1 → (c, m) ∈ ws → replay ws D c = m.
Proof.
  revert D. induction ws as [|[b x] ws IH]; intros D; [by intros _ ?%elem_of_nil|]. rewrite replay_cons.
  intros [Hb Hnd]%NoDup_cons [[= -> ->]|Hin]%elem_of_cons; [|by apply IH].
  rewrite replay_other by done. apply fupd_eq.
Qed.

Lemma replay_ext ws D D' c : D c = D' c → replay ws D c = replay ws D' c.
Proof.
  revert D D'. induction ws as [|[b m] ws IH]; intros D D' HD; [done|]. rewrite !replay_cons. apply IH.
  rewrite !fupd_spec. by case_decide.
Qed.

(** Writing to a block what it has. *)
Lemma replay_same ws D c : (∀ m, (c, m) ∈ ws → m = D c) → replay ws D c = D c.
Proof.
  revert D. induction ws as [|[b m] ws IH]; intros D Hm; [done|]. rewrite replay_cons.
  assert (fupd D b m c = D c) as E.
  { rewrite fupd_spec. case_decide as Hc; [|done]. apply Hm. rewrite Hc. left. }
  rewrite IH; [done|]. intros x Hx. rewrite E. apply Hm. by right.
Qed.

(** The writes that copy block [a] to block [b] for each pair [(a, b)]. *)
Definition copies (V : Z → mem) (P : list (Z * Z)) : list (Z * mem) := (λ p, (p.2, V p.1)) <$> P.

Lemma copies_fst V P : (copies V P).*1 = P.*2.
Proof. unfold copies. by rewrite <-list_fmap_compose. Qed.

Section log.
Context (me : Z).

(** ** Copying a block through the cache *)
Lemma copy_wp H i j s (K : M kstate unit) Q : let a := b_blockno (bufs s i) in let b := b_blockno (bufs s j) in
  cache_ok me H s → i ∈ H → j ∈ H → b < disk_size s →
  (∀ s', cache_op me H H s s' (fupd (view s) b (view s a)) (pins s) → disk s' = fupd (disk s) b (view s a) →
     writes s' = writes s ++ [(b, view s a)] → wp K Q s') →
  wp (d <- buf_data i ;; buf_store j (λ _, d) ;; bwrite me j ;; K) Q s.
Proof.
  intros a b Hok Hi Hj Hb HK. wp_step. apply (buf_data_op me H); [done..|]. fold a.
  wp_step. apply (buf_store_op me H); [done..|]. fold b. intros s1 [A1 A2 A3 A4 A5] Ad Aw.
  wp_step. apply (bwrite_op me H); [done..|rewrite A4, (fr_size _ _ _ A5) by done; exact Hb|].
  cbv zeta. rewrite A4, A2 by done. fold b. rewrite fupd_eq. intros s2 [B1 B2 B3 B4 B5] Bd Bw.
  apply HK; [|by rewrite Bd, Ad|by rewrite Bw, Aw]. split; [done|..].
  - intros c. by rewrite B2, A2.
  - intros c. by rewrite B3, A3.
  - intros k Hk. by rewrite B4, A4.
  - by etrans.
Qed.

(** Releasing the two buffers. *)
Lemma release_wp i j s Q : let a := b_blockno (bufs s i) in let b := b_blockno (bufs s j) in
  cache_ok me [i; j] s → a ≠ b → 1 < pins s a ∨ view s a = disk s a → 1 < pins s b ∨ view s b = disk s b →
  (∀ s', cache_op me [] [] s s' (view s) (plus a (-1) (plus b (-1) (pins s))) → disk s' = disk s →
     writes s' = writes s → Q tt s') →
  wp (brelse me i ;; brelse me j) Q s.
Proof.
  intros a b Hok Hab Ha Hb HQ. assert (i ≠ j) as Hij by (intros ->; done).
  wp_step. apply (brelse_op me [j]); [done|set_solver|done|]. fold a. intros s1 [A1 A2 A3 A4 A5] Ad Aw.
  assert (b_blockno (bufs s1 j) = b) as Ej by (apply A4; left).
  apply (brelse_op me []); [done|set_solver|..]; cbv zeta; rewrite Ej.
  { rewrite A2, A3, Ad. unfold plus. rewrite decide_False by done. by rewrite Z.add_0_r. }
  intros s2 [B1 B2 B3 B4 B5] Bd Bw. apply HQ; [|congruence..]. split; [done|..].
  - intros c. by rewrite B2, A2.
  - intros c. rewrite B3. unfold plus. rewrite A3. unfold plus. lia.
  - by intros k ?%elem_of_nil.
  - by etrans.
Qed.

(** A state reached from [s] by the writes [ws], with the references [pn]. *)
Record copied (s : kstate) (ws : list (Z * mem)) (pn : Z → Z) (s' : kstate) : Prop := {
  cp_ok : cache_ok me [] s';
  cp_view : ∀ c, view s' c = replay ws (view s) c;
  cp_disk : ∀ c, disk s' c = replay ws (disk s) c;
  cp_writes : writes s' = writes s ++ ws;
  cp_pins : ∀ c, pins s' c = pn c;
  cp_frame : frame me s s'
}.

Lemma copied_uart s ws pn u s' : copied s ws pn s' → copied s ws pn (set_uart u s').
Proof. intros [C1 C2 C3 C4 C5 []]. split; try done. by apply cache_ok_uart. Qed.

Lemma copied_refl s : cache_ok me [] s → copied s [] (pins s) s.
Proof. intros Hok. split; try done. by rewrite app_nil_r. Qed.

Lemma copied_trans s ws pn s1 ws' pn' s2 : copied s ws pn s1 → copied s1 ws' pn' s2 → copied s (ws ++ ws') pn' s2.
Proof.
  intros [A1 A2 A3 A4 A5 A6] [B1 B2 B3 B4 B5 B6]. split; try done.
  - intros c. rewrite B2, replay_app. by apply replay_ext.
  - intros c. rewrite B3, replay_app. by apply replay_ext.
  - by rewrite B4, A4, app_assoc.
  - by etrans.
Qed.

(** One turn of write_log. *)
Lemma write_log_turn a b s Q : cache_ok me [] s → a ≠ b → 0 ≤ a < disk_size s → 0 ≤ b < disk_size s →
  room s → 0 < pins s a → (∀ s', copied s [(b, view s a)] (pins s) s' → Q tt s') →
  wp (to <- bread me ROOTDEV b ;; from <- bread me ROOTDEV a ;; d <- buf_data from ;; buf_store to (λ _, d) ;;
      bwrite me to ;; brelse me from ;; brelse me to) Q s.
Proof.
  intros Hok Hab Ha Hb Hr Hp HQ.
  wp_step. apply (bread_op me []); [done..|by intros i ?%elem_of_nil|by left|].
  intros to s1 [A1 A2 A3 A4 A5] _ Ato Ad Aw.
  wp_step. apply (bread_op me [to]); [done|by rewrite (fr_size _ _ _ A5)|intros i ->%list_elem_of_singleton; congruence|..].
  { right. rewrite A3. unfold plus. case_decide; lia. }
  intros from s2 [B1 B2 B3 B4 B5] Bn Bfrom Bd Bw.
  assert (b_blockno (bufs s2 to) = b) as Bto by (rewrite B4 by left; done).
  apply (copy_wp [from; to]); [done|set_solver..| |].
  { rewrite Bto, (fr_size _ _ _ B5), (fr_size _ _ _ A5). lia. }
  rewrite Bto, Bfrom, B2, A2. intros s3 [C1 C2 C3 C4 C5] Cd Cw.
  assert (b_blockno (bufs s3 from) = a) as Cfrom by (rewrite C4 by left; done).
  assert (b_blockno (bufs s3 to) = b) as Cto by (rewrite C4 by set_solver; done).
  apply release_wp; [done|congruence|..]; rewrite ?Cfrom, ?Cto, ?C3, ?C2, ?B3; unfold plus.
  { left. rewrite A3. unfold plus. repeat case_decide; lia. }
  { right. by rewrite Cd, !fupd_eq. }
  intros s4 [D1 D2 D3 D4 D5] Dd Dw. apply HQ. split; [done|..].
  - intros c. rewrite D2, C2. cbn. rewrite !fupd_spec. case_decide; [done|]. by rewrite B2, A2.
  - intros c. by rewrite Dd, Cd, Bd, Ad.
  - by rewrite Dw, Cw, Bw, Aw.
  - intros c. rewrite D3. rewrite C3, B3. unfold plus. rewrite A3. unfold plus. repeat case_decide; lia.
  - by do 3 (etrans; [eassumption|]).
Qed.

(** One turn of install_trans. *)
Lemma install_turn (recovering : bool) a b s Q : cache_ok me [] s → a ≠ b → 0 ≤ a < disk_size s → 0 ≤ b < disk_size s →
  room s → view s a = disk s a →
  (if recovering then ∀ c, pins s c = 0 else 0 < pins s b) →
  (∀ s', copied s [(b, view s a)] (if recovering then pins s else plus b (-1) (pins s)) s' → Q tt s') →
  wp (lbuf <- bread me ROOTDEV a ;; dbuf <- bread me ROOTDEV b ;; d <- buf_data lbuf ;; buf_store dbuf (λ _, d) ;;
      bwrite me dbuf ;; (when negb recovering do bunpin dbuf) ;; brelse me lbuf ;; brelse me dbuf) Q s.
Proof.
  intros Hok Hab Ha Hb Hr Hcl Hp HQ.
  wp_step. apply (bread_op me []); [done..|by intros i ?%elem_of_nil|by left|].
  intros lb s1 [A1 A2 A3 A4 A5] _ Alb Ad Aw.
  wp_step. apply (bread_op me [lb]); [done|by rewrite (fr_size _ _ _ A5)|intros i ->%list_elem_of_singleton; congruence|..].
  { destruct recovering; [left|right; rewrite A3; unfold plus; case_decide; lia].
    apply (room_pins me [lb] s1 [a]); [done| |cbn; lia]. intros c. rewrite A3. unfold plus. rewrite Hp.
    case_decide as Hc; [intros _; rewrite Hc; left|lia]. }
  intros db s2 [B1 B2 B3 B4 B5] Bn Bdb Bd Bw.
  assert (b_blockno (bufs s2 lb) = a) as Blb by (rewrite B4 by left; done).
  apply (copy_wp [db; lb]); [done|set_solver..| |].
  { rewrite Bdb, (fr_size _ _ _ B5), (fr_size _ _ _ A5). lia. }
  rewrite Bdb, Blb, B2, A2. intros s3 [C1 C2 C3 C4 C5] Cd Cw.
  assert (b_blockno (bufs s3 db) = b) as Cdb by (rewrite C4 by left; done).
  assert (b_blockno (bufs s3 lb) = a) as Clb by (rewrite C4 by set_solver; done).
  assert (∀ s4, cache_op me [db; lb] [db; lb] s3 s4 (view s3) (plus b (if recovering then 0 else -1) (pins s3)) →
    disk s4 = disk s3 → writes s4 = writes s3 → wp (brelse me lb ;; brelse me db) Q s4) as Hend.
  { intros s4 [D1 D2 D3 D4 D5] Dd Dw.
    assert (b_blockno (bufs s4 db) = b) as Ddb by (rewrite D4 by left; done).
    assert (b_blockno (bufs s4 lb) = a) as Dlb by (rewrite D4 by set_solver; done).
    apply release_wp; [|congruence|..]; rewrite ?Ddb, ?Dlb.
    { eapply cache_ok_perm; [|done]. set_solver. }
    { right. rewrite D2, C2, Dd, Cd, !fupd_ne by done. by rewrite B2, A2, Bd, Ad. }
    { right. by rewrite D2, C2, Dd, Cd, !fupd_eq. }
    intros s5 [E1 E2 E3 E4 E5] Ed Ew. apply HQ. split; [done|..].
    - intros c. rewrite E2, D2, C2. cbn. rewrite !fupd_spec. case_decide; [done|]. by rewrite B2, A2.
    - intros c. by rewrite Ed, Dd, Cd, Bd, Ad.
    - by rewrite Ew, Dw, Cw, Bw, Aw.
    - intros c. rewrite E3. unfold plus. rewrite D3. unfold plus. rewrite C3, B3. unfold plus. rewrite A3. unfold plus.
      destruct recovering; repeat case_decide; lia.
    - by do 4 (etrans; [eassumption|]). }
  wp_step. destruct recovering; cbn [negb].
  - wp_step. apply Hend; [|done..]. split; try done. intros c. unfold plus. case_decide; lia.
  - apply (bunpin_op me [db; lb]); [done|left| |].
    + rewrite Cdb, C3, B3. unfold plus. rewrite A3. unfold plus. repeat case_decide; lia.
    + rewrite Cdb. intros s4. apply Hend.
Qed.
(** ** The loops *)

(** A loop whose turn [t] copies the [t]-th pair. *)
Lemma copy_loop (P : list (Z * Z)) (pn : nat → Z → Z) body s Q :
  cache_ok me [] s → (∀ c, pn 0%nat c = pins s c) → (∀ a, a ∈ P.*1 → a ∉ P.*2) →
  (∀ t a b s1 R, P !! t = Some (a, b) → copied s (copies (view s) (take t P)) (pn t) s1 →
     view s1 a = view s a → disk s1 a = disk s a →
     (∀ s2, copied s1 [(b, view s1 a)] (pn (S t)) s2 → R tt s2) → wp (body (Z.of_nat t)) R s1) →
  (∀ s', copied s (copies (view s) P) (pn (length P)) s' → Q tt s') →
  wp (foreach (length P) 0 body) Q s.
Proof.
  intros Hok Hp0 Hdis Hbody HQ.
  eapply wp_mono; [apply (wp_foreach (λ j s1, copied s (copies (view s) (take (Z.to_nat j) P)) (pn (Z.to_nat j)) s1))|].
  - cbn. split; try done. by rewrite app_nil_r.
  - intros j s1 Hj Hc. destruct (lookup_lt_is_Some_2 P (Z.to_nat j)) as [[a b] Hab]; [lia|].
    assert (a ∉ (copies (view s) (take (Z.to_nat j) P)).*1) as Hna.
    { rewrite copies_fst, fmap_take. intros Hin%elem_of_take. destruct Hin as (k & Hk & _).
      apply (Hdis a); [|by eapply list_elem_of_lookup_2].
      apply list_elem_of_lookup. exists (Z.to_nat j). by rewrite list_lookup_fmap, Hab. }
    replace j with (Z.of_nat (Z.to_nat j)) at 1 by lia.
    assert (view s1 a = view s a) as Hva by (rewrite (cp_view _ _ _ _ Hc); by apply replay_other).
    apply (Hbody _ a b); [done..| |].
    + rewrite (cp_disk _ _ _ _ Hc). by apply replay_other.
    + intros s2 Hc2. replace (Z.to_nat (j + 1)) with (S (Z.to_nat j)) by lia.
      rewrite (take_S_r _ _ _ Hab). unfold copies. rewrite fmap_app. eapply copied_trans; [exact Hc|].
      cbn. by rewrite <-Hva.
  - intros [] s' Hc. rewrite Z.add_0_l, Nat2Z.id, take_ge in Hc by lia. by apply HQ.
Qed.

(** The log area: the header at [S], LOGBLOCKS blocks after it. *)
Definition in_log (S c : Z) : Prop := S ≤ c ≤ S + LOGBLOCKS.

(** The log in memory lists the blocks [L]. *)
Record lists (S : Z) (L : list Z) (s : kstate) : Prop := {
  ls_dev : lg_dev (log_of s) = ROOTDEV;
  ls_start : lg_start (log_of s) = S;
  ls_area : 0 ≤ S ∧ S + LOGBLOCKS < disk_size s ∧ disk_size s < 2^31;
  ls_n : lg_n (log_of s) = Z.of_nat (length L);
  ls_len : (length L ≤ 30)%nat;
  ls_block : ∀ i b, L !! i = Some b → lg_block (log_of s) (Z.of_nat i) = b;
  ls_nodup : NoDup L;
  ls_home : ∀ b, b ∈ L → 0 ≤ b < disk_size s ∧ ¬ in_log S b
}.

Lemma lists_frame S L s s' : frame me s s' → lists S L s → lists S L s'.
Proof. intros [F1 F2 _ _ _ _] [H1 H2 H3 H4 H5 H6 H7 H8]. split; by rewrite ?F1, ?F2. Qed.

(** Each block of the transaction with its place in the log. *)
Definition slots (S : Z) (L : list Z) : list (Z * Z) := imap (λ i b, (S + Z.of_nat i + 1, b)) L.

Lemma slots_lookup S L t a b : slots S L !! t = Some (a, b) ↔ a = S + Z.of_nat t + 1 ∧ L !! t = Some b.
Proof. unfold slots. rewrite list_lookup_imap. destruct (L !! t); cbn; naive_solver. Qed.

Lemma slots_length S L : length (slots S L) = length L.
Proof. apply length_imap. Qed.

Lemma slots_home S L : (slots S L).*2 = L.
Proof. apply list_eq. intros i. unfold slots. rewrite list_lookup_fmap, list_lookup_imap. by destruct (L !! i). Qed.

Lemma slots_log S L a : a ∈ (slots S L).*1 ↔ S + 1 ≤ a < S + 1 + Z.of_nat (length L).
Proof.
  rewrite list_elem_of_fmap. split.
  - intros ([a' b] & -> & [t Ht]%list_elem_of_lookup). apply slots_lookup in Ht as [-> Ht].
    apply lookup_lt_Some in Ht. cbn. lia.
  - intros Ha. destruct (lookup_lt_is_Some_2 L (Z.to_nat (a - S - 1))) as [b Hb]; [lia|].
    exists (a, b). split; [done|]. eapply list_elem_of_lookup_2, slots_lookup. split; [|exact Hb]. lia.
Qed.

Lemma write_log_wp S L s Q : lists S L s → cache_ok me [] s → (length L < 30)%nat →
  (∀ c, pins s c = if decide (c ∈ L) then 1 else 0) →
  (∀ s', copied s (copies (view s) (prod_swap <$> slots S L)) (pins s) s' → Q tt s') → wp (write_log me) Q s.
Proof.
  intros [H1 H2 H3 H4 H5 H6 H7 H8] Hok Hlen Hp HQ. unfold write_log. wp_step. wp_step. rewrite H1, H2, H4, Nat2Z.id.
  assert (∀ P : list (Z * Z), (prod_swap <$> P).*1 = P.*2 ∧ (prod_swap <$> P).*2 = P.*1) as Hsw.
  { intros P. rewrite <-!list_fmap_compose. by split; apply list_fmap_ext; intros ? [] ?. }
  rewrite <-(slots_length S L), <-(length_fmap prod_swap).
  apply (copy_loop _ (λ _, pins s)); [done|done| | |done].
  { intros a. rewrite (proj1 (Hsw _)), (proj2 (Hsw _)), slots_home, slots_log. intros Ha Hl.
    destruct (H8 a Ha) as [_ Hn]. apply Hn. unfold in_log. lia. }
  intros t a b s1 R Hab Hc _ _ HR. rewrite list_lookup_fmap in Hab.
  destruct (slots S L !! t) as [[b' a']|] eqn:E; [|done]. cbn in Hab. injection Hab as -> ->.
  apply slots_lookup in E as [-> Ht]. pose proof (lookup_lt_Some _ _ _ Ht).
  destruct (H8 a) as [Hr Hn]; [by eapply list_elem_of_lookup_2|]. unfold in_log in Hn.
  rewrite (H6 _ _ Ht), (u32_small a), (u32_small (S + _ + 1)) by lia.
  pose proof (fr_size _ _ _ (cp_frame _ _ _ _ Hc)) as Hsz.
  apply (write_log_turn a (S + Z.of_nat t + 1)); try rewrite Hsz; try lia.
  - apply (cp_ok _ _ _ _ Hc).
  - apply (room_pins me [] s1 L); [apply (cp_ok _ _ _ _ Hc)| |done]. intros c.
    rewrite (cp_pins _ _ _ _ Hc), Hp. case_decide; [done|lia].
  - rewrite (cp_pins _ _ _ _ Hc), Hp, decide_True; [lia|]. by eapply list_elem_of_lookup_2.
  - intros s2 Hc2. apply HR. destruct Hc2 as [C1 C2 C3 C4 C5 C6]. split; try done.
    intros c. rewrite C5. apply (cp_pins _ _ _ _ Hc).
Qed.

Lemma install_trans_wp recovering S L s Q : lists S L s → cache_ok me [] s →
  (∀ c, in_log S c → view s c = disk s c) → (recovering = false → (length L < 30)%nat) →
  (∀ c, pins s c = if recovering then 0 else if decide (c ∈ L) then 1 else 0) →
  (∀ s', copied s (copies (view s) (slots S L)) (λ _, 0) s' → Q tt s') → wp (install_trans me recovering) Q s.
Proof.
  intros [H1 H2 H3 H4 H5 H6 H7 H8] Hok Hcl Hlen Hp HQ. unfold install_trans. wp_step. wp_step.
  rewrite H1, H2, H4, Nat2Z.id. rewrite <-(slots_length S L).
  apply (copy_loop _ (λ t c, if recovering then 0 else if decide (c ∈ drop t L) then 1 else 0)); [done| | | |].
  { intros c. by rewrite drop_0, Hp. }
  { intros a. rewrite slots_home, slots_log. intros Ha Hl. destruct (H8 a Hl) as [_ Hn]. apply Hn. unfold in_log. lia. }
  2:{ intros s' [C1 C2 C3 C4 C5 C6]. apply HQ. split; try done. intros c. rewrite C5. destruct recovering; [done|].
      rewrite drop_ge by (rewrite slots_length; lia). by rewrite decide_False by apply not_elem_of_nil. }
  intros t a b s1 R [-> Ht]%slots_lookup Hc Hva Hda HR. pose proof (lookup_lt_Some _ _ _ Ht).
  destruct (H8 b) as [Hr Hn]; [by eapply list_elem_of_lookup_2|]. unfold in_log in Hn.
  rewrite (H6 _ _ Ht), (u32_small b), (u32_small (S + _ + 1)) by lia.
  wp_step. pose proof (λ u, copied_uart _ _ _ u _ Hc) as Hcu.
  assert (∃ u, s1 = set_uart u s1) as (u0 & Hu0) by (exists (uart s1); by destruct s1).
  enough (∀ u, wp (lbuf <- bread me ROOTDEV (S + Z.of_nat t + 1) ;; dbuf <- bread me ROOTDEV b ;; d <- buf_data lbuf ;;
    buf_store dbuf (λ _, d) ;; bwrite me dbuf ;; (when negb recovering do bunpin dbuf) ;; brelse me lbuf ;; brelse me dbuf)
    R (set_uart u s1)) as Hturn by (destruct recovering; [wp_print u; apply Hturn|wp_step; rewrite Hu0; apply Hturn]).
  clear u0 Hu0. intros u. specialize (Hcu u). clear Hc. set (s1u := set_uart u s1) in *. rename Hcu into Hc.
  change (view s1u (S + Z.of_nat t + 1) = view s (S + Z.of_nat t + 1)) in Hva.
  change (disk s1u (S + Z.of_nat t + 1) = disk s (S + Z.of_nat t + 1)) in Hda.
  pose proof (fr_size _ _ _ (cp_frame _ _ _ _ Hc)) as Hsz. pose proof (cp_pins _ _ _ _ Hc) as Hp1.
  assert (drop t L = b :: drop (Datatypes.S t) L) as Hdrop by by apply drop_S.
  assert (b ∉ drop (Datatypes.S t) L) as Hnb.
  { pose proof H7 as Hnd. rewrite <-(take_drop t L), Hdrop in Hnd.
    apply NoDup_app in Hnd as (_ & _ & Hnd). by apply NoDup_cons in Hnd as [? _]. }
  apply (install_turn recovering (S + Z.of_nat t + 1) b s1u); try rewrite Hsz; try lia.
  - apply (cp_ok _ _ _ _ Hc).
  - apply (room_pins me [] s1u (if recovering then [] else L)); [apply (cp_ok _ _ _ _ Hc)| |].
    + intros c. rewrite Hp1. destruct recovering; [lia|]. case_decide as Hd; [|lia].
      intros _. rewrite <-(take_drop t L). by apply elem_of_app; right.
    + destruct recovering; [cbn; lia|]. by apply Hlen.
  - rewrite Hva, Hda. apply Hcl. unfold in_log. lia.
  - destruct recovering; [done|]. rewrite Hp1, Hdrop, decide_True by left. lia.
  - intros s2 [C1 C2 C3 C4 C5 C6]. apply HR. split; try done; [|by destruct C6; split]. intros c. rewrite C5. destruct recovering; [apply Hp1|].
    unfold plus. rewrite Hp1, Hdrop. destruct (decide (c = b)) as [->|Hcb].
    + rewrite decide_True by left. by rewrite decide_False.
    + rewrite Z.add_0_r. apply decide_ext. rewrite elem_of_cons. naive_solver.
Qed.

(** write_head writes the header of the log in memory. *)
Lemma write_head_wp S s Q : lg_dev (log_of s) = ROOTDEV → lg_start (log_of s) = S → 0 ≤ S < disk_size s →
  disk_size s < 2^31 → cache_ok me [] s → room s →
  (∀ s', copied s [(S, put_header (lg_n (log_of s)) (lg_block (log_of s)) (view s S))] (pins s) s' → Q tt s') →
  wp (write_head me) Q s.
Proof.
  intros H1 H2 HS Hsz Hok Hr HQ. unfold write_head. wp_step. wp_step. rewrite H1, H2, (u32_small S) by lia.
  wp_step. apply (bread_op me []); [done..|by intros i ?%elem_of_nil|by left|].
  intros i s1 [A1 A2 A3 A4 A5] _ Ai Ad Aw. wp_step. assert (i ∈ [i]) as Hin by left.
  apply (buf_store_op me [i]); [done..|]. rewrite Ai, A2. intros s2 [B1 B2 B3 B4 B5] Bd Bw. wp_step.
  assert (b_blockno (bufs s2 i) = S) as Bi by by rewrite B4.
  apply (bwrite_op me [i]); [done..|rewrite Bi, (fr_size _ _ _ B5), (fr_size _ _ _ A5); lia|]. cbv zeta.
  rewrite Bi, B2, fupd_eq. intros s3 [C1 C2 C3 C4 C5] Cd Cw.
  assert (b_blockno (bufs s3 i) = S) as Ci by by rewrite C4.
  apply (brelse_op me []); [done|set_solver|..]; cbv zeta; rewrite Ci.
  { right. by rewrite C2, B2, Cd, !fupd_eq. }
  intros s4 [D1 D2 D3 D4 D5] Dd Dw. apply HQ. split; [done|..].
  - intros c. rewrite D2, C2, B2. cbn. rewrite !fupd_spec. by case_decide.
  - intros c. by rewrite Dd, Cd, Bd, Ad.
  - by rewrite Dw, Cw, Bw, Aw.
  - intros c. rewrite D3. unfold plus. rewrite C3, B3, A3. unfold plus. case_decide; lia.
  - by do 3 (etrans; [eassumption|]).
Qed.

(** read_head reads the header of the log on disk. *)
Definition hdr_list (m : mem) : list Z := hdr_block m <$> seqZ 0 (hdr_n m).

Lemma read_head_wp S s Q : lg_dev (log_of s) = ROOTDEV → lg_start (log_of s) = S → 0 ≤ S < disk_size s →
  disk_size s < 2^31 → cache_ok me [] s → room s → view s S = disk s S → hdr_n (disk s S) ≤ LOGBLOCKS →
  (∀ s', let s1 := upd_log (λ l, set_lg_block (λ i, if in_table i (hdr_n (disk s S)) then hdr_block (disk s S) i
             else lg_block l i) (set_lg_n (hdr_n (disk s S)) l)) s in
     copied s1 [] (pins s) s' → Q tt s') →
  wp (read_head me) Q s.
Proof.
  intros H1 H2 HS Hsz Hok Hr Hcl Hn HQ. unfold read_head. wp_step. wp_step. rewrite H1, H2, (u32_small S) by lia.
  wp_step. apply (bread_op me []); [done..|by intros i ?%elem_of_nil|by left|].
  intros i s1 [A1 A2 A3 A4 A5] _ Ai Ad Aw. wp_step. assert (i ∈ [i]) as Hin by left.
  apply (buf_data_op me [i]); [done..|]. rewrite Ai, A2, Hcl. rewrite (proj2 (Z.ltb_ge _ _)) by done. wp_step. wp_step.
  wp_step. wp_step.
  set (s2 := upd_log _ (upd_log _ s1)).
  assert (cache_ok me [i] s2) as Hok2 by (destruct A1; by split).
  apply (brelse_op me []); [done|set_solver|..]; change (bufs s2) with (bufs s1); cbv zeta; rewrite Ai.
  { right. change (view s2 S) with (view s1 S). change (disk s2 S) with (disk s1 S). by rewrite A2, Ad. }
  intros s4 [D1 D2 D3 D4 D5] Dd Dw. apply HQ. split; [done|..].
  - intros c. rewrite D2. change (view s2 c) with (view s1 c). by rewrite A2.
  - intros c. rewrite Dd. change (disk s2 c) with (disk s1 c). by rewrite Ad.
  - rewrite Dw. change (writes s2) with (writes s1). by rewrite Aw, app_nil_r.
  - intros c. rewrite D3. unfold plus. change (pins s2 c) with (pins s1 c). rewrite A3. unfold plus. case_decide; lia.
  - destruct A5 as [F1 F2 F3 F4 F5 F6], D5 as [E1 E2 E3 E4 E5 E6]. split; cbn in *; try congruence.
    rewrite E1. by rewrite F1.
Qed.

(** ** Recovery of a disk *)

(** The header block [m] describes a log that can be installed. *)
Record header_ok (S sz : Z) (m : mem) : Prop := {
  ho_n : 0 ≤ hdr_n m ≤ LOGBLOCKS;
  ho_nodup : NoDup (hdr_list m);
  ho_home : ∀ b, b ∈ hdr_list m → 0 ≤ b < sz ∧ ¬ in_log S b
}.

(** The contents recovery gives the blocks of a disk: those of the log for
    the blocks its header lists. *)
Definition recovered (S : Z) (D : Z → mem) : Z → mem := replay (copies D (slots S (hdr_list (D S)))) D.

Lemma hdr_list_empty m : hdr_n m = 0 → hdr_list m = [].
Proof. unfold hdr_list. by intros ->. Qed.

Lemma header_ok_empty S sz m : hdr_n m = 0 → header_ok S sz m.
Proof.
  intros Hm. split; rewrite ?(hdr_list_empty m Hm), ?Hm; [lia|constructor|]. by intros b ?%elem_of_nil.
Qed.

Lemma recovered_empty S D : hdr_n (D S) = 0 → recovered S D = D.
Proof. intros Hm. unfold recovered. by rewrite hdr_list_empty. Qed.

Lemma recovered_full S L D V c : hdr_list (D S) = L → NoDup L →
  (∀ i b, L !! i = Some b → D (S + Z.of_nat i + 1) = V b) → (c ∉ L → D c = V c) → recovered S D c = V c.
Proof.
  intros HL Hnd Hslot Hother. unfold recovered. rewrite HL. destruct (decide (c ∈ L)) as [Hc|Hc].
  - apply replay_in; [by rewrite copies_fst, slots_home|]. apply list_elem_of_lookup in Hc as [i Hi].
    apply list_elem_of_fmap. exists (S + Z.of_nat i + 1, c). cbn. rewrite (Hslot i c Hi). split; [done|].
    eapply list_elem_of_lookup_2. by apply slots_lookup.
  - rewrite replay_other by by rewrite copies_fst, slots_home. by apply Hother.
Qed.

Lemma hdr_list_put L f m : (length L ≤ 30)%nat → (∀ i b, L !! i = Some b → f (Z.of_nat i) = b) →
  (∀ b, b ∈ L → 0 ≤ b < 2^31) → hdr_list (put_header (Z.of_nat (length L)) f m) = L.
Proof.
  intros Hlen Hf Hr. unfold hdr_list. rewrite header_n by lia. apply list_eq. intros i. rewrite list_lookup_fmap.
  destruct (L !! i) as [b|] eqn:E.
  - pose proof (lookup_lt_Some _ _ _ E). rewrite lookup_seqZ_lt, Z.add_0_l by lia. cbn. f_equal.
    pose proof (Hr b (list_elem_of_lookup_2 _ _ _ E)). rewrite header_block; [by apply Hf|lia|].
    by rewrite (Hf _ _ E).
  - apply lookup_ge_None in E. by rewrite lookup_seqZ_ge by lia.
Qed.

(** Emptying the header. *)
Lemma header_zero f m : put_header 0 f m = st32 m 0 0.
Proof. done. Qed.

Lemma header_zero_n m : hdr_n (st32 m 0 0) = 0.
Proof. by apply (header_n 0 (λ _, 0)). Qed.

(** The machine has booted on a disk with contents [D]. *)
Record booted (S : Z) (D : Z → mem) (sb : superblock) (s : kstate) : Prop := {
  bt_cache : cache_ok me [] s;
  bt_pins : ∀ c, pins s c = 0;
  bt_view : ∀ c, view s c = disk s c;
  bt_disk : disk s = D;
  bt_sb : sb_logstart sb = S;
  bt_area : 0 ≤ S ∧ S + LOGBLOCKS < disk_size s ∧ disk_size s < 2^31
}.

Definition recovery_writes (S : Z) (D : Z → mem) : list (Z * mem) :=
  copies D (slots S (hdr_list (D S))) ++ [(S, st32 (D S) 0 0)].

Lemma copies_ext V V' P : (∀ a, a ∈ P.*1 → V a = V' a) → copies V P = copies V' P.
Proof.
  intros H. apply list_fmap_ext. intros i [a b] Hp. cbn. f_equal. apply H.
  apply list_elem_of_fmap. exists (a, b). split; [done|]. by eapply list_elem_of_lookup_2.
Qed.

Lemma initlog_wp S D sb s Q : booted S D sb s → header_ok S (disk_size s) (D S) →
  (∀ s', cache_ok me [] s' → (∀ c, pins s' c = 0) → (∀ c, disk s' c = replay (recovery_writes S D) D c) →
    (∀ c, view s' c = disk s' c) → writes s' = writes s ++ recovery_writes S D →
    lists S [] s' → Q tt s') →
  wp (initlog me ROOTDEV sb) Q s.
Proof.
  intros [T1 T2 T3 T4 T5 T6] [O1 O2 O3] HQ. unfold initlog. change (BSIZE <=? 4 + 4 * LOGBLOCKS) with false.
  cbv iota. do 4 wp_step. rewrite T5, s32_small by lia. unfold recover_from_log.
  set (s1 := upd_log _ (upd_log _ s)).
  assert (cache_ok me [] s1) as Hok1 by by destruct T1.
  assert (∀ s, cache_ok me [] s → (∀ c, pins s c = 0) → room s) as Hroom.
  { intros s2 H2 Hp. apply (room_pins me [] s2 []); [done| |cbn; lia]. intros c. rewrite Hp. lia. }
  wp_step. apply (read_head_wp S); [done..|cbn; lia|cbn; lia|done|by apply Hroom|apply T3|cbn; rewrite T4; lia|].
  change (disk s1 S) with (disk s S). rewrite T4. cbv zeta. intros s2 A. pose proof A as [A1 A2 A3 A4 A5 A6].
  assert (lists S (hdr_list (D S)) s2) as HL2.
  { destruct A6 as [F1 F2 _ _ _ _]. unfold hdr_list. split; rewrite ?F1, ?F2; cbn; rewrite ?length_fmap, ?length_seqZ; try lia; try done.
    intros i b Hb. rewrite list_lookup_fmap in Hb. destruct (_ !! i) as [j|] eqn:Ej; [|done].
    apply lookup_seqZ in Ej as [-> Hi]. injection Hb as <-. unfold in_table. by rewrite (proj2 (Z.leb_le _ _)), (proj2 (Z.ltb_lt _ _)) by lia. }
  assert (∀ c, view s2 c = D c) as V2 by (intros c; rewrite A2, <-T4; apply T3).
  assert (∀ c, disk s2 c = D c) as D2 by (intros c; rewrite A3; cbn; by rewrite T4).
  wp_step. apply (install_trans_wp true S (hdr_list (D S))); [done|done|by intros c _; rewrite V2, D2|done| |].
  { intros c. rewrite A5. apply T2. }
  intros s3 B. pose proof B as [B1 B2 B3 B4 B5 B6]. rewrite (copies_ext _ D) in B2, B3, B4 by (intros a _; apply V2).
  do 2 wp_step. set (s4 := upd_log _ s3). pose proof (lists_frame S _ s2 s3 B6 HL2) as [L1 L2 L3 L4 L5 L6 L7 L8].
  assert (cache_ok me [] s4) as Hok4 by by destruct B1.
  apply (write_head_wp S); [done..|cbn; lia|cbn; lia|done|by apply Hroom|]. cbn. change (view s4 S) with (view s3 S).
  rewrite header_zero, B2, replay_other, V2.
  2:{ rewrite copies_fst, slots_home. intros HS%L8. apply (proj2 HS). unfold in_log. lia. }
  intros s5 [C1 C2 C3 C4 C5 C6].
  assert (∀ c, disk s5 c = replay (recovery_writes S D) D c) as D5.
  { intros c. rewrite C3. unfold recovery_writes. rewrite replay_app. apply replay_ext. cbn. rewrite B3. by apply replay_ext. }
  apply HQ; [done| |done| | |].
  - intros c. rewrite C5. apply B5.
  - intros c. rewrite D5, C2. unfold recovery_writes. rewrite replay_app. apply replay_ext.
    change (view s4 c) with (view s3 c). rewrite B2. by apply replay_ext.
  - rewrite C4. cbn. rewrite B4, A4. cbn. unfold recovery_writes. by rewrite app_nil_r, app_assoc.
  - eapply lists_frame; [exact C6|]. split; cbn; try done; [lia|constructor|by intros b ?%elem_of_nil].
Qed.

(** An interrupted recovery changes nothing for the next one. *)
Lemma recovery_prefix S sz D k : header_ok S sz (D S) → let D' := replay (take k (recovery_writes S D)) D in
  header_ok S sz (D' S) ∧ ∀ c, ¬ in_log S c → recovered S D' c = recovered S D c.
Proof.
  intros [O1 O2 O3] D'. set (L := hdr_list (D S)) in *.
  assert (length L ≤ 30)%nat as Hlen by (unfold L, hdr_list; rewrite length_fmap, length_seqZ; lia).
  assert (S ∉ L) as HSL by (intros HS; apply (O3 S HS); unfold in_log; lia).
  assert (length (copies D (slots S L)) = length L) as Hcl by (unfold copies; by rewrite length_fmap, slots_length).
  assert (∀ c, ¬ in_log S c → c ≠ S) as HcS by (intros c Hc ->; apply Hc; unfold in_log; lia).
  unfold D', recovery_writes. fold L. rewrite take_app, Hcl. destruct (decide (k ≤ length L)%nat) as [Hk|Hk].
  - rewrite (proj2 (Nat.sub_0_le _ _) Hk), take_0, app_nil_r. clear D'.
    set (ws := take k (copies D (slots S L))).
    assert (∀ c, c ∉ L → replay ws D c = D c) as Hother.
    { intros c Hc. apply replay_other. intros Hin. apply Hc. unfold ws in Hin. rewrite fmap_take, copies_fst, slots_home in Hin.
      rewrite <-(take_drop k L). apply elem_of_app. by left. }
    rewrite Hother by done. split; [by split|]. intros c Hc.
    apply (recovered_full S L); [by rewrite Hother|done|..].
    + intros i b Hb. pose proof (lookup_lt_Some _ _ _ Hb). rewrite Hother.
      * symmetry. apply replay_in; [by rewrite copies_fst, slots_home|]. apply list_elem_of_fmap.
        exists (S + Z.of_nat i + 1, b). split; [done|]. eapply list_elem_of_lookup_2. by apply slots_lookup.
      * intros Hin. apply (O3 _ Hin). unfold in_log. lia.
    + intros Hn. rewrite Hother by done. symmetry. apply replay_other. fold L. by rewrite copies_fst, slots_home.
  - rewrite take_ge by (rewrite Hcl; lia). rewrite take_ge by (cbn; lia). clear D'. rewrite replay_app.
    set (D' := replay [_] _). assert (hdr_n (D' S) = 0) as HD' by (unfold D'; cbn; rewrite fupd_eq; apply header_zero_n).
    split; [by apply header_ok_empty|]. intros c Hc. rewrite recovered_empty by done. unfold D'. cbn.
    rewrite fupd_ne by by apply HcS. done.
Qed.

Lemma recovery_writes_outside S D c : ¬ in_log S c → replay (recovery_writes S D) D c = recovered S D c.
Proof.
  intros Hc. unfold recovery_writes. rewrite replay_app. cbn. rewrite fupd_ne; [done|].
  intros ->. apply Hc. unfold in_log. lia.
Qed.

(** C2: recovery makes the logged blocks current, and can itself be
    interrupted.  After a boot on a disk whose log header is well formed,
    initlog returns with an empty log on disk and with every block outside the
    log holding its contents from the log if the header lists it and what it
    had otherwise.  Whatever prefix of its writes reached the disk when the
    machine stops again, the header is still well formed and recovery of that
    disk gives the same contents. *)
Theorem recovery_idempotent S D sb s : booted S D sb s → header_ok S (disk_size s) (D S) →
  wp (initlog me ROOTDEV sb) (λ _ s', ∃ ws,
    writes s' = writes s ++ ws ∧ (∀ c, disk s' c = replay ws D c ∧ view s' c = disk s' c) ∧
    lists S [] s' ∧ hdr_n (disk s' S) = 0 ∧ (∀ c, ¬ in_log S c → disk s' c = recovered S D c) ∧
    ∀ k, let D' := replay (take k ws) D in
      header_ok S (disk_size s) (D' S) ∧ ∀ c, ¬ in_log S c → recovered S D' c = recovered S D c) s.
Proof.
  intros Hb Hh. eapply initlog_wp; [done..|]. intros s' K1 K2 K3 K4 K5 K6. exists (recovery_writes S D).
  split_and!; [done|done|done| | |intros k; by apply recovery_prefix].
  - rewrite K3. unfold recovery_writes. rewrite replay_app. cbn. rewrite fupd_eq. apply header_zero_n.
  - intros c Hc. rewrite K3. by apply recovery_writes_outside.
Qed.

(** ** Commit *)

(** A transaction that is ready to commit: its blocks [L] are pinned in the
    cache, every other block agrees with the disk, the log on disk is empty. *)
Record txn (S : Z) (L : list Z) (s : kstate) : Prop := {
  tx_cache : cache_ok me [] s;
  tx_lists : lists S L s;
  tx_len : (length L < 30)%nat;
  tx_pins : ∀ c, pins s c = if decide (c ∈ L) then 1 else 0;
  tx_clean : ∀ c, c ∉ L → view s c = disk s c;
  tx_empty : hdr_n (disk s S) = 0
}.

(** The writes of a commit, in the order they reach the disk. *)
Definition log_header (S : Z) (s : kstate) : mem := put_header (lg_n (log_of s)) (lg_block (log_of s)) (view s S).

Definition commit_writes (S : Z) (L : list Z) (s : kstate) : list (Z * mem) :=
  imap (λ i b, (S + Z.of_nat i + 1, view s b)) L ++ [(S, log_header S s)] ++
  ((λ b, (b, view s b)) <$> L) ++ [(S, st32 (log_header S s) 0 0)].

Lemma log_copies S L s : copies (view s) (prod_swap <$> slots S L) = imap (λ i b, (S + Z.of_nat i + 1, view s b)) L.
Proof. unfold copies, slots. rewrite !fmap_imap. done. Qed.

Lemma log_copies_fst S L (V : Z → mem) c :
  c ∈ (imap (λ i b, (S + Z.of_nat i + 1, V b)) L).*1 ↔ S + 1 ≤ c < S + 1 + Z.of_nat (length L).
Proof.
  rewrite <-(slots_log S L c). unfold slots. rewrite !fmap_imap. done.
Qed.

Lemma log_copies_nodup S L (V : Z → mem) : NoDup (imap (λ i b, (S + Z.of_nat i + 1, V b)) L).*1.
Proof.
  apply NoDup_alt. intros i j x. rewrite !fmap_imap, !list_lookup_imap.
  destruct (L !! i), (L !! j); cbn; intros [= <-] [= ?]. lia.
Qed.

(** After the log blocks and the header are written, the log holds the new
    contents of the transaction's blocks. *)
Lemma logged_slot S L (V D : Z → mem) ws i b : L !! i = Some b → S + Z.of_nat i + 1 ∉ ws.*1 →
  replay (imap (λ i b, (S + Z.of_nat i + 1, V b)) L ++ ws) D (S + Z.of_nat i + 1) = V b.
Proof.
  intros Hi Hws. rewrite replay_app, replay_other by done. apply replay_in; [apply log_copies_nodup|].
  apply list_elem_of_lookup. exists i. by rewrite list_lookup_imap, Hi.
Qed.

Lemma commit_wp S L s Q : txn S L s → L ≠ [] →
  (∀ s', copied (upd_log (set_lg_n 0) s) (commit_writes S L s) (λ _, 0) s' → Q tt s') → wp (commit me) Q s.
Proof.
  intros [T1 T2 T3 T4 T5 T6] HL HQ. pose proof T2 as [H1 H2 H3 H4 H5 H6 H7 H8]. unfold commit. do 2 wp_step.
  rewrite (proj2 (Z.ltb_lt _ _)) by (rewrite H4; destruct L; [done|cbn; lia]).
  wp_step. apply (write_log_wp S L); [done..|]. rewrite log_copies. intros s1 A. pose proof A as [A1 A2 A3 A4 A5 A6].
  pose proof (fr_log _ _ _ A6) as F1. pose proof (fr_size _ _ _ A6) as F2.
  wp_step. apply (write_head_wp S); rewrite ?F1, ?F2; [done..|lia|lia|done| |].
  { apply (room_pins me [] s1 L); [done| |done]. intros c. rewrite A5, T4. case_decide; [done|lia]. }
  rewrite A2, replay_other by (rewrite log_copies_fst; lia). fold (log_header S s).
  intros s2 B. pose proof (copied_trans _ _ _ _ _ _ _ A B) as [B1 B2 B3 B4 B5 B6].
  wp_step. apply (install_trans_wp false S L); [by eapply lists_frame|done| |done|intros c; rewrite B5, A5; apply T4|].
  { intros c Hc. rewrite B2, B3. apply replay_ext, T5. intros Hin. by apply (H8 c Hin). }
  assert (copies (view s2) (slots S L) = (λ b, (b, view s b)) <$> L) as ->.
  { apply list_eq. intros i. unfold copies, slots. rewrite !list_lookup_fmap, list_lookup_imap.
    destruct (L !! i) as [b|] eqn:Hi; [|done]. cbn. do 2 f_equal. rewrite B2. apply logged_slot; [done|]. cbn.
    rewrite list_elem_of_singleton. lia. }
  intros s3 C. pose proof (copied_trans _ _ _ _ _ _ _ (copied_trans _ _ _ _ _ _ _ A B) C) as [C1 C2 C3 C4 C5 C6].
  do 2 wp_step. set (s4 := upd_log _ s3). pose proof (fr_log _ _ _ C6) as G1. pose proof (fr_size _ _ _ C6) as G2.
  assert (cache_ok me [] s4) as Hok4 by by destruct C1.
  apply (write_head_wp S); cbn; rewrite ?G1, ?G2; [done..|lia|lia|done| |].
  { apply (room_pins me [] s4 []); [done| |cbn; lia]. intros c. change (pins s4 c) with (pins s3 c). rewrite C5. lia. }
  rewrite header_zero. change (view s4 S) with (view s3 S).
  assert (view s3 S = log_header S s) as ->.
  { rewrite C2, replay_app, replay_app, replay_other; [cbn; apply fupd_eq|].
    rewrite <-list_fmap_compose. cbn. rewrite list_fmap_id. intros HS. apply (H8 S HS). unfold in_log. lia. }
  intros s5 [E1 E2 E3 E4 E5 E6]. apply HQ. unfold commit_writes. rewrite !app_assoc in *. split; [done|..].
  - intros c. rewrite E2, replay_app. apply replay_ext. change (view s4 c) with (view s3 c). apply C2.
  - intros c. rewrite E3, replay_app. apply replay_ext. apply C3.
  - rewrite E4. cbn. rewrite C4. by rewrite !app_assoc.
  - intros c. rewrite E5. apply C5.
  - destruct C6 as [X1 X2 X3 X4 X5 X6], E6 as [Y1 Y2 Y3 Y4 Y5 Y6]. split; cbn in *; try congruence.
Qed.

(** Once the header is on disk with the log complete, the remaining writes
    make no difference to recovery. *)
Lemma commit_prefix_rest S sz L (V D1 : Z → mem) h j :
  NoDup L → S ∉ L → (length L ≤ 30)%nat → (∀ b, b ∈ L → 0 ≤ b < sz ∧ ¬ in_log S b) → D1 S = h → hdr_list h = L → hdr_n h = Z.of_nat (length L) →
  (∀ i b, L !! i = Some b → D1 (S + Z.of_nat i + 1) = V b) → (∀ c, ¬ in_log S c → c ∉ L → D1 c = V c) →
  let D' := replay (take j (((λ b, (b, V b)) <$> L) ++ [(S, st32 h 0 0)])) D1 in
  header_ok S sz (D' S) ∧ ∀ c, ¬ in_log S c → recovered S D' c = V c.
Proof.
  intros H7 HSL Hlen H8 HD1 Hh Hn Hslot Hclean D'. set (I := (λ b, (b, V b)) <$> L) in *.
  assert (I.*1 = L) as HI by (unfold I; rewrite <-list_fmap_compose; apply list_fmap_id).
  unfold D'. clear D'. rewrite take_app. destruct (decide (j ≤ length I)%nat) as [Hj|Hj].
  - rewrite (proj2 (Nat.sub_0_le _ _) Hj), take_0, app_nil_r.
    assert (∀ c, c ∉ L → replay (take j I) D1 c = D1 c) as Hother.
    { intros c Hc. apply replay_other. intros Hin. apply Hc. rewrite fmap_take, HI in Hin.
      rewrite <-(take_drop j L). apply elem_of_app. by left. }
    rewrite Hother, HD1 by done. split.
    + split; rewrite ?Hh, ?Hn; try done. lia.
    + intros c Hc. apply (recovered_full S L); [by rewrite Hother, HD1|done| |].
      * intros i b Hb. rewrite Hother; [by apply Hslot|]. pose proof (lookup_lt_Some _ _ _ Hb).
        intros Hin. apply (H8 _ Hin). unfold in_log. lia.
      * intros HcL. rewrite Hother by done. by apply Hclean.
  - rewrite take_ge by lia. rewrite take_ge by (cbn; lia). rewrite replay_app.
    set (D' := replay [_] _). assert (hdr_n (D' S) = 0) as HD' by (unfold D'; cbn; rewrite fupd_eq; apply header_zero_n).
    split; [by apply header_ok_empty|]. intros c Hc. rewrite recovered_empty by done. unfold D'. cbn.
    rewrite fupd_ne by (intros ->; apply Hc; unfold in_log; lia).
    destruct (decide (c ∈ L)) as [HcL|HcL].
    + apply replay_in; [by rewrite HI|]. unfold I. apply list_elem_of_fmap. by exists c.
    + rewrite replay_other by by rewrite HI. by apply Hclean.
Qed.

(** What a crash after [k] writes of a commit leaves: *)
Lemma commit_prefix S L s k : txn S L s → let D' := replay (take k (commit_writes S L s)) (disk s) in
  header_ok S (disk_size s) (D' S) ∧
  ∀ c, ¬ in_log S c → recovered S D' c = if decide (k ≤ length L)%nat then disk s c else view s c.
Proof.
  intros [T1 T2 T3 T4 T5 T6] D'. pose proof T2 as [H1 H2 H3 H4 H5 H6 H7 H8]. set (V := view s) in *.
  unfold D', commit_writes. clear D'. fold V. set (W := imap _ L). set (h := log_header S s).
  assert (length W = length L) as HW by apply length_imap.
  assert (∀ c, c ∈ W.*1 ↔ S + 1 ≤ c < S + 1 + Z.of_nat (length L)) as HWin by (intros c; apply log_copies_fst).
  assert (S ∉ L) as HSL by (intros HS; apply (H8 S HS); unfold in_log; lia).
  assert (hdr_list h = L) as Hh.
  { unfold h, log_header. rewrite H4. apply hdr_list_put; [lia|done|]. intros b Hb. destruct (H8 b Hb). lia. }
  case_decide as Hk; rewrite take_app, HW.
  - rewrite (proj2 (Nat.sub_0_le _ _) Hk), take_0, app_nil_r.
    assert (∀ c, c ∉ W.*1 → replay (take k W) (disk s) c = disk s c) as Hother.
    { intros c Hc. apply replay_other. intros Hin. apply Hc. rewrite fmap_take in Hin.
      rewrite <-(take_drop k (W.*1)). apply elem_of_app. by left. }
    assert (replay (take k W) (disk s) S = disk s S) as HS by (apply Hother; rewrite HWin; lia).
    rewrite HS. split; [by apply header_ok_empty|]. intros c Hc. rewrite recovered_empty by by rewrite HS.
    apply Hother. rewrite HWin. unfold in_log in Hc. lia.
  - rewrite take_ge by lia. replace (k - length L)%nat with (Datatypes.S (k - length L - 1)) by lia. cbn [app take].
    set (rest := take _ _). set (D1 := replay (W ++ [(S, h)]) (disk s)).
    replace (replay (W ++ (S, h) :: rest) (disk s)) with (replay rest D1) by (unfold D1; rewrite <-replay_app, <-app_assoc; done).
    assert (∀ i b, L !! i = Some b → D1 (S + Z.of_nat i + 1) = V b) as Hslot.
    { intros i b Hb. apply logged_slot; [done|]. cbn. rewrite list_elem_of_singleton. lia. }
    assert (D1 S = h) as HD1 by (unfold D1; rewrite replay_app; cbn; apply fupd_eq).
    assert (∀ c, ¬ in_log S c → c ∉ L → D1 c = V c) as Hclean.
    { intros c Hc HcL. unfold D1. rewrite replay_app. cbn. rewrite fupd_ne by (intros ->; apply Hc; unfold in_log; lia).
      rewrite replay_other by (rewrite HWin; unfold in_log in Hc; lia). symmetry. by apply T5. }
    assert (hdr_n h = Z.of_nat (length L)) as Hhn by (unfold h, log_header; rewrite H4; apply header_n; lia).
    by apply (commit_prefix_rest S (disk_size s) L V D1 h).
Qed.

(** The whole of the commit. *)
Lemma commit_outside S L s c : txn S L s → ¬ in_log S c →
  replay (commit_writes S L s) (disk s) c = view s c ∧ replay (commit_writes S L s) (view s) c = view s c.
Proof.
  intros HT Hc. split.
  - pose proof (commit_prefix S L s (length (commit_writes S L s)) HT) as [_ Hr].
    rewrite take_ge in Hr by lia. specialize (Hr c Hc). rewrite decide_False in Hr.
    + rewrite <-Hr, recovered_empty; [done|]. unfold commit_writes. rewrite !replay_app. cbn. rewrite fupd_eq. apply header_zero_n.
    + unfold commit_writes. rewrite !length_app, length_imap. cbn. lia.
  - apply replay_same. intros m. unfold commit_writes. rewrite !elem_of_app, !list_elem_of_singleton.
    assert (c ≠ S) as HcS by (intros ->; apply Hc; unfold in_log; lia).
    intros [Hm|[[= ? _]|[Hm|[= ? _]]]]; [|done| |done].
    + exfalso. assert (c ∈ (imap (λ i b, (S + Z.of_nat i + 1, view s b)) L).*1) as Hin.
      { apply list_elem_of_fmap. by exists (c, m). }
      apply log_copies_fst in Hin. apply Hc. pose proof (ls_len _ _ _ (tx_lists _ _ _ HT)). unfold in_log. lia.
    + apply list_elem_of_fmap in Hm as (b & [= -> ->] & _). done.
Qed.

(** [ws] are writes to the disk of [s] such that, if only the first [k] of
    them reach it and the machine boots from that disk, recovery returns, and
    then every block outside the log has its old contents when [k] is at most
    [n] and the contents [new] otherwise. *)
Definition survives (S : Z) (n : nat) (ws : list (Z * mem)) (s : kstate) (new : Z → mem) : Prop :=
  ∀ k s0 sb, booted S (replay (take k ws) (disk s)) sb s0 → disk_size s0 = disk_size s →
    wp (initlog me ROOTDEV sb) (λ _ s1, lists S [] s1 ∧ ∀ c, ¬ in_log S c →
      view s1 c = (if decide (k ≤ n)%nat then disk s c else new c) ∧ disk s1 c = view s1 c) s0.

Lemma survives_prefix S n ws s new :
  (∀ k, let D' := replay (take k ws) (disk s) in header_ok S (disk_size s) (D' S) ∧
     ∀ c, ¬ in_log S c → recovered S D' c = if decide (k ≤ n)%nat then disk s c else new c) →
  survives S n ws s new.
Proof.
  intros H k s0 sb Hb Hsz. destruct (H k) as [Ho Hr].
  eapply initlog_wp; [done|by rewrite Hsz|]. intros s1 K1 K2 K3 K4 K5 K6. split; [done|]. intros c Hc.
  rewrite K4, K3, recovery_writes_outside, Hr by done. done.
Qed.

(** A commit is atomic, and leaves an empty transaction. *)
Lemma commit_atomic S L s : txn S L s →
  wp (commit me) (λ _ s', txn S [] s' ∧ (∀ c, ¬ in_log S c → view s' c = view s c) ∧
    log_of s' = set_lg_n 0 (log_of s) ∧
    ∃ ws, writes s' = writes s ++ ws ∧ survives S (length L) ws s (view s)) s.
Proof.
  intros HT. pose proof HT as [T1 T2 T3 T4 T5 T6]. destruct (decide (L = [])) as [->|HL].
  - unfold commit. do 2 wp_step. rewrite (ls_n _ _ _ T2). change (0 <? Z.of_nat (length [])) with false. cbv iota.
    wp_step. split_and!; [done|done| |].
    { pose proof (ls_n _ _ _ T2) as Hn. cbn in Hn. destruct (log_of s). cbn in *. by rewrite Hn. }
    exists []. split; [by rewrite app_nil_r|]. apply survives_prefix. intros k. rewrite take_nil. cbn.
    split; [by apply header_ok_empty|]. intros c _. rewrite recovered_empty by done. case_decide; [done|].
    symmetry. apply T5, not_elem_of_nil.
  - apply (commit_wp S L); [done..|]. intros s' [C1 C2 C3 C4 C5 C6]. cbn in C4.
    assert (∀ c, ¬ in_log S c → view s' c = view s c ∧ disk s' c = view s c) as Hout.
    { intros c Hc. destruct (commit_outside S L s c HT Hc) as [Hd Hv]. by rewrite C2, C3. }
    split_and!; [split; [done|..]|intros c Hc; by apply Hout|by rewrite (fr_log _ _ _ C6)|].
    + eapply lists_frame; [exact C6|]. destruct T2 as [H1 H2 H3 H4 H5 H6 H7 H8].
      split; cbn; try done; [lia|constructor|by intros b ?%elem_of_nil].
    + cbn. lia.
    + intros c. by rewrite C5.
    + intros c _. destruct (decide (c ∈ L)) as [Hc|Hc].
      * destruct (Hout c) as [-> ->]; [|done]. by apply (ls_home _ _ _ T2).
      * rewrite C2, C3. apply replay_ext. by apply T5.
    + rewrite C3. unfold commit_writes. rewrite !replay_app. cbn. rewrite fupd_eq. apply header_zero_n.
    + exists (commit_writes S L s). split; [done|]. apply survives_prefix. intros k. by apply commit_prefix.
Qed.
End log.
