(* ===== verification/LogOps.v ===== *)
(** Operations on the log: log_write records a block once, transactions run
    between begin_op and end_op are atomic, and the space begin_op reserves is
    enough for the operations it admits. *)

From S2P Require Import Prelude Riscv Memory Kalloc Vm State Printf Proc Bio BioThms Log LogThms.

Section ops.
Context (me : Z).

(** ** log_write *)

(** The transaction's blocks after a write of block [b]. *)
Definition absorb (b : Z) (L : list Z) : list Z := if decide (b ∈ L) then L else L ++ [b].

Lemma log_find_spec (lg : log) b : ∀ L i, (∀ k x, L !! k = Some x → lg_block lg (i + Z.of_nat k) = x) →
  (∀ x, x ∈ L → 0 ≤ x < 2^32) →
  ∃ k : nat, log_find (length L) i b lg = i + Z.of_nat k ∧
    (L !! k = Some b ∨ b ∉ L ∧ k = length L).
Proof.
  induction L as [|x L IH]; intros i Hb Hr; cbn [log_find length].
  { exists 0%nat. split; [lia|]. right. split; [apply not_elem_of_nil|done]. }
  assert (lg_block lg i = x) as Ex by (rewrite <-(Hb 0%nat x eq_refl); f_equal; lia).
  rewrite Ex, u32_small by (apply Hr; left). destruct (Z.eqb_spec x b) as [->|Hx].
  { exists 0%nat. split; [lia|by left]. }
  destruct (IH (i + 1)) as (k & -> & Hk).
  - intros k y Hy. rewrite <-(Hb (S k) y Hy). f_equal. lia.
  - intros y Hy. apply Hr. by right.
  - exists (S k). split; [lia|]. destruct Hk as [Hk|[Hn ->]]; [by left|right].
    split; [|done]. intros [->|?]%elem_of_cons; done.
Qed.

Lemma absorb_lookup b L k : L !! k = Some b ∨ b ∉ L ∧ k = length L →
  ∀ i x, absorb b L !! i = Some x → i = k ∧ x = b ∨ i ≠ k ∧ L !! i = Some x.
Proof.
  intros Hk i x. unfold absorb. case_decide as Hb.
  - destruct Hk as [Hk|[? _]]; [|done]. intros Hx. destruct (decide (i = k)) as [->|]; [left|by right]. by simplify_eq.
  - destruct Hk as [Hk|[_ ->]]; [by apply list_elem_of_lookup_2 in Hk|].
    rewrite lookup_app. destruct (L !! i) as [y|] eqn:E.
    + intros [= ->]. pose proof (lookup_lt_Some _ _ _ E). right. split; [lia|done].
    + intros Hx. apply list_lookup_singleton_Some in Hx as [Hi <-]. apply lookup_ge_None in E. left. split; [lia|done].
Qed.

Lemma absorb_elem b L x : x ∈ absorb b L ↔ x = b ∨ x ∈ L.
Proof. unfold absorb. case_decide; rewrite ?elem_of_app, ?list_elem_of_singleton; naive_solver. Qed.

Lemma absorb_length b L : length (absorb b L) = (length L + if decide (b ∈ L) then 0 else 1)%nat.
Proof. unfold absorb. case_decide; rewrite ?length_app; cbn; lia. Qed.

Lemma lists_absorb S L s s' b k : lists S L s → L !! k = Some b ∨ b ∉ L ∧ k = length L → (length L < 30)%nat →
  0 ≤ b < disk_size s → ¬ in_log S b →
  lg_dev (log_of s') = lg_dev (log_of s) → lg_start (log_of s') = lg_start (log_of s) →
  lg_n (log_of s') = Z.of_nat (length (absorb b L)) → lg_block (log_of s') = fupd (lg_block (log_of s)) (Z.of_nat k) b →
  disk_size s' = disk_size s → lists S (absorb b L) s'.
Proof.
  intros [H1 H2 H3 H4 H5 H6 H7 H8] Hk Hlen Hb Hnl E1 E2 E3 E4 E5. split; try congruence; try by rewrite E5.
  - rewrite absorb_length. case_decide; lia.
  - intros i x Hx. rewrite E4, fupd_spec. apply (absorb_lookup b L k Hk) in Hx as [[-> ->]|[Hi Hx]].
    + by rewrite decide_True.
    + rewrite decide_False by lia. by apply H6.
  - unfold absorb. case_decide; [done|]. apply NoDup_app. split_and!; [done|set_solver|apply NoDup_singleton].
  - intros x [->|Hx]%absorb_elem; rewrite E5; [done|by apply H8].
Qed.

(** log_write of a held buffer: its block is in the list, once, and pinned
    when it is new. *)
Lemma log_write_wp H S L s i (Q : unit → kstate → Prop) : let b := b_blockno (bufs s i) in
  lists S L s → cache_ok me H s → i ∈ H → (length L < 30)%nat → 1 ≤ lg_outstanding (log_of s) →
  0 ≤ b < disk_size s → ¬ in_log S b →
  (∀ s', lists S (absorb b L) s' → cache_ok me H s' → (∀ c, view s' c = view s c) →
     (∀ c, pins s' c = plus b (if decide (b ∈ L) then 0 else 1) (pins s) c) → disk s' = disk s → writes s' = writes s →
     (∀ j, j ∈ H → b_blockno (bufs s' j) = b_blockno (bufs s j)) →
     lg_outstanding (log_of s') = lg_outstanding (log_of s) →
     lg_committing (log_of s') = lg_committing (log_of s) → disk_size s' = disk_size s →
     (sb_of s' = sb_of s ∧ itable s' = itable s ∧ kmem_of s' = kmem_of s ∧ p_pid (procs s' me) = p_pid (procs s me)) →
     Q tt s') →
  wp (log_write i) Q s.
Proof.
  intros b [H1 H2 H3 H4 H5 H6 H7 H8] Hok Hi Hlen Hout Hb Hnl HQ. unfold log_write. do 2 wp_step.
  rewrite (proj2 (Z.leb_gt _ _)), (proj2 (Z.ltb_ge _ _)) by lia. do 2 wp_step. fold b. rewrite H4, Nat2Z.id.
  destruct (log_find_spec (log_of s) b L 0) as (k & Hk & Hkb); [done|intros x Hx; destruct (H8 x Hx); lia|].
  rewrite Hk, Z.add_0_l, s32_small by lia. cbv zeta. do 2 wp_step.
  destruct Hkb as [Hkb|[Hn ->]].
  - pose proof (lookup_lt_Some _ _ _ Hkb). rewrite (proj2 (Z.eqb_neq _ _)) by lia. wp_step.
    assert (b ∈ L) as HbL by by eapply list_elem_of_lookup_2. apply HQ; try done.
    + eapply (lists_absorb S L s _ b k); try done; [by left|]. cbn. rewrite absorb_length, decide_True by done. lia.
    + by destruct Hok.
    + intros c. rewrite decide_True by done. unfold plus. by destruct (decide (c = b)); rewrite Z.add_0_r.
  - rewrite Z.eqb_refl. set (s1 := upd_log _ s). assert (cache_ok me H s1) as Hok1 by by destruct Hok.
    wp_step. apply (bpin_op me H); [done..|]. intros s2 [B1 B2 B3 B4 B5] Bd Bw. wp_step.
    pose proof (fr_log _ _ _ B5) as F1. pose proof (fr_size _ _ _ B5) as F2. apply HQ.
    + eapply (lists_absorb S L s _ b (length L)); try done; try (by cbn; rewrite ?F1); [by right| ].
      cbn. rewrite absorb_length, decide_False by done. lia.
    + by destruct B1.
    + intros c. apply B2.
    + intros c. rewrite decide_False by done. apply B3.
    + done.
    + done.
    + intros j Hj. by apply B4.
    + cbn. by rewrite F1.
    + cbn. by rewrite F1.
    + done.
    + by destruct B5.
Qed.

(** ** Transactions *)

(** Between begin_op and end_op of a process running alone. *)
Record in_txn (S : Z) (L : list Z) (D : Z → mem) (out : Z) (s : kstate) : Prop := {
  it_cache : cache_ok me [] s;
  it_lists : lists S L s;
  it_pins : ∀ c, pins s c = if decide (c ∈ L) then 1 else 0;
  it_clean : ∀ c, c ∉ L → view s c = D c;
  it_disk : disk s = D;
  it_out : lg_outstanding (log_of s) = out;
  it_committing : lg_committing (log_of s) = false;
  it_empty : hdr_n (D S) = 0
}.

(** The way the comment of log_write says a block is updated:
      bp = bread(...); modify bp->data[]; log_write(bp); brelse(bp). *)
Definition update (b : Z) (g : mem → mem) : M kstate unit :=
  bp <- bread me ROOTDEV b ;;
  buf_store bp g ;;
  log_write bp ;;
  brelse me bp.

Fixpoint run_updates (us : list (Z * (mem → mem))) : M kstate unit :=
  match us with
  | [] => ret tt
  | (b, g) :: us' => update b g ;; run_updates us'
  end.

(** The contents after the updates. *)
Definition updated (us : list (Z * (mem → mem))) (V : Z → mem) : Z → mem :=
  foldl (λ V u, fupd V u.1 (u.2 (V u.1))) V us.

Lemma updated_ext us V V' c : (∀ x, V x = V' x) → updated us V c = updated us V' c.
Proof.
  revert V V'. induction us as [|[b g] us IH]; intros V V' HV; [apply HV|]. apply IH. intros x. cbn.
  rewrite !fupd_spec, !HV. done.
Qed.

(** One update. *)
Lemma update_wp S L D s b g (Q : unit → kstate → Prop) : in_txn S L D 1 s → (length L < 29)%nat →
  0 ≤ b < disk_size s → ¬ in_log S b →
  (∀ s', in_txn S (absorb b L) D 1 s' → (∀ c, view s' c = fupd (view s) b (g (view s b)) c) → writes s' = writes s →
    disk_size s' = disk_size s → Q tt s') →
  wp (update b g) Q s.
Proof.
  intros [T1 T2 T3 T4 T5 T6 T7 T8] Hlen Hb Hnl HQ. unfold update.
  wp_step. apply (bread_op me []); [done..|by intros j ?%elem_of_nil| |].
  { left. apply (room_pins me [] s L); [done| |lia]. intros c. rewrite T3. case_decide; [done|lia]. }
  intros i s1 [A1 A2 A3 A4 A5] _ Ai Ad Aw. assert (i ∈ [i]) as Hin by left.
  wp_step. apply (buf_store_op me [i]); [done..|]. rewrite Ai, A2. intros s2 [B1 B2 B3 B4 B5] Bd Bw.
  assert (b_blockno (bufs s2 i) = b) as Bi by by rewrite B4.
  assert (frame me s s2) as F by by etrans. pose proof (fr_log _ _ _ F) as F1. pose proof (fr_size _ _ _ F) as F2.
  wp_step. apply (log_write_wp [i] S L); [by eapply lists_frame|done|done|lia|rewrite F1; lia|rewrite Bi, F2; lia|by rewrite Bi|].
  rewrite Bi. intros s3 C1 C2 C3 C4 C5 C6 C7 C8 C9 C10 _.
  assert (b_blockno (bufs s3 i) = b) as Ci by by rewrite C7.
  assert (∀ c, pins s3 c = (if decide (c ∈ L) then 1 else 0) + (if decide (c = b) then if decide (b ∈ L) then 1 else 2 else 0)) as Hp3.
  { intros c. rewrite C4. unfold plus. rewrite B3, A3. unfold plus. rewrite T3. repeat case_decide; lia. }
  apply (brelse_op me []); [done|set_solver|..]; cbv zeta; rewrite Ci.
  { left. rewrite Hp3. repeat case_decide; done || lia. }
  intros s4 [D1 D2 D3 D4 D5] Dd Dw. pose proof (fr_log _ _ _ D5) as G1. pose proof (fr_size _ _ _ D5) as G2.
  assert (∀ c, view s4 c = fupd (view s) b (g (view s b)) c) as Hv.
  { intros c. rewrite D2, C3, B2, !fupd_spec. by rewrite A2. }
  apply HQ; [|done|congruence|congruence]. split; [done|by eapply lists_frame|..|done].
  - intros c. rewrite D3. unfold plus. rewrite Hp3. rewrite (decide_ext _ _ _ _ (absorb_elem b L c)).
    repeat case_decide; naive_solver lia.
  - intros c Hc. rewrite absorb_elem in Hc. rewrite Hv, fupd_ne by tauto. apply T4. tauto.
  - congruence.
  - by rewrite G1, C8, F1.
  - by rewrite G1, C9, F1.
Qed.

Lemma run_updates_wp S D us : ∀ L s (Q : unit → kstate → Prop), in_txn S L D 1 s → (length L + length us < 30)%nat →
  Forall (λ u, 0 ≤ u.1 < disk_size s ∧ ¬ in_log S u.1) us →
  (∀ L' s', in_txn S L' D 1 s' → (length L' < 30)%nat → (∀ c, view s' c = updated us (view s) c) →
    writes s' = writes s → disk_size s' = disk_size s → Q tt s') →
  wp (run_updates us) Q s.
Proof.
  induction us as [|[b g] us IH]; intros L s Q HT Hlen Hus HQ; cbn [run_updates].
  - wp_step. by apply (HQ L); [|cbn in Hlen; lia|..].
  - apply Forall_cons in Hus as [[Hb Hnl] Hus]. cbn in Hlen. wp_step.
    apply (update_wp S L D); [done|lia|done|done|]. intros s1 HT1 Hv1 Hw1 Hsz1.
    apply (IH (absorb b L)); [done| |by rewrite Hsz1|].
    + rewrite absorb_length. case_decide; lia.
    + intros L' s' HT' Hl' Hv' Hw' Hsz'. apply (HQ L'); [done|done| |congruence|congruence].
      intros c. rewrite Hv'. exact (updated_ext us _ _ c Hv1).
Qed.

Lemma in_txn_commit S L D out s : in_txn S L D out s → (length L < 30)%nat → txn me S L s.
Proof. intros [T1 T2 T3 T4 T5 T6 T7 T8] Hlen. split; try done; by rewrite T5. Qed.

(** end_op of the last operation commits. *)
Lemma end_op_wp S L s (Q : unit → kstate → Prop) : in_txn S L (disk s) 1 s → (length L < 30)%nat →
  (∀ s' ws, in_txn S [] (disk s') 0 s' → (∀ c, ¬ in_log S c → view s' c = view s c) → writes s' = writes s ++ ws →
    survives me S (length L) ws s (view s) → Q tt s') →
  wp (end_op me) Q s.
Proof.
  intros HT Hlen HQ. pose proof HT as [T1 T2 T3 T4 T5 T6 T7 T8]. unfold end_op, end_op_begin.
  do 5 wp_step. rewrite T7, T6. change (1 - 1 =? 0) with true. cbv iota. do 4 wp_step.
  set (s1 := upd_log _ (upd_log _ s)). assert (txn me S L s1) as HT1.
  { destruct (in_txn_commit _ _ _ _ _ HT Hlen) as [X1 X2 X3 X4 X5 X6]. split; try done; [by destruct X1|by destruct X2]. }
  eapply wp_mono; [by apply commit_atomic|]. intros [] s2 ([C1 C2 C3 C4 C5 C6] & Cv & Cl & ws & Cw & Cs).
  do 2 wp_step. apply wakeup_wp. intros f Hf. set (s3 := set_procs f _).
  assert (log_of s3 = set_lg_committing false (log_of s2)) as Hl3 by done. apply (HQ s3 ws).
  - split; rewrite ?Hl3, ?Cl; try done.
    + assert (p_pid (f me) = p_pid (procs s2 me)) as Hpid by (rewrite Hf; unfold woken; cbn; by case_decide).
      destruct C1 as [K1 K2 K3 K4 K5 K6 K7]. split; try done; cbn; by rewrite ?Hpid.
    + destruct C2. by split.
  - done.
  - done.
  - done.
Qed.

(** C1: transactions are atomic.  A process running alone on an idle log
    makes up to 29 updates of blocks outside the log between begin_op and
    end_op, each the way log_write prescribes.  All calls return; the log is
    idle again and every block has the contents the updates give it, on disk
    as well.  If only the first [k] of the writes to the disk are done when the
    machine stops and it boots again, recovery returns, and every block has
    its contents from before the transaction (for [k] up to some [n]) or every
    block has those from after it (for larger [k]). *)
Theorem transaction_atomic S us s : in_txn S [] (disk s) 0 s → (length us < 30)%nat →
  Forall (λ u, 0 ≤ u.1 < disk_size s ∧ ¬ in_log S u.1) us →
  wp (begin_op me ;; run_updates us ;; end_op me) (λ _ s',
    in_txn S [] (disk s') 0 s' ∧ (∀ c, ¬ in_log S c → view s' c = updated us (view s) c) ∧
    ∃ ws n, writes s' = writes s ++ ws ∧ survives me S n ws s (updated us (view s))) s.
Proof.
  intros HT Hlen Hus. pose proof HT as [T1 T2 T3 T4 T5 T6 T7 T8]. unfold begin_op, begin_op_turn.
  do 4 wp_step. rewrite T7, T6, (ls_n _ _ _ T2).
  change (LOGBLOCKS <? Z.of_nat (length []) + (0 + 1) * MAXOPBLOCKS) with false. cbv iota. do 5 wp_step.
  set (s1 := upd_log _ s). assert (in_txn S [] (disk s) 1 s1) as HT1.
  { split; try done; [by destruct T1|by destruct T2]. }
  apply (run_updates_wp S (disk s) us []); [done|done|done|]. intros L s2 HT2 Hl2 Hv2 Hw2 Hsz2.
  pose proof (it_disk _ _ _ _ _ HT2) as Hd2.
  apply (end_op_wp S L); [by rewrite Hd2|done|]. intros s3 ws HT3 Hv3 Hw3 Hs3.
  split_and!; [done|intros c Hc; by rewrite Hv3, Hv2|]. exists ws, (length L). split; [by rewrite Hw3, Hw2|].
  intros k s0 sb Hb Hsz. rewrite <-Hd2 in Hb. eapply wp_mono; [apply (Hs3 k s0 sb Hb); by rewrite Hsz2|].
  intros [] s4 [K1 K2]. split; [done|]. intros c Hc. destruct (K2 c Hc) as [-> ->]. rewrite Hd2, Hv2. done.
Qed.
End ops.
