(* ===== verification/LogSpace.v ===== *)
(** The space of the log: begin_op admits an operation only when the log can
    take MAXOPBLOCKS more blocks for each operation, and that is enough; and
    what happens to a transaction that fills the log. *)

From S2P Require Import Prelude Riscv Memory Kalloc Vm State Printf Proc Bio BioThms Log LogThms LogOps.

(** ** What a computation leaves alone *)
Class Keeps {T A} (f : kstate → T) (c : M kstate A) : Prop :=
  keeps s : wlp c (λ _ s', f s' = f s) s.

Section keeps.
Context {T : Type} (f : kstate → T).

#[export] Instance keeps_ret {A} (a : A) : Keeps f (ret a).
Proof. intros s. by apply wlp_ret. Qed.

#[export] Instance keeps_gets {A} (g : kstate → A) : Keeps f (gets g).
Proof. intros s. by apply wlp_gets. Qed.

#[export] Instance keeps_panic {A} m : Keeps f (panic m : M kstate A).
Proof. intros s. apply wlp_panic. Qed.

#[export] Instance keeps_undef {A} m : Keeps f (undef m : M kstate A).
Proof. intros s. apply wlp_undef. Qed.

#[export] Instance keeps_block {A} : Keeps f (block : M kstate A).
Proof. intros s. apply wlp_block. Qed.

#[export] Instance keeps_bind {A B} (c : M kstate A) (k : A → M kstate B) :
  Keeps f c → (∀ a, Keeps f (k a)) → Keeps f (bind c k).
Proof.
  intros Hc Hk s. apply wlp_bind. eapply wlp_mono; [apply Hc|]. intros a s' E.
  eapply wlp_mono; [apply Hk|]. cbn. congruence.
Qed.

#[export] Instance keeps_if {A} (b : bool) (c d : M kstate A) : Keeps f c → Keeps f d → Keeps f (if b then c else d).
Proof. by destruct b. Qed.

#[export] Instance keeps_decide {A P} (b : {P} + {¬ P}) (c d : M kstate A) :
  Keeps f c → Keeps f d → Keeps f (if b then c else d).
Proof. by destruct b. Qed.

#[export] Instance keeps_option {A B} (o : option B) (c : B → M kstate A) d :
  (∀ x, Keeps f (c x)) → Keeps f d → Keeps f (match o with Some x => c x | None => d end).
Proof. by destruct o. Qed.

#[export] Instance keeps_foreach n i body : (∀ j, Keeps f (body j)) → Keeps f (foreach n i body).
Proof.
  intros Hb. revert i. induction n as [|n IH]; intros i; cbn [foreach]; [apply _|].
  apply keeps_bind; [apply Hb|]. intros _. apply IH.
Qed.

Lemma keeps_modify (g : kstate → kstate) : (∀ s, f (g s) = f s) → Keeps f (modify g).
Proof. intros Hg s. apply wlp_modify, Hg. Qed.
End keeps.

#[export] Hint Extern 2 (Keeps _ (modify _)) => apply keeps_modify; intros; reflexivity : typeclass_instances.

#[export] Instance sleep_log me c : Keeps log_of (sleep me c).
Proof. unfold sleep, sched. apply _. Qed.

#[export] Instance bread_log me d b : Keeps log_of (bread me d b).
Proof. unfold bread, bget, acquiresleep, acquiresleep_turn, virtio_disk_rw. apply _. Qed.

#[export] Instance bwrite_log me b : Keeps log_of (bwrite me b).
Proof. unfold bwrite, holdingsleep, virtio_disk_rw. apply _. Qed.

#[export] Instance wakeup_log me c : Keeps log_of (wakeup me c).
Proof. unfold wakeup. apply _. Qed.

#[export] Instance brelse_log me b : Keeps log_of (brelse me b).
Proof. unfold brelse, holdingsleep, releasesleep. apply _. Qed.

#[export] Instance write_head_log me : Keeps log_of (write_head me).
Proof. unfold write_head, buf_store. apply _. Qed.

#[export] Instance write_log_log me : Keeps log_of (write_log me).
Proof. unfold write_log, buf_data, buf_store. apply _. Qed.

#[export] Instance println_log fmt args : Keeps log_of (println fmt args).
Proof.
  assert (∀ l, Keeps log_of (consputs l)) as Hl.
  { induction l as [|c l IH]; cbn [consputs]; [apply _|]. unfold consputc, uartputc_sync, WriteReg_THR. apply _. }
  unfold println, printf. apply keeps_bind; [|apply _]. destruct (printf_loop _ _ _); try apply _. done.
Qed.

#[export] Instance install_trans_log me r : Keeps log_of (install_trans me r).
Proof. unfold install_trans, buf_data, buf_store, bunpin. apply _. Qed.

(** commit empties the log in memory and touches nothing else of it. *)
Lemma commit_log me s : wlp (commit me) (λ _ s', log_of s' = log_of s ∧ lg_n (log_of s) ≤ 0 ∨
  log_of s' = set_lg_n 0 (log_of s)) s.
Proof.
  unfold commit. wlp_step. wlp_step. case_if; [|wlp_step; left; split; [done|lia]].
  do 3 (wlp_step; eapply wlp_mono; [apply keeps|]; cbn; intros _ ? ?). wlp_step. wlp_step.
  eapply wlp_mono; [apply keeps|]. intros _ s4 ->. right. cbn. congruence.
Qed.

(** ** Operations and their budgets *)

(** The state together with the blocks that each operation between begin_op and
    end_op has written: at most MAXOPBLOCKS different ones, each as often as it
    likes.  The steps are the calls of log.c that take the lock of the log, and
    everything else the kernel does. *)
Abbreviation ops := (list (gset Z)) (only parsing).

Inductive log_step : ops * kstate → ops * kstate → Prop :=
| LBegin me os s s' : begin_op_turn me s = Done (true, s') → log_step (os, s) (∅ :: os, s')
| LSleep me os s s' : begin_op_turn me s = Done (false, s') → log_step (os, s) (os, s')
| LWrite b o1 W o2 s s' : let x := b_blockno (bufs s b) in 0 ≤ x < 2^32 →
    x ∈ W ∨ Z.of_nat (size W) < MAXOPBLOCKS → log_write b s = Done (tt, s') →
    log_step (o1 ++ W :: o2, s) (o1 ++ ({[x]} ∪ W) :: o2, s')
| LEnd me o1 W o2 d s s' : end_op_begin me s = Done (d, s') → log_step (o1 ++ W :: o2, s) (o1 ++ o2, s')
| LCommit me os s s1 s' : lg_committing (log_of s) = true → commit me s = Done (tt, s1) →
    (modify (upd_log (set_lg_committing false)) ;; wakeup me ChLog) s1 = Done (tt, s') → log_step (os, s) (os, s')
| LOther os s s' : log_of s' = log_of s → log_step (os, s) (os, s').

(** The blocks that the operations may still add. *)
Definition budget (W : gset Z) : nat := Z.to_nat (MAXOPBLOCKS - Z.of_nat (size W)).
Fixpoint sum (os : ops) : nat := match os with [] => 0 | W :: os' => budget W + sum os' end%nat.

Lemma sum_app o1 o2 : sum (o1 ++ o2) = (sum o1 + sum o2)%nat.
Proof. induction o1 as [|x l IH]; cbn; lia. Qed.

Lemma sum_bound os : Z.of_nat (sum os) ≤ Z.of_nat (length os) * MAXOPBLOCKS.
Proof. induction os as [|W os IH]; cbn -[Z.mul]; [done|]. unfold budget. lia. Qed.

Lemma sum_elem W os : W ∈ os → Z.of_nat (budget W) ≤ Z.of_nat (sum os) ∧ 1 ≤ Z.of_nat (length os).
Proof. induction 1; cbn; lia. Qed.

(** Block [x] is in the log. *)
Definition logged (lg : log) (x : Z) : Prop := ∃ i, 0 ≤ i < lg_n lg ∧ u32 (lg_block lg i) = x.

(** What is in the log and what may still come fits. *)
Definition log_inv (x : ops * kstate) : Prop :=
  let '(os, s) := x in let lg := log_of s in
  0 ≤ lg_n lg ∧ lg_n lg + Z.of_nat (sum os) ≤ LOGBLOCKS ∧ Z.of_nat (length os) ≤ 3 ∧ lg_outstanding lg = Z.of_nat (length os) ∧
  (∀ W x, W ∈ os → x ∈ W → logged lg x) ∧ (lg_committing lg = true → os = []).

Definition log_init (x : ops * kstate) : Prop :=
  x.1 = [] ∧ lg_n (log_of x.2) = 0 ∧ lg_outstanding (log_of x.2) = 0 ∧ lg_committing (log_of x.2) = false.

(** begin_op either sleeps or admits the operation. *)
Lemma begin_op_turn_wlp me s : wlp (begin_op_turn me) (λ ok s',
  if (ok : bool) then lg_committing (log_of s) = false ∧ lg_n (log_of s) + (lg_outstanding (log_of s) + 1) * MAXOPBLOCKS ≤ LOGBLOCKS ∧
    log_of s' = set_lg_outstanding (lg_outstanding (log_of s) + 1) (log_of s)
  else log_of s' = log_of s) s.
Proof.
  unfold begin_op_turn. do 2 wlp_step. case_if; [wlp_step; eapply wlp_mono; [apply keeps|]; intros; by wlp_step|].
  case_if; [wlp_step; eapply wlp_mono; [apply keeps|]; intros; by wlp_step|]. do 3 wlp_step. split_and!; [done|lia|done].
Qed.

(** log_find stops at an entry of the block, or behind the last one. *)
Lemma log_find_range lg x : ∀ n i, let j := log_find n i x lg in i ≤ j ≤ i + Z.of_nat n ∧
  (j < i + Z.of_nat n → u32 (lg_block lg j) = x) ∧ ((∃ k, i ≤ k < i + Z.of_nat n ∧ u32 (lg_block lg k) = x) → j < i + Z.of_nat n).
Proof.
  induction n as [|n IH]; intros i; cbn [log_find]; cbv zeta.
  - split_and!; [lia..|]. intros (k & Hk & _). lia.
  - destruct (Z.eqb_spec (u32 (lg_block lg i)) x) as [E|E]; [split_and!; lia || by intros; done || (intros; lia)|].
    destruct (IH (i + 1)) as (H1 & H2 & H3). split_and!; [lia|lia|intros; apply H2; lia|].
    intros (k & Hk & Ek). enough (log_find n (i + 1) x lg < i + 1 + Z.of_nat n) by lia. apply H3. exists k. split; [|done].
    destruct (decide (k = i)) as [->|]; [done|lia].
Qed.

(** log_write keeps what is logged and adds the block of the buffer, which
    makes the log longer only when it was not there. *)
Lemma log_write_wlp b s : let lg := log_of s in let x := b_blockno (bufs s b) in 0 ≤ lg_n lg → 0 ≤ x < 2^32 →
  wlp (log_write b) (λ _ s', let lg' := log_of s' in lg_outstanding lg' = lg_outstanding lg ∧ lg_committing lg' = lg_committing lg ∧
    logged lg' x ∧ (∀ y, logged lg y → logged lg' y) ∧ (lg_n lg' = lg_n lg ∨ lg_n lg' = lg_n lg + 1 ∧ ¬ logged lg x)) s.
Proof.
  intros lg x Hn Hx. unfold log_write. do 2 wlp_step. repeat (case_if; [by wlp_steps|]). wlp_steps. fold lg x.
  destruct (log_find_range lg x (Z.to_nat (lg_n lg)) 0) as (Hj & Hj1 & Hj2). set (j := log_find _ _ _ _) in *.
  rewrite !Z2Nat.id, !Z.add_0_l in * by done.
  assert (u32 (s32 x) = x) as Ex by (unfold u32, s32; dlia).
  assert (∀ m, lg_n lg ≤ m → j < m → ∀ y, logged lg y ∨ y = x → ∃ i, 0 ≤ i < m ∧ u32 (fupd (lg_block lg) j (s32 x) i) = y) as Hl.
  { intros m Hm Hjm y [(i & Hi & E)| ->]; [|exists j; rewrite fupd_eq; split; [lia|done]].
    exists i. rewrite fupd_spec. split; [lia|]. case_decide as Eij; [|done]. subst i. rewrite Ex. symmetry. rewrite <-E. apply Hj1. lia. }
  destruct (Z.eqb_spec j (lg_n lg)); wlp_steps.
  - unfold bpin. wlp_steps. cbn. split_and!; [done..|apply (Hl (lg_n lg + 1)); [lia|lia|by right]| |].
    + intros y Hy. apply (Hl (lg_n lg + 1)); [lia|lia|by left].
    + right. split; [done|]. intros (i & Hi & E). enough (j < lg_n lg) by lia. apply Hj2. exists i. done.
  - cbn. split_and!; [done..|apply (Hl (lg_n lg)); [lia|lia|by right]| |by left]. intros y Hy. apply (Hl (lg_n lg)); [lia|lia|by left].
Qed.

Lemma end_op_begin_wlp me s : wlp (end_op_begin me) (λ d s', lg_committing (log_of s) = false ∧
  log_of s' = set_lg_committing (lg_outstanding (log_of s) - 1 =? 0) (set_lg_outstanding (lg_outstanding (log_of s) - 1) (log_of s))) s.
Proof.
  unfold end_op_begin. wlp_steps. destruct (lg_committing (log_of s)) eqn:E; [wlp_step|]. case_if; wlp_steps.
  - done.
  - eapply wlp_mono; [apply keeps|]. intros [] s1 E1. wlp_steps. split; [done|]. rewrite E1. cbn. clear -E.
    destruct (log_of s). cbn in *. by rewrite E.
Qed.

(** A write by an operation within its share. *)
Lemma log_inv_write b o1 W o2 s s' : let x := b_blockno (bufs s b) in 0 ≤ x < 2^32 →
  x ∈ W ∨ Z.of_nat (size W) < MAXOPBLOCKS → log_write b s = Done (tt, s') →
  log_inv (o1 ++ W :: o2, s) → log_inv (o1 ++ ({[x]} ∪ W) :: o2, s').
Proof.
  intros x Hx HW E (I0 & I1 & I2 & I3 & I4 & I5). apply (log_write_wlp b s I0 Hx) in E as (E1 & E2 & E3 & E4 & E5). fold x in E3, E5.
  rewrite sum_app, length_app in *. cbn [sum length] in *. unfold log_inv. rewrite E1, E2, sum_app, length_app. cbn [sum length].
  assert (lg_n (log_of s') + Z.of_nat (budget ({[x]} ∪ W)) ≤ lg_n (log_of s) + Z.of_nat (budget W)) as Hb.
  { destruct (decide (x ∈ W)) as [Hin|Hin].
    - replace ({[x]} ∪ W) with W by set_solver. destruct E5 as [->|[_ Hn]]; [done|]. destruct Hn. apply (I4 W); [|done]. set_solver.
    - destruct HW as [?|HW]; [done|]. unfold budget. rewrite size_union, size_singleton by set_solver. lia. }
  split_and!; [lia..| |].
  - intros V y HV Hy. apply elem_of_app in HV as [HV|HV]; [apply E4, (I4 V); set_solver|].
    apply elem_of_cons in HV as [->|HV]; [|apply E4, (I4 V); set_solver].
    apply elem_of_union in Hy as [->%elem_of_singleton|Hy]; [done|]. apply E4, (I4 W); set_solver.
  - intros ?%I5. by destruct o1.
Qed.

Lemma log_inv_step x y : log_step x y → log_inv x → log_inv y.
Proof.
  destruct 1 as [me os s s' E|me os s s' E|b o1 W o2 s s' y Hy HW E|me o1 W o2 d s s' E|me os s s1 s' Hc E E'|os s s' E].
  3: by apply log_inv_write.
  all: intros (I0 & I1 & I2 & I3 & I4 & I5); unfold log_inv.
  - apply (begin_op_turn_wlp me s) in E as (E1 & E2 & ->). pose proof (sum_bound os). cbn -[budget Z.mul]. change (budget ∅) with 10%nat.
    rewrite I3 in E2. split_and!; [done|lia|lia|lia| |by rewrite E1].
    intros V y HV Hy. apply elem_of_cons in HV as [->|HV]; [set_solver|by apply (I4 V)].
  - apply (begin_op_turn_wlp me s) in E. cbn in E. by rewrite E.
  - apply (end_op_begin_wlp me s) in E as (Hf & ->). cbn. rewrite !sum_app, !length_app in *. cbn [sum length] in *.
    split_and!; [lia..| |].
    + intros V y HV. apply (I4 V). set_solver.
    + intros Hz%Z.eqb_eq. destruct o1, o2; cbn in *; done || lia.
  - assert (log_of s' = set_lg_committing false (log_of s1)) as ->.
    { refine ((_ : wlp _ (λ _ s', log_of s' = _) s1) tt s' E'). do 2 wlp_step. eapply wlp_mono; [apply keeps|]. done. }
    rewrite (I5 Hc) in *. cbn in *. apply (commit_log me s) in E as [[-> Hn]| ->]; cbn; split_and!; done || lia || set_solver.
  - by rewrite E.
Qed.

Lemma log_inv_reach x y : rtc log_step x y → log_init x → log_inv y.
Proof.
  intros Hr (H1 & H2 & H3 & H4). assert (log_inv x) as Hx.
  { destruct x as [os s]. cbn in *. subst os. split_and!; cbn; [lia..|set_solver|done]. }
  clear H1 H2 H3 H4. induction Hr as [|x y z Hs _ IH]; [done|]. apply IH. by eapply log_inv_step.
Qed.

(** end_op in a state of the invariant: its first critical section returns, and
    asks for a commit when the operation is the last one. *)
Lemma end_op_begin_returns os s me (Q : bool → kstate → Prop) : log_inv (os, s) → os ≠ [] →
  (∀ s', Q (bool_decide (length os = 1%nat)) s') → wp (end_op_begin me) Q s.
Proof.
  intros (I0 & I1 & I2 & I3 & I4 & I5) Hos HQ. unfold end_op_begin. wp_steps.
  destruct (lg_committing (log_of s)); [by specialize (I5 eq_refl)|]. rewrite I3.
  destruct (Z.eqb_spec (Z.of_nat (length os) - 1) 0); wp_steps.
  - specialize (HQ (upd_log (set_lg_committing true) (upd_log (set_lg_outstanding (Z.of_nat (length os) - 1)) s))).
    by rewrite bool_decide_eq_true_2 in HQ by lia.
  - apply wakeup_wp. intros f _. wp_steps. specialize (HQ (set_procs f (upd_log (set_lg_outstanding (Z.of_nat (length os) - 1)) s))).
    by rewrite bool_decide_eq_false_2 in HQ by lia.
Qed.

(** C15: the log never overflows.  From a freshly initialised log, under any
    interleaving of begin_op, log_write, end_op and commit in which each
    operation writes at most MAXOPBLOCKS different blocks, the log holds at
    most LOGBLOCKS blocks and at most three operations are outstanding.
    log_write returns for an operation that has written fewer than MAXOPBLOCKS
    blocks, and for every operation while the log is not full.  The first
    critical section of end_op returns and asks for a commit exactly for the
    last operation; end_op returns when other operations are outstanding, and
    for the last one when fewer than LOGBLOCKS blocks are logged, no buffer of
    the cache is held, and the log is as [in_txn] describes.  (For a last
    operation that finds LOGBLOCKS blocks logged, full_log_commit_panics below
    shows that the commit panics.) *)
Theorem log_never_overflows x os s : log_init x → rtc log_step x (os, s) →
  0 ≤ lg_n (log_of s) ≤ LOGBLOCKS ∧ lg_outstanding (log_of s) ≤ 3 ∧
  (∀ W b, W ∈ os → Z.of_nat (size W) < MAXOPBLOCKS ∨ lg_n (log_of s) < LOGBLOCKS → ∃ s', log_write b s = Done (tt, s')) ∧
  (∀ me, os ≠ [] → ∃ s', end_op_begin me s = Done (bool_decide (length os = 1%nat), s')) ∧
  (∀ me, os ≠ [] → (1 < length os)%nat ∨ (∃ S L, in_txn me S L (disk s) 1 s ∧ lg_n (log_of s) < LOGBLOCKS) →
    ∃ s', end_op me s = Done (tt, s')).
Proof.
  intros Hi Hr. pose proof (log_inv_reach _ _ Hr Hi) as Hinv. pose proof Hinv as (I0 & I1 & I2 & I3 & I4 & I5). split_and!; [lia|lia|lia|..].
  - intros W b HW Hroom. destruct (sum_elem W os HW) as [Hs Hl]. unfold budget in Hs.
    assert (wp (log_write b) (λ _ _, True) s) as Hw.
    { unfold log_write. do 2 wp_step. rewrite (proj2 (Z.leb_gt _ _)), (proj2 (Z.ltb_ge _ _)) by lia. wp_steps.
      case_if; unfold bpin; by wp_steps. }
    apply wp_elim in Hw as ([] & s' & E & _). eauto.
  - intros me Hos. pose proof (end_op_begin_returns os s me (λ d _, d = bool_decide (length os = 1%nat)) Hinv Hos (λ _, eq_refl)) as Hw.
    apply wp_elim in Hw as (d & s' & E & ->). eauto.
  - intros me Hos Hcase. assert (wp (end_op me) (λ _ _, True) s) as Hw.
    { destruct Hcase as [Hc|(S & L & HT & Hn)].
      - unfold end_op. wp_step. apply (end_op_begin_returns os); [done|done|]. intros s'. rewrite bool_decide_eq_false_2 by lia. by wp_steps.
      - pose proof (ls_n _ _ _ (it_lists _ _ _ _ _ _ HT)). apply (end_op_wp me S L); [done|lia|done]. }
    apply wp_elim in Hw as ([] & s' & E & _). eauto.
Qed.

(** ** A full log *)
Lemma bind_panic {A B} (c : M kstate A) (k : A → M kstate B) s m : c s = Panic m → bind c k s = Panic m.
Proof. unfold bind. by intros ->. Qed.

Lemma bind_gets {A B} (f : kstate → A) (k : A → M kstate B) s : bind (gets f) k s = k (f s) s.
Proof. done. Qed.

Lemma find_buf_all f s l : (∀ i, i ∈ l → f (bufs s i) = false) → find_buf f s l = None.
Proof.
  induction l as [|x l IH]; [done|]. intros H. cbn. rewrite H by left. apply IH. intros i Hi. apply H. by right.
Qed.

(** C38: a full log cannot be committed.  LOGBLOCKS and NBUF are the same
    number, so a transaction with LOGBLOCKS blocks, which the space accounting
    admits, pins every buffer of the cache; the bread of the first log block in
    write_log then finds no buffer and commit panics. *)
Theorem full_log_commit_panics me S L s : cache_ok me [] s → lists S L s → length L = 30%nat →
  (∀ b, b ∈ L → 0 < pins s b) → commit me s = Panic "bget: no buffers".
Proof.
  intros Hok [H1 H2 H3 H4 H5 H6 H7 H8] Hlen Hp.
  set (bl := (λ i, b_blockno (bufs s i)) <$> seqZ 0 NBUF).
  assert (L ⊆ bl) as Hsub.
  { intros b Hb. destruct (cached_dec s b) as [(i & Hi & Hd & Hbi)|Hn].
    - apply list_elem_of_fmap. exists i. split; [done|]. by apply in_bufs.
    - pose proof (Hp b Hb). destruct (view_uncached s b Hn) as [_ ?]. lia. }
  assert (L ≡ₚ bl) as HP.
  { apply submseteq_length_Permutation; [by apply NoDup_submseteq|]. unfold bl. rewrite length_fmap, length_seqZ, Hlen. lia. }
  assert (∀ i, 0 ≤ i < NBUF → b_blockno (bufs s i) ∈ L) as Hall.
  { intros i Hi. rewrite HP. apply list_elem_of_fmap. exists i. split; [done|]. by apply in_bufs. }
  assert (NoDup bl) as Hnd by by rewrite <-HP.
  assert (∀ i, 0 ≤ i < NBUF → 0 < b_refcnt (bufs s i)) as Href.
  { intros i Hi. pose proof (Hp _ (Hall i Hi)) as Hpi. destruct (cached_dec s (b_blockno (bufs s i))) as [(j & Hj)|Hn].
    2:{ destruct (view_uncached s _ Hn) as [_ ?]. lia. }
    rewrite (pins_cached me [] s _ j Hok Hj) in Hpi. enough (j = i) by by subst j.
    destruct Hj as (Hj & _ & Hjb). unfold bl in Hnd. rewrite NoDup_alt in Hnd.
    enough (Z.to_nat j = Z.to_nat i) by lia. apply (Hnd _ _ (b_blockno (bufs s i)));
      rewrite list_lookup_fmap, lookup_seqZ_lt by lia; cbn; rewrite Z.add_0_l, Z2Nat.id by lia; by rewrite ?Hjb. }
  unfold commit. rewrite bind_gets, H4, Hlen. change (0 <? Z.of_nat 30) with true. cbv iota.
  apply bind_panic. unfold write_log. rewrite bind_gets, H1, H2, H4, Hlen, Nat2Z.id. cbn [foreach].
  apply bind_panic, bind_panic. rewrite Z.add_0_r, (u32_small (S + 1)) by lia. unfold bread, bget. apply bind_panic.
  rewrite bind_gets. replace (find_buf _ _ _) with (@None Z).
  - rewrite bind_gets. replace (find_buf _ _ _) with (@None Z); [done|]. symmetry. apply find_buf_all.
    intros i Hi. rewrite list_elem_of_In, <-in_rev, <-list_elem_of_In, (ck_lru me [] s Hok), in_bufs in Hi.
    pose proof (Href i Hi). apply Z.eqb_neq. lia.
  - symmetry. apply find_buf_all. intros i Hi. rewrite (ck_lru me [] s Hok), in_bufs in Hi.
    destruct (H8 _ (Hall i Hi)) as [_ Hn]. apply not_true_iff_false. rewrite buf_is_true. intros [_ Hbi].
    apply Hn. unfold in_log. lia.
Qed.
