(* ===== verification/Txn.v ===== *)
(** Rules for code that works on blocks inside a transaction.

    [tx H S L D s]: the process [me] runs alone and holds the buffers [H]; the
    blocks logged so far are [L], the disk is [D].  The rules of bread, brelse
    and of a logged store, which needs an operation to be open, keep it and
    say what the code sees: the contents [view] of the blocks. *)

From S2P Require Import Prelude Riscv Memory Kalloc Vm State Printf Proc Bio BioThms Log LogThms LogOps.

Section txn.
Context (me : Z).

Definition blocks (s : kstate) (H : list Z) : list Z := (λ i, b_blockno (bufs s i)) <$> H.

Record tx (H : list Z) (S : Z) (L : list Z) (D : Z → mem) (s : kstate) : Prop := {
  tx_cache : cache_ok me H s;
  tx_lists : lists S L s;
  tx_pins : ∀ c, pins s c = (if decide (c ∈ L) then 1 else 0) + (if decide (c ∈ blocks s H) then 1 else 0);
  tx_held : NoDup (blocks s H);
  tx_clean : ∀ c, c ∉ L → view s c = D c;
  tx_disk : disk s = D
}.

(** What the rules leave alone. *)
Record keep (s s' : kstate) : Prop := {
  ke_size : disk_size s' = disk_size s;
  ke_sb : sb_of s' = sb_of s;
  ke_itable : itable s' = itable s;
  ke_kmem : kmem_of s' = kmem_of s;
  ke_pid : p_pid (procs s' me) = p_pid (procs s me);
  ke_writes : writes s' = writes s;
  ke_out : lg_outstanding (log_of s') = lg_outstanding (log_of s)
}.

(** Between begin_op and end_op. *)
Definition in_op (s : kstate) : Prop := 1 ≤ lg_outstanding (log_of s).

Lemma keep_in_op s s' : keep s s' → in_op s → in_op s'.
Proof. intros Hk. unfold in_op. by rewrite (ke_out _ _ Hk). Qed.

#[export] Instance keep_preorder : PreOrder keep.
Proof. split; [by intros s|]. intros s1 s2 s3 [] []. split; congruence. Qed.

Lemma frame_keep s s' : frame me s s' → writes s' = writes s → keep s s'.
Proof. intros [] Hw. split; congruence. Qed.

Lemma blocks_same H s s' : (∀ j, j ∈ H → b_blockno (bufs s' j) = b_blockno (bufs s j)) → blocks s' H = blocks s H.
Proof.
  intros Hb. unfold blocks. apply list_fmap_ext. intros k i Hi. apply Hb. by eapply list_elem_of_lookup_2.
Qed.

Lemma blocks_elem s H i : i ∈ H → b_blockno (bufs s i) ∈ blocks s H.
Proof. intros Hi. apply list_elem_of_fmap. by exists i. Qed.

(** Output on the console does not matter. *)
Lemma tx_uart H S L D u s : tx H S L D s → tx H S L D (set_uart u s).
Proof. intros [T1 [] T4 T5 T6 T7]. split; try done. by apply cache_ok_uart. Qed.

Lemma keep_uart u s s' : keep s s' → keep s (set_uart u s').
Proof. by intros []; split. Qed.

(** A block that is not held is read. *)
Lemma tx_bread H S L D s b (Q : Z → kstate → Prop) :
  tx H S L D s → 0 ≤ b < disk_size s → b ∉ blocks s H → (length L + length H < 30)%nat →
  (∀ i s', tx (i :: H) S L D s' → i ∉ H → b_blockno (bufs s' i) = b → blocks s' H = blocks s H →
    (∀ c, view s' c = view s c) → keep s s' → Q i s') →
  wp (bread me ROOTDEV b) Q s.
Proof.
  intros [T1 T2 T4 T5 T6 T7] Hb Hnb Hlen HQ. apply (bread_op me H); [done|done| | |].
  { intros i Hi E. apply Hnb. rewrite <-E. by apply blocks_elem. }
  { left. apply (room_pins me H s (L ++ blocks s H)); [done| |].
    - intros c. rewrite T4, elem_of_app. repeat case_decide; tauto || lia.
    - rewrite length_app. unfold blocks. by rewrite length_fmap. }
  intros i s' [A1 A2 A3 A4 A5] Hi Ai Ad Aw.
  assert (blocks s' H = blocks s H) as Hbl' by by apply blocks_same.
  assert (blocks s' (i :: H) = b :: blocks s H) as Hbl.
  { change (b_blockno (bufs s' i) :: blocks s' H = b :: blocks s H). by rewrite Ai, Hbl'. }
  apply HQ; [|done|done|done|done|by apply frame_keep]. split; rewrite ?Hbl; try done.
  - by eapply lists_frame.
  - intros c. rewrite A3. unfold plus. rewrite T4. rewrite (decide_ext _ _ _ _ (elem_of_cons (blocks s H) c b)).
    destruct (decide (c = b)) as [->|]; [rewrite (decide_False (P := b ∈ blocks s H)) by done|]; repeat case_decide; naive_solver lia.
  - by constructor.
  - intros c Hc. rewrite A2. by apply T6.
  - congruence.
Qed.

(** The same, followed by a load of its contents. *)
Lemma tx_open {A} H S L D s b (K : Z → mem → M kstate A) Q :
  tx H S L D s → 0 ≤ b < disk_size s → b ∉ blocks s H → (length L + length H < 30)%nat →
  (∀ i s', tx (i :: H) S L D s' → i ∉ H → b_blockno (bufs s' i) = b → blocks s' H = blocks s H →
    (∀ c, view s' c = view s c) → keep s s' → wp (K i (view s b)) Q s') →
  wp (bp <- bread me ROOTDEV b ;; d <- buf_data bp ;; K bp d) Q s.
Proof.
  intros HT Hb Hnb Hlen HQ. wp_step. eapply tx_bread; [done..|]. intros i s1 HT1 HiH Hi Hbl Hv Hk. wp_step.
  apply (buf_data_op me (i :: H)); [apply HT1|by left|]. rewrite Hi, Hv. by apply HQ.
Qed.

Lemma tx_data H S L D s i (Q : mem → kstate → Prop) : tx H S L D s → i ∈ H →
  Q (view s (b_blockno (bufs s i))) s → wp (buf_data i) Q s.
Proof. intros HT Hi HQ. apply (buf_data_op me H); [apply HT|done|done]. Qed.

Lemma tx_brelse H S L D s i (Q : unit → kstate → Prop) : tx (i :: H) S L D s → i ∉ H →
  (∀ s', tx H S L D s' → blocks s' H = blocks s H → (∀ c, view s' c = view s c) → keep s s' → Q tt s') →
  wp (brelse me i) Q s.
Proof.
  intros [T1 T2 T4 T5 T6 T7] Hi HQ. set (b := b_blockno (bufs s i)).
  change (blocks s (i :: H)) with (b :: blocks s H) in *. apply NoDup_cons in T5 as [Hnb T5].
  apply (brelse_op me H); [done|done|..]; cbv zeta; fold b.
  { rewrite T4. rewrite (decide_True (P := b ∈ b :: _)) by left. destruct (decide (b ∈ L)); [left; lia|right].
    rewrite T7. by apply T6. }
  intros s' [A1 A2 A3 A4 A5] Ad Aw. pose proof (blocks_same H s s' A4) as Hbl.
  apply HQ; [|done|done|by apply frame_keep]. split; rewrite ?Hbl; try done.
  - by eapply lists_frame.
  - intros c. rewrite A3. unfold plus. rewrite T4. rewrite (decide_ext _ _ _ _ (elem_of_cons (blocks s H) c b)).
    destruct (decide (c = b)) as [->|]; [rewrite (decide_False (P := b ∈ blocks s H)) by done|]; repeat case_decide; naive_solver lia.
  - intros c Hc. rewrite A2. by apply T6.
  - congruence.
Qed.

(** A store to a held buffer, logged. *)
Lemma tx_store {A} H S L D s i g (K : M kstate A) Q : let b := b_blockno (bufs s i) in
  tx H S L D s → in_op s → i ∈ H → 0 ≤ b < disk_size s → ¬ in_log S b → (length L < 30)%nat →
  (∀ s', tx H S (absorb b L) D s' → (∀ j, j ∈ H → b_blockno (bufs s' j) = b_blockno (bufs s j)) →
    (∀ c, view s' c = fupd (view s) b (g (view s b)) c) → keep s s' → wp K Q s') →
  wp (buf_store i g ;; log_write i ;; K) Q s.
Proof.
  intros b [T1 T2 T4 T5 T6 T7] Hop Hi Hb Hnl Hlen HK.
  wp_step. apply (buf_store_op me H); [done..|]. fold b. intros s1 [A1 A2 A3 A4 A5] Ad Aw.
  assert (b_blockno (bufs s1 i) = b) as A4i by by rewrite A4. pose proof (fr_log _ _ _ A5) as F1. pose proof (fr_size _ _ _ A5) as F2.
  wp_step. apply (log_write_wp me H S L); [by eapply lists_frame|done|done|done|by rewrite F1|by rewrite A4i, F2|by rewrite A4i|].
  rewrite A4i. intros s2 C1 C2 C3 C4 C5 C6 C7 C8 C9 C10 C11.
  assert (∀ j, j ∈ H → b_blockno (bufs s2 j) = b_blockno (bufs s j)) as Hbj by (intros j Hj; by rewrite C7, A4).
  pose proof (blocks_same H s s2 Hbj) as Hbl.
  assert (∀ c, view s2 c = fupd (view s) b (g (view s b)) c) as Hv by (intros c; by rewrite C3, A2).
  apply HK; [|done|done|].
  - split; rewrite ?Hbl; try done.
    + intros c. rewrite C4. unfold plus. rewrite A3, T4. rewrite (decide_ext _ _ _ _ (absorb_elem b L c)).
      destruct (decide (c = b)) as [->|]; repeat case_decide; naive_solver lia.
    + intros c Hc. rewrite absorb_elem in Hc. rewrite Hv, fupd_ne by tauto. apply T6. tauto.
    + congruence.
  - etrans; [by apply frame_keep|]. split; try done; apply C11.
Qed.

Lemma tx_close {A} H S L D s i (K : M kstate A) Q : tx (i :: H) S L D s → i ∉ H →
  (∀ s', tx H S L D s' → blocks s' H = blocks s H → (∀ c, view s' c = view s c) → keep s s' → wp K Q s') →
  wp (brelse me i ;; K) Q s.
Proof. intros HT Hi HK. wp_step. by eapply tx_brelse. Qed.

Lemma absorb_length_le b L : (length (absorb b L) ≤ length L + 1)%nat.
Proof. rewrite absorb_length. case_decide; lia. Qed.

(** A logged store to a block that is read for it. *)
Lemma tx_update H S L D s b g (Q : unit → kstate → Prop) :
  tx H S L D s → in_op s → 0 ≤ b < disk_size s → ¬ in_log S b → b ∉ blocks s H → (length L + length H < 30)%nat →
  (∀ s', tx H S (absorb b L) D s' → blocks s' H = blocks s H → (∀ c, view s' c = fupd (view s) b (g (view s b)) c) →
    keep s s' → Q tt s') →
  wp (update me b g) Q s.
Proof.
  intros HT Hop Hb Hnl Hnb Hlen HQ. unfold update. wp_step. eapply tx_bread; [done..|].
  intros i s1 HT1 HiH Hi Hbl1 Hv1 Hk1.
  eapply tx_store; [done|by eapply keep_in_op|by left|rewrite Hi, (ke_size _ _ Hk1); lia|by rewrite Hi|lia|]. rewrite Hi.
  intros s2 HT2 Hbl2 Hv2 Hk2. eapply tx_brelse; [done|done|]. intros s3 HT3 Hbl3 Hv3 Hk3.
  apply HQ; [done| | |by do 2 (etrans; [eassumption|])].
  - rewrite Hbl3, <-Hbl1. apply blocks_same. intros j Hj. apply Hbl2. by right.
  - intros c. rewrite Hv3, Hv2, !fupd_spec, !Hv1. done.
Qed.
End txn.
