(* ===== verification/Fs.v ===== *)
(** kernel/fs.c: blocks, inodes, file contents, directories and path names.

    An inode pointer is an index into itable, -1 for the null pointer.
    ip->addrs has NDIRECT+1 = 12 entries; the code also uses entry
    NDIRECT+1.  With the layout the compiler gives struct inode (128 bytes,
    addrs in the last 48) that word is the field dev of the next table entry,
    and for the last entry it lies outside the table. *)

From S2P Require Import Prelude Riscv Memory Kalloc Vm State Printf Proc Bio Log.

Definition ld16 (m : mem) (a : Z) : Z := ldn 2 m a.
Definition st16 (m : mem) (a v : Z) : mem := stn 2 m a v.

Abbreviation SLASH := 47 (only parsing).   (* '/' *)

Section fs.
Context `{KI : KernelImage}.

(** struct superblock in a block: eight consecutive words. *)
Definition get_superblock (m : mem) : superblock :=
  mkSuperblock (ld32 m 0) (ld32 m 4) (ld32 m 8) (ld32 m 12) (ld32 m 16) (ld32 m 20)
    (ld32 m 24) (ld32 m 28).

Definition readsb (me dev : Z) : M kstate unit :=
  bp <- bread me dev 1 ;;
  d <- buf_data bp ;;
  modify (set_sb_of (get_superblock d)) ;;
  brelse me bp.

Definition bzero (me dev bno : Z) : M kstate unit :=
  bp <- bread me dev (u32 bno) ;;
  buf_store bp (λ _ _, 0) ;;
  log_write bp ;;
  brelse me bp.

(** ** Block allocation *)
Definition bit_get (d : mem) (bi : Z) : bool := negb (Z.land (d (bi / 8)) (Z.shiftl 1 (bi mod 8)) =? 0).
Definition bit_set (d : mem) (bi : Z) : mem :=
  fupd d (bi / 8) (Z.lor (d (bi / 8)) (Z.shiftl 1 (bi mod 8))).
Definition bit_clear (d : mem) (bi : Z) : mem :=
  fupd d (bi / 8) (Z.land (d (bi / 8)) (Z.lnot (Z.shiftl 1 (bi mod 8)))).

(** for(bi = 0; bi < BPB && b + bi < sb.size; bi++) looking for a clear bit;
    [n] is the number of bits left to look at. *)
Fixpoint find_clear (n : nat) (d : mem) (bi : Z) : option Z :=
  match n with
  | O => None
  | S n' => if bit_get d bi then find_clear n' d (bi + 1) else Some bi
  end.

Definition balloc (me dev : Z) : M kstate Z :=
  sb <- gets sb_of ;;
  while (S (Z.to_nat (sb_size sb / BPB + 1))) (λ b,
    if b <? sb_size sb then
      bp <- bread me dev (BBLOCK b sb) ;;
      d <- buf_data bp ;;
      match find_clear (Z.to_nat (Z.min BPB (sb_size sb - b))) d 0 with
      | Some bi =>
          buf_store bp (λ d, bit_set d bi) ;;
          log_write bp ;;
          brelse me bp ;;
          bzero me dev (b + bi) ;;
          ret (inr (b + bi))
      | None =>
          brelse me bp ;;
          ret (inl (b + BPB))
      end
    else
      println "balloc: out of blocks" [] ;;
      ret (inr 0)) 0.

Definition bfree (me dev b : Z) : M kstate unit :=
  sb <- gets sb_of ;;
  bp <- bread me dev (BBLOCK b sb) ;;
  d <- buf_data bp ;;
  let bi := b mod BPB in
  if negb (bit_get d bi) then panic "freeing free block" else
  buf_store bp (λ d, bit_clear d bi) ;;
  log_write bp ;;
  brelse me bp.

(** ** Inodes *)
Definition iinit : M kstate unit :=
  foreach (Z.to_nat NINODE) 0 (λ i, initsleeplock (InodeLock i)).

(** The inode a pointer names. *)
Definition ino (ip : Z) : M kstate inode :=
  if in_table ip NINODE then gets (λ s, itable s ip) else undef "inode pointer".
Definition ino_set (ip : Z) (f : inode → inode) : M kstate unit := modify (upd_inode ip f).

(** struct dinode at offset [o] of a block. *)
Definition di_off (inum : Z) : Z := 64 * (inum mod IPB).
Definition di_type (m : mem) (o : Z) : Z := s16 (ld16 m o).
Definition di_major (m : mem) (o : Z) : Z := s16 (ld16 m (o + 2)).
Definition di_minor (m : mem) (o : Z) : Z := s16 (ld16 m (o + 4)).
Definition di_nlink (m : mem) (o : Z) : Z := s16 (ld16 m (o + 6)).
Definition di_size (m : mem) (o : Z) : Z := ld32 m (o + 8).
Definition di_addr (m : mem) (o i : Z) : Z := ld32 m (o + 12 + 4 * i).

(** memmove(dip->addrs, ip->addrs, sizeof(ip->addrs)) *)
Fixpoint put_addrs (n : nat) (f : Z → Z) (i : Z) (m : mem) (o : Z) : mem :=
  match n with
  | O => m
  | S n' => put_addrs n' f (i + 1) (st32 m (o + 12 + 4 * i) (f i)) o
  end.

Definition put_dinode (ip : inode) (m : mem) (o : Z) : mem :=
  let m := st16 m o (i_type ip) in
  let m := st16 m (o + 2) (i_major ip) in
  let m := st16 m (o + 4) (i_minor ip) in
  let m := st16 m (o + 6) (i_nlink ip) in
  let m := st32 m (o + 8) (i_size ip) in
  put_addrs (Z.to_nat (NDIRECT + 1)) (i_addrs ip) 0 m o.

(** The table scan of iget: an entry for the inode, or the first empty one. *)
Fixpoint iget_scan (n : nat) (dev inum i empty : Z) (s : kstate) : (Z + Z) :=
  match n with
  | O => inr empty
  | S n' =>
      let ip := itable s i in
      if (0 <? i_ref ip) && (i_dev ip =? dev) && (i_inum ip =? inum) then inl i else
      iget_scan n' dev inum (i + 1)
        (if (empty =? -1) && (i_ref ip =? 0) then i else empty) s
  end.

Definition iget (dev inum : Z) : M kstate Z :=
  r <- gets (iget_scan (Z.to_nat NINODE) dev inum 0 (-1)) ;;
  match r with
  | inl ip => ino_set ip (λ x, set_i_ref (i_ref x + 1) x) ;; ret ip
  | inr empty =>
      if empty =? -1 then panic "iget: no inodes" else
      ino_set empty (set_i_dev dev) ;;
      ino_set empty (set_i_inum inum) ;;
      ino_set empty (set_i_ref 1) ;;
      ino_set empty (set_i_valid false) ;;
      ret empty
  end.

Definition ialloc (me dev type : Z) : M kstate Z :=
  sb <- gets sb_of ;;
  r <- for_ (Z.to_nat (sb_ninodes sb - 1)) 1 (λ inum,
    bp <- bread me dev (IBLOCK inum sb) ;;
    d <- buf_data bp ;;
    if di_type d (di_off inum) =? 0 then
      buf_store bp (λ d, st16 (memset d (di_off inum) 0 64) (di_off inum) type) ;;
      log_write bp ;;
      brelse me bp ;;
      ip <- iget dev inum ;;
      ret (Some ip)
    else brelse me bp ;; ret None) ;;
  match r with
  | Some ip => ret ip
  | None => println "ialloc: no inodes" [] ;; ret (-1)
  end.

Definition iupdate (me ip : Z) : M kstate unit :=
  sb <- gets sb_of ;;
  i <- ino ip ;;
  bp <- bread me (i_dev i) (IBLOCK (i_inum i) sb) ;;
  i <- ino ip ;;
  buf_store bp (λ d, put_dinode i d (di_off (i_inum i))) ;;
  log_write bp ;;
  brelse me bp.

Definition idup (ip : Z) : M kstate Z :=
  i <- ino ip ;;
  ino_set ip (set_i_ref (i_ref i + 1)) ;;
  ret ip.

Definition ilock (me ip : Z) : M kstate unit :=
  if ip =? -1 then panic "ilock" else
  i <- ino ip ;;
  if i_ref i <? 1 then panic "ilock" else
  acquiresleep me (InodeLock ip) ;;
  if i_valid i then ret tt else
  sb <- gets sb_of ;;
  bp <- bread me (i_dev i) (IBLOCK (i_inum i) sb) ;;
  d <- buf_data bp ;;
  let o := di_off (i_inum i) in
  ino_set ip (λ x, mkInode (i_dev x) (i_inum x) (i_ref x) (i_lock x) (i_valid x)
    (di_type d o) (di_major d o) (di_minor d o) (di_nlink d o) (di_size d o)
    (λ k, if in_table k (NDIRECT + 1) then di_addr d o k else i_addrs x k)) ;;
  brelse me bp ;;
  ino_set ip (set_i_valid true) ;;
  if di_type d o =? 0 then panic "ilock: no type" else ret tt.

Definition iunlock (me ip : Z) : M kstate unit :=
  if ip =? -1 then panic "iunlock" else
  h <- holdingsleep me (InodeLock ip) ;;
  i <- ino ip ;;
  if negb h || (i_ref i <? 1) then panic "iunlock" else
  releasesleep me (InodeLock ip).

(** ip->addrs[k], with the entry beyond the array read from the next inode. *)
Definition addrs_get (ip k : Z) : M kstate Z :=
  i <- ino ip ;;
  if in_table k (NDIRECT + 1) then ret (i_addrs i k) else
  if (k =? NDIRECT + 1) && (ip + 1 <? NINODE) then gets (λ s, i_dev (itable s (ip + 1)))
  else undef "ip->addrs[k]".
Definition addrs_set (ip k v : Z) : M kstate unit :=
  if in_table k (NDIRECT + 1) then ino_set ip (λ x, set_i_addrs (fupd (i_addrs x) k v) x) else
  if (k =? NDIRECT + 1) && (ip + 1 <? NINODE) then ino_set (ip + 1) (set_i_dev v)
  else undef "ip->addrs[k]".

(** Word j of the block, as an array of uint. *)
Definition word (d : mem) (j : Z) : Z := ld32 d (4 * j).
Definition set_word (j v : Z) (d : mem) : mem := st32 d (4 * j) v.

(** if((addr = a[j]) == 0){ addr = balloc(dev); if(addr){ a[j] = addr; log_write(bp); } } *)
Definition indirect_entry (me dev bp j : Z) : M kstate Z :=
  d <- buf_data bp ;;
  let addr := word d j in
  if addr =? 0 then
    addr <- balloc me dev ;;
    (when negb (addr =? 0) do
      (buf_store bp (set_word j addr) ;;
       log_write bp)) ;;
    ret addr
  else ret addr.

(** if((addr = ip->addrs[k]) == 0){ addr = balloc(dev); if(addr == 0) return 0;
    ip->addrs[k] = addr; } *)
Definition direct_entry (me ip k : Z) : M kstate Z :=
  addr <- addrs_get ip k ;;
  if addr =? 0 then
    i <- ino ip ;;
    addr <- balloc me (i_dev i) ;;
    if addr =? 0 then ret 0 else
    addrs_set ip k addr ;;
    ret addr
  else ret addr.

Definition bmap (me ip bn : Z) : M kstate Z :=
  if bn <? NDIRECT then direct_entry me ip bn else
  let bn := bn - NDIRECT in
  if bn <? NINDIRECT then
    addr <- direct_entry me ip NDIRECT ;;
    if addr =? 0 then ret 0 else
    i <- ino ip ;;
    bp <- bread me (i_dev i) addr ;;
    addr <- indirect_entry me (i_dev i) bp bn ;;
    brelse me bp ;;
    ret addr
  else
  let bn := bn - NINDIRECT in
  if bn <? NINDIRECT * NINDIRECT then
    addr <- direct_entry me ip (NDIRECT + 1) ;;
    if addr =? 0 then ret 0 else
    i <- ino ip ;;
    bp <- bread me (i_dev i) addr ;;
    let fst := bn / NINDIRECT in
    let snd := bn mod NINDIRECT in
    _ <- indirect_entry me (i_dev i) bp fst ;;
    brelse me bp ;;
    d <- buf_data bp ;;
    bp <- bread me (i_dev i) (word d fst) ;;
    addr <- indirect_entry me (i_dev i) bp snd ;;
    brelse me bp ;;
    ret addr
  else panic "bmap: out of range".

(** for(j = 0; j < NINDIRECT; j++) if(a[j]) bfree(dev, a[j]); *)
Definition free_entries (me dev bp : Z) : M kstate unit :=
  foreach (Z.to_nat NINDIRECT) 0 (λ j,
    d <- buf_data bp ;;
    when negb (word d j =? 0) do bfree me dev (word d j)).

Definition itrunc (me ip : Z) : M kstate unit :=
  foreach (Z.to_nat NDIRECT) 0 (λ k,
    i <- ino ip ;;
    a <- addrs_get ip k ;;
    when negb (a =? 0) do (bfree me (i_dev i) a ;; addrs_set ip k 0)) ;;
  i <- ino ip ;;
  a <- addrs_get ip NDIRECT ;;
  (when negb (a =? 0) do
    (bp1 <- bread me (i_dev i) a ;;
     free_entries me (i_dev i) bp1 ;;
     brelse me bp1 ;;
     bfree me (i_dev i) a ;;
     addrs_set ip NDIRECT 0)) ;;
  a <- addrs_get ip (NDIRECT + 1) ;;
  (when negb (a =? 0) do
    (bp1 <- bread me (i_dev i) a ;;
     foreach (Z.to_nat NINDIRECT) 0 (λ j,
       d <- buf_data bp1 ;;
       when negb (word d j =? 0) do
         (bp2 <- bread me (i_dev i) (word d j) ;;
          free_entries me (i_dev i) bp2 ;;
          brelse me bp2 ;;
          d <- buf_data bp1 ;;
          bfree me (i_dev i) (word d j))) ;;
     brelse me bp1 ;;
     bfree me (i_dev i) a ;;
     addrs_set ip (NDIRECT + 1) 0)) ;;
  ino_set ip (set_i_size 0) ;;
  iupdate me ip.

Definition iput (me ip : Z) : M kstate unit :=
  i <- ino ip ;;
  (when (i_ref i =? 1) && i_valid i && (i_nlink i =? 0) do
    (acquiresleep me (InodeLock ip) ;;
     itrunc me ip ;;
     ino_set ip (set_i_type 0) ;;
     iupdate me ip ;;
     ino_set ip (set_i_valid false) ;;
     releasesleep me (InodeLock ip))) ;;
  ino_set ip (λ x, set_i_ref (i_ref x - 1) x).

Definition iunlockput (me ip : Z) : M kstate unit := iunlock me ip ;; iput me ip.

Definition ireclaim (me dev : Z) : M kstate unit :=
  sb <- gets sb_of ;;
  foreach (Z.to_nat (sb_ninodes sb - 1)) 1 (λ inum,
    bp <- bread me dev (IBLOCK inum sb) ;;
    d <- buf_data bp ;;
    let o := di_off inum in
    ip <- (if negb (di_type d o =? 0) && (di_nlink d o =? 0) then
             println "ireclaim: orphaned inode %d" [AInt inum] ;;
             iget dev inum
           else ret (-1)) ;;
    brelse me bp ;;
    when negb (ip =? -1) do
      (begin_op me ;;
       ilock me ip ;;
       iunlock me ip ;;
       iput me ip ;;
       end_op me)).

Definition fsinit (me dev : Z) : M kstate unit :=
  readsb me dev ;;
  sb <- gets sb_of ;;
  if negb (sb_magic sb =? FSMAGIC) then panic "invalid file system" else
  initlog me dev sb ;;
  ireclaim me dev.

(** ** File contents *)

(** struct stat; [pad] are the four padding bytes, which stati does not set. *)
Definition stati (i : inode) (pad : list Z) : list Z :=
  le_bytes 4 (i_dev i) ++ le_bytes 4 (i_inum i) ++ le_bytes 2 (i_type i) ++
  le_bytes 2 (i_nlink i) ++ pad ++ le_bytes 8 (i_size i).

(** The number of bytes read and, for a local buffer, the bytes. *)
Definition readi (me ip : Z) (dst : kdst) (off n : Z) : M kstate (Z * list Z) :=
  i <- ino ip ;;
  if (i_size i <? off) || (u32 (off + n) <? off) then ret (0, []) else
  let n := if i_size i <? u32 (off + n) then u32 (i_size i - off) else n in
  while (Z.to_nat (n / BSIZE) + 3)%nat (λ '(tot, off, dst, got),
    if tot <? n then
      addr <- bmap me ip (off / BSIZE) ;;
      if addr =? 0 then ret (inr (s32 tot, got)) else
      i <- ino ip ;;
      bp <- bread me (i_dev i) addr ;;
      let m := Z.min (n - tot) (BSIZE - off mod BSIZE) in
      d <- buf_data bp ;;
      r <- either_copyout me dst (bytes d (off mod BSIZE) (Z.to_nat m)) ;;
      if fst r =? -1 then
        brelse me bp ;; ret (inr (-1, got))
      else
      brelse me bp ;;
      ret (inl (tot + m, u32 (off + m), dst_add dst m, got ++ snd r))
    else ret (inr (s32 tot, got))) (0, off, dst, []).

Definition writei (me ip : Z) (src : ksrc) (off n : Z) : M kstate Z :=
  i <- ino ip ;;
  if (i_size i <? off) || (u32 (off + n) <? off) then ret (-1) else
  if MAXFILE * BSIZE <? u32 (off + n) then ret (-1) else
  r <- while (Z.to_nat (n / BSIZE) + 3)%nat (λ '(tot, off, src),
    if tot <? n then
      addr <- bmap me ip (off / BSIZE) ;;
      if addr =? 0 then ret (inr (tot, off)) else
      i <- ino ip ;;
      bp <- bread me (i_dev i) addr ;;
      let m := Z.min (n - tot) (BSIZE - off mod BSIZE) in
      r <- either_copyin me src m ;;
      buf_store bp (λ d, write_bytes d (off mod BSIZE) (snd r)) ;;
      if fst r =? -1 then
        brelse me bp ;; ret (inr (tot, off))
      else
      log_write bp ;;
      brelse me bp ;;
      ret (inl (tot + m, u32 (off + m), src_add src m))
    else ret (inr (tot, off))) (0, off, src) ;;
  let '(tot, off) := r in
  i <- ino ip ;;
  (when i_size i <? off do ino_set ip (set_i_size off)) ;;
  iupdate me ip ;;
  ret (s32 tot).

(** ** Directories *)

(** A string at an address, with its terminating NUL. *)
Definition str_at (m : mem) (a : Z) (l : list Z) : mem := write_bytes m a (l ++ [0]).

Definition namecmp (s t : list Z) : Z :=
  strncmp (str_at (str_at (λ _, 0) 0 s) PGSIZE t) 0 PGSIZE (Z.to_nat DIRSIZ).

(** struct dirent: inum in two bytes, then DIRSIZ bytes of name. *)
Definition de_inum (de : list Z) : Z := le_val (take 2 de).
Definition de_name (de : list Z) : list Z := drop 2 de.
Definition mk_dirent (inum : Z) (name : list Z) : list Z :=
  le_bytes 2 inum ++ take (Z.to_nat DIRSIZ) (name ++ replicate (Z.to_nat DIRSIZ) 0).

(** The inode (or -1) and the offset of the entry. *)
Definition dirlookup (me dp : Z) (name : list Z) : M kstate (Z * Z) :=
  i <- ino dp ;;
  if negb (i_type i =? T_DIR) then panic "dirlookup not DIR" else
  while (S (Z.to_nat (i_size i / 16 + 1))) (λ off,
    i <- ino dp ;;
    if off <? i_size i then
      r <- readi me dp ToLocal off 16 ;;
      if negb (fst r =? 16) then panic "dirlookup read" else
      let de := snd r in
      if de_inum de =? 0 then ret (inl (u32 (off + 16))) else
      if namecmp name (de_name de) =? 0 then
        i <- ino dp ;;
        ip <- iget (i_dev i) (de_inum de) ;;
        ret (inr (ip, off))
      else ret (inl (u32 (off + 16)))
    else ret (inr (-1, 0))) 0.

Definition dirlink (me dp : Z) (name : list Z) (inum : Z) : M kstate Z :=
  r <- dirlookup me dp name ;;
  if negb (fst r =? -1) then iput me (fst r) ;; ret (-1) else
  i <- ino dp ;;
  off <- while (S (Z.to_nat (i_size i / 16 + 1))) (λ off,
    i <- ino dp ;;
    if off <? i_size i then
      r <- readi me dp ToLocal off 16 ;;
      if negb (fst r =? 16) then panic "dirlink read" else
      if de_inum (snd r) =? 0 then ret (inr off) else ret (inl (off + 16))
    else ret (inr off)) 0 ;;
  w <- writei me dp (FromLocal (mk_dirent inum name)) off 16 ;;
  if negb (w =? 16) then ret (-1) else ret 0.

(** ** Path names *)
Fixpoint skip_slashes (path : list Z) : list Z :=
  match path with
  | c :: path' => if c =? SLASH then skip_slashes path' else path
  | [] => []
  end.
Fixpoint elem_len (path : list Z) : nat :=
  match path with
  | c :: path' => if c =? SLASH then O else S (elem_len path')
  | [] => O
  end.

(** The rest of the path and the name, or None for the null pointer. *)
Definition skipelem (path : list Z) : option (list Z * list Z) :=
  let path := skip_slashes path in
  match path with
  | [] => None
  | _ =>
      let len := elem_len path in
      let name := if DIRSIZ <=? Z.of_nat len then take (Z.to_nat DIRSIZ) path else take len path in
      Some (skip_slashes (drop len path), name)
  end.

(** The inode (or -1) and the last element copied into name. *)
Definition namex (me : Z) (path : list Z) (nameiparent : bool) : M kstate (Z * list Z) :=
  ip <- (if hd 0 path =? SLASH then iget ROOTDEV ROOTINO
         else cwd <- gets (λ s, p_cwd (procs s me)) ;; idup cwd) ;;
  while (S (length path)) (λ '(ip, path, name),
    match skipelem path with
    | None =>
        if nameiparent then iput me ip ;; ret (inr (-1, name)) else ret (inr (ip, name))
    | Some (path, name) =>
        ilock me ip ;;
        i <- ino ip ;;
        if negb (i_type i =? T_DIR) then
          iunlockput me ip ;; ret (inr (-1, name))
        else if nameiparent && bool_decide (path = []) then
          iunlock me ip ;; ret (inr (ip, name))
        else
        r <- dirlookup me ip name ;;
        iunlockput me ip ;;
        if fst r =? -1 then ret (inr (-1, name)) else
        ret (inl (fst r, path, name))
    end) (ip, path, []).

Definition namei (me : Z) (path : list Z) : M kstate Z :=
  r <- namex me path false ;; ret (fst r).

Definition nameiparent (me : Z) (path : list Z) : M kstate (Z * list Z) := namex me path true.

(** ** Symbolic links *)
Definition symlink (me : Z) (target path : list Z) : M kstate Z :=
  begin_op me ;;
  r <- nameiparent me path ;;
  let '(dp, name) := r in
  if dp =? -1 then end_op me ;; ret (-1) else
  ilock me dp ;;
  r <- dirlookup me dp name ;;
  if negb (fst r =? -1) then
    iunlockput me dp ;; iput me (fst r) ;; end_op me ;; ret (-1)
  else
  d <- ino dp ;;
  ip <- ialloc me (i_dev d) T_SYMLINK ;;
  if ip =? -1 then
    iunlockput me dp ;; end_op me ;; ret (-1)
  else
  ilock me ip ;;
  ino_set ip (set_i_nlink 1) ;;
  ino_set ip (set_i_size 0) ;;
  iupdate me ip ;;
  i <- ino ip ;;
  l <- dirlink me dp name (i_inum i) ;;
  if l <? 0 then
    ino_set ip (set_i_nlink 0) ;;
    iupdate me ip ;;
    iunlockput me ip ;; iunlockput me dp ;; end_op me ;; ret (-1)
  else
  iunlockput me dp ;;
  let len := Z.of_nat (length target) in
  w <- writei me ip (FromLocal target) 0 len ;;
  if negb (w =? len) then
    ino_set ip (set_i_nlink 0) ;;
    iupdate me ip ;;
    iunlockput me ip ;; end_op me ;; ret (-1)
  else
  iunlockput me ip ;;
  end_op me ;;
  ret 0.

End fs.
