(* ===== verification/FsPath.v ===== *)
(** Names of the file system: the elements of a path and the entries of a
    directory. *)

From S2P Require Import Prelude Riscv Memory Kalloc Vm State Printf Proc Bio Log Fs.

(** ** Paths *)

(** A path cut at every slash. *)
Fixpoint split (path : list Z) : list (list Z) :=
  match path with
  | [] => [[]]
  | c :: path' =>
      if c =? SLASH then [] :: split path' else
      match split path' with e :: es => (c :: e) :: es | [] => [[c]] end
  end.

(** The elements of a path: the non-empty parts, cut to DIRSIZ bytes. *)
Definition path_elements (path : list Z) : list (list Z) :=
  take (Z.to_nat DIRSIZ) <$> filter (.≠ []) (split path).

(** The names skipelem gives when it is called again on what it leaves, as in
    the loop of namex. *)
Fixpoint skipelems (n : nat) (path : list Z) : list (list Z) :=
  match n with
  | O => []
  | S n' => match skipelem path with None => [] | Some (rest, name) => name :: skipelems n' rest end
  end.

Lemma split_slashes path : filter (.≠ []) (split (skip_slashes path)) = filter (.≠ []) (split path).
Proof.
  induction path as [|c path IH]; [done|]. cbn [skip_slashes split]. destruct (Z.eqb_spec c SLASH) as [->|Hc].
  - rewrite IH. by rewrite filter_cons, decide_False by tauto.
  - cbn [split]. by rewrite (proj2 (Z.eqb_neq _ _) Hc).
Qed.

Lemma split_elem path : split path =
  take (elem_len path) path :: match drop (elem_len path) path with [] => [] | _ :: rest => split rest end.
Proof.
  induction path as [|c path IH]; [done|]. cbn [split elem_len]. destruct (c =? SLASH); [done|].
  cbn [take drop]. by rewrite IH.
Qed.

Lemma skip_slashes_head path : match skip_slashes path with [] => True | c :: _ => c ≠ SLASH end.
Proof. induction path as [|c path IH]; [done|]. cbn [skip_slashes]. destruct (Z.eqb_spec c SLASH); [done|]. done. Qed.

Lemma skip_slashes_length path : (length (skip_slashes path) ≤ length path)%nat.
Proof. induction path as [|c path IH]; [done|]. cbn. destruct (c =? SLASH); cbn; lia. Qed.

Lemma elem_rest path : match drop (elem_len path) path with [] => True | c :: _ => c = SLASH end.
Proof. induction path as [|c path IH]; [done|]. cbn [elem_len]. by destruct (Z.eqb_spec c SLASH). Qed.

(** One skipelem: the first element and a shorter path with the others. *)
Lemma skipelem_step path : match skipelem path with
  | None => filter (.≠ []) (split path) = []
  | Some (rest, name) => (length rest < length path)%nat ∧ skip_slashes rest = rest ∧
      ∃ e, name = take (Z.to_nat DIRSIZ) e ∧ filter (.≠ []) (split path) = e :: filter (.≠ []) (split rest)
  end.
Proof.
  unfold skipelem. rewrite <-split_slashes. pose proof (skip_slashes_head path) as Hh. pose proof (skip_slashes_length path) as Hl.
  destruct (skip_slashes path) as [|c p] eqn:E; [done|]. cbv zeta. set (q := c :: p) in *.
  assert (elem_len q = S (elem_len p)) as Hlen by (unfold q; cbn; by rewrite (proj2 (Z.eqb_neq _ _) Hh)).
  split_and!.
  - pose proof (skip_slashes_length (drop (elem_len q) q)). rewrite length_drop in *. cbn [length q] in *. lia.
  - generalize (drop (elem_len q) q). intros l. induction l as [|x l IH]; [done|]. cbn. destruct (x =? SLASH) eqn:Ex; [done|].
    cbn. by rewrite Ex.
  - exists (take (elem_len q) q). split.
    + case_if; [rewrite take_take; f_equal; lia|]. by rewrite (take_ge (take _ _)) by (rewrite length_take; lia).
    + rewrite split_slashes, split_elem, filter_cons, decide_True by by rewrite Hlen. f_equal.
      pose proof (elem_rest q) as Hr. destruct (drop (elem_len q) q) as [|x r]; [done|]. rewrite Hr. cbn [split].
      rewrite Z.eqb_refl, filter_cons, decide_False by tauto. done.
Qed.

Lemma skipelems_fuel n path : (length path < n)%nat → skipelems n path = path_elements path.
Proof.
  revert path. induction n as [|n IH]; intros path Hn; [lia|]. cbn [skipelems].
  pose proof (skipelem_step path) as Hs. unfold path_elements. destruct (skipelem path) as [[rest name]|].
  - destruct Hs as (Hl & _ & e & -> & ->). cbn. f_equal. apply IH. lia.
  - by rewrite Hs.
Qed.

(** skipelem parses path names.  Called again and again on what it leaves,
    as often as the loop of namex may, it gives exactly the elements of the
    path, the non-empty parts between slashes, each cut to DIRSIZ bytes, and
    then the null pointer; and what it leaves is empty exactly when the element
    was the last, which is how namex finds the parent directory. *)
Theorem skipelem_parses path :
  skipelems (S (length path)) path = path_elements path ∧
  (skipelem path = None ↔ path_elements path = []) ∧
  ∀ rest name, skipelem path = Some (rest, name) → (rest = [] ↔ path_elements path = [name]).
Proof.
  pose proof (skipelem_step path) as Hs. split_and!; [by apply skipelems_fuel; lia|..].
  - unfold path_elements. destruct (skipelem path) as [[rest name]|]; [|by rewrite Hs].
    destruct Hs as (_ & _ & e & _ & ->). done.
  - intros rest name E. rewrite E in Hs. destruct Hs as (_ & Hr & e & -> & He). unfold path_elements. rewrite He. cbn.
    split; [by intros ->|]. intros [=Hn]. destruct rest as [|c r]; [done|]. exfalso.
    apply fmap_nil_inv in Hn. pose proof (skip_slashes_head (c :: r)) as Hh. rewrite Hr in Hh.
    rewrite split_elem in Hn. cbn [elem_len] in Hn. rewrite (proj2 (Z.eqb_neq _ _) Hh) in Hn. cbn [take] in Hn.
    by rewrite filter_cons, decide_True in Hn.
Qed.

(** ** Directory entries *)

(** The name in a field of at most [n] bytes: up to the first NUL. *)
Fixpoint cname (n : nat) (l : list Z) : list Z :=
  match n, l with
  | S k, c :: l' => if c =? 0 then [] else c :: cname k l'
  | _, _ => []
  end.

Definition byte_list (l : list Z) : Prop := Forall (λ b, 0 ≤ b < 256) l.

Lemma write_bytes_other m l : ∀ a x, x < a ∨ a + Z.of_nat (length l) ≤ x → write_bytes m a l x = m x.
Proof.
  revert m. induction l as [|b l IH]; intros m a x Hx; [done|]. cbn [write_bytes length] in *.
  rewrite IH by lia. by rewrite fupd_ne by lia.
Qed.

Lemma cstr_write l : ∀ n m a, byte_list l → cstr n (write_bytes m a (l ++ [0])) a = cname n l.
Proof.
  induction l as [|b l IH]; intros [|n] m a Hl; try done; cbn [cstr cname app write_bytes].
  - by rewrite fupd_eq.
  - apply Forall_cons in Hl as [Hb Hl]. rewrite write_bytes_other by (rewrite ?length_app; lia).
    rewrite fupd_eq, u8_small by lia. destruct (b =? 0); [done|]. f_equal. by apply IH.
Qed.

Lemma cstr_other n m a l p : (∀ x, p ≤ x < p + Z.of_nat n → x < a ∨ a + Z.of_nat (length l) ≤ x) →
  cstr n (write_bytes m a l) p = cstr n m p.
Proof.
  intros H. revert p H. induction n as [|n IH]; intros p H; [done|]. cbn [cstr].
  rewrite write_bytes_other by (apply H; lia). destruct (m p =? 0); [done|]. f_equal. apply IH. intros x Hx. apply H. lia.
Qed.

(** namecmp compares names of at most DIRSIZ bytes. *)
Lemma namecmp_zero s t : byte_list s → byte_list t → (length s < Z.to_nat PGSIZE)%nat →
  namecmp s t = 0 ↔ cname (Z.to_nat DIRSIZ) s = cname (Z.to_nat DIRSIZ) t.
Proof.
  intros Hs Ht Hl. unfold namecmp, str_at. rewrite strncmp_zero_iff, cstr_write by done.
  rewrite cstr_other by (intros x Hx; left; lia). by rewrite cstr_write.
Qed.

Lemma cname_pad n l : ∀ k, cname n (take n (l ++ replicate k 0)) = cname n l.
Proof.
  revert n. induction l as [|c l IH]; intros [|n] k; try done; cbn [app take cname].
  - by destruct k.
  - destruct (c =? 0); [done|]. by rewrite IH.
Qed.

Lemma mk_dirent_parts inum name :
  length (mk_dirent inum name) = 16%nat ∧ de_inum (mk_dirent inum name) = u16 inum ∧
  de_name (mk_dirent inum name) = take (Z.to_nat DIRSIZ) (name ++ replicate (Z.to_nat DIRSIZ) 0).
Proof.
  unfold mk_dirent. split_and!; [|..|done].
  - rewrite length_app, length_take, length_app, length_replicate. cbn [le_bytes length]. lia.
  - unfold de_inum. cbn [le_bytes app take le_val]. unfold u16.
    change (2^16) with (256 * 256). rewrite Z.rem_mul_r by lia. rewrite take_0. cbn [le_val]. lia.
Qed.

(** directory entries keep the number and the name.  An entry made by
    dirlink is 16 bytes; dirlookup reads back the inode number, and namecmp
    finds the entry under exactly the names that agree with the given one up to
    DIRSIZ bytes. *)
Theorem dirent_roundtrip inum name : 0 ≤ inum < 65536 → byte_list name →
  let de := mk_dirent inum name in
  length de = 16%nat ∧ de_inum de = inum ∧
  ∀ name', byte_list name' → (length name' < Z.to_nat PGSIZE)%nat →
    namecmp name' (de_name de) = 0 ↔ cname (Z.to_nat DIRSIZ) name' = cname (Z.to_nat DIRSIZ) name.
Proof.
  intros Hi Hn de. destruct (mk_dirent_parts inum name) as (H1 & H2 & H3). split_and!; [done| |].
  - unfold de. rewrite H2. unfold u16. dlia.
  - intros name' Hn' Hl. unfold de. rewrite H3, namecmp_zero, cname_pad; [done|done| |done].
    apply Forall_take, Forall_app. split; [done|]. apply Forall_replicate. lia.
Qed.

(** "a" and "ab" under entries 5 and 6. *)
Lemma dirent_roundtrip_witness : namecmp [97] (de_name (mk_dirent 5 [97])) = 0 ∧ namecmp [97] (de_name (mk_dirent 6 [97; 98])) ≠ 0.
Proof.
  split.
  - apply (dirent_roundtrip 5 [97]); [lia|repeat constructor; lia|repeat constructor; lia|vm_compute; lia|reflexivity].
  - intros H. apply (dirent_roundtrip 6 [97; 98]) in H; [done|lia|repeat constructor; lia|repeat constructor; lia|vm_compute; lia].
Defined.
