(* ===== verification/FsBlocks.v ===== *)
(** Blocks of the file system: the bitmap and its allocator. *)

From S2P Require Import Prelude Riscv Memory Kalloc Vm State Printf Proc Bio BioThms Log LogThms LogOps Txn Fs.

(** ** Bits of a block *)
Lemma bit_get_testbit d i : bit_get d i = Z.testbit (d (i / 8)) (i mod 8).
Proof.
  unfold bit_get. pose proof (Z.mod_pos_bound i 8 ltac:(lia)) as Hi. set (k := i mod 8) in *. set (x := d (i / 8)).
  assert (Z.land x (Z.shiftl 1 k) = if Z.testbit x k then Z.shiftl 1 k else 0) as ->.
  { apply Z.bits_inj'. intros n Hn. rewrite Z.land_spec, Z.shiftl_1_l, Z.pow2_bits_eqb by lia.
    destruct (Z.eqb_spec k n) as [<-|Hkn].
    - destruct (Z.testbit x k); [by rewrite Z.pow2_bits_true by lia|by rewrite Z.bits_0].
    - rewrite andb_false_r. destruct (Z.testbit x k); [by rewrite Z.pow2_bits_false by lia|by rewrite Z.bits_0]. }
  destruct (Z.testbit x k); [|done]. rewrite Z.shiftl_1_l. pose proof (Z.pow_pos_nonneg 2 k). 
  by rewrite (proj2 (Z.eqb_neq _ _)) by lia.
Qed.

Lemma bit_pos i j : i / 8 = j / 8 → i mod 8 = j mod 8 → i = j.
Proof. intros. dlia. Qed.

Lemma bit_get_set d i j : bit_get (bit_set d i) j = (i =? j) || bit_get d j.
Proof.
  rewrite !bit_get_testbit. unfold bit_set. rewrite fupd_spec. pose proof (Z.mod_pos_bound i 8 ltac:(lia)).
  pose proof (Z.mod_pos_bound j 8 ltac:(lia)). case_decide as Hd.
  - rewrite <-Hd, Z.lor_spec, Z.shiftl_1_l, Z.pow2_bits_eqb by lia. rewrite orb_comm. f_equal.
    destruct (Z.eqb_spec i j) as [->|Hij]; [by rewrite Z.eqb_refl|]. apply Z.eqb_neq. intros E. apply Hij.
    by apply bit_pos.
  - rewrite (proj2 (Z.eqb_neq i j)); [done|]. congruence.
Qed.

Lemma bit_get_clear d i j : bit_get (bit_clear d i) j = negb (i =? j) && bit_get d j.
Proof.
  rewrite !bit_get_testbit. unfold bit_clear. rewrite fupd_spec. pose proof (Z.mod_pos_bound i 8 ltac:(lia)).
  pose proof (Z.mod_pos_bound j 8 ltac:(lia)). case_decide as Hd.
  - rewrite <-Hd, Z.land_spec, Z.lnot_spec, Z.shiftl_1_l, Z.pow2_bits_eqb by lia. rewrite andb_comm. do 2 f_equal.
    destruct (Z.eqb_spec i j) as [->|Hij]; [by rewrite Z.eqb_refl|]. apply Z.eqb_neq. intros E. apply Hij.
    by apply bit_pos.
  - rewrite (proj2 (Z.eqb_neq i j)); [done|]. congruence.
Qed.

Lemma find_clear_spec d : ∀ n i, match find_clear n d i with
  | Some k => i ≤ k < i + Z.of_nat n ∧ bit_get d k = false
  | None => ∀ k, i ≤ k < i + Z.of_nat n → bit_get d k = true
  end.
Proof.
  induction n as [|n IH]; intros i; cbn [find_clear]; [lia|]. destruct (bit_get d i) eqn:E; [|split; [lia|done]].
  specialize (IH (i + 1)). destruct (find_clear n d (i + 1)); [split; [lia|apply IH]|].
  intros k Hk. destruct (decide (k = i)) as [->|]; [done|]. apply IH. lia.
Qed.

Section blocks.
Context (me : Z).

(** Block [b] is marked in use. *)
Definition used (s : kstate) (b : Z) : bool := bit_get (view s (BBLOCK b (sb_of s))) (b mod BPB).

(** The layout the allocator relies on: bitmap blocks are on the disk and
    outside the log, and the boot block, the log and the bitmap are marked. *)
Record layout (S : Z) (s : kstate) : Prop := {
  ly_size : 0 < sb_size (sb_of s) ≤ disk_size s ∧ disk_size s < 2^31;
  ly_bitmap : ∀ b, 0 ≤ b < sb_size (sb_of s) → 0 ≤ sb_bmapstart (sb_of s) ∧
    BBLOCK b (sb_of s) = b / BPB + sb_bmapstart (sb_of s) ∧ BBLOCK b (sb_of s) < disk_size s ∧ ¬ in_log S (BBLOCK b (sb_of s));
  ly_meta : ∀ b, 0 ≤ b < sb_size (sb_of s) → used s b = false →
    b ≠ 0 ∧ ¬ in_log S b ∧ ∀ c, 0 ≤ c < sb_size (sb_of s) → b ≠ BBLOCK c (sb_of s)
}.

(** The contents after block [r] has been allocated. *)
Definition allocated_view (s : kstate) (r : Z) : Z → mem :=
  let bb := BBLOCK r (sb_of s) in
  fupd (fupd (view s) bb (bit_set (view s bb) (r mod BPB))) r (λ _, 0).

Lemma bzero_wp H S L D s b (Q : unit → kstate → Prop) : tx me H S L D s → in_op s → 0 ≤ b < disk_size s → disk_size s < 2^31 →
  ¬ in_log S b → b ∉ blocks s H → (length L + length H < 30)%nat →
  (∀ s', tx me H S (absorb b L) D s' → blocks s' H = blocks s H → (∀ c, view s' c = fupd (view s) b (λ _, 0) c) → keep me s s' → Q tt s') →
  wp (bzero me ROOTDEV b) Q s.
Proof.
  intros HT Hop Hb Hsz Hnl Hnb Hlen HQ. unfold bzero. rewrite u32_small by lia.
  by apply (tx_update me H S L D s b (λ _ _, 0)).
Qed.

Lemma BBLOCK_same sb b bi : b mod BPB = 0 → 0 ≤ bi < BPB → BBLOCK (b + bi) sb = BBLOCK b sb ∧ (b + bi) mod BPB = bi.
Proof. intros. unfold BBLOCK. replace ((b + bi) / BPB) with (b / BPB) by dlia. split; [done|]. dlia. Qed.

Lemma balloc_wp S L D s (Q : Z → kstate → Prop) : tx me [] S L D s → in_op s → layout S s → (length L < 28)%nat →
  (∀ s', (∀ b, 0 ≤ b < sb_size (sb_of s) → used s b = true) → tx me [] S L D s' → (∀ c, view s' c = view s c) →
    keep me s s' → Q 0 s') →
  (∀ r s', 0 < r < sb_size (sb_of s) → used s r = false → tx me [] S (absorb r (absorb (BBLOCK r (sb_of s)) L)) D s' →
    (∀ c, view s' c = allocated_view s r c) → keep me s s' → Q r s') →
  wp (balloc me ROOTDEV) Q s.
Proof.
  intros HT Hop [Y1 Y2 Y3] Hlen HQ0 HQr. unfold balloc. do 2 wp_step. set (sb := sb_of s) in *.
  apply (wp_while (λ n b s1, 0 ≤ b ∧ b mod BPB = 0 ∧ Z.of_nat n = sb_size sb / BPB + 2 - b / BPB ∧ b / BPB ≤ sb_size sb / BPB + 1 ∧
    tx me [] S L D s1 ∧ (∀ c, view s1 c = view s c) ∧ keep me s s1 ∧
    ∀ c, 0 ≤ c < b → c < sb_size sb → used s c = true)).
  2:{ split_and!; try done; try dlia. }
  intros n b s1 (Hb & Hb0 & Hn & Hbs & HT1 & Hv1 & Hk1 & Hu). destruct n as [|n]; [lia|]. exists n. split; [done|].
  case_if.
  2:{ wp_step. wp_print u. wp_step. apply HQ0; [|by apply tx_uart|done|by apply keep_uart]. intros c Hc. apply Hu; lia. }
  destruct (Y2 b ltac:(lia)) as (Ybm & Yb & Yd & Yl). pose proof (ke_size _ _ _ Hk1) as Hsz.
  assert (0 ≤ BBLOCK b sb) by (rewrite Yb; pose proof (Z.div_pos b BPB); lia).
  eapply tx_open; [done|lia|apply not_elem_of_nil|cbn; lia|]. intros i s2 HT2 HiH Hi Hbl2 Hv2 Hk2.
  rewrite Hv1. pose proof (find_clear_spec (view s (BBLOCK b sb)) (Z.to_nat (Z.min BPB (sb_size sb - b))) 0) as Hf.
  destruct (find_clear _ _ 0) as [bi|].
  - destruct Hf as [Hbi Hclear]. destruct (BBLOCK_same sb b bi) as [Eb Em]; [done|lia|].
    assert (used s (b + bi) = false) as Hfree by (unfold used; fold sb; by rewrite Eb, Em).
    destruct (Y3 (b + bi) ltac:(lia) Hfree) as (Hn0 & Hnl & Hnb). pose proof (Hnb b ltac:(lia)).
    eapply tx_store; [done|eapply keep_in_op; [|done]; by etrans|by left|rewrite Hi, (ke_size _ _ _ Hk2), Hsz; lia|by rewrite Hi|lia|].
    rewrite Hi. intros s3 HT3 Hbl3 Hv3 Hk3. eapply tx_close; [done|done|]. intros s4 HT4 _ Hv4 Hk4.
    assert (keep me s s4) as Hk by by do 3 (etrans; [eassumption|]).
    pose proof (absorb_length_le (BBLOCK b sb) L).
    wp_step. eapply bzero_wp; [done|by eapply keep_in_op|rewrite (ke_size _ _ _ Hk); lia|rewrite (ke_size _ _ _ Hk); lia|done|apply not_elem_of_nil|cbn; lia|].
    intros s5 HT5 _ Hv5 Hk5. wp_step. apply HQr; [lia|done|by rewrite Eb| |by etrans].
    intros c. rewrite Hv5. unfold allocated_view. fold sb. rewrite Eb, Em, !fupd_spec. case_decide; [done|].
    rewrite Hv4, Hv3, !fupd_spec, !Hv2, !Hv1. done.
  - eapply tx_close; [done|done|]. intros s3 HT3 _ Hv3 Hk3. wp_step. split_and!; try done.
    + lia.
    + dlia.
    + rewrite Nat2Z.inj_succ in Hn. dlia.
    + dlia.
    + intros c. by rewrite Hv3, Hv2.
    + by do 2 (etrans; [eassumption|]).
    + intros c Hc Hcs. destruct (decide (c < b)) as [|Hcb]; [apply Hu; lia|].
      replace c with (b + (c - b)) by lia. destruct (BBLOCK_same sb b (c - b)) as [Eb Em]; [done|lia|].
      unfold used. fold sb. rewrite Eb, Em. apply Hf. lia.
Qed.

Lemma bfree_wp S L D s b (Q : unit → kstate → Prop) : tx me [] S L D s → in_op s → layout S s → (length L < 29)%nat →
  0 ≤ b < sb_size (sb_of s) → used s b = true →
  (∀ s', tx me [] S (absorb (BBLOCK b (sb_of s)) L) D s' →
    (∀ c, view s' c = fupd (view s) (BBLOCK b (sb_of s)) (bit_clear (view s (BBLOCK b (sb_of s))) (b mod BPB)) c) →
    keep me s s' → Q tt s') →
  wp (bfree me ROOTDEV b) Q s.
Proof.
  intros HT Hop [Y1 Y2 Y3] Hlen Hb Hu HQ. unfold bfree. do 2 wp_step. destruct (Y2 b Hb) as (Ybm & Yb & Yd & Yl).
  assert (0 ≤ BBLOCK b (sb_of s)) by (rewrite Yb; pose proof (Z.div_pos b BPB); lia).
  eapply tx_open; [done|lia|apply not_elem_of_nil|cbn; lia|]. intros i s2 HT2 HiH Hi _ Hv2 Hk2.
  unfold used in Hu. rewrite Hu. cbn [negb]. eapply tx_store; [done|eapply keep_in_op; [|done]; by etrans|by left|rewrite Hi, (ke_size _ _ _ Hk2); lia|by rewrite Hi|lia|].
  rewrite Hi. intros s3 HT3 Hbl3 Hv3 Hk3. eapply tx_brelse; [done|done|]. intros s4 HT4 _ Hv4 Hk4.
  apply HQ; [done| |by do 2 (etrans; [eassumption|])]. intros c. rewrite Hv4, Hv3, !fupd_spec, !Hv2. done.
Qed.

(** How the marks change when bit [r] of the bitmap goes from [d] to [f d]. *)
Lemma used_change S s s' r b (f : mem → Z → mem) (g : bool → bool) :
  layout S s → keep me s s' → 0 ≤ b < sb_size (sb_of s) → 0 ≤ r < sb_size (sb_of s) →
  (∀ d j, bit_get (f d (r mod BPB)) j = if r mod BPB =? j then g (bit_get d j) else bit_get d j) →
  view s' (BBLOCK b (sb_of s)) =
    fupd (view s) (BBLOCK r (sb_of s)) (f (view s (BBLOCK r (sb_of s))) (r mod BPB)) (BBLOCK b (sb_of s)) →
  used s' b = if r =? b then g (used s b) else used s b.
Proof.
  intros [Y1 Y2 Y3] Hk Hb Hr Hf Hv. unfold used. rewrite (ke_sb _ _ _ Hk), Hv, fupd_spec.
  destruct (Y2 b Hb) as (_ & Eb & _), (Y2 r Hr) as (_ & Er & _). case_decide as E.
  - rewrite E, Hf. destruct (Z.eqb_spec r b) as [->|Hrb]; [by rewrite Z.eqb_refl|].
    rewrite (proj2 (Z.eqb_neq _ _)); [done|]. rewrite Eb, Er in E. intros Em. apply Hrb.
    rewrite (Z.div_mod r BPB), (Z.div_mod b BPB) by lia. lia.
  - destruct (Z.eqb_spec r b) as [->|Hrb]; [by destruct E|done].
Qed.

(** C19: the block allocator.  balloc returns 0 only when every block of the
    file system is marked in use, and then changes nothing.  Otherwise it
    returns a block that was free; that block is now marked, reads as zeros,
    and no other block but the bitmap block changes.  bfree of it succeeds and
    restores all marks. *)
Theorem balloc_correct S L D s : tx me [] S L D s → in_op s → layout S s → (length L < 27)%nat →
  let size := sb_size (sb_of s) in
  wp (balloc me ROOTDEV) (λ r s1,
    if decide (r = 0) then (∀ b, 0 ≤ b < size → used s b = true) ∧ ∀ c, view s1 c = view s c
    else 0 < r < size ∧ used s r = false ∧ (∀ b, 0 ≤ b < size → used s1 b = (r =? b) || used s b) ∧
      view s1 r = (λ _, 0) ∧ (∀ c, c ≠ r → c ≠ BBLOCK r (sb_of s) → view s1 c = view s c) ∧
      wp (bfree me ROOTDEV r) (λ _ s2, ∀ b, 0 ≤ b < size → used s2 b = used s b) s1) s.
Proof.
  intros HT Hop HY Hlen size. apply (balloc_wp S L D); [done|done|done|lia|..].
  - intros s' Hu _ Hv _. by rewrite decide_True.
  - intros r s1 Hr Hfree HT1 Hv1 Hk1. rewrite decide_False by lia. destruct (ly_meta _ _ HY r ltac:(lia) Hfree) as (_ & Hnl & Hnb).
    assert (∀ b, 0 ≤ b < size → used s1 b = (r =? b) || used s b) as Hu1.
    { intros b Hb. rewrite (used_change S s s1 r b bit_set (λ _, true)); [by destruct (r =? b)|done|done|done|unfold size; lia| |].
      - intros d j. rewrite bit_get_set. by destruct (r mod BPB =? j).
      - rewrite Hv1. unfold allocated_view. rewrite fupd_ne; [done|]. intros E. by apply (Hnb b Hb). }
    split_and!; [lia|lia|done|done| | |].
    + rewrite Hv1. apply fupd_eq.
    + intros c Hc1 Hc2. rewrite Hv1. unfold allocated_view. by rewrite !fupd_ne.
    + assert (layout S s1) as HY1.
      { destruct HY as [Y1 Y2 Y3], Hk1 as [K1 K2 K3 K4 K5 K6 K7]. split; rewrite ?K1, ?K2; try done.
        intros b Hb Hub. apply Y3; [done|]. rewrite (Hu1 b Hb) in Hub. by apply orb_false_iff in Hub as [_ ?]. }
      pose proof (absorb_length_le r (absorb (BBLOCK r (sb_of s)) L)). pose proof (absorb_length_le (BBLOCK r (sb_of s)) L).
      eapply bfree_wp; [done|by eapply keep_in_op|done|lia|rewrite (ke_sb _ _ _ Hk1); lia|by rewrite Hu1, Z.eqb_refl by (unfold size; lia)|].
      rewrite (ke_sb _ _ _ Hk1). intros s2 HT2 Hv2 Hk2 b Hb.
      rewrite (used_change S s1 s2 r b bit_clear (λ _, false) HY1 Hk2); rewrite ?(ke_sb _ _ _ Hk1); [|done|unfold size; lia| |].
      * rewrite Hu1 by done. destruct (Z.eqb_spec r b) as [->|]; [by rewrite Hfree|done].
      * intros d j. rewrite bit_get_clear. by destruct (r mod BPB =? j).
      * apply Hv2.
Qed.
End blocks.
