(* ===== verification/FsInode.v ===== *)
(** Inodes: the copy on disk and the copy in memory, the contents of a file,
    look-up in a directory. *)

From S2P Require Import Prelude Riscv Memory Kalloc Vm State Printf Proc Bio BioThms Log LogThms LogOps LogSpace Txn Fs FsPath.

(** ** The dinode *)
Lemma put_addrs_other f o x : ∀ n i m, x < o + 12 + 4 * i ∨ o + 12 + 4 * (i + Z.of_nat n) ≤ x → put_addrs n f i m o x = m x.
Proof.
  induction n as [|n IH]; intros i m Hx; cbn [put_addrs]; [done|].
  rewrite IH by lia. unfold st32. by rewrite stn_other by lia.
Qed.

Lemma put_addrs_get f o : ∀ n i m k, i ≤ k < i + Z.of_nat n → ld32 (put_addrs n f i m o) (o + 12 + 4 * k) = u32 (f k).
Proof.
  induction n as [|n IH]; intros i m k Hk; cbn [put_addrs]; [lia|].
  destruct (decide (k = i)) as [->|]; [|apply IH; lia].
  unfold ld32. rewrite (ldn_ext 4 _ (st32 m (o + 12 + 4 * i) (f i))).
  - unfold st32. by rewrite ldn_stn_same.
  - intros x Hx. apply put_addrs_other. lia.
Qed.

Lemma s16_small x : - 2^15 ≤ x < 2^15 → s16 (x mod 2^16) = x.
Proof. intros. unfold s16. dlia. Qed.

(** The fields of an inode that fit the widths of the struct. *)
Record inode_fits (i : inode) : Prop := {
  if_type : - 2^15 ≤ i_type i < 2^15;
  if_major : - 2^15 ≤ i_major i < 2^15;
  if_minor : - 2^15 ≤ i_minor i < 2^15;
  if_nlink : - 2^15 ≤ i_nlink i < 2^15;
  if_size : 0 ≤ i_size i < 2^32;
  if_addrs : ∀ k, 0 ≤ k < NDIRECT + 1 → 0 ≤ i_addrs i k < 2^32
}.

(** The twelve addresses and the other fields are read back; the last word of
    the dinode and everything around it stay. *)
Lemma dinode_roundtrip i m o : inode_fits i → let d := put_dinode i m o in
  di_type d o = i_type i ∧ di_major d o = i_major i ∧ di_minor d o = i_minor i ∧ di_nlink d o = i_nlink i ∧
  di_size d o = i_size i ∧ (∀ k, 0 ≤ k < NDIRECT + 1 → di_addr d o k = i_addrs i k) ∧
  ∀ x, x < o ∨ o + 60 ≤ x → d x = m x.
Proof.
  intros [F1 F2 F3 F4 F5 F6] d. unfold d, put_dinode, di_type, di_major, di_minor, di_nlink, di_size, di_addr, ld16, ld32. cbv zeta.
  set (n := Z.to_nat (NDIRECT + 1)). assert (Z.of_nat n = 12) as Hn by done.
  assert (∀ k a m, a + Z.of_nat k ≤ o + 12 → ldn k (put_addrs n (i_addrs i) 0 m o) a = ldn k m a) as Hlow.
  { intros k a m' Ha. apply ldn_ext. intros x Hx. apply put_addrs_other. lia. }
  split_and!.
  1-5: rewrite Hlow by lia; unfold st16, st32; repeat (rewrite ldn_stn_other by lia); rewrite ldn_stn_same.
  - apply s16_small. lia.
  - apply s16_small. lia.
  - apply s16_small. lia.
  - apply s16_small. lia.
  - by rewrite Z.mod_small by lia.
  - intros k Hk. fold (ld32 (put_addrs n (i_addrs i) 0 (st32 (st16 (st16 (st16 (st16 m o (i_type i)) (o + 2) (i_major i)) (o + 4) (i_minor i)) (o + 6) (i_nlink i)) (o + 8) (i_size i)) o) (o + 12 + 4 * k)).
    rewrite put_addrs_get by lia. apply u32_small, F6, Hk.
  - intros x Hx. rewrite put_addrs_other by lia. unfold st16, st32. by rewrite !stn_other by lia.
Qed.

Section inode.
Context (me : Z).

(** The block of inode [n] is on the disk, outside the log. *)
Definition inode_at (S n : Z) (s : kstate) : Prop :=
  0 ≤ IBLOCK n (sb_of s) < disk_size s ∧ ¬ in_log S (IBLOCK n (sb_of s)).

Lemma tx_itable H S L D s f : tx me H S L D s → tx me H S L D (set_itable f s).
Proof. by intros [[] [] ? ? ? ?]. Qed.

Lemma ino_wp ip s (Q : inode → kstate → Prop) : 0 ≤ ip < NINODE → Q (itable s ip) s → wp (ino ip) Q s.
Proof.
  intros Hip HQ. unfold ino, in_table. rewrite (proj2 (Z.leb_le _ _)), (proj2 (Z.ltb_lt _ _)) by lia. cbn [andb]. by wp_step.
Qed.

(** iupdate writes the dinode, in the log. *)
Lemma iupdate_wp S L D s ip (Q : unit → kstate → Prop) : let i := itable s ip in let b := IBLOCK (i_inum i) (sb_of s) in
  tx me [] S L D s → in_op s → 0 ≤ ip < NINODE → i_dev i = ROOTDEV → inode_at S (i_inum i) s → (length L < 29)%nat →
  (∀ s', tx me [] S (absorb b L) D s' →
    (∀ c, view s' c = fupd (view s) b (put_dinode i (view s b) (di_off (i_inum i))) c) → keep me s s' → Q tt s') →
  wp (iupdate me ip) Q s.
Proof.
  intros i b HT Hop Hip Hdev [Hb Hnl] Hlen HQ. unfold iupdate. do 2 wp_step. wp_step. apply ino_wp; [done|]. fold i. rewrite Hdev.
  wp_step. eapply tx_bread; [done..|apply not_elem_of_nil|cbn; lia|]. intros bp s1 HT1 HiH Hi _ Hv1 Hk1.
  wp_step. apply ino_wp; [done|]. rewrite (ke_itable _ _ _ Hk1). fold i.
  eapply tx_store; [done|by eapply keep_in_op|by left|rewrite Hi, (ke_size _ _ _ Hk1); done|by rewrite Hi|lia|].
  rewrite Hi. fold b. intros s2 HT2 _ Hv2 Hk2. eapply tx_brelse; [done|done|]. intros s3 HT3 _ Hv3 Hk3.
  apply HQ; [done| |by do 2 (etrans; [eassumption|])]. intros c. rewrite Hv3, Hv2, !fupd_spec, !Hv1. done.
Qed.

(** The copy in memory that ilock fills from the dinode at [o] of [d]. *)
Definition loaded_inode (d : mem) (o : Z) (x : inode) (lk : sleeplock) : inode :=
  mkInode (i_dev x) (i_inum x) (i_ref x) lk true (di_type d o) (di_major d o) (di_minor d o) (di_nlink d o) (di_size d o)
    (λ k, if in_table k (NDIRECT + 1) then di_addr d o k else i_addrs x k).

Lemma ilock_wp S L D s ip (Q : unit → kstate → Prop) : let i := itable s ip in let b := IBLOCK (i_inum i) (sb_of s) in
  let o := di_off (i_inum i) in
  tx me [] S L D s → 0 ≤ ip < NINODE → i_dev i = ROOTDEV → 1 ≤ i_ref i → sl_locked (i_lock i) = false → i_valid i = false →
  inode_at S (i_inum i) s → (length L < 30)%nat → di_type (view s b) o ≠ 0 →
  (∀ s' lk, tx me [] S L D s' → (∀ c, view s' c = view s c) →
    (∀ j, itable s' j = if decide (j = ip) then loaded_inode (view s b) o i lk else itable s j) →
    lk = mkSleeplock true (p_pid (procs s me)) → sb_of s' = sb_of s → disk_size s' = disk_size s → Q tt s') →
  wp (ilock me ip) Q s.
Proof.
  intros i b o HT Hip Hdev Href Hlk Hval [Hb Hnl] Hlen Hty HQ. unfold ilock. rewrite (proj2 (Z.eqb_neq _ _)) by lia.
  wp_step. apply ino_wp; [done|]. fold i. rewrite (proj2 (Z.ltb_ge _ _)) by lia. wp_step.
  apply acquiresleep_wp; [done|]. rewrite Hval. cbv iota. set (lk := mkSleeplock true _).
  change (set_lock (InodeLock ip) lk s) with (set_itable (fupd (itable s) ip (set_i_lock lk i)) s).
  set (s0 := set_itable _ s). assert (tx me [] S L D s0) as HT0 by by apply tx_itable.
  do 2 wp_step. rewrite Hdev. change (sb_of s0) with (sb_of s). fold b.
  eapply tx_open; [done|done|apply not_elem_of_nil|cbn; lia|]. intros bp s1 HT1 HiH Hi _ Hv1 Hk1. cbv zeta.
  change (view s0 b) with (view s b). fold o. wp_step. unfold ino_set at 1. wp_step. set (s2 := upd_inode ip _ s1).
  eapply tx_close; [by apply tx_itable|done|]. intros s3 HT3 _ Hv3 Hk3. wp_step. unfold ino_set. wp_step.
  rewrite (proj2 (Z.eqb_neq _ _) Hty). wp_step. apply (HQ _ lk).
  - by apply tx_itable.
  - intros c. change (view s3 c = view s c). rewrite Hv3. change (view s1 c = view s c). by rewrite Hv1.
  - intros j. cbn. rewrite (ke_itable _ _ _ Hk3). cbn. rewrite (ke_itable _ _ _ Hk1). cbn. rewrite !fupd_spec.
    repeat case_decide; done || congruence.
  - done.
  - cbn. rewrite (ke_sb _ _ _ Hk3). cbn. apply (ke_sb _ _ _ Hk1).
  - cbn. rewrite (ke_size _ _ _ Hk3). cbn. apply (ke_size _ _ _ Hk1).
Qed.

(** C23: an inode survives on disk.  iupdate writes the inode to its place, in
    the log, and changes no other byte of the disk; when the table entry is
    dropped and the inode is loaded again by ilock, into any entry, the fields
    and the twelve block addresses are the ones written. *)
Theorem iupdate_ilock_roundtrip S L D s ip : let i := itable s ip in
  tx me [] S L D s → in_op s → 0 ≤ ip < NINODE → i_dev i = ROOTDEV → inode_at S (i_inum i) s → (length L < 29)%nat →
  inode_fits i → i_type i ≠ 0 →
  wp (iupdate me ip) (λ _ s1,
    (∀ c x, c = IBLOCK (i_inum i) (sb_of s) → x < di_off (i_inum i) ∨ di_off (i_inum i) + 60 ≤ x → view s1 c x = view s c x) ∧
    (∀ c, c ≠ IBLOCK (i_inum i) (sb_of s) → view s1 c = view s c) ∧
    ∀ jp x, 0 ≤ jp < NINODE → i_dev x = ROOTDEV → i_inum x = i_inum i → i_ref x = 1 → i_valid x = false →
      sl_locked (i_lock x) = false →
      wp (ilock me jp) (λ _ s2, let j := itable s2 jp in
        i_valid j = true ∧ i_type j = i_type i ∧ i_major j = i_major i ∧ i_minor j = i_minor i ∧ i_nlink j = i_nlink i ∧
        i_size j = i_size i ∧ ∀ k, 0 ≤ k < NDIRECT + 1 → i_addrs j k = i_addrs i k) (upd_inode jp (λ _, x) s1)) s.
Proof.
  intros i HT Hop Hip Hdev Hat Hlen Hfit Hty. apply (iupdate_wp S L D); [done..|]. fold i. set (b := IBLOCK _ _).
  set (o := di_off (i_inum i)). intros s1 HT1 Hv1 Hk1.
  destruct (dinode_roundtrip i (view s b) o Hfit) as (R1 & R2 & R3 & R4 & R5 & R6 & R7). set (d := put_dinode _ _ _) in *.
  split_and!.
  - intros c x -> Hx. rewrite Hv1, fupd_eq. by apply R7.
  - intros c Hc. rewrite Hv1. by rewrite fupd_ne.
  - intros jp x Hjp Hxd Hxi Hxr Hxv Hxl. set (s2 := upd_inode jp _ s1).
    assert (itable s2 jp = x) as Ex by (cbn; apply fupd_eq). pose proof (absorb_length_le b L).
    assert (view s2 b = d) as Ed by (change (view s1 b = d); by rewrite Hv1, fupd_eq).
    assert (IBLOCK (i_inum x) (sb_of s2) = b) as Eb by (rewrite Hxi; cbn; by rewrite (ke_sb _ _ _ Hk1)).
    eapply ilock_wp; rewrite ?Ex, ?Eb, ?Hxi; try done; try (fold o); rewrite ?Ed, ?R1; try done; try lia.
    + by apply tx_itable.
    + unfold inode_at. rewrite <-Hxi, Eb. cbn. rewrite (ke_size _ _ _ Hk1). apply Hat.
    + lia.
    + intros s3 lk _ _ Hit _ _ _. rewrite Hit, decide_True by done. cbn. split_and!; try done.
      intros k Hk. unfold in_table. rewrite (proj2 (Z.leb_le _ _)), (proj2 (Z.ltb_lt _ _)) by lia. by apply R6.
Qed.
End inode.
