(* ===== verification/FsRead.v ===== *)
(** Reading files and directories. *)

From S2P Require Import Prelude Riscv Memory Kalloc Vm State Printf Proc Bio BioThms Log LogThms LogOps LogSpace Txn Fs FsPath FsInode.

(** ** The contents of a file *)

(** The disk block of block [bn] of a file that uses direct and singly
    indirect blocks. *)
Definition block_of (s : kstate) (i : inode) (bn : Z) : Z :=
  if bn <? NDIRECT then i_addrs i bn else word (view s (i_addrs i NDIRECT)) (bn - NDIRECT).

Definition file_byte (s : kstate) (i : inode) (k : Z) : Z := view s (block_of s i (k / BSIZE)) (k mod BSIZE).
Definition file_bytes (s : kstate) (i : inode) (off n : Z) : list Z := file_byte s i <$> seqZ off n.

(** A file all of whose blocks are allocated. *)
Record file_ok (s : kstate) (i : inode) : Prop := {
  fo_dev : i_dev i = ROOTDEV;
  fo_size : 0 ≤ i_size i ≤ (NDIRECT + NINDIRECT) * BSIZE;
  fo_ind : NDIRECT * BSIZE < i_size i → 0 < i_addrs i NDIRECT < disk_size s;
  fo_blk : ∀ bn, 0 ≤ bn → bn * BSIZE < i_size i → 0 < block_of s i bn < disk_size s
}.

Lemma file_bytes_app s i off m n : 0 ≤ m → 0 ≤ n → file_bytes s i off (m + n) = file_bytes s i off m ++ file_bytes s i (off + m) n.
Proof. intros. unfold file_bytes. rewrite seqZ_app by lia. apply fmap_app. Qed.

(** A part of a file inside one block. *)
Lemma file_bytes_block s i off m : 0 ≤ off → 0 ≤ m → off mod BSIZE + m ≤ BSIZE →
  bytes (view s (block_of s i (off / BSIZE))) (off mod BSIZE) (Z.to_nat m) = file_bytes s i off m.
Proof.
  intros Ho Hm Hb. apply list_eq. intros k. unfold file_bytes. rewrite list_lookup_fmap.
  destruct (decide (Z.of_nat k < m)) as [Hk|Hk].
  - rewrite bytes_lookup by lia. rewrite lookup_seqZ_lt by lia. cbn. unfold file_byte.
    replace ((off + Z.of_nat k) / BSIZE) with (off / BSIZE) by dlia.
    replace ((off + Z.of_nat k) mod BSIZE) with (off mod BSIZE + Z.of_nat k) by dlia. done.
  - rewrite lookup_seqZ_ge by lia. apply lookup_ge_None. rewrite bytes_length. lia.
Qed.

Section read.
Context (me : Z).

(** [s'] differs from [s] in nothing a reader can see. *)
Definition reads_as (S : Z) (L : list Z) (D : Z → mem) (s s' : kstate) : Prop :=
  tx me [] S L D s' ∧ (∀ c, view s' c = view s c) ∧ keep me s s'.

Lemma reads_refl S L D s : tx me [] S L D s → reads_as S L D s s.
Proof. intros HT. unfold reads_as. by split_and!. Qed.

Lemma reads_trans S L D s s1 s2 : reads_as S L D s s1 → reads_as S L D s1 s2 → reads_as S L D s s2.
Proof. intros (A1 & A2 & A3) (B1 & B2 & B3). unfold reads_as. split_and!; [done|intros c; by rewrite B2|by etrans]. Qed.

Lemma reads_block S L D s s' i bn : reads_as S L D s s' → block_of s' i bn = block_of s i bn.
Proof. intros (_ & Hv & _). unfold block_of. case_if; [done|]. by rewrite Hv. Qed.

Lemma reads_bytes S L D s s' i off n : reads_as S L D s s' → file_bytes s' i off n = file_bytes s i off n.
Proof.
  intros Hr. unfold file_bytes. apply list_fmap_ext. intros k x _. unfold file_byte.
  rewrite (reads_block S L D s s') by done. destruct Hr as (_ & Hv & _). by rewrite Hv.
Qed.

Lemma reads_file_ok S L D s s' i : reads_as S L D s s' → file_ok s i → file_ok s' i.
Proof.
  intros Hr [F1 F2 F3 F4]. pose proof Hr as (_ & _ & Hk). split; rewrite ?(ke_size _ _ _ Hk); try done.
  intros bn H1 H2. rewrite (reads_block S L D s s') by done. by apply F4.
Qed.

Lemma addrs_get_wp ip k s (Q : Z → kstate → Prop) : 0 ≤ ip < NINODE → 0 ≤ k < NDIRECT + 1 → Q (i_addrs (itable s ip) k) s →
  wp (addrs_get ip k) Q s.
Proof.
  intros Hip Hk HQ. unfold addrs_get. wp_step. apply ino_wp; [done|]. unfold in_table.
  rewrite (proj2 (Z.leb_le _ _)), (proj2 (Z.ltb_lt _ _)) by lia. cbn [andb]. by wp_step.
Qed.

(** bmap of an allocated block looks its address up. *)
Lemma bmap_read S L D s ip bn (Q : Z → kstate → Prop) : let i := itable s ip in
  tx me [] S L D s → (length L < 30)%nat → 0 ≤ ip < NINODE → file_ok s i → 0 ≤ bn → bn * BSIZE < i_size i →
  (∀ s', reads_as S L D s s' → Q (block_of s i bn) s') → wp (bmap me ip bn) Q s.
Proof.
  intros i HT Hlen Hip [F1 F2 F3 F4] Hbn Hsz HQ. pose proof (F4 bn Hbn Hsz) as Hb. unfold bmap.
  unfold block_of in Hb, HQ. case_if.
  - unfold direct_entry. wp_step. apply addrs_get_wp; [done|lia|]. fold i. rewrite (proj2 (Z.eqb_neq _ _)) by lia.
    wp_step. by apply HQ, reads_refl.
  - cbv zeta. rewrite (proj2 (Z.ltb_lt _ _)) by lia. specialize (F3 ltac:(lia)). wp_step. unfold direct_entry. wp_step.
    apply addrs_get_wp; [done|lia|]. fold i. rewrite (proj2 (Z.eqb_neq _ _)) by lia. wp_step.
    rewrite (proj2 (Z.eqb_neq _ _)) by lia. wp_step. apply ino_wp; [done|]. fold i. rewrite F1.
    wp_step. eapply tx_bread; [done|lia|apply not_elem_of_nil|cbn; lia|]. intros bp s1 HT1 HiH Hi _ Hv1 Hk1.
    wp_step. unfold indirect_entry. wp_step. eapply tx_data; [done|by left|]. rewrite Hi, Hv1. cbv zeta.
    rewrite (proj2 (Z.eqb_neq _ _)) by lia. wp_step. eapply tx_close; [done|done|]. intros s2 HT2 _ Hv2 Hk2. wp_step.
    apply HQ. unfold reads_as. split_and!; [done|intros c; by rewrite Hv2, Hv1|by etrans].
Qed.

(** readi to a buffer of the kernel returns the bytes of the file from [off]
    on, [n] of them or as many as there are. *)
Lemma readi_wp S L D s ip off n (Q : Z * list Z → kstate → Prop) : let i := itable s ip in let m := Z.max 0 (Z.min n (i_size i - off)) in
  tx me [] S L D s → (length L < 30)%nat → 0 ≤ ip < NINODE → file_ok s i → 0 ≤ off → 0 ≤ n → off + n < 2^32 →
  (∀ s', reads_as S L D s s' → Q (m, file_bytes s i off m) s') → wp (readi me ip ToLocal off n) Q s.
Proof.
  intros i m HT Hlen Hip Hok Hoff Hn Hof HQ. unfold readi. wp_step. apply ino_wp; [done|]. fold i. rewrite u32_small by lia.
  pose proof (fo_size _ _ Hok) as Hsz.
  destruct (Z.ltb_spec (i_size i) off) as [Hbig|Hin]; cbn [orb].
  { wp_step. replace 0 with m at 1 by lia. replace [] with (file_bytes s i off m); [by apply HQ, reads_refl|].
    unfold file_bytes. by replace m with 0 by lia. }
  rewrite (proj2 (Z.ltb_ge _ _)) by lia. cbv zeta.
  replace (if i_size i <? off + n then u32 (i_size i - off) else n) with m.
  2:{ case_if; [rewrite u32_small by lia|]; lia. }
  apply (wp_while (λ k '(tot, off', dst, got) s1, 0 ≤ tot ≤ m ∧ off' = off + tot ∧ dst = ToLocal ∧ got = file_bytes s i off tot ∧
    reads_as S L D s s1 ∧ 1 ≤ Z.of_nat k ∧ (tot < m → (m - tot + off' mod BSIZE + BSIZE - 1) / BSIZE + 1 ≤ Z.of_nat k))).
  2:{ split_and!; [lia|lia|lia|done|done|by apply reads_refl|lia|]. intros _.
      pose proof (Z.mod_pos_bound off BSIZE ltac:(lia)). rewrite Nat2Z.inj_add, Z2Nat.id by dlia. dlia. }
  intros k [[[tot off'] dst] got] s1 (Ht & -> & -> & -> & Hr & Hk1 & Hk). destruct k as [|k]; [lia|]. exists k. split; [done|].
  pose proof Hr as (HT1 & Hv1 & Hke). pose proof (ke_itable _ _ _ Hke) as Hit.
  case_if; [|wp_step; replace tot with m in * by lia; rewrite s32_small by lia; by apply HQ].
  set (o := off + tot) in *. assert (0 ≤ o) by (unfold o; lia). pose proof (Z.mod_pos_bound o BSIZE ltac:(lia)) as Hom.
  assert (0 ≤ o / BSIZE ∧ o / BSIZE * BSIZE < i_size i) as [Hd1 Hd2] by (split; [apply Z.div_pos; lia|dlia]).
  pose proof (fo_blk _ _ Hok (o / BSIZE) Hd1 Hd2) as Hb.
  wp_step. eapply (bmap_read S L D s1); rewrite ?Hit; [done|done|done|by eapply reads_file_ok|done|done|].
  fold i. rewrite (reads_block S L D s s1) by done. intros s2 Hr2. pose proof (reads_trans _ _ _ _ _ _ Hr Hr2) as Hr02.
  pose proof Hr02 as (HT2 & Hv2 & Hke2). rewrite (proj2 (Z.eqb_neq _ _)) by lia.
  wp_step. apply ino_wp; [done|]. rewrite (ke_itable _ _ _ Hke2). fold i. rewrite (fo_dev _ _ Hok).
  wp_step. eapply tx_bread; [done|rewrite (ke_size _ _ _ Hke2); lia|apply not_elem_of_nil|cbn; lia|].
  intros bp s3 HT3 HiH Hi _ Hv3 Hk3. cbv zeta. set (c := Z.min (m - tot) (BSIZE - o mod BSIZE)).
  wp_step. eapply tx_data; [done|by left|]. rewrite Hi, Hv3, Hv2. wp_step. cbn [either_copyout]. wp_step. cbn [fst snd].
  change (0 =? -1) with false. cbv iota. eapply tx_close; [done|done|]. intros s4 HT4 _ Hv4 Hk4. wp_step.
  rewrite file_bytes_block by (unfold c; lia). rewrite u32_small by (unfold c; lia).
  split_and!; [unfold c; lia..|unfold o; lia|done| | | |].
  - rewrite file_bytes_app by (unfold c; lia). done.
  - eapply reads_trans; [exact Hr02|]. unfold reads_as. split_and!; [done|intros x; by rewrite Hv4|by etrans].
  - assert (tot < m) as Htm by lia. specialize (Hk Htm). dlia.
  - intros Hlt. assert (tot < m) as Htm by lia. specialize (Hk Htm).
    assert (c = BSIZE - o mod BSIZE) as Hc by (unfold c in *; lia). rewrite Hc. replace ((o + (BSIZE - o mod BSIZE)) mod BSIZE) with 0 by dlia.
    rewrite Nat2Z.inj_succ in Hk. dlia.
Qed.

(** C20: readi returns the contents of the file.  For a file whose blocks are
    allocated, directly or through the indirect block, readi into a kernel
    buffer returns and gives the bytes of the file from off on, n of them or as
    many as there are, none when off is beyond the end or off + n does not fit
    in 32 bits, and it changes nothing that the file system can see. *)
Theorem readi_contents S L D s ip off n : let i := itable s ip in let m := Z.max 0 (Z.min n (i_size i - off)) in
  tx me [] S L D s → (length L < 30)%nat → 0 ≤ ip < NINODE → file_ok s i → 0 ≤ off < 2^32 → 0 ≤ n < 2^32 →
  wp (readi me ip ToLocal off n) (λ r s', reads_as S L D s s' ∧
    r = if off + n <? 2^32 then (m, file_bytes s i off m) else (0, [])) s.
Proof.
  intros i m HT Hlen Hip Hok Hoff Hn. destruct (Z.ltb_spec (off + n) (2^32)).
  - apply (readi_wp S L D); try done; try lia.
  - unfold readi. wp_step. apply ino_wp; [done|]. fold i. replace (u32 (off + n)) with (off + n - 2^32) by (unfold u32; dlia).
    rewrite (proj2 (Z.ltb_lt (off + n - 2^32) off)), orb_true_r by lia. wp_step. split; [by apply reads_refl|done].
Qed.

(** ** The inode table *)

(** At most one entry in use for an inode. *)
Definition inodes_unique (s : kstate) : Prop := ∀ a b, 0 ≤ a < NINODE → 0 ≤ b < NINODE →
  0 < i_ref (itable s a) → 0 < i_ref (itable s b) → i_dev (itable s a) = i_dev (itable s b) →
  i_inum (itable s a) = i_inum (itable s b) → a = b.

Definition entry_for (s : kstate) (dev inum a : Z) : Prop :=
  0 < i_ref (itable s a) ∧ i_dev (itable s a) = dev ∧ i_inum (itable s a) = inum.

Lemma iget_scan_spec s dev inum : ∀ n i empty, 0 ≤ i →
  match iget_scan n dev inum i empty s with
  | inl a => i ≤ a < i + Z.of_nat n ∧ entry_for s dev inum a
  | inr e => (∀ a, i ≤ a < i + Z.of_nat n → ¬ entry_for s dev inum a) ∧
      (empty ≠ -1 → e = empty) ∧
      (empty = -1 → e = -1 ∧ (∀ a, i ≤ a < i + Z.of_nat n → i_ref (itable s a) ≠ 0) ∨ i ≤ e < i + Z.of_nat n ∧ i_ref (itable s e) = 0)
  end.
Proof.
  induction n as [|n IH]; intros i empty Hi; cbn [iget_scan].
  { split_and!; [lia|done|]. intros ->. left. split; [done|lia]. }
  destruct ((0 <? i_ref (itable s i)) && (i_dev (itable s i) =? dev) && (i_inum (itable s i) =? inum)) eqn:E.
  - zbool_in E. destruct E as [[? ?] ?]. split; [lia|done].
  - assert (¬ entry_for s dev inum i) as Hne.
    { intros (H1 & H2 & H3). rewrite (proj2 (Z.ltb_lt _ _) H1), (proj2 (Z.eqb_eq _ _) H2), (proj2 (Z.eqb_eq _ _) H3) in E. done. }
    specialize (IH (i + 1) (if (empty =? -1) && (i_ref (itable s i) =? 0) then i else empty) ltac:(lia)).
    destruct (iget_scan n _ _ _ _ _) as [a|e]; [split; [lia|apply IH]|]. destruct IH as (I1 & I2 & I3).
    split_and!.
    + intros a Ha. destruct (decide (a = i)) as [->|]; [done|]. apply I1. lia.
    + intros He. rewrite (proj2 (Z.eqb_neq _ _) He) in I2. by apply I2.
    + intros ->. cbn [Z.eqb Pos.eqb andb] in I2, I3. destruct (Z.eqb_spec (i_ref (itable s i)) 0) as [Hr|Hr].
      * rewrite I2 by lia. right. split; [lia|done].
      * destruct (I3 eq_refl) as [[-> Ha]|[He Her]]; [left|right; split; [lia|done]]. split; [done|].
        intros a Ha'. destruct (decide (a = i)) as [->|]; [done|]. apply Ha. lia.
Qed.

(** iget returns an entry for the inode, the one in use if there is one, with
    one more reference. *)
Lemma iget_wp dev inum s (Q : Z → kstate → Prop) :
  (∃ a, 0 ≤ a < NINODE ∧ (entry_for s dev inum a ∨ i_ref (itable s a) = 0)) →
  (∀ a x f, 0 ≤ a < NINODE → i_dev x = dev → i_inum x = inum →
     (entry_for s dev inum a ∧ x = set_i_ref (i_ref (itable s a) + 1) (itable s a) ∨
      (∀ b, 0 ≤ b < NINODE → ¬ entry_for s dev inum b) ∧ i_ref (itable s a) = 0 ∧ i_ref x = 1 ∧ i_valid x = false ∧ i_lock x = i_lock (itable s a)) →
     (∀ j, f j = if decide (j = a) then x else itable s j) → Q a (set_itable f s)) →
  wp (iget dev inum) Q s.
Proof.
  intros (a0 & Ha0 & Hex) HQ. unfold iget. do 2 wp_step.
  pose proof (iget_scan_spec s dev inum (Z.to_nat NINODE) 0 (-1) ltac:(lia)) as Hs.
  destruct (iget_scan _ _ _ _ _ _) as [a|e].
  - destruct Hs as [Ha He]. unfold ino_set. do 3 wp_step.
    apply (HQ a (set_i_ref (i_ref (itable s a) + 1) (itable s a))); [lia|apply He|apply He|by left|].
    intros j. by rewrite fupd_spec.
  - destruct Hs as (H1 & _ & H3). destruct (H3 eq_refl) as [[-> Hn]|[He Her]].
    { exfalso. destruct Hex as [Hex|Hex]; [by apply (H1 a0); [lia|]|by apply (Hn a0); [lia|]]. }
    rewrite (proj2 (Z.eqb_neq _ _)) by lia. unfold ino_set. do 8 wp_step. wp_step.
    apply (HQ e (mkInode dev inum 1 (i_lock (itable s e)) false (i_type (itable s e)) (i_major (itable s e)) (i_minor (itable s e))
      (i_nlink (itable s e)) (i_size (itable s e)) (i_addrs (itable s e)))); [lia|done|done|right; split_and!; try done; intros b Hb; apply H1; lia|].
    intros j. cbn. rewrite !fupd_spec. by repeat case_decide.
Qed.

(** ** Directories *)

(** The [k]-th entry of a directory, and whether it is one for [name]. *)
Definition dirent_at (s : kstate) (i : inode) (k : Z) : list Z := file_bytes s i (16 * k) 16.

Definition names (name : list Z) (de : list Z) : Prop :=
  de_inum de ≠ 0 ∧ cname (Z.to_nat DIRSIZ) name = cname (Z.to_nat DIRSIZ) (de_name de).

(** An entry [a] of the inode table that has been taken for inode [inum]. *)
Definition got_inode (s s' : kstate) (inum a : Z) : Prop :=
  0 ≤ a < NINODE ∧ entry_for s' ROOTDEV inum a ∧ (∀ b, b ≠ a → itable s' b = itable s b) ∧
  i_ref (itable s' a) = i_ref (itable s a) + 1 ∧ (inodes_unique s → inodes_unique s') ∧
  ((∀ b, 0 ≤ b < NINODE → ¬ entry_for s ROOTDEV inum b) → i_ref (itable s a) = 0 ∧ i_valid (itable s' a) = false ∧
    i_lock (itable s' a) = i_lock (itable s a)).

Lemma iget_got inum s (Q : Z → kstate → Prop) :
  (∃ a, 0 ≤ a < NINODE ∧ (entry_for s ROOTDEV inum a ∨ i_ref (itable s a) = 0)) →
  (∀ a f, got_inode s (set_itable f s) inum a → Q a (set_itable f s)) → wp (iget ROOTDEV inum) Q s.
Proof.
  intros Hex HQ. apply iget_wp; [done|]. intros a x f Ha Hd Hi Hx Hf. apply HQ.
  assert (f a = x) as Ea by by rewrite Hf, decide_True. assert (∀ b, b ≠ a → f b = itable s b) as Eb by (intros b Hb; by rewrite Hf, decide_False).
  assert (i_ref x = i_ref (itable s a) + 1 ∧ 0 < i_ref x) as [Hr Hr0].
  { destruct Hx as [[(? & _) ->]|(_ & -> & -> & _)]; cbn; lia. }
  unfold got_inode, entry_for, inodes_unique. cbn. rewrite Ea. split_and!; [lia..|done|done|done|done| |].
  - intros Hu b c Hb Hc. cbn. destruct (decide (b = a)) as [->|Hba], (decide (c = a)) as [->|Hca]; try done;
      rewrite ?Ea, ?(Eb b), ?(Eb c) by done; rewrite ?Hd, ?Hi; intros Hrb Hrc Ed Ei.
    + destruct Hx as [[(R1 & R2 & R3) _]|(Hno & _)]; [|by destruct (Hno c Hc)].
      apply Hu; congruence || lia.
    + destruct Hx as [[(R1 & R2 & R3) _]|(Hno & _)]; [|by destruct (Hno b Hb)].
      apply Hu; congruence || lia.
    + by apply Hu.
  - intros Hno. destruct Hx as [[He _]|(_ & H1 & _ & H2 & H3)]; [by destruct (Hno a Ha)|done].
Qed.

Lemma dirlookup_wp S L D s dp name : let i := itable s dp in
  tx me [] S L D s → (length L < 30)%nat → 0 ≤ dp < NINODE → file_ok s i → i_type i = T_DIR → i_size i mod 16 = 0 →
  byte_list name → (length name < Z.to_nat PGSIZE)%nat → (∀ k, 0 ≤ k < i_size i → 0 ≤ file_byte s i k < 256) →
  (∃ a, 0 ≤ a < NINODE ∧ i_ref (itable s a) = 0) →
  wp (dirlookup me dp name) (λ r s', (∀ c, view s' c = view s c) ∧ tx me [] S L D s' ∧ sb_of s' = sb_of s ∧ disk_size s' = disk_size s ∧
    ((∃ k, 0 ≤ k < i_size i / 16 ∧ names name (dirent_at s i k) ∧ (∀ j, 0 ≤ j < k → ¬ names name (dirent_at s i j)) ∧
        r.2 = 16 * k ∧ got_inode s s' (de_inum (dirent_at s i k)) r.1) ∨
     (∀ k, 0 ≤ k < i_size i / 16 → ¬ names name (dirent_at s i k)) ∧ r = (-1, 0) ∧ itable s' = itable s)) s.
Proof.
  intros i HT Hlen Hdp Hok Hty Hmod Hnm Hnl Hby (a0 & Ha0 & Hr0). unfold dirlookup. wp_step. apply ino_wp; [done|]. fold i.
  rewrite Hty. change (negb (T_DIR =? T_DIR)) with false. cbv iota. pose proof (fo_size _ _ Hok) as Hsz.
  apply (wp_while (λ n off s1, ∃ k, off = 16 * k ∧ 0 ≤ k ≤ i_size i / 16 ∧ reads_as S L D s s1 ∧
    Z.of_nat n = i_size i / 16 + 2 - k ∧ ∀ j, 0 ≤ j < k → ¬ names name (dirent_at s i j))).
  2:{ exists 0. split_and!; [lia|lia|apply Z.div_pos; lia|by apply reads_refl|rewrite Nat2Z.inj_succ, Z2Nat.id; dlia|lia]. }
  intros n off s1 (k & -> & Hk & Hr & Hn & Hnone). destruct n as [|n]; [lia|]. exists n. split; [done|].
  pose proof Hr as (HT1 & Hv1 & Hk1). pose proof (ke_itable _ _ _ Hk1) as Hit.
  wp_step. apply ino_wp; [done|]. rewrite Hit. fold i. case_if.
  2:{ wp_step. split_and!; [done|done|by apply Hk1|by apply Hk1|right]. split_and!; [|done|done]. intros j Hj. apply Hnone. dlia. }
  wp_step. eapply (readi_wp S L D s1); rewrite ?Hit; [done|done|done|by eapply reads_file_ok|lia|lia|lia|].
  fold i. replace (Z.max 0 (Z.min 16 (i_size i - 16 * k))) with 16 by dlia. rewrite (reads_bytes S L D s s1) by done.
  fold (dirent_at s i k). set (de := dirent_at s i k). intros s2 Hr2. pose proof (reads_trans _ _ _ _ _ _ Hr Hr2) as Hr02.
  cbn [fst snd]. change (negb (16 =? 16)) with false. cbv iota zeta.
  assert (byte_list (de_name de)) as Hde.
  { unfold de_name. apply Forall_drop, Forall_fmap, Forall_forall. intros x Hx. rewrite elem_of_seqZ in Hx. apply Hby. dlia. }
  pose proof (namecmp_zero name (de_name de) Hnm Hde Hnl) as Hcmp. rewrite u32_small by lia.
  assert (¬ names name de → ∃ k', 16 * k + 16 = 16 * k' ∧ 0 ≤ k' ≤ i_size i / 16 ∧ reads_as S L D s s2 ∧
    Z.of_nat n = i_size i / 16 + 2 - k' ∧ ∀ j, 0 ≤ j < k' → ¬ names name (dirent_at s i j)) as Hnext.
  { intros Hno. exists (k + 1). split_and!; [lia|lia|dlia|done|lia|]. intros j Hj.
    destruct (decide (j = k)) as [->|]; [done|]. apply Hnone. lia. }
  destruct (Z.eqb_spec (de_inum de) 0) as [Hz|Hz]; [wp_step; apply Hnext; by intros [? _]|].
  destruct (Z.eqb_spec (namecmp name (de_name de)) 0) as [Hc|Hc].
  2:{ wp_step. apply Hnext. intros [_ He]. apply Hc. by apply Hcmp. }
  pose proof Hr02 as (HT2 & Hv2 & Hk2). pose proof (ke_itable _ _ _ Hk2) as Hit2.
  wp_step. apply ino_wp; [done|]. rewrite Hit2. fold i. rewrite (fo_dev _ _ Hok). wp_step.
  apply iget_got; [exists a0; rewrite Hit2; auto|]. intros a f Hg. wp_step.
  split_and!; [exact Hv2|by apply tx_itable|apply Hk2|apply Hk2|left]. exists k. split_and!; [lia|dlia|split; [done|by apply Hcmp]|done|done|].
  unfold got_inode, inodes_unique, entry_for in *. by rewrite Hit2 in Hg.
Qed.

(** C21: dirlookup is the look-up in the list of entries.  In a directory whose
    blocks are allocated it returns the table entry of the inode and the offset
    of the first entry in use whose name agrees with the given one up to DIRSIZ
    bytes, or the null pointer if there is none.  The table has one more
    reference to that inode and still at most one entry for each. *)
Theorem dirlookup_finds S L D s dp name : let i := itable s dp in
  tx me [] S L D s → (length L < 30)%nat → 0 ≤ dp < NINODE → file_ok s i → i_type i = T_DIR → i_size i mod 16 = 0 →
  byte_list name → (length name < Z.to_nat PGSIZE)%nat → (∀ k, 0 ≤ k < i_size i → 0 ≤ file_byte s i k < 256) →
  (∃ a, 0 ≤ a < NINODE ∧ i_ref (itable s a) = 0) →
  wp (dirlookup me dp name) (λ r s', (∀ c, view s' c = view s c) ∧ tx me [] S L D s' ∧
    ((∃ k, 0 ≤ k < i_size i / 16 ∧ names name (dirent_at s i k) ∧ (∀ j, 0 ≤ j < k → ¬ names name (dirent_at s i j)) ∧
        r.2 = 16 * k ∧ got_inode s s' (de_inum (dirent_at s i k)) r.1) ∨
     (∀ k, 0 ≤ k < i_size i / 16 → ¬ names name (dirent_at s i k)) ∧ r = (-1, 0) ∧ itable s' = itable s)) s.
Proof.
  intros i HT Hlen Hdp Hok Hty Hmod Hnm Hnl Hby Hfree. eapply wp_mono; [by apply (dirlookup_wp S L D)|].
  by intros r s' (? & ? & _ & _ & ?).
Qed.
End read.
