(* ===== verification/FsTrunc.v ===== *)
(** The block address beyond the array of an inode. *)

From S2P Require Import Prelude Riscv Memory Kalloc Vm State Printf Proc Bio BioThms Log LogThms LogOps LogSpace Txn Fs FsPath FsInode FsRead.

(** [k] panics after [c]. *)
Lemma panic_after {A B} (c : M kstate A) (k : A → M kstate B) m s : wp c (λ a s', k a s' = Panic m) s → bind c k s = Panic m.
Proof. intros Hw. apply wp_elim in Hw as (a & s' & E & H). unfold bind. by rewrite E. Qed.

Section trunc.
Context (me : Z).

(** A read beyond the end of the disk. *)
Lemma bread_beyond H s b : cache_ok me H s → (∀ j, ¬ cached s b j) → room s → disk_size s ≤ b →
  bread me ROOTDEV b s = Panic "virtio_disk_intr status".
Proof.
  intros Hok Hn (r & Hr & Hr0) Hb. unfold bread. apply panic_after. unfold bget. do 2 wp_step.
  assert (find_buf (buf_is ROOTDEV b) s (lru s) = None) as ->.
  { apply find_buf_all. intros i Hi. rewrite (ck_lru me H s Hok), in_bufs in Hi. apply not_true_iff_false.
    rewrite buf_is_true. intros Hb'. by apply (Hn i). }
  do 2 wp_step. destruct (find_buf (λ x, b_refcnt x =? 0) s (rev (lru s))) as [i|] eqn:E.
  2:{ exfalso. pose proof (find_buf_none _ _ _ E r) as Hx. cbn beta in Hx. rewrite Hr0 in Hx. apply diff_true_false, Hx.
      rewrite list_elem_of_In, <-in_rev, <-list_elem_of_In, (ck_lru me H s Hok). by apply in_bufs. }
  apply find_buf_some in E as [Hi Hi0]. rewrite list_elem_of_In, <-in_rev, <-list_elem_of_In, (ck_lru me H s Hok), in_bufs in Hi.
  apply Z.eqb_eq in Hi0. do 2 wp_step. wp_step. apply acquiresleep_wp.
  { cbn. rewrite fupd_eq. apply (ck_free me H s Hok i Hi). intros Hin. destruct (ck_held me H s Hok i Hin) as (_ & _ & _ & _ & ?). lia. }
  wp_step. rewrite bind_gets. cbn. rewrite !fupd_eq. cbn. apply bind_panic, bind_panic. unfold virtio_disk_rw.
  rewrite !bind_gets. cbn. rewrite !fupd_eq. cbn. by rewrite (proj2 (Z.leb_le _ _)).
Qed.

(** C36: itrunc takes the device number of the next table entry for a block.
    The array addrs of struct inode has no entry NDIRECT+1; the word itrunc
    reads there is the field dev of the next inode of the table.  For an inode
    that has no blocks at all, next to an entry of the root device, itrunc
    therefore reads block 1, the superblock, as a block of addresses, and
    panics on its first word, the magic number, which lies beyond the disk. *)
Theorem itrunc_reads_superblock S L D s ip : tx me [] S L D s → (length L < 29)%nat → 0 ≤ ip → ip + 1 < NINODE →
  i_dev (itable s ip) = ROOTDEV → (∀ k, 0 ≤ k < NDIRECT + 1 → i_addrs (itable s ip) k = 0) →
  i_dev (itable s (ip + 1)) = ROOTDEV → sb_magic (get_superblock (view s 1)) = FSMAGIC →
  1 < disk_size s < FSMAGIC → (∀ j, ¬ cached s FSMAGIC j) →
  itrunc me ip s = Panic "virtio_disk_intr status".
Proof.
  intros HT Hlen Hip Hip1 Hdev Haddr Hnext Hmagic Hsz Hnc. pose proof HT as [T1 T2 T4 T5 T6 T7].
  assert (room s) as Hroom.
  { apply (room_pins me [] s L); [done| |lia]. intros c. rewrite T4.
    rewrite (decide_False (P := c ∈ blocks s [])) by apply not_elem_of_nil. case_decide; [done|lia]. }
  unfold itrunc. apply panic_after. eapply wp_mono; [apply (wp_foreach (λ _ s1, s1 = s)); [done|]|].
  { intros j s1 Hj ->. wp_step. apply ino_wp; [lia|]. wp_step. apply addrs_get_wp; [lia|lia|]. rewrite Haddr by lia. cbn [negb Z.eqb]. by wp_step. }
  intros [] s1 ->. apply panic_after, ino_wp; [lia|]. apply panic_after, addrs_get_wp; [lia|lia|]. rewrite Haddr by lia.
  cbn [negb Z.eqb]. apply panic_after. wp_step. apply panic_after. unfold addrs_get. wp_step. apply ino_wp; [lia|].
  change (in_table (NDIRECT + 1) (NDIRECT + 1)) with false. change (NDIRECT + 1 =? NDIRECT + 1) with true.
  rewrite (proj2 (Z.ltb_lt _ _)) by lia. cbn [andb]. cbv iota. wp_step.
  rewrite Hnext. apply bind_panic. rewrite Hdev. apply panic_after.
  apply (bread_wp me []); [done|lia|by intros i ?%elem_of_nil|by left|]. intros i s1 Hu Hi Hw.
  pose proof (loaded_ok me [] s s1 1 i T1 Hu Hi Hw) as Hok1. pose proof Hw as (f & Es & E1 & E2).
  assert (0 ≤ i < NBUF) as Hib by (destruct Hu as [(? & _)|(_ & ? & _)]; done).
  apply bind_panic. change (Z.to_nat NINDIRECT) with (Datatypes.S 255). cbn [foreach]. apply bind_panic, panic_after. unfold buf_data. wp_step.
  assert (b_data (bufs s1 i) = view s 1) as -> by (rewrite Es; cbn; by rewrite E1).
  assert (word (view s 1) 0 = FSMAGIC) as -> by exact Hmagic. cbn [negb Z.eqb Pos.eqb]. apply bind_panic.
  apply (bread_beyond [i]); [done| | |rewrite Es; cbn; lia].
  - intros j Hj. rewrite (cached_with_buf s s1 1 i _ FSMAGIC j Hib Hw eq_refl eq_refl) in Hj. destruct Hj as [[_ ?]|[_ ?]]; [done|by apply (Hnc j)].
  - apply (room_pins me [i] s1 (1 :: L)); [done| |cbn; lia]. intros c.
    rewrite (proj2 (loaded_view me [] s s1 1 i c T1 Hu Hw)), T4, elem_of_cons.
    rewrite (decide_False (P := c ∈ blocks s [])) by apply not_elem_of_nil. repeat case_decide; tauto || lia.
Qed.
End trunc.
