(* ===== verification/Console.v ===== *)
(** kernel/console.c and the transmit and receive sides of kernel/uart.c: the
    serial line and console input.

    Characters are byte values.  What a read of the UART's LSR and RHR registers
    returns is an argument. *)

From S2P Require Import Prelude Riscv Memory Kalloc Vm State Printf Proc.

(** ** The serial line *)

(** The loop of uartwrite; [inl] sleeps with what is left to send. *)
Fixpoint uartwrite (me : Z) (buf : list Z) : M kstate (list Z + unit) :=
  match buf with
  | [] => ret (inr tt)
  | c :: buf' =>
      busy <- gets tx_busy ;;
      if (busy : bool) then
        sleep me ChTx ;; ret (inl buf)
      else
      WriteReg_THR c ;;
      modify (set_tx_busy true) ;;
      uartwrite me buf'
  end.

(** ** The console *)
Abbreviation INPUT_BUF_SIZE := 128 (only parsing).
Abbreviation CTRL_D := 4 (only parsing).      (* C('D') *)
Abbreviation NEWLINE := 10 (only parsing).

Section console.
Context `{KI : KernelImage}.

(** The loop of consolewrite from byte [i]; [buf] is what uartwrite still has
    to send of the current chunk. *)
Fixpoint consolewrite_loop (fuel : nat) (me : Z) (src : ksrc) (n i : Z) : M kstate (resume + Z) :=
  match fuel with
  | O => λ _, NoFuel
  | S fuel' =>
      if i <? n then
        let nn := if n - i <? 32 then n - i else 32 in
        r <- either_copyin me (src_add src i) nn ;;
        if fst r =? -1 then ret (inr i) else
        w <- uartwrite me (snd r) ;;
        match w with
        | inl rest => ret (inl (RChunk (i + nn) rest))
        | inr _ => consolewrite_loop fuel' me src n (i + nn)
        end
      else ret (inr i)
  end.

Definition consolewrite (me : Z) (src : ksrc) (n : Z) (k : resume) : M kstate (resume + Z) :=
  let fuel := S (Z.to_nat n) in
  match k with
  | RChunk i rest =>
      w <- uartwrite me rest ;;
      match w with
      | inl rest => ret (inl (RChunk i rest))
      | inr _ => consolewrite_loop fuel me src n i
      end
  | _ => consolewrite_loop fuel me src n 0
  end.

(** The loop of consoleread with [n] bytes to go; [inl] sleeps. *)
Fixpoint consoleread_loop (fuel : nat) (me : Z) (dst : kdst) (target n : Z) : M kstate (resume + Z) :=
  match fuel with
  | O => λ _, NoFuel
  | S fuel' =>
      if 0 <? n then
        c <- gets cons ;;
        if cons_r c =? cons_w c then
          k <- killed me ;;
          if (k : bool) then ret (inr (-1)) else
          sleep me ChCons ;;
          ret (inl (RCount n))
        else
        let ch := cons_buf c (cons_r c mod INPUT_BUF_SIZE) in
        modify (upd_cons (set_cons_r (u32 (cons_r c + 1)))) ;;
        if ch =? CTRL_D then
          (when n <? u32 target do modify (upd_cons (λ c, set_cons_r (u32 (cons_r c - 1)) c))) ;;
          ret (inr (s32 (u32 (target - n))))
        else
        r <- either_copyout me (dst_add dst (target - n)) [ch] ;;
        if fst r =? -1 then ret (inr (s32 (u32 (target - n)))) else
        if ch =? NEWLINE then ret (inr (s32 (u32 (target - (n - 1))))) else
        consoleread_loop fuel' me dst target (n - 1)
      else ret (inr (s32 (u32 (target - n))))
  end.

Definition consoleread (me : Z) (dst : kdst) (n : Z) (k : resume) : M kstate (resume + Z) :=
  let left := match k with RCount m => m | _ => n end in
  consoleread_loop (S (Z.to_nat n)) me dst n left.

(** kernel/proc.c, called by the console: the process listing. *)
Definition state_name (st : procstate) : list Z :=
  match st with
  | UNUSED => [117; 110; 117; 115; 101; 100]
  | USED => [117; 115; 101; 100]
  | SLEEPING => [115; 108; 101; 101; 112; 32]
  | RUNNABLE => [114; 117; 110; 98; 108; 101]
  | RUNNING => [114; 117; 110; 32; 32; 32]
  | ZOMBIE => [122; 111; 109; 98; 105; 101]
  end.

Definition procdump : M kstate unit :=
  _ <- printf [10] [] ;;
  foreach (Z.to_nat NPROC) 0 (λ p,
    pr <- gets (λ s, procs s p) ;;
    if decide (p_state pr = UNUSED) then ret tt else
    _ <- printf [37; 100; 32; 37; 115; 32; 37; 115]
           [AInt (p_pid pr); AStr (Some (state_name (p_state pr))); AStr (Some (p_name pr))] ;;
    _ <- printf [10] [] ;;
    ret tt).

(** case C('U') *)
Fixpoint kill_line (fuel : nat) : M kstate unit :=
  match fuel with
  | O => λ _, NoFuel
  | S fuel' =>
      c <- gets cons ;;
      if negb (cons_e c =? cons_w c) &&
         negb (cons_buf c (u32 (cons_e c - 1) mod INPUT_BUF_SIZE) =? NEWLINE) then
        modify (upd_cons (set_cons_e (u32 (cons_e c - 1)))) ;;
        consputc BACKSPACE ;;
        kill_line fuel'
      else ret tt
  end.

Definition consoleintr (me c : Z) : M kstate unit :=
  st <- gets cons ;;
  if c =? 16 then procdump else                                  (* C('P') *)
  if c =? 21 then kill_line (S (Z.to_nat (u32 (cons_e st - cons_w st)))) else   (* C('U') *)
  if (c =? 8) || (c =? 127) then                                 (* C('H'), delete *)
    if negb (cons_e st =? cons_w st) then
      modify (upd_cons (set_cons_e (u32 (cons_e st - 1)))) ;;
      consputc BACKSPACE
    else ret tt
  else
  if negb (c =? 0) && (u32 (cons_e st - cons_r st) <? INPUT_BUF_SIZE) then
    let c := if c =? 13 then NEWLINE else c in
    consputc c ;;
    modify (upd_cons (λ k, set_cons_buf (fupd (cons_buf k) (cons_e k mod INPUT_BUF_SIZE) (u8 c)) k)) ;;
    modify (upd_cons (λ k, set_cons_e (u32 (cons_e k + 1)) k)) ;;
    st <- gets cons ;;
    if (c =? NEWLINE) || (c =? CTRL_D) || (u32 (cons_e st - cons_r st) =? INPUT_BUF_SIZE) then
      modify (upd_cons (set_cons_w (cons_e st))) ;;
      wakeup me ChCons
    else ret tt
  else ret tt.

Fixpoint console_input (me : Z) (l : list Z) : M kstate unit :=
  match l with
  | [] => ret tt
  | c :: l' => consoleintr me c ;; console_input me l'
  end.

(** uartintr: whether LSR says the transmitter is idle, and the characters
    waiting in RHR. *)
Definition uartintr (me : Z) (tx_idle : bool) (input : list Z) : M kstate unit :=
  (when tx_idle do
    (modify (set_tx_busy false) ;;
     wakeup me ChTx)) ;;
  console_input me input.

End console.
