(* ===== verification/ConsoleThms.v ===== *)
(** The console as a line editor. *)

From S2P Require Import Prelude Riscv Memory Kalloc Vm State Printf Proc Console.

(** ** The line editor *)

(** The characters of the ring from index [a] on. *)
Definition ring (c : console) (a n : Z) : list Z := (λ k, cons_buf c (k mod INPUT_BUF_SIZE)) <$> seqZ a n.

(** What consoleread can take, and the line being typed. *)
Definition avail (c : console) : list Z := ring c (cons_r c) (u32 (cons_w c - cons_r c)).
Definition line (c : console) : list Z := ring c (cons_w c) (u32 (cons_e c - cons_w c)).

Record cons_ok (c : console) : Prop := {
  co_r : 0 ≤ cons_r c < 2^32;
  co_w : 0 ≤ cons_w c < 2^32;
  co_e : 0 ≤ cons_e c < 2^32;
  co_order : u32 (cons_w c - cons_r c) + u32 (cons_e c - cons_w c) ≤ INPUT_BUF_SIZE;
  co_line : Forall (λ x, x ≠ NEWLINE) (line c)
}.

(** The editor on the two lists: control-U kills the line, control-H and
    delete the last character, control-P and NUL do nothing; any other
    character is added while there is room, and a newline, control-D or a full
    buffer hands the line over. *)
Definition edit (st : list Z * list Z) (c : Z) : list Z * list Z :=
  let '(a, l) := st in
  if (c =? 16) || (c =? 0) then (a, l) else
  if c =? 21 then (a, []) else
  if (c =? 8) || (c =? 127) then (a, removelast l) else
  if Z.of_nat (length a + length l) <? INPUT_BUF_SIZE then
    let c := if c =? 13 then NEWLINE else c in
    let l := l ++ [c] in
    if (c =? NEWLINE) || (c =? CTRL_D) || (Z.of_nat (length a + length l) =? INPUT_BUF_SIZE) then (a ++ l, [])
    else (a, l)
  else (a, l).

Lemma ring_length c a n : 0 ≤ n → Z.of_nat (length (ring c a n)) = n.
Proof. intros. unfold ring. rewrite length_fmap, length_seqZ. lia. Qed.

Lemma ring_app c a m n : 0 ≤ m → 0 ≤ n → ring c a (m + n) = ring c a m ++ ring c (a + m) n.
Proof. intros. unfold ring. rewrite seqZ_app by lia. apply fmap_app. Qed.

Lemma ring_shift c a b n : a mod INPUT_BUF_SIZE = b mod INPUT_BUF_SIZE → ring c a n = ring c b n.
Proof.
  intros E. unfold ring. apply list_eq. intros k. rewrite !list_lookup_fmap.
  destruct (decide (Z.of_nat k < n)); [|by rewrite !lookup_seqZ_ge by lia].
  rewrite !lookup_seqZ_lt by lia. cbn. do 2 f_equal. dlia.
Qed.

Lemma ring_same c c' a n : (∀ k, a ≤ k < a + n → cons_buf c' (k mod INPUT_BUF_SIZE) = cons_buf c (k mod INPUT_BUF_SIZE)) →
  ring c' a n = ring c a n.
Proof.
  intros H. unfold ring. apply list_fmap_ext. intros k x Hx. apply lookup_seqZ in Hx as [-> Hx]. apply H. lia.
Qed.

Lemma ring_one c a : ring c a 1 = [cons_buf c (a mod INPUT_BUF_SIZE)].
Proof. done. Qed.

(** The two lists are one stretch of the ring. *)
Lemma lines_app c : cons_ok c →
  avail c ++ line c = ring c (cons_r c) (u32 (cons_w c - cons_r c) + u32 (cons_e c - cons_w c)).
Proof.
  intros [H1 H2 H3 H4 _]. pose proof (u32_range (cons_w c - cons_r c)). pose proof (u32_range (cons_e c - cons_w c)).
  rewrite ring_app by lia. f_equal. apply ring_shift. unfold u32. dlia.
Qed.

Section console.
Context `{KI : KernelImage} (me : Z).

(** control-H. *)
Lemma erase_ok c : cons_ok c → cons_e c ≠ cons_w c → let c' := set_cons_e (u32 (cons_e c - 1)) c in
  cons_ok c' ∧ avail c' = avail c ∧ line c = line c' ++ [cons_buf c (u32 (cons_e c - 1) mod INPUT_BUF_SIZE)].
Proof.
  intros [H1 H2 H3 H4 H5] Hne c'. set (n := u32 (cons_e c - cons_w c)) in *.
  assert (1 ≤ n < 2^32) as Hn by (unfold n, u32; dlia).
  assert (u32 (cons_e c' - cons_w c') = n - 1) as Hn' by (unfold n, c', u32; cbn; dlia).
  assert (line c = line c' ++ [cons_buf c (u32 (cons_e c - 1) mod INPUT_BUF_SIZE)]) as Hl.
  { unfold line at 1. fold n. replace n with (n - 1 + 1) by lia. rewrite ring_app by lia. f_equal.
    - unfold line. rewrite Hn'. done.
    - rewrite ring_one. do 2 f_equal. unfold n, u32. dlia. }
  split_and!; [|done|done]. split; cbn; try done.
  - apply u32_range.
  - change (cons_e c') with (u32 (cons_e c - 1)) in Hn'. change (cons_w c') with (cons_w c) in Hn'. rewrite Hn'. lia.
  - rewrite Hl in H5. by apply Forall_app in H5 as [? _].
Qed.

(** Adding a character. *)
Definition put_char (x : Z) (c : console) : console :=
  set_cons_e (u32 (cons_e c + 1)) (set_cons_buf (fupd (cons_buf c) (cons_e c mod INPUT_BUF_SIZE) x) c).

Lemma total_len c : cons_ok c → u32 (cons_e c - cons_r c) = Z.of_nat (length (avail c) + length (line c)).
Proof.
  intros [H1 H2 H3 H4 H5]. pose proof (u32_range (cons_w c - cons_r c)). pose proof (u32_range (cons_e c - cons_w c)).
  rewrite Nat2Z.inj_add. unfold avail, line. rewrite !ring_length by lia. unfold u32 in *. dlia.
Qed.

Lemma put_ok x c : cons_ok c → u32 (cons_e c - cons_r c) < INPUT_BUF_SIZE → let c' := put_char x c in
  avail c' = avail c ∧ line c' = line c ++ [x] ∧ u32 (cons_e c' - cons_r c') = u32 (cons_e c - cons_r c) + 1 ∧
  (x ≠ NEWLINE → cons_ok c') ∧
  let c'' := set_cons_w (cons_e c') c' in cons_ok c'' ∧ avail c'' = avail c ++ line c ++ [x] ∧ line c'' = [].
Proof.
  intros Hok Hroom c'. pose proof (total_len c Hok) as Ht. pose proof Hok as [H1 H2 H3 H4 H5].
  set (a := u32 (cons_w c - cons_r c)) in *. set (n := u32 (cons_e c - cons_w c)) in *.
  assert (0 ≤ a < 2^32 ∧ 0 ≤ n < 2^32) as [Ha Hn] by (split; apply u32_range).
  rewrite Nat2Z.inj_add in Ht. unfold avail, line in Ht. fold a in Ht. fold n in Ht. rewrite !ring_length in Ht by lia.
  assert (cons_e c mod INPUT_BUF_SIZE = (cons_r c + (a + n)) mod INPUT_BUF_SIZE) as He by (unfold a, n, u32; dlia).
  assert (cons_w c mod INPUT_BUF_SIZE = (cons_r c + a) mod INPUT_BUF_SIZE) as Hw by (unfold a, u32; dlia).
  assert (u32 (cons_e c' - cons_w c') = n + 1) as Hn' by (unfold n, c', put_char, u32; cbn; unfold n, u32 in *; dlia).
  assert (u32 (cons_e c' - cons_r c') = u32 (cons_e c - cons_r c) + 1) as Hr' by (unfold c', put_char, u32 in *; cbn; dlia).
  assert (∀ k, cons_r c ≤ k < cons_r c + (a + n) → cons_buf c' (k mod INPUT_BUF_SIZE) = cons_buf c (k mod INPUT_BUF_SIZE)) as Hbuf.
  { intros k Hk. cbn. rewrite fupd_ne; [done|]. rewrite He. dlia. }
  assert (avail c' = avail c) as Hav by (apply ring_same; cbn; fold a; intros k Hk; apply Hbuf; lia).
  assert (line c' = line c ++ [x]) as Hli.
  { unfold line. fold n. rewrite Hn', ring_app by lia. f_equal.
    - change (cons_w c') with (cons_w c). rewrite (ring_shift c' _ (cons_r c + a)), (ring_shift c (cons_w c) (cons_r c + a)) by done.
      apply ring_same. intros k Hk. apply Hbuf. lia.
    - rewrite ring_one. cbn. replace ((cons_w c + n) mod INPUT_BUF_SIZE) with (cons_e c mod INPUT_BUF_SIZE) by (unfold n, u32; dlia).
      by rewrite fupd_eq. }
  pose proof (u32_range (cons_e c + 1)).
  assert (x ≠ NEWLINE → cons_ok c') as Hok'.
  { intros Hx. split; try done.
    - rewrite Hn'. change (u32 (cons_w c' - cons_r c')) with a. lia.
    - rewrite Hli. apply Forall_app. split; [done|]. by repeat constructor. }
  split_and!; [done|done|done|done|]. intros c''.
  assert (u32 (cons_w c'' - cons_r c'') = a + (n + 1)) as Ha'' by (unfold c''; cbn; cbn in Hr'; rewrite Hr'; lia).
  assert (u32 (cons_e c'' - cons_w c'') = 0) as Hn'' by (unfold c''; cbn; by rewrite Z.sub_diag).
  assert (line c'' = []) as Hl'' by (unfold line; by rewrite Hn'').
  split_and!; [|..|done].
  - split; try done; [rewrite Ha'', Hn''; lia|by rewrite Hl''].
  - rewrite <-Hli, <-Hav. unfold avail at 1. rewrite Ha'', ring_app by lia. f_equal.
    unfold line. rewrite Hn'. transitivity (ring c' (cons_r c + a) (n + 1)); [done|]. apply ring_shift. cbn. by rewrite Hw.
Qed.

(** control-U. *)
Lemma kill_line_wp n : ∀ s (Q : unit → kstate → Prop), cons_ok (cons s) → (length (line (cons s)) < n)%nat →
  (∀ s', cons_ok (cons s') → avail (cons s') = avail (cons s) → line (cons s') = [] → Q tt s') → wp (kill_line n) Q s.
Proof.
  induction n as [|n IH]; intros s Q Hok Hlen HQ; [lia|]. cbn [kill_line]. do 2 wp_step. pose proof Hok as [H1 H2 H3 H4 H5].
  destruct (Z.eqb_spec (cons_e (cons s)) (cons_w (cons s))) as [He|He]; cbn [negb andb].
  - wp_step. apply HQ; [done|done|]. unfold line. by rewrite He, Z.sub_diag.
  - destruct (erase_ok (cons s) Hok He) as (E1 & E2 & E3). rewrite E3 in H5, Hlen. apply Forall_app in H5 as [_ H5].
    apply Forall_cons in H5 as [H5 _]. rewrite (proj2 (Z.eqb_neq _ _) H5). cbn [negb]. do 2 wp_step. wp_step.
    apply consputc_wp. intros u. apply IH; [done|cbn; rewrite length_app in Hlen; cbn in Hlen; lia|].
    intros s' K1 K2 K3. apply HQ; [done|by rewrite K2|done].
Qed.

(** control-P prints the process list. *)
Lemma procdump_wp s (Q : unit → kstate → Prop) : (∀ u, Q tt (set_uart u s)) → wp procdump Q s.
Proof.
  intros HQ. unfold procdump. wp_step. apply printf_wp; [reflexivity|]. intros u0.
  eapply wp_mono; [apply (wp_foreach (λ _ s1, ∃ u, s1 = set_uart u s)); [by exists u0|]|by intros [] s1 (u & ->); apply HQ].
  intros p s1 Hp (u & ->). do 2 wp_step. case_decide; [wp_step; by exists u|].
  wp_step. apply printf_wp; [reflexivity|]. intros u1. wp_step. apply printf_wp; [reflexivity|].
  intros u2. wp_step. by exists u2.
Qed.

Lemma removelast_snoc (l : list Z) x : removelast (l ++ [x]) = l.
Proof. rewrite removelast_app by done. by rewrite app_nil_r. Qed.

Lemma consoleintr_wp ch s (Q : unit → kstate → Prop) : cons_ok (cons s) → 0 ≤ ch < 256 →
  (∀ s', cons_ok (cons s') → (avail (cons s'), line (cons s')) = edit (avail (cons s), line (cons s)) ch → Q tt s') →
  wp (consoleintr me ch) Q s.
Proof.
  intros Hok Hch HQ. unfold consoleintr. do 2 wp_step. set (c := cons s) in *. cbn [edit] in HQ.
  pose proof (total_len c Hok) as Ht.
  destruct (Z.eqb_spec ch 16) as [->|H16]; [apply procdump_wp; intros u; by apply HQ|].
  destruct (Z.eqb_spec ch 21) as [->|H21].
  { apply kill_line_wp; [done| |intros s' K1 K2 K3; apply HQ; [done|by rewrite K2, K3]].
    fold c. pose proof (u32_range (cons_e c - cons_w c)). pose proof (ring_length c (cons_w c) (u32 (cons_e c - cons_w c)) ltac:(lia)).
    unfold line. lia. }
  destruct (Z.eqb_spec ch 0) as [->|H0]; [cbn [orb negb andb Z.eqb]; wp_step; by apply HQ|]. cbn [orb negb andb] in *.
  destruct ((ch =? 8) || (ch =? 127)) eqn:Hbs.
  { destruct (Z.eqb_spec (cons_e c) (cons_w c)) as [He|He]; cbn [negb].
    - wp_step. apply HQ; [done|]. fold c. assert (line c = []) as -> by (unfold line; by rewrite He, Z.sub_diag). done.
    - destruct (erase_ok c Hok He) as (E1 & E2 & E3). do 2 wp_step. apply consputc_wp. intros u. apply HQ; [done|].
      cbn. fold c. rewrite E2. f_equal. by rewrite E3, removelast_snoc. }
  rewrite Ht. destruct (Z.ltb_spec (Z.of_nat (length (avail c) + length (line c))) INPUT_BUF_SIZE) as [Hroom|Hroom].
  2:{ wp_step. by apply HQ. }
  cbv zeta in HQ |- *. set (x := if ch =? 13 then NEWLINE else ch) in *.
  assert (0 ≤ x < 256) as Hx by (unfold x; case_if; lia).
  destruct (put_ok x c Hok ltac:(lia)) as (P1 & P2 & P3 & P4 & P5 & P6 & P7).
  wp_step. apply consputc_wp. intros u. do 4 wp_step. do 2 wp_step. cbn [cons upd_cons set_cons set_uart]. fold c. rewrite u8_small by lia.
  change (set_cons_e _ (set_cons_buf _ c)) with (put_char x c). rewrite P3, Ht.
  assert (Z.of_nat (length (avail c) + length (line c)) + 1 = Z.of_nat (length (avail c) + length (line c ++ [x]))) as ->.
  { rewrite length_app. cbn. lia. }
  destruct ((x =? NEWLINE) || (x =? CTRL_D) || (Z.of_nat _ =? INPUT_BUF_SIZE)) eqn:Hc.
  - do 2 wp_step. apply wakeup_wp. intros f _. apply HQ; [exact P5|]. exact (f_equal2 pair P6 P7).
  - wp_step. apply HQ; [|exact (f_equal2 pair P1 P2)]. apply P4. intros E. rewrite E in Hc. done.
Qed.

Lemma console_input_wp input : ∀ s (Q : unit → kstate → Prop), cons_ok (cons s) → Forall (λ ch, 0 ≤ ch < 256) input →
  (∀ s', cons_ok (cons s') → (avail (cons s'), line (cons s')) = foldl edit (avail (cons s), line (cons s)) input → Q tt s') →
  wp (console_input me input) Q s.
Proof.
  induction input as [|ch input IH]; intros s Q Hok Hin HQ; cbn [console_input]; [wp_step; by apply HQ|].
  apply Forall_cons in Hin as [Hch Hin]. wp_step. apply consoleintr_wp; [done..|]. intros s1 Hok1 E1.
  apply IH; [done|done|]. intros s2 Hok2 E2. apply HQ; [done|]. cbn [foldl]. by rewrite <-E1.
Qed.

Lemma lines_fit c : cons_ok c → (length (avail c) + length (line c) ≤ 128)%nat.
Proof.
  intros Hok. pose proof (total_len c Hok) as Ht. destruct Hok as [H1 H2 H3 H4 _].
  enough (u32 (cons_e c - cons_r c) ≤ 128) by lia. unfold u32 in *. dlia.
Qed.

(** C24: the console is a line editor.  Whatever characters come in, the
    interrupt handler returns, and the characters that consoleread can take and
    the line being typed, both kept in one ring of 128 bytes with 32-bit
    counters that wrap around, are those of the editor on lists: erasing works
    on the current line only, and lines are handed over whole and in order. *)
Theorem console_line_editor tx_idle input s : cons_ok (cons s) → Forall (λ ch, 0 ≤ ch < 256) input →
  wp (uartintr me tx_idle input) (λ _ s', cons_ok (cons s') ∧
    (avail (cons s'), line (cons s')) = foldl edit (avail (cons s), line (cons s)) input ∧
    (length (avail (cons s')) + length (line (cons s')) ≤ 128)%nat) s.
Proof.
  intros Hok Hin. unfold uartintr. wp_step.
  destruct tx_idle; [do 2 wp_step; apply wakeup_wp; intros f _|wp_step];
    (apply console_input_wp; [done..|]; intros s' Hok' E; split_and!; [done|done|by apply lines_fit]).
Qed.
End console.
