(* ===== verification/File.v ===== *)
(** kernel/file.c, and pipealloc of kernel/pipe.c: the table of open files.

    devsw has one entry, the console (consoleinit).  The end of a pipe or of
    the console is read and written with calls that may sleep: they return
    [inl] with what they keep, and are called again with it. *)

From S2P Require Import Prelude Riscv Memory Kalloc Vm State Printf Proc Pipe Bio Log Fs Console.

Abbreviation CONSOLE := 1 (only parsing).

Section file.
Context `{KI : KernelImage}.

(** devsw[major].read and .write are set for the console only. *)
Definition devsw_ok (major : Z) : bool := in_table major NDEV && (major =? CONSOLE).

(** A file, or -1. *)
Definition filealloc : M kstate Z :=
  r <- for_ (Z.to_nat NFILE) 0 (λ f,
    c <- gets (λ s, f_ref (ftable s f)) ;;
    if c =? 0 then modify (upd_file f (set_f_ref 1)) ;; ret (Some f) else ret None) ;;
  ret (default (-1) r).

Definition filedup (f : Z) : M kstate Z :=
  c <- gets (λ s, f_ref (ftable s f)) ;;
  if c <? 1 then panic "filedup" else
  modify (upd_file f (set_f_ref (c + 1))) ;;
  ret f.

Definition fileclose (me f : Z) : M kstate unit :=
  c <- gets (λ s, f_ref (ftable s f)) ;;
  if c <? 1 then panic "fileclose" else
  modify (upd_file f (set_f_ref (c - 1))) ;;
  if 0 <? c - 1 then ret tt else
  ff <- gets (λ s, ftable s f) ;;
  modify (upd_file f (set_f_ref 0)) ;;
  modify (upd_file f (set_f_type FD_NONE)) ;;
  match f_type ff with
  | FD_PIPE => pipeclose me (f_pipe ff) (f_writable ff)
  | FD_INODE | FD_DEVICE => begin_op me ;; iput me (f_ip ff) ;; end_op me
  | FD_NONE => ret tt
  end.

(** [pad]: the bytes of the padding of st. *)
Definition filestat (me f addr : Z) (pad : list Z) : M kstate Z :=
  ff <- gets (λ s, ftable s f) ;;
  match f_type ff with
  | FD_INODE | FD_DEVICE =>
      ilock me (f_ip ff) ;;
      i <- ino (f_ip ff) ;;
      let st := stati i pad in
      iunlock me (f_ip ff) ;;
      pt <- gets (λ s, p_pagetable (procs s me)) ;;
      r <- on_kmem (copyout pt addr st) ;;
      ret (if r <? 0 then -1 else 0)
  | _ => ret (-1)
  end.

Definition fileread (me f addr n : Z) (k : resume) : M kstate (resume + Z) :=
  ff <- gets (λ s, ftable s f) ;;
  if negb (f_readable ff) then ret (inr (-1)) else
  match f_type ff with
  | FD_PIPE =>
      r <- piperead me (f_pipe ff) addr n ;;
      ret (match r with inl _ => inl R0 | inr v => inr v end)
  | FD_DEVICE =>
      if devsw_ok (f_major ff) then consoleread me (ToUser addr) n k else ret (inr (-1))
  | FD_INODE =>
      ilock me (f_ip ff) ;;
      r <- readi me (f_ip ff) (ToUser addr) (f_off ff) (u32 n) ;;
      (when 0 <? fst r do modify (upd_file f (λ x, set_f_off (u32 (f_off x + fst r)) x))) ;;
      iunlock me (f_ip ff) ;;
      ret (inr (fst r))
  | FD_NONE => panic "fileread"
  end.

(** ((MAXOPBLOCKS-1-1-2) / 2) * BSIZE *)
Abbreviation WRITE_MAX := 3072 (only parsing).

(** The loop of filewrite over an inode: the value of i at its end. *)
Definition filewrite_inode (me f addr n : Z) : M kstate Z :=
  while (S (Z.to_nat (n / WRITE_MAX) + 1)) (λ i,
    if i <? n then
      let n1 := if WRITE_MAX <? n - i then WRITE_MAX else n - i in
      begin_op me ;;
      ff <- gets (λ s, ftable s f) ;;
      ilock me (f_ip ff) ;;
      r <- writei me (f_ip ff) (FromUser (u64 (addr + i))) (f_off ff) n1 ;;
      (when 0 <? r do modify (upd_file f (λ x, set_f_off (u32 (f_off x + r)) x))) ;;
      iunlock me (f_ip ff) ;;
      end_op me ;;
      if negb (r =? n1) then ret (inr i) else ret (inl (i + r))
    else ret (inr i)) 0.

Definition filewrite (me f addr n : Z) (k : resume) : M kstate (resume + Z) :=
  ff <- gets (λ s, ftable s f) ;;
  if negb (f_writable ff) then ret (inr (-1)) else
  match f_type ff with
  | FD_PIPE =>
      let i := match k with RCount i => i | _ => 0 end in
      r <- pipewrite me (f_pipe ff) addr n i ;;
      ret (match r with inl i => inl (RCount i) | inr v => inr v end)
  | FD_DEVICE =>
      if devsw_ok (f_major ff) then consolewrite me (FromUser addr) n k else ret (inr (-1))
  | FD_INODE =>
      i <- filewrite_inode me f addr n ;;
      ret (inr (if i =? n then n else -1))
  | FD_NONE => panic "filewrite"
  end.

(** pipealloc: the two files, or None. *)
Definition pipealloc (me : Z) : M kstate (option (Z * Z)) :=
  let bad pi f0 f1 :=
    (when negb (pi =? 0) do on_kmem (kfree pi)) ;;
    (when negb (f0 =? -1) do fileclose me f0) ;;
    (when negb (f1 =? -1) do fileclose me f1) ;;
    ret None in
  f0 <- filealloc ;;
  if f0 =? -1 then bad 0 (-1) (-1) else
  f1 <- filealloc ;;
  if f1 =? -1 then bad 0 f0 (-1) else
  pi <- on_kmem kalloc ;;
  if pi =? 0 then bad 0 f0 f1 else
  modify (upd_pipe pi (λ p, mkPipe (pi_data p) 0 0 true true)) ;;
  modify (upd_file f0 (λ x, mkFile FD_PIPE (f_ref x) true false pi (f_ip x) (f_off x) (f_major x))) ;;
  modify (upd_file f1 (λ x, mkFile FD_PIPE (f_ref x) false true pi (f_ip x) (f_off x) (f_major x))) ;;
  ret (Some (f0, f1)).

End file.
