(* ===== verification/ProcLife.v ===== *)
(** kernel/proc.c, the part above the file system: userinit, fork and exit. *)

From S2P Require Import Prelude Riscv Memory Kalloc Vm State Printf Proc Pipe Bio Log Fs Console File.

Section life.
Context `{KI : KernelImage} `{KE : KernelEntry}.

Definition userinit : M kstate unit :=
  p <- allocproc ;;
  modify (set_initproc p) ;;
  if p =? -1 then undef "p->cwd" else
  cwd <- namei (-1) [SLASH] ;;
  modify (upd_proc p (set_p_cwd cwd)) ;;
  modify (upd_proc p (set_p_state RUNNABLE)).

(** if(p->ofile[i]) np->ofile[i] = filedup(p->ofile[i]); *)
Definition dup_files (me np : Z) : M kstate unit :=
  foreach (Z.to_nat NOFILE) 0 (λ i,
    f <- gets (λ s, p_ofile (procs s me) i) ;;
    if f =? -1 then ret tt else
    f' <- filedup f ;;
    modify (upd_proc np (λ p, set_p_ofile (fupd (p_ofile p) i f') p))).

(** kfork in its three critical sections.  The first holds the lock of the new
    process from allocproc on; -1 stands for a failure. *)
Definition fork_create (me : Z) : M kstate (Z * Z) :=
  np <- allocproc ;;
  if np =? -1 then ret (-1, -1) else
  p <- gets (λ s, procs s me) ;;
  n <- gets (λ s, procs s np) ;;
  r <- on_kmem (uvmcopy (p_pagetable p) (p_pagetable n) (p_sz p)) ;;
  if r <? 0 then
    freeproc np ;; ret (-1, -1)
  else
  modify (upd_proc np (set_p_sz (p_sz p))) ;;
  on_kmem (kmemmove (p_trapframe n) (p_trapframe p) TF_size) ;;
  on_kmem (store64 (p_trapframe n + TF_a0) 0) ;;
  dup_files me np ;;
  cwd <- idup (p_cwd p) ;;
  modify (upd_proc np (set_p_cwd cwd)) ;;
  modify (upd_proc np (set_p_name (take 15 (p_name p)))) ;;
  pid <- gets (λ s, p_pid (procs s np)) ;;
  ret (np, pid).

(** Under wait_lock, and under the lock of the new process again. *)
Definition fork_parent (me np : Z) : M kstate unit := modify (upd_proc np (set_p_parent me)).
Definition fork_start (np : Z) : M kstate unit := modify (upd_proc np (set_p_state RUNNABLE)).

Definition kfork (me : Z) : M kstate Z :=
  c <- fork_create me ;;
  let '(np, pid) := c in
  if np =? -1 then ret (-1) else
  fork_parent me np ;;
  fork_start np ;;
  ret pid.

(** for(fd = 0; fd < NOFILE; fd++) if(p->ofile[fd]) { fileclose(f); p->ofile[fd] = 0; } *)
Definition close_files (me : Z) : M kstate unit :=
  foreach (Z.to_nat NOFILE) 0 (λ fd,
    f <- gets (λ s, p_ofile (procs s me) fd) ;;
    if f =? -1 then ret tt else
    fileclose me f ;;
    modify (upd_proc me (λ p, set_p_ofile (fupd (p_ofile p) fd (-1)) p))).

(** kexit up to the switch to the scheduler, which does not come back. *)
Definition kexit (me status : Z) : M kstate unit :=
  ip <- gets initproc ;;
  if me =? ip then panic "init exiting" else
  close_files me ;;
  begin_op me ;;
  cwd <- gets (λ s, p_cwd (procs s me)) ;;
  iput me cwd ;;
  end_op me ;;
  modify (upd_proc me (set_p_cwd (-1))) ;;
  exit_zombie me status.

End life.
