(* ===== verification/ProcThms.v ===== *)
(** The life of processes: what freeproc, allocproc, kfork, kwait and exit do
    to the process table, that a parent waiting in kwait is never left asleep
    when a child has exited, and that process identifiers are unique. *)

From S2P Require Import Prelude Riscv Memory Kalloc Vm State Printf Proc Pipe Bio Log Fs Console File ProcLife.

(** ** Operations on other parts of the state *)

(** [c] changes the process table only through [R]. *)
Definition procs_only {A} (R : (Z → proc) → (Z → proc) → Prop) (c : M kstate A) : Prop :=
  ∀ s, wlp c (λ _ s', R (procs s) (procs s') ∧ initproc s' = initproc s ∧ nextpid s' = nextpid s) s.

(** It leaves the table, init and the pid counter alone. *)
Definition keeps_procs {A} (c : M kstate A) : Prop := procs_only eq c.

Lemma keeps_on_kmem {A} (c : M kmem A) : keeps_procs (on_kmem c).
Proof. intros s. by apply wlp_zoom. Qed.

Lemma keeps_wlp {A} (c : M kstate A) (Q : A → kstate → Prop) s : keeps_procs c →
  (∀ a s', procs s' = procs s → initproc s' = initproc s → nextpid s' = nextpid s → Q a s') → wlp c Q s.
Proof. intros Hc HQ. eapply wlp_mono; [apply Hc|]. intros a s' (H1 & H2 & H3). by apply HQ. Qed.

Lemma keeps_filedup f : keeps_procs (filedup f).
Proof. intros s. unfold filedup. wlp_steps. case_if; by wlp_steps. Qed.

Lemma keeps_idup ip : keeps_procs (idup ip).
Proof. intros s. unfold idup, ino, ino_set. wlp_steps. case_if; by wlp_steps. Qed.

(** The table [f] changed at one entry. *)
Definition at_entry (f g : Z → proc) (p : Z) (pr : proc) : Prop :=
  g p = pr ∧ ∀ q, q ≠ p → g q = f q.

Section life.
Context `{KI : KernelImage} `{KE : KernelEntry}.

(** A process entry as freeproc leaves it. *)
Definition freed (pr : proc) : proc :=
  mkProc UNUSED None 0 0 0 (-1) (p_kstack pr) 0 0 0 (p_context_ra pr) (p_context_sp pr)
    (p_ofile pr) (p_cwd pr) [] (p_page_faults pr).

Lemma freeproc_wlp p s (Q : unit → kstate → Prop) :
  (∀ s', at_entry (procs s) (procs s') p (freed (procs s p)) →
     initproc s' = initproc s → nextpid s' = nextpid s → Q tt s') →
  wlp (freeproc p) Q s.
Proof.
  intros HQ. unfold freeproc. wlp_steps.
  apply (wlp_mono _ (λ _ s', procs s' = procs s ∧ initproc s' = initproc s ∧ nextpid s' = nextpid s)).
  { case_if; [|by wlp_steps]. apply keeps_wlp; [apply keeps_on_kmem|done]. }
  intros [] s1 (E1 & E2 & E3). wlp_steps.
  apply (wlp_mono _ (λ _ s', procs s' = fupd (procs s) p (set_p_trapframe 0 (procs s p)) ∧
    initproc s' = initproc s ∧ nextpid s' = nextpid s)).
  { case_if; [|wlp_steps; cbn; by rewrite E1]. apply keeps_wlp; [apply keeps_on_kmem|].
    cbn. rewrite E1. intros _ s' -> -> ->. done. }
  intros [] s2 (F1 & F2 & F3). wlp_steps. apply HQ; [|done..]. split; cbn.
  - rewrite !fupd_eq, F1, fupd_eq. done.
  - intros q Hq. rewrite !fupd_ne by done. rewrite F1. by apply fupd_ne.
Qed.

(** Entry [p] is the first free one. *)
Definition first_free (s : kstate) (p : Z) : Prop :=
  0 ≤ p < NPROC ∧ p_state (procs s p) = UNUSED ∧ ∀ q, 0 ≤ q < p → p_state (procs s q) ≠ UNUSED.

Lemma find_unused_wlp s (Q : option Z → kstate → Prop) :
  (∀ p, first_free s p → Q (Some p) s) → Q None s → wlp find_unused Q s.
Proof.
  intros HQ HN. unfold find_unused.
  eapply (wlp_for (λ j s', s' = s ∧ ∀ q, 0 ≤ q < j → p_state (procs s q) ≠ UNUSED)); [split; [done|lia]| |by intros ? [-> _]].
  intros j s' Hj [-> Hq]. wlp_steps. case_decide; wlp_steps.
  - apply HQ. split_and!; [lia..|done|]. intros q Hqj. apply Hq. lia.
  - split; [done|]. intros q Hqj. destruct (decide (q = j)) as [->|]; [done|]. apply Hq. lia.
Qed.

(** A free entry taken by allocproc: USED with the new pid, otherwise as it was. *)
Definition taken (s : kstate) (p : Z) (pr : proc) : Prop :=
  p_state pr = USED ∧ p_pid pr = nextpid s ∧ p_parent pr = p_parent (procs s p) ∧
  p_killed pr = p_killed (procs s p) ∧ p_chan pr = p_chan (procs s p).

(** While allocproc works on entry [p]. *)
Definition allocating (s : kstate) (p : Z) (s' : kstate) : Prop :=
  (∃ pr, at_entry (procs s) (procs s') p pr ∧ taken s p pr) ∧
  initproc s' = initproc s ∧ nextpid s' = s32 (nextpid s + 1).

Lemma allocating_upd s p f s' : allocating s p s' → (∀ pr, taken s p pr → taken s p (f pr)) →
  allocating s p (upd_proc p f s').
Proof.
  intros ((pr & [E1 E2] & Ht) & E3 & E4) Hf. split_and!; [|done..]. exists (f pr). split; [split|by apply Hf].
  - cbn. by rewrite fupd_eq, E1.
  - intros q Hq. cbn. rewrite fupd_ne by done. by apply E2.
Qed.

Lemma allocating_keeps {A} s p (c : M kstate A) s' (Q : A → kstate → Prop) : keeps_procs c →
  allocating s p s' → (∀ a s'', allocating s p s'' → Q a s'') → wlp c Q s'.
Proof.
  intros Hc ((pr & Ha & Ht) & E3 & E4) HQ. apply keeps_wlp; [done|]. intros a s'' P I N. apply HQ.
  split_and!; [|congruence..]. exists pr. rewrite P. done.
Qed.

(** What is left when allocproc fails: nothing, or one entry freed. *)
Definition alloc_failed (s s' : kstate) : Prop :=
  initproc s' = initproc s ∧
  (procs s' = procs s ∧ nextpid s' = nextpid s ∨
   nextpid s' = s32 (nextpid s + 1) ∧
   ∃ p pr, 0 ≤ p < NPROC ∧ p_state (procs s p) = UNUSED ∧ at_entry (procs s) (procs s') p (freed pr)).

Lemma allocating_free {A} s p s' (a : A) (Q : A → kstate → Prop) : 0 ≤ p < NPROC → p_state (procs s p) = UNUSED →
  allocating s p s' → (∀ s'', alloc_failed s s'' → Q a s'') → wlp (freeproc p ;; ret a) Q s'.
Proof.
  intros Hp Hu ((pr & [E1 E2] & Ht) & E3 & E4) HQ. wlp_step. apply freeproc_wlp. intros s'' [G1 G2] G3 G4.
  wlp_steps. apply HQ. split; [congruence|]. right. split; [congruence|]. exists p, pr.
  split_and!; [lia..|done|]. rewrite E1 in G1. split; [done|]. intros q Hq. rewrite G2 by done. by apply E2.
Qed.

(** allocproc fails, or takes a free entry, which becomes USED with a new pid. *)
Lemma allocproc_wlp s (Q : Z → kstate → Prop) :
  (∀ s', alloc_failed s s' → Q (-1) s') →
  (∀ p s', first_free s p → allocating s p s' → Q p s') →
  wlp allocproc Q s.
Proof.
  intros Hfail Hok. unfold allocproc. wlp_step. apply find_unused_wlp.
  2:{ wlp_steps. apply Hfail. split; auto. }
  intros p Hfirst. pose proof Hfirst as (Hp & Hu & _). unfold allocpid. wlp_steps.
  apply (allocating_keeps s p); [apply keeps_on_kmem| |].
  { split_and!; [|done..]. exists (set_p_state USED (set_p_pid (nextpid s) (procs s p))). split; [split|done].
    - cbn. by rewrite !fupd_eq.
    - intros q Hq. cbn. by rewrite !fupd_ne. }
  intros tf s1 A1. wlp_steps. assert (allocating s p (upd_proc p (set_p_trapframe tf) s1)) as A2.
  { by apply allocating_upd. }
  case_if; [by apply (allocating_free s p)|]. wlp_steps.
  apply (allocating_keeps s p); [apply keeps_on_kmem|done|]. intros pt s2 A3. wlp_steps.
  assert (allocating s p (upd_proc p (set_p_pagetable pt) s2)) as A4 by by apply allocating_upd.
  case_if; [by apply (allocating_free s p)|]. wlp_steps. apply Hok; [done..|].
  by repeat apply allocating_upd.
Qed.

(** ** Waiting for children *)

Definition live (pr : proc) : Prop := p_state pr ≠ UNUSED ∧ p_state pr ≠ ZOMBIE.

(** Children have different parents from themselves, a free entry has none,
    init has none and lives; and a process asleep in kwait has a living child
    and no child that has exited. *)
Record wait_inv (s : kstate) : Prop := {
  wi_free : ∀ p, 0 ≤ p < NPROC → p_state (procs s p) = UNUSED → p_parent (procs s p) = -1;
  wi_self : ∀ p, 0 ≤ p < NPROC → p_parent (procs s p) ≠ p;
  wi_init : 0 ≤ initproc s < NPROC ∧ p_parent (procs s (initproc s)) = -1 ∧ live (procs s (initproc s));
  wi_wait : ∀ p, sleeps_on (ChProc p) p s →
    (∃ c, 0 ≤ c < NPROC ∧ p_parent (procs s c) = p ∧ live (procs s c)) ∧
    ∀ c, 0 ≤ c < NPROC → p_parent (procs s c) = p → p_state (procs s c) ≠ ZOMBIE
}.

(** Steps that change no parent, start or end no process and put nobody to
    sleep in kwait: scheduling, system calls other than those below, sleep on
    other channels, wakeup, kill. *)
Record quiet (s s' : kstate) : Prop := {
  qu_init : initproc s' = initproc s;
  qu_parent : ∀ p, 0 ≤ p < NPROC → p_parent (procs s' p) = p_parent (procs s p);
  qu_unused : ∀ p, 0 ≤ p < NPROC → p_state (procs s' p) = UNUSED ↔ p_state (procs s p) = UNUSED;
  qu_zombie : ∀ p, 0 ≤ p < NPROC → p_state (procs s' p) = ZOMBIE ↔ p_state (procs s p) = ZOMBIE;
  qu_sleep : ∀ p, sleeps_on (ChProc p) p s' → sleeps_on (ChProc p) p s
}.

Lemma quiet_wait_inv s s' : wait_inv s → quiet s s' → wait_inv s'.
Proof.
  intros [H1 H2 H3 H4] [Q1 Q2 Q3 Q4 Q5].
  assert (∀ p, 0 ≤ p < NPROC → live (procs s' p) ↔ live (procs s p)) as Hl.
  { intros p Hp. unfold live. by rewrite Q3, Q4. }
  split.
  - intros p Hp. rewrite Q3, Q2 by done. by apply H1.
  - intros p Hp. rewrite Q2 by done. by apply H2.
  - rewrite Q1. destruct H3 as (Hi & Hp & Hv). rewrite Q2, Hl by done. done.
  - intros p Hp. destruct (H4 p (Q5 p Hp)) as [(c & Hc & Hcp & Hcl) Hz]. split.
    + exists c. by rewrite Q2, Hl.
    + intros c' Hc'. rewrite Q2, Q4 by done. by apply Hz.
Qed.

(** The scan of kwait: it stops at a child that has exited, whose entry is
    freed unless the status cannot be copied out; otherwise no child has. *)
Lemma kwait_scan_wlp me addr s : ∀ n pp h s1,
  procs s1 = procs s → initproc s1 = initproc s → nextpid s1 = nextpid s → 0 ≤ pp → pp + Z.of_nat n = NPROC →
  (∀ c, 0 ≤ c < pp → p_parent (procs s c) = me → p_state (procs s c) ≠ ZOMBIE) →
  (h = true → ∃ c, 0 ≤ c < NPROC ∧ p_parent (procs s c) = me) →
  wlp (kwait_scan n me addr pp h) (λ r s', (initproc s' = initproc s ∧ nextpid s' = nextpid s) ∧
    match r with
    | (Some _, _) => procs s' = procs s ∨ ∃ c, 0 ≤ c < NPROC ∧ p_parent (procs s c) = me ∧
        p_state (procs s c) = ZOMBIE ∧ at_entry (procs s) (procs s') c (freed (procs s c))
    | (None, h') => procs s' = procs s ∧
        (∀ c, 0 ≤ c < NPROC → p_parent (procs s c) = me → p_state (procs s c) ≠ ZOMBIE) ∧
        (h' = true → ∃ c, 0 ≤ c < NPROC ∧ p_parent (procs s c) = me)
    end) s1.
Proof.
  induction n as [|n IH]; intros pp h s1 E1 E2 E2' Hpp Hn Hz Hh; cbn [kwait_scan].
  { apply wlp_ret. split_and!; [done..| |done]. intros c Hc. apply Hz. lia. }
  wlp_step. unfold kwait_entry. wlp_steps. rewrite E1.
  destruct (Z.eqb_spec (p_parent (procs s pp)) me) as [Hpar|Hpar].
  - case_decide as Hst.
    + wlp_steps. apply (wlp_mono _ (λ _ s', procs s' = procs s ∧ initproc s' = initproc s ∧ nextpid s' = nextpid s)).
      { case_if; [|by wlp_steps]. apply keeps_wlp; [apply keeps_on_kmem|]. intros _ s' -> -> ->. by rewrite E1. }
      intros r s2 (E3 & E4 & E4'). case_if; wlp_steps; [by auto|].
      apply freeproc_wlp. intros s3 Hat E5 E6. wlp_steps. rewrite E3 in Hat. split; [split; congruence|].
      right. exists pp. split_and!; done || lia.
    + wlp_steps. apply IH; [done..|lia|lia| |].
      * intros c Hc. destruct (decide (c = pp)) as [->|]; [done|]. apply Hz. lia.
      * intros _. exists pp. split; [lia|done].
  - wlp_steps. rewrite orb_false_r. apply IH; [done..|lia|lia| |done].
    intros c Hc. destruct (decide (c = pp)) as [->|]; [done|]. apply Hz. lia.
Qed.

Lemma same_procs_inv s s' : wait_inv s → procs s' = procs s → initproc s' = initproc s → wait_inv s'.
Proof. intros H E E'. apply (quiet_wait_inv s); [done|]. split; try (by rewrite E); [done|]. intros p. unfold sleeps_on. by rewrite E. Qed.

(** A process that sleeps in another entry than the changed one. *)
Lemma sleeps_on_entry s s' c p pr q : at_entry (procs s) (procs s') p pr → p_state pr ≠ SLEEPING →
  sleeps_on c q s' → q ≠ p ∧ sleeps_on c q s.
Proof.
  intros [E1 E2] Hs (Hq & Hst & Hc). destruct (decide (q = p)) as [->|Hne]; [congruence|].
  rewrite E2 in Hst, Hc by done. done.
Qed.

(** Freeing the entry of an exited child of a running process. *)
Lemma wait_inv_free s s' me c pr : wait_inv s → 0 ≤ me < NPROC → p_state (procs s me) = RUNNING →
  0 ≤ c < NPROC → p_parent (procs s c) = me → initproc s' = initproc s →
  at_entry (procs s) (procs s') c pr → p_state pr = UNUSED → p_parent pr = -1 → wait_inv s'.
Proof.
  intros Hw Hme Hr Hc Hpar Ei Hat Hst Hpp. pose proof Hw as [H1 H2 (Hi & Hip & Hil) H4]. pose proof Hat as [E1 E2].
  assert (initproc s ≠ c) as Hne by (intros <-; lia).
  split.
  - intros p Hp. destruct (decide (p = c)) as [->|]; [by rewrite E1|]. rewrite E2 by done. by apply H1.
  - intros p Hp. destruct (decide (p = c)) as [->|]; [rewrite E1; lia|]. rewrite E2 by done. by apply H2.
  - rewrite Ei, E2 by done. done.
  - intros p Hp. assert (p_state pr ≠ SLEEPING) as Hns by congruence.
    destruct (sleeps_on_entry s s' _ c pr p Hat Hns Hp) as [Hpc Hsl].
    destruct (H4 p Hsl) as [(d & Hd & Hdp & Hdl) Hz].
    assert (p ≠ me) as Hpm by (intros ->; destruct Hsl as (_ & Hsl & _); congruence).
    assert (d ≠ c) as Hdc by congruence. split.
    + exists d. by rewrite E2.
    + intros e He. destruct (decide (e = c)) as [->|]; [rewrite E1; congruence|]. rewrite E2 by done. by apply Hz.
Qed.

(** A running process with children, none of which has exited, goes to sleep. *)
Lemma wait_inv_sleep s s' me c : wait_inv s → 0 ≤ me < NPROC → p_state (procs s me) = RUNNING →
  0 ≤ c < NPROC → p_parent (procs s c) = me → initproc s' = initproc s →
  (∀ c, 0 ≤ c < NPROC → p_parent (procs s c) = me → p_state (procs s c) ≠ ZOMBIE) →
  at_entry (procs s) (procs s') me (set_p_state SLEEPING (set_p_chan (Some (ChProc me)) (procs s me))) → wait_inv s'.
Proof.
  intros [H1 H2 (Hi & Hip & Hil) H4] Hme Hr Hc Hpar Ei Hz [E1 E2].
  assert (c ≠ me) as Hcm by (intros ->; by destruct (H2 me)).
  assert (∀ q, p_parent (procs s' q) = p_parent (procs s q)) as Ep.
  { intros q. destruct (decide (q = me)) as [->|]; [by rewrite E1|by rewrite E2]. }
  assert (∀ q, p_state (procs s' q) = if decide (q = me) then SLEEPING else p_state (procs s q)) as Es.
  { intros q. case_decide as E; [subst; by rewrite E1|by rewrite E2]. }
  assert (∀ q, live (procs s q) → live (procs s' q)) as El.
  { intros q. unfold live. rewrite Es. by case_decide. }
  split.
  - intros p Hp. rewrite Es, Ep. case_decide; [done|]. by apply H1.
  - intros p Hp. rewrite Ep. by apply H2.
  - rewrite Ei, Ep. auto.
  - intros p (Hp & Hst & Hch). setoid_rewrite Ep. setoid_rewrite Es.
    destruct (decide (p = me)) as [->|Hpm].
    + split; [exists c; split_and!; [lia..|done|apply El]|].
      * split; [intros Hu; rewrite H1 in Hpar by done; lia|by apply Hz].
      * intros d Hd Hdp. case_decide; [done|]. by apply Hz.
    + rewrite E2 in Hst, Hch by done. destruct (H4 p) as [(d & Hd & Hdp & Hdl) Hz']; [done|].
      split; [exists d; auto|]. intros e He Hep. case_decide; [done|]. by apply Hz'.
Qed.

(** What kwait does to the table: nothing, it frees an exited child, or it goes
    to sleep, having children none of which has exited. *)
Definition asleep_in_kwait (me : Z) (pr : proc) : proc := set_p_state SLEEPING (set_p_chan (Some (ChProc me)) pr).

Definition waited (me : Z) (s s' : kstate) : Prop :=
  procs s' = procs s ∨
  (∃ c, 0 ≤ c < NPROC ∧ p_parent (procs s c) = me ∧ p_state (procs s c) = ZOMBIE ∧
     at_entry (procs s) (procs s') c (freed (procs s c))) ∨
  (∃ c, 0 ≤ c < NPROC ∧ p_parent (procs s c) = me) ∧
  (∀ c, 0 ≤ c < NPROC → p_parent (procs s c) = me → p_state (procs s c) ≠ ZOMBIE) ∧
  at_entry (procs s) (procs s') me (asleep_in_kwait me (procs s me)).

Lemma kwait_wlp me addr s : wlp (kwait me addr) (λ _ s',
  initproc s' = initproc s ∧ nextpid s' = nextpid s ∧ waited me s s') s.
Proof.
  unfold kwait. wlp_step.
  eapply wlp_mono; [apply (kwait_scan_wlp me addr s); try done; intros; lia|].
  intros [[v|] h] s1 ([Ei En] & Hcase).
  - wlp_steps. split_and!; [done..|]. destruct Hcase as [E|Hc]; [by left|by right; left].
  - destruct Hcase as (E & Hz & Hh). unfold killed. wlp_steps. case_if; wlp_steps; [by split_and!; [..|left]|].
    apply wp_wlp, sleep_wp. wlp_steps. destruct Hif as [-> _]. split_and!; [done..|]. right. right. split_and!; [auto|done|].
    split; cbn; rewrite ?fupd_eq, E; [done|]. intros q Hq. by rewrite !fupd_ne.
Qed.

Lemma waited_inv me s s' : wait_inv s → 0 ≤ me < NPROC → p_state (procs s me) = RUNNING →
  initproc s' = initproc s → waited me s s' → wait_inv s'.
Proof.
  intros Hw Hme Hr Ei [E|[(c & Hc & Hpar & Hst & Hat)|((c & Hc & Hpar) & Hz & Hat)]].
  - by apply (same_procs_inv s).
  - by eapply (wait_inv_free s s' me c).
  - by eapply (wait_inv_sleep s s' me c).
Qed.

(** ** Exit *)

(** The table after reparent: the children of [me] belong to init, and init
    has been woken if there are any. *)
Record reparented (me : Z) (s s' : kstate) : Prop := {
  rp_init : initproc s' = initproc s ∧ nextpid s' = nextpid s;
  rp_pid : ∀ p, p_pid (procs s' p) = p_pid (procs s p);
  rp_parent : ∀ p, 0 ≤ p < NPROC → p_parent (procs s' p) =
    if decide (p_parent (procs s p) = me) then initproc s else p_parent (procs s p);
  rp_chan : ∀ p, p_chan (procs s' p) = p_chan (procs s p);
  rp_state : ∀ p, p_state (procs s' p) = p_state (procs s p) ∨
    p_state (procs s p) = SLEEPING ∧ p_state (procs s' p) = RUNNABLE;
  rp_woken : (∃ c, 0 ≤ c < NPROC ∧ p_parent (procs s c) = me) → ∀ p, ¬ sleeps_on (ChProc (initproc s)) p s'
}.

Lemma woken_pid me c p pr : p_pid (woken me c p pr) = p_pid pr.
Proof. unfold woken. by case_decide. Qed.

Lemma woken_facts me c p pr : p_parent (woken me c p pr) = p_parent pr ∧ p_chan (woken me c p pr) = p_chan pr ∧
  (p_state (woken me c p pr) = p_state pr ∨ p_state pr = SLEEPING ∧ p_state (woken me c p pr) = RUNNABLE).
Proof. unfold woken. case_decide; naive_solver. Qed.

Lemma reparent_wp me s : p_state (procs s me) = RUNNING →
  wp (reparent me me) (λ _ s', reparented me s s') s.
Proof.
  intros Hr. unfold reparent.
  eapply wp_mono; [eapply (wp_foreach (λ j s', (initproc s' = initproc s ∧ nextpid s' = nextpid s) ∧
    (∀ p, p_pid (procs s' p) = p_pid (procs s p)) ∧
    (∀ p, p_parent (procs s' p) =
       if decide (0 ≤ p < j ∧ p_parent (procs s p) = me) then initproc s else p_parent (procs s p)) ∧
    (∀ p, p_chan (procs s' p) = p_chan (procs s p)) ∧
    (∀ p, p_state (procs s' p) = p_state (procs s p) ∨
       p_state (procs s p) = SLEEPING ∧ p_state (procs s' p) = RUNNABLE) ∧
    ((∃ c, 0 ≤ c < j ∧ p_parent (procs s c) = me) → ∀ p, ¬ sleeps_on (ChProc (initproc s)) p s')))|].
  - split_and!; auto.
    + intros p. by rewrite decide_False by lia.
    + intros (c & ? & _). lia.
  - intros j s1 Hj ([Ei En] & Epid & Ep & Ec & Es & Ew). wp_steps. rewrite Ep, decide_False by lia.
    destruct (Z.eqb_spec (p_parent (procs s j)) me) as [Hpar|Hpar].
    + wp_steps. rewrite Ei. apply wakeup_wp. cbn [procs upd_proc set_procs]. intros f Hf.
      assert (∀ p, p_state (fupd (procs s1) j (set_p_parent (initproc s) (procs s1 j)) p) = p_state (procs s1 p) ∧
        p_chan (fupd (procs s1) j (set_p_parent (initproc s) (procs s1 j)) p) = p_chan (procs s1 p)) as Hu.
      { intros p. rewrite fupd_spec. by case_decide; subst. }
      cbn [procs set_procs]. split_and!; [done|done|intros p; rewrite Hf..|intros _ p].
      * rewrite woken_pid, fupd_spec. by case_decide; subst; rewrite <-Epid.
      * rewrite (proj1 (woken_facts _ _ _ _)), fupd_spec. destruct (decide (p = j)) as [->|].
        -- cbn. rewrite decide_True by (split; [lia|done]). done.
        -- rewrite Ep. repeat case_decide; try done; lia.
      * by rewrite (proj1 (proj2 (woken_facts _ _ _ _))), (proj2 (Hu p)).
      * destruct (proj2 (proj2 (woken_facts me (ChProc (initproc s)) p (fupd (procs s1) j (set_p_parent (initproc s) (procs s1 j)) p)))) as [E|[E1 E2]].
        -- rewrite E, (proj1 (Hu p)). apply Es.
        -- rewrite E2. rewrite (proj1 (Hu p)) in E1. right. split; [|done]. destruct (Es p); naive_solver congruence.
      * eapply (woken_none me _ _ (upd_proc j (set_p_parent (initproc s)) s1)); [exact Hf|].
        cbn. rewrite (proj1 (Hu me)). destruct (Es me); naive_solver congruence.
    + wp_steps. split_and!; try done.
      * intros p. rewrite Ep. destruct (decide (p = j)) as [->|]; [by rewrite !decide_False by lia|].
        repeat case_decide; try done; lia.
      * intros (c & Hc & Hcm). apply Ew. exists c. split; [|done]. destruct (decide (c = j)) as [->|]; [done|lia].
  - intros [] s' (Ei & Epid & Ep & Ec & Es & Ew). split; try done. intros p Hp. rewrite Ep.
    repeat case_decide; try done; tauto || lia.
Qed.

(** The table after [me] has exited: its children belong to init, and neither
    its parent nor, if it had children, init is asleep in kwait. *)
Record exited (me : Z) (s s' : kstate) : Prop := {
  ex_init : initproc s' = initproc s ∧ nextpid s' = nextpid s;
  ex_pid : ∀ p, p_pid (procs s' p) = p_pid (procs s p);
  ex_parent : ∀ p, 0 ≤ p < NPROC → p_parent (procs s' p) =
    if decide (p_parent (procs s p) = me) then initproc s else p_parent (procs s p);
  ex_me : p_state (procs s' me) = ZOMBIE;
  ex_state : ∀ p, p ≠ me → p_state (procs s' p) = p_state (procs s p) ∨
    p_state (procs s p) = SLEEPING ∧ p_state (procs s' p) = RUNNABLE;
  ex_sleep : ∀ p c, sleeps_on c p s' → sleeps_on c p s ∧ c ≠ ChProc (p_parent (procs s me)) ∧
    ((∃ d, 0 ≤ d < NPROC ∧ p_parent (procs s d) = me) → c ≠ ChProc (initproc s))
}.

Lemma exited_inv me s s' : wait_inv s → 0 ≤ me < NPROC → me ≠ initproc s →
  p_state (procs s me) = RUNNING → exited me s s' → wait_inv s'.
Proof.
  intros [H1 H2 (Hi & Hip & Hil) H4] Hme Hni Hr [[E1 _] _ E2 E3 E4 E5].
  assert (∀ p, p ≠ me → live (procs s p) → live (procs s' p)) as Hl.
  { intros p Hp [L1 L2]. unfold live. destruct (E4 p Hp) as [->|[_ ->]]; done. }
  assert (∀ p, p_state (procs s' p) = UNUSED → p_state (procs s p) = UNUSED) as Hu.
  { intros p Hp. destruct (decide (p = me)) as [->|Hpm]; [congruence|].
    destruct (E4 p Hpm); naive_solver congruence. }
  split.
  - intros p Hp Hst. pose proof (H1 p Hp (Hu p Hst)) as Hpar. rewrite E2 by done.
    rewrite decide_False; [done|lia].
  - intros p Hp. rewrite E2 by done. case_decide as Hpar; [|by apply H2]. intros <-. lia.
  - rewrite E1, E2, Hip, decide_False by lia. auto.
  - intros p Hp. destruct (E5 _ _ Hp) as (Hp' & Hne & Hni'). destruct (H4 p Hp') as [(d & Hd & Hdp & Hdl) Hz].
    assert (p ≠ me) as Hpm by (intros ->; destruct Hp' as (_ & ? & _); congruence).
    assert (d ≠ me) as Hdm by (intros ->; by apply Hne; f_equal). split.
    + exists d. rewrite E2, Hdp, decide_False by done. auto.
    + intros e He. rewrite E2 by done. case_decide as Hep.
      * intros <-. exfalso. apply Hni'; [by exists e|done].
      * intros Hep'. assert (e ≠ me) as Hem by (intros ->; by apply Hne; f_equal).
        destruct (E4 e Hem) as [->|[_ ->]]; [by apply Hz|done].
Qed.

Lemma exit_zombie_wp me status s : wait_inv s → 0 ≤ me < NPROC → p_state (procs s me) = RUNNING →
  wp (exit_zombie me status) (λ _ s', exited me s s' ∧ p_xstate (procs s' me) = status) s.
Proof.
  intros [_ H2 _ _] Hme Hr. unfold exit_zombie. wp_step.
  eapply wp_mono; [by apply reparent_wp|]. intros [] s1 [R1 Rp R2 R3 R4 R5]. wp_steps.
  assert (p_parent (procs s1 me) = p_parent (procs s me)) as ->.
  { rewrite R2 by done. rewrite decide_False; [done|by apply H2]. }
  assert (p_state (procs s1 me) = RUNNING) as Hr1 by (destruct (R4 me); naive_solver congruence).
  apply wakeup_wp. intros f Hf. wp_steps. unfold sched. wp_steps.
  set (s2 := upd_proc me (set_p_state ZOMBIE) _).
  assert (p_state (procs s2 me) = ZOMBIE ∧ p_xstate (procs s2 me) = status) as [Z1 Z2].
  { unfold s2. cbn. by rewrite !fupd_eq. }
  rewrite Z1, decide_False by done. wp_steps. split; [|done].
  assert (∀ q, q ≠ me → procs s2 q = f q) as E2.
  { intros q Hq. unfold s2. cbn. by rewrite !fupd_ne. }
  pose proof (λ q, woken_facts me (ChProc (p_parent (procs s me))) q (procs s1 q)) as Hwf.
  split; [done| | |done|..].
  - intros q. rewrite <-Rp, <-(woken_pid me (ChProc (p_parent (procs s me))) q (procs s1 q)), <-Hf.
    destruct (decide (q = me)) as [->|]; [unfold s2; cbn; by rewrite !fupd_eq|by rewrite E2].
  - intros q Hq. rewrite <-R2 by done. destruct (decide (q = me)) as [->|]; [unfold s2; cbn; rewrite !fupd_eq; cbn
      |rewrite E2 by done]; rewrite Hf; apply Hwf.
  - intros q Hq. rewrite E2, Hf by done. destruct (proj2 (proj2 (Hwf q))) as [->|[W1 ->]]; [apply R4|].
    right. destruct (R4 q); naive_solver congruence.
  - intros q c (Hq & Hst & Hc). assert (q ≠ me) as Hqm by (intros ->; congruence).
    rewrite E2, Hf in Hst, Hc by done. destruct (Hwf q) as (_ & W2 & W3).
    assert (sleeps_on c q s1) as Hs1.
    { split_and!; [lia..| |congruence]. destruct W3 as [W3|[? W3]]; congruence. }
    split_and!.
    + destruct Hs1 as (_ & Hs1 & Hc1). split_and!; [lia..| |by rewrite <-R3]. destruct (R4 q); naive_solver congruence.
    + intros ->. apply (woken_none me _ f s1 q Hf Hr1). split_and!; [lia..| |]; cbn; by rewrite Hf.
    + intros Hd ->. by apply (R5 Hd q).
Qed.

(** ** Fork *)

(** A free entry is given a new process, or stays free. *)
Lemma wait_inv_new s s' np pr : wait_inv s → 0 ≤ np < NPROC → p_state (procs s np) = UNUSED →
  initproc s' = initproc s → at_entry (procs s) (procs s') np pr →
  p_state pr ≠ SLEEPING → p_state pr ≠ ZOMBIE → p_parent pr ≠ np →
  (p_state pr = UNUSED → p_parent pr = -1) → wait_inv s'.
Proof.
  intros [H1 H2 (Hi & Hip & Hil) H4] Hnp Hu Ei Hat Hs Hz Hself Hpar. pose proof Hat as [E1 E2].
  assert (initproc s ≠ np) as Hne by (intros <-; by destruct Hil).
  split.
  - intros p Hp. destruct (decide (p = np)) as [->|]; [by rewrite E1|]. rewrite E2 by done. by apply H1.
  - intros p Hp. destruct (decide (p = np)) as [->|]; [by rewrite E1|]. rewrite E2 by done. by apply H2.
  - rewrite Ei, E2 by done. done.
  - intros p Hp. destruct (sleeps_on_entry s s' _ np pr p Hat Hs Hp) as [Hpc Hsl].
    destruct (H4 p Hsl) as [(d & Hd & Hdp & Hdl) Hzz].
    assert (d ≠ np) as Hdn by (intros ->; by destruct Hdl). split.
    + exists d. by rewrite E2.
    + intros e He. destruct (decide (e = np)) as [->|]; [by rewrite E1|]. rewrite E2 by done. by apply Hzz.
Qed.

Lemma alloc_failed_inv s s' : wait_inv s → alloc_failed s s' → wait_inv s'.
Proof.
  intros Hw (Ei & [[E _]|(_ & p & pr & Hp & Hu & Hat)]); [by apply (same_procs_inv s)|].
  eapply (wait_inv_new s s' p); try done. cbn. lia.
Qed.

(** The files of the parent are duplicated into the new entry. *)
Lemma dup_files_wlp s me np s1 (Q : unit → kstate → Prop) : allocating s np s1 →
  (∀ s2, allocating s np s2 → Q tt s2) → wlp (dup_files me np) Q s1.
Proof.
  intros Ha HQ. unfold dup_files. eapply wlp_mono; [eapply (wlp_foreach (λ _ s', allocating s np s'))|].
  - done.
  - intros j s2 _ A2. wlp_steps. case_if; wlp_steps; [done|].
    apply (allocating_keeps s np); [apply keeps_filedup|done|]. intros f s3 A3. wlp_steps.
    by apply allocating_upd.
  - intros [] s2 A2. by apply HQ.
Qed.

(** The first part of kfork fails, leaving at most a freed entry, or takes a
    free entry. *)
Lemma fork_create_wlp me s : wlp (fork_create me) (λ r s',
  alloc_failed s s' ∧ r.1 = -1 ∨ first_free s r.1 ∧ allocating s r.1 s' ∧ r.2 = nextpid s) s.
Proof.
  unfold fork_create. wlp_step. apply allocproc_wlp.
  { intros s' Hf. rewrite Z.eqb_refl. wlp_steps. auto. }
  intros np s1 Hfirst A1. pose proof Hfirst as (Hnp & Hu & _). rewrite (proj2 (Z.eqb_neq np (-1))) by lia. wlp_steps.
  apply (allocating_keeps s np); [apply keeps_on_kmem|done|]. intros r s2 A2. case_if.
  { eapply (allocating_free s np); [done..|]. auto. }
  wlp_steps. apply (allocating_keeps s np); [apply keeps_on_kmem|by apply allocating_upd|]. intros _ s3 A3.
  wlp_steps. apply (allocating_keeps s np); [apply keeps_on_kmem|done|]. intros _ s4 A4.
  wlp_steps. apply (dup_files_wlp s); [done|]. intros s5 A5. wlp_steps.
  apply (allocating_keeps s np); [apply keeps_idup|done|]. intros cwd s6 A6. wlp_steps. right.
  set (s7 := upd_proc np (set_p_name _) _). cbn [fst snd].
  assert (allocating s np s7) as A7 by by repeat apply allocating_upd.
  split_and!; [done..|]. destruct A7 as ((pr & [E1 _] & _ & T2 & _) & _). by rewrite E1.
Qed.

(** ** Every step of the life of processes *)

(** The state together with the forks that are going on, and the number of
    forks there have been.  A fork that process [me] has begun has taken the
    entry [np] of the table, and may have recorded [me] as its parent. *)
Record life := mkLife { pend : gmap Z (Z * bool); forks : Z; kst : kstate }.

Definition running (me : Z) (s : kstate) : Prop := 0 ≤ me < NPROC ∧ p_state (procs s me) = RUNNING.

(** A running process forks, in three steps between which others run, waits,
    exits; anyone kills; the scheduler picks, a process yields or goes to sleep
    on something else, sleepers are woken; and other code, which leaves all
    this alone. *)
Inductive life_step : life → life → Prop :=
| ls_fork me np pid P n s s' : running me s → P !! me = None → fork_create me s = Done ((np, pid), s') →
    life_step (mkLife P n s) (mkLife (if np =? -1 then P else <[me := (np, false)]> P) (n + 1) s')
| ls_fork_parent me np P n s s' : running me s → P !! me = Some (np, false) → fork_parent me np s = Done (tt, s') →
    life_step (mkLife P n s) (mkLife (<[me := (np, true)]> P) n s')
| ls_fork_start me np P n s s' : running me s → P !! me = Some (np, true) → fork_start np s = Done (tt, s') →
    life_step (mkLife P n s) (mkLife (delete me P) n s')
| ls_wait me addr r P n s s' : running me s → P !! me = None →
    kwait me addr s = Done (r, s') → life_step (mkLife P n s) (mkLife P n s')
| ls_exit me status P n s s' : running me s → P !! me = None → me ≠ initproc s →
    exit_zombie me status s = Done (tt, s') → life_step (mkLife P n s) (mkLife P n s')
| ls_kill pid r P n s s' : kkill pid s = Done (r, s') → life_step (mkLife P n s) (mkLife P n s')
| ls_schedule p r P n s s' : schedule p s = Done (r, s') → life_step (mkLife P n s) (mkLife P n s')
| ls_yield me P n s s' : running me s → yield me s = Done (tt, s') → life_step (mkLife P n s) (mkLife P n s')
| ls_sleep me c P n s s' : running me s → P !! me = None → (∀ p, c ≠ ChProc p) →
    sleep me c s = Done (tt, s') → life_step (mkLife P n s) (mkLife P n s')
| ls_wakeup me c P n s s' : wakeup me c s = Done (tt, s') → life_step (mkLife P n s) (mkLife P n s')
| ls_other P n s s' : procs s' = procs s → initproc s' = initproc s → nextpid s' = nextpid s →
    life_step (mkLife P n s) (mkLife P n s').

(** The entries of forks that are going on are in use, but not yet runnable. *)
Record pend_inv (P : gmap Z (Z * bool)) (s : kstate) : Prop := {
  pd_entry : ∀ me np b, P !! me = Some (np, b) → 0 ≤ np < NPROC ∧ np ≠ me ∧ np ≠ initproc s ∧
    p_state (procs s np) = USED ∧ p_parent (procs s np) = if (b : bool) then me else -1;
  pd_inj : ∀ me me' np b b', P !! me = Some (np, b) → P !! me' = Some (np, b') → me = me'
}.

(** Entries that are being made are left alone. *)
Definition used_kept (s s' : kstate) : Prop := ∀ p, p_state (procs s p) = USED →
  p_state (procs s' p) = USED ∧ p_parent (procs s' p) = p_parent (procs s p).

Lemma used_kept_entry s s' p pr : at_entry (procs s) (procs s') p pr → p_state (procs s p) ≠ USED → used_kept s s'.
Proof. intros [E1 E2] Hp q Hq. rewrite E2; [done|]. by intros ->. Qed.

Lemma pend_inv_kept P s s' : pend_inv P s → initproc s' = initproc s → used_kept s s' → pend_inv P s'.
Proof.
  intros [H1 H2] Ei Hk. split; [|done]. intros me np b Hp. destruct (H1 me np b Hp) as (A & B & C & D & E).
  destruct (Hk np D) as [-> ->]. by rewrite Ei.
Qed.

(** The pids of processes are different, and are numbers already given out;
    a free entry has pid 0. *)
Record pid_inv (s : kstate) : Prop := {
  pi_next : 1 ≤ nextpid s < 2^31;
  pi_used : ∀ p, 0 ≤ p < NPROC → p_state (procs s p) ≠ UNUSED → 1 ≤ p_pid (procs s p) < nextpid s;
  pi_free : ∀ p, 0 ≤ p < NPROC → p_state (procs s p) = UNUSED → p_pid (procs s p) = 0;
  pi_inj : ∀ p q, 0 ≤ p < NPROC → 0 ≤ q < NPROC → p_state (procs s p) ≠ UNUSED →
    p_state (procs s q) ≠ UNUSED → p_pid (procs s p) = p_pid (procs s q) → p = q
}.

(** Steps that start and end no process. *)
Record same_pids (s s' : kstate) : Prop := {
  sp_next : nextpid s' = nextpid s;
  sp_pid : ∀ p, 0 ≤ p < NPROC → p_pid (procs s' p) = p_pid (procs s p);
  sp_unused : ∀ p, 0 ≤ p < NPROC → p_state (procs s' p) = UNUSED ↔ p_state (procs s p) = UNUSED
}.

Lemma same_pids_inv s s' : pid_inv s → same_pids s s' → pid_inv s'.
Proof.
  intros [P1 P2 P3 P4] [S1 S2 S3]. split.
  - by rewrite S1.
  - intros p Hp. rewrite S1, S2, S3 by done. by apply P2.
  - intros p Hp. rewrite S2, S3 by done. by apply P3.
  - intros p q Hp Hq. rewrite !S2, !S3 by done. by apply P4.
Qed.

(** One entry becomes free. *)
Lemma pid_inv_free s s' p pr : pid_inv s → at_entry (procs s) (procs s') p pr →
  nextpid s ≤ nextpid s' < 2^31 → p_state pr = UNUSED → p_pid pr = 0 → pid_inv s'.
Proof.
  intros [P1 P2 P3 P4] [E1 E2] Hn Hu Hpid. split; [lia|..].
  - intros q Hq. destruct (decide (q = p)) as [->|]; [by rewrite E1|]. rewrite E2 by done. intros H.
    specialize (P2 q Hq H). lia.
  - intros q Hq. destruct (decide (q = p)) as [->|]; [by rewrite E1|]. rewrite E2 by done. by apply P3.
  - intros a b Ha Hb. destruct (decide (a = p)) as [->|]; [by rewrite E1|].
    destruct (decide (b = p)) as [->|]; [by rewrite E1|]. rewrite !E2 by done. by apply P4.
Qed.

(** A free entry is given the next pid. *)
Lemma pid_inv_new s s' p pr : pid_inv s → at_entry (procs s) (procs s') p pr →
  p_state (procs s p) = UNUSED → nextpid s' = nextpid s + 1 → nextpid s < 2^31 - 1 →
  p_pid pr = nextpid s → p_state pr ≠ UNUSED → pid_inv s'.
Proof.
  intros [P1 P2 P3 P4] [E1 E2] Hu Hn Hb Hpid Hst. split; [lia|..].
  - intros q Hq. destruct (decide (q = p)) as [->|]; [rewrite E1; lia|]. rewrite E2 by done. intros H.
    specialize (P2 q Hq H). lia.
  - intros q Hq. destruct (decide (q = p)) as [->|]; [by rewrite E1|]. rewrite E2 by done. by apply P3.
  - intros a b Ha Hb'. destruct (decide (a = p)) as [->|], (decide (b = p)) as [->|]; rewrite ?E1, ?E2 by done; try done.
    + intros _ H E. specialize (P2 b Hb' H). lia.
    + intros H _ E. specialize (P2 a Ha H). lia.
    + by apply P4.
Qed.

(** Steps that start and end no process and put nobody to sleep in kwait. *)
Definition calm (s s' : kstate) : Prop := quiet s s' ∧ same_pids s s' ∧ used_kept s s'.

(** One entry changes between the living states and keeps its pid. *)
Lemma calm_entry s s' p pr : at_entry (procs s) (procs s') p pr →
  initproc s' = initproc s → nextpid s' = nextpid s → p_parent pr = p_parent (procs s p) →
  p_pid pr = p_pid (procs s p) → live pr → live (procs s p) → p_state (procs s p) ≠ USED →
  (p_state pr = SLEEPING → ∀ q, p_chan pr ≠ Some (ChProc q)) → calm s s'.
Proof.
  intros Hat Ei En Ep Epid [L1 L2] [L3 L4] Hu Hs. pose proof Hat as [E1 E2].
  assert (∀ q, p_parent (procs s' q) = p_parent (procs s q) ∧ p_pid (procs s' q) = p_pid (procs s q) ∧
    (p_state (procs s' q) = UNUSED ↔ p_state (procs s q) = UNUSED) ∧ (p_state (procs s' q) = ZOMBIE ↔ p_state (procs s q) = ZOMBIE)) as K.
  { intros q. destruct (decide (q = p)) as [->|]; [rewrite E1; tauto|by rewrite E2]. }
  split_and!; [split; [done|intros q _; apply K..|]|split; [done|intros q _; apply K..]|by eapply used_kept_entry].
  intros q (Hq & Hst & Hc). destruct (decide (q = p)) as [->|Hqp].
  - rewrite E1 in Hst, Hc. by destruct (Hs Hst p).
  - rewrite E2 in Hst, Hc by done. done.
Qed.

Lemma upd_proc_entry p f s : at_entry (procs s) (procs (upd_proc p f s)) p (f (procs s p)).
Proof. split; cbn; [apply fupd_eq|]. intros q Hq. by apply fupd_ne. Qed.

(** Some sleepers are made runnable; nothing else of interest changes. *)
Definition awakened (f g : Z → proc) : Prop := ∀ p,
  p_parent (g p) = p_parent (f p) ∧ p_pid (g p) = p_pid (f p) ∧ p_chan (g p) = p_chan (f p) ∧
  (p_state (g p) = p_state (f p) ∨ p_state (f p) = SLEEPING ∧ p_state (g p) = RUNNABLE).

Lemma awakened_calm s s' : awakened (procs s) (procs s') → initproc s' = initproc s →
  nextpid s' = nextpid s → calm s s'.
Proof.
  intros Ha Ei En. split_and!; [split|split|]; try done;
    try (intros p _; destruct (Ha p) as (H1 & H2 & H3 & [H4|[H4 H5]]); rewrite ?H1, ?H2, ?H4, ?H5; done).
  - intros p (Hp & Hst & Hc). destruct (Ha p) as (H1 & H2 & H3 & [H4|[H4 H5]]); [|congruence].
    split_and!; [lia..| |]; congruence.
  - intros p Hp. destruct (Ha p) as (H1 & H2 & H3 & [H4|[H4 H5]]); [|congruence]. by rewrite H4.
Qed.

Lemma awakened_refl f : awakened f f.
Proof. intros p. auto. Qed.

Lemma kkill_awakened pid s : wlp (kkill pid) (λ _ s', awakened (procs s) (procs s') ∧
  initproc s' = initproc s ∧ nextpid s' = nextpid s) s.
Proof.
  unfold kkill. wlp_step. eapply (wlp_for (λ _ s', s' = s)); [done| |].
  2:{ intros ? ->. wlp_steps. auto using awakened_refl. }
  intros p s1 Hp ->. wlp_steps. destruct (Z.eqb_spec (p_pid (procs s p)) pid); wlp_steps; [|done].
  case_if; wlp_steps; split_and!; try done; intros q; cbn; rewrite !fupd_spec.
  - apply bool_decide_eq_true in Hif. destruct (decide (q = p)) as [->|]; [|auto].
    rewrite decide_True by done. cbn. split_and!; auto.
  - destruct (decide (q = p)) as [->|]; cbn; split_and!; auto.
Qed.

Lemma waited_pids me s s' : pid_inv s → p_state (procs s me) = RUNNING → nextpid s' = nextpid s →
  waited me s s' → pid_inv s'.
Proof.
  intros Hp Hr En [E|[(c & Hc & _ & _ & Hat)|(_ & _ & E1 & E2)]].
  - apply (same_pids_inv s); [done|]. split; by rewrite ?E, ?En.
  - pose proof (pi_next s Hp). eapply (pid_inv_free s s' c); try done. lia.
  - apply (same_pids_inv s); [done|]. split; [done|..]; intros q Hq;
      (destruct (decide (q = me)) as [->|]; [rewrite E1, ?Hr; done|by rewrite E2]).
Qed.

Lemma waited_kept me s s' : p_state (procs s me) = RUNNING → waited me s s' → used_kept s s'.
Proof.
  intros Hr [E|[(c & Hc & _ & Hst & Hat)|(_ & _ & Hat)]].
  - intros p. by rewrite E.
  - apply (used_kept_entry _ _ _ _ Hat). by rewrite Hst.
  - apply (used_kept_entry _ _ _ _ Hat). by rewrite Hr.
Qed.

Lemma alloc_failed_pids s s' : pid_inv s → nextpid s < 2^31 - 1 → alloc_failed s s' → pid_inv s'.
Proof.
  intros Hp Hn (_ & [[E En]|(En & p & pr & _ & _ & Hat)]).
  - apply (same_pids_inv s); [done|]. split; by rewrite ?E, ?En.
  - pose proof (pi_next s Hp). rewrite s32_small in En by lia. eapply (pid_inv_free s s' p); try done. lia.
Qed.

Lemma exited_pids me s s' : pid_inv s → p_state (procs s me) = RUNNING → exited me s s' → pid_inv s'.
Proof.
  intros Hp Hr [[_ En] Epid _ Eme Est _]. apply (same_pids_inv s); [done|]. split; [done|by intros|].
  intros p _. destruct (decide (p = me)) as [->|Hne]; [by rewrite Eme, Hr|].
  destruct (Est p Hne) as [->|[-> ->]]; done.
Qed.

Lemma schedule_calm p s : wlp (schedule p) (λ _ s', calm s s') s.
Proof.
  unfold schedule. wlp_steps. case_decide as Hst; wlp_steps.
  - eapply (calm_entry s); [apply upd_proc_entry|done..| | |done]; [by split; rewrite Hst|by rewrite Hst].
  - apply awakened_calm; [apply awakened_refl|done..].
Qed.

Lemma yield_calm me s : p_state (procs s me) = RUNNING → wlp (yield me) (λ _ s', calm s s') s.
Proof.
  intros Hr. unfold yield, sched. wlp_steps. case_decide; wlp_steps.
  eapply (calm_entry s); [apply upd_proc_entry|done..| | |done]; [by split; rewrite Hr|by rewrite Hr].
Qed.

Lemma sleep_calm me c s : p_state (procs s me) = RUNNING → (∀ p, c ≠ ChProc p) →
  wlp (sleep me c) (λ _ s', calm s s') s.
Proof.
  intros Hr Hc. apply wp_wlp, sleep_wp.
  eapply (calm_entry s _ me (set_p_state SLEEPING (set_p_chan (Some c) (procs s me)))); try done.
  - split; cbn; [by rewrite !fupd_eq|]. intros q Hq. by rewrite !fupd_ne.
  - by split; rewrite Hr.
  - by rewrite Hr.
  - intros _ q [= ->]. by apply (Hc q).
Qed.

Lemma wakeup_calm me c s : wlp (wakeup me c) (λ _ s', calm s s') s.
Proof.
  apply wp_wlp, wakeup_wp. intros f Hf. apply awakened_calm; try done. intros p. cbn. rewrite Hf.
  pose proof (woken_facts me c p (procs s p)) as (H1 & H2 & H3). rewrite woken_pid. auto.
Qed.

Lemma kkill_calm pid s : wlp (kkill pid) (λ _ s', calm s s') s.
Proof. eapply wlp_mono; [apply kkill_awakened|]. intros r s' (Ha & Ei & En). by apply awakened_calm. Qed.

(** The steps by their effect on the table. *)
Lemma life_step_cases x y : life_step x y →
  let P := pend x in let P' := pend y in let s := kst x in let s' := kst y in
  (∃ me, running me s ∧ P !! me = None ∧ forks y = forks x + 1 ∧
     (P' = P ∧ alloc_failed s s' ∨ ∃ np, P' = <[me := (np, false)]> P ∧ first_free s np ∧ allocating s np s')) ∨
  forks y = forks x ∧
  ((∃ me np, running me s ∧ P !! me = Some (np, false) ∧ P' = <[me := (np, true)]> P ∧ s' = upd_proc np (set_p_parent me) s) ∨
   (∃ me np, running me s ∧ P !! me = Some (np, true) ∧ P' = delete me P ∧ s' = upd_proc np (set_p_state RUNNABLE) s) ∨
   P' = P ∧
   ((∃ me, running me s ∧ P !! me = None ∧ initproc s' = initproc s ∧ nextpid s' = nextpid s ∧ waited me s s') ∨
    (∃ me, running me s ∧ P !! me = None ∧ me ≠ initproc s ∧ (wait_inv s → exited me s s')) ∨
    calm s s')).
Proof.
  destruct 1 as [me np pid P n s s' Hr HP E|me np P n s s' Hr HP E|me np P n s s' Hr HP E|me addr r P n s s' Hr HP E|
    me status P n s s' Hr HP Hni E|pid r P n s s' E|p r P n s s' E|me P n s s' Hr E|me c P n s s' Hr HP Hc E|me c P n s s' E|
    P n s s' E Ei En]; cbn [pend kst forks]; cbv zeta; [left|right; split; [done|]..].
  - exists me. split_and!; [done..|]. destruct (fork_create_wlp me s _ _ E) as [[Hf Hn]|(Hf & Ha & _)]; cbn [fst] in *.
    + left. subst np. by rewrite Z.eqb_refl.
    + right. exists np. destruct (Hf) as ((Hnp & _) & _). rewrite (proj2 (Z.eqb_neq np (-1))) by lia. done.
  - left. exists me, np. injection E as <-. done.
  - right. left. exists me, np. injection E as <-. done.
  - do 2 right. split; [done|]. left. destruct (kwait_wlp me addr s r s' E) as (K1 & K2 & K3). by exists me.
  - do 2 right. split; [done|]. right. left. exists me. split_and!; [done..|]. intros Hw. destruct Hr as [Hme Hr].
    pose proof (wp_wlp _ _ _ (exit_zombie_wp me status s Hw Hme Hr)) as H. by destruct (H _ _ E).
  - do 2 right. split; [done|]. do 2 right. exact (kkill_calm pid s r s' E).
  - do 2 right. split; [done|]. do 2 right. exact (schedule_calm p s r s' E).
  - do 2 right. split; [done|]. do 2 right. exact (yield_calm me s (proj2 Hr) tt s' E).
  - do 2 right. split; [done|]. do 2 right. exact (sleep_calm me c s (proj2 Hr) Hc tt s' E).
  - do 2 right. split; [done|]. do 2 right. exact (wakeup_calm me c s tt s' E).
  - do 2 right. split; [done|]. do 2 right. apply awakened_calm; [|done..]. rewrite E. apply awakened_refl.
Qed.

(** ** The invariants *)
Definition life_inv (x : life) : Prop := wait_inv (kst x) ∧ pend_inv (pend x) (kst x).

(** A new entry joins those being made. *)
Lemma pend_inv_new P s s' me np : wait_inv s → pend_inv P s → P !! me = None → running me s →
  first_free s np → allocating s np s' → pend_inv (<[me := (np, false)]> P) s'.
Proof.
  intros Hw [H1 H2] HP [Hme Hr] (Hnp & Hu & _) ((pr & [E1 E2] & T1 & _ & T3 & _) & Ei & _).
  assert (∀ me' np' b, P !! me' = Some (np', b) → np' ≠ np) as Hne.
  { intros me' np' b Hp ->. destruct (H1 _ _ _ Hp) as (_ & _ & _ & Hst & _). congruence. }
  split.
  - intros me' np' b. rewrite lookup_insert_Some. intros [[<- [= <- <-]]|[Hm Hp]].
    + rewrite E1, T3, Ei. split_and!; [lia..| | |done|by apply (wi_free s Hw)].
      * intros ->. congruence.
      * intros ->. destruct (wi_init s Hw) as (_ & _ & Hl & _). congruence.
    + rewrite E2, Ei by by eapply Hne. by apply H1.
  - intros m1 m2 n b b'. rewrite !lookup_insert_Some. intros [[<- [= <- <-]]|[Hm Hp]] [[<- Hx]|[Hm' Hp']]; try done.
    + by destruct (Hne _ _ _ Hp').
    + injection Hx as <- <-. by destruct (Hne _ _ _ Hp).
    + by eapply H2.
Qed.

Lemma alloc_failed_kept s s' : alloc_failed s s' → used_kept s s'.
Proof.
  intros (_ & [[E _]|(_ & p & pr & _ & Hu & Hat)]); [intros p; by rewrite E|].
  apply (used_kept_entry _ _ _ _ Hat). by rewrite Hu.
Qed.

(** The parent of an entry being made is recorded. *)
Lemma life_inv_parent P s me np : wait_inv s → pend_inv P s → running me s → P !! me = Some (np, false) →
  wait_inv (upd_proc np (set_p_parent me) s) ∧ pend_inv (<[me := (np, true)]> P) (upd_proc np (set_p_parent me) s).
Proof.
  intros Hw [H1 H2] [Hme Hr] HP. destruct (H1 _ _ _ HP) as (A & B & C & D & E). set (s' := upd_proc np _ s).
  destruct (upd_proc_entry np (set_p_parent me) s) as [E1 E2]. fold s' in E1, E2.
  assert (∀ q, p_state (procs s' q) = p_state (procs s q) ∧ p_chan (procs s' q) = p_chan (procs s q) ∧ (q ≠ np → p_parent (procs s' q) = p_parent (procs s q))) as K.
  { intros q. destruct (decide (q = np)) as [->|]; [by rewrite E1|by rewrite E2]. }
  split.
  - destruct Hw as [W1 W2 (W3 & W4 & W5) W6]. split.
    + intros p Hp. destruct (K p) as (-> & _ & Kp). destruct (decide (p = np)) as [->|]; [congruence|]. rewrite Kp by done. by apply W1.
    + intros p Hp. destruct (decide (p = np)) as [->|]; [rewrite E1; cbn; congruence|]. rewrite E2 by done. by apply W2.
    + change (initproc s') with (initproc s). rewrite E2 by congruence. done.
    + intros p (Hp & Hst & Hc). destruct (K p) as (K1 & K2 & _). rewrite K1 in Hst. rewrite K2 in Hc.
      destruct (W6 p) as [(d & Hd & Hdp & Hdl) Hz]; [done|]. assert (p ≠ me) as Hpm by congruence. split.
      * exists d. assert (d ≠ np) by (intros ->; lia). by rewrite E2.
      * intros e He. destruct (decide (e = np)) as [->|]; [rewrite E1; cbn; congruence|]. rewrite E2 by done. by apply Hz.
  - split.
    + intros m n b. rewrite lookup_insert_Some. intros [[<- [= <- <-]]|[Hm Hp]]; [by rewrite E1|].
      assert (n ≠ np) by (intros ->; apply Hm; by eapply H2). rewrite E2 by done. by apply H1.
    + intros m1 m2 n b b'. rewrite !lookup_insert_Some. intros [[<- [= <- <-]]|[Hm Hp]] [[<- Hx]|[Hm' Hp']]; try done.
      * by eapply H2.
      * injection Hx as <- <-. by eapply H2.
      * by eapply H2.
Qed.

(** An entry being made becomes runnable. *)
Lemma life_inv_start P s me np : wait_inv s → pend_inv P s → P !! me = Some (np, true) →
  wait_inv (upd_proc np (set_p_state RUNNABLE) s) ∧ pend_inv (delete me P) (upd_proc np (set_p_state RUNNABLE) s).
Proof.
  intros Hw [H1 H2] HP. destruct (H1 _ _ _ HP) as (A & B & C & D & E). set (s' := upd_proc np _ s).
  destruct (upd_proc_entry np (set_p_state RUNNABLE) s) as [E1 E2]. fold s' in E1, E2. split.
  - apply (quiet_wait_inv s); [done|].
    assert (∀ q, p_parent (procs s' q) = p_parent (procs s q) ∧ (p_state (procs s' q) = p_state (procs s q) ∨ q = np)) as K.
    { intros q. destruct (decide (q = np)) as [->|]; [rewrite E1; auto|rewrite E2; auto]. }
    split; [done|intros q _; apply K|..].
    + intros q _. destruct (K q) as [_ [->| ->]]; [done|]. rewrite E1, D. done.
    + intros q _. destruct (K q) as [_ [->| ->]]; [done|]. rewrite E1, D. done.
    + intros q (Hq & Hst & Hc). destruct (decide (q = np)) as [->|]; [rewrite E1 in Hst; done|]. rewrite E2 in Hst, Hc by done. done.
  - split; [|intros m1 m2 n b b' [_ ?]%lookup_delete_Some [_ ?]%lookup_delete_Some; by eapply H2].
    intros m n b [Hm Hp]%lookup_delete_Some. assert (n ≠ np) by (intros ->; apply Hm; by eapply H2). rewrite E2 by done. by apply H1.
Qed.

(** Exits of processes that are not forking. *)
Lemma pend_inv_exit P s s' me : pend_inv P s → running me s → P !! me = None → exited me s s' → pend_inv P s'.
Proof.
  intros [H1 H2] [Hme Hr] HP [[E1 _] _ E2 E3 E4 _]. split; [|done]. intros m n b Hp. destruct (H1 _ _ _ Hp) as (A & B & C & D & E).
  assert (n ≠ me) as Hn by congruence. rewrite E1, E2, E by done. split_and!; [lia..|done|done| |].
  - destruct (E4 n Hn) as [->|[? _]]; congruence.
  - rewrite decide_False; [done|]. destruct b; [congruence|lia].
Qed.

Lemma life_step_inv x y : life_step x y → life_inv x → life_inv y.
Proof.
  intros Hst [Hw Hp]. destruct (life_step_cases x y Hst) as [(me & Hr & HP & _ & Hc)|(_ & Hc)].
  - destruct Hc as [[E Hf]|(np & E & Hf & Ha)]; unfold life_inv; rewrite E.
    + split; [by eapply alloc_failed_inv|]. eapply pend_inv_kept; [done|by destruct Hf|by apply alloc_failed_kept].
    + split; [|by eapply pend_inv_new]. pose proof Hf as (Hnp & Hu & _). destruct Ha as ((pr & Hat & T1 & _ & T3 & _) & Ei & _).
      eapply (wait_inv_new (kst x)); try done; rewrite ?T1, ?T3; try done. rewrite (wi_free _ Hw) by done. lia.
  - destruct Hc as [(me & np & Hr & HP & E & Es)|[(me & np & Hr & HP & E & Es)|(E & Hc)]]; unfold life_inv; rewrite E, ?Es.
    + by apply life_inv_parent.
    + by apply life_inv_start.
    + destruct Hc as [(me & [Hme Hr] & HP & Ei & _ & Hwt)|[(me & Hr & HP & Hni & Hx)|(Hq & _ & Hu)]].
      * split; [by eapply waited_inv|]. eapply pend_inv_kept; [done..|by eapply waited_kept].
      * split; [destruct Hr; by eapply exited_inv; eauto|by eapply pend_inv_exit; eauto].
      * split; [by eapply quiet_wait_inv|]. eapply pend_inv_kept; [done|apply Hq|done].
Qed.

Lemma life_steps_inv x y : rtc life_step x y → life_inv x → life_inv y.
Proof. induction 1 as [|x y z Hst _ IH]; [done|]. intros H. apply IH. by eapply life_step_inv. Qed.

(** C13: no exit is missed.  In every state the system gets to by fork, in its
    three critical sections, wait, exit, kill, scheduling, sleeping and waking
    up, a process that is asleep in kwait has a living child to wait for and no
    child that has already exited. *)
Theorem wait_never_misses_exit x0 x p :
  life_inv x0 → rtc life_step x0 x → let s := kst x in sleeps_on (ChProc p) p s →
  (∃ c, 0 ≤ c < NPROC ∧ p_parent (procs s c) = p ∧ live (procs s c)) ∧
  ∀ c, 0 ≤ c < NPROC → p_parent (procs s c) = p → p_state (procs s c) ≠ ZOMBIE.
Proof. intros H0 Hs. destruct (life_steps_inv x0 x Hs H0) as [Hw _]. apply (wi_wait _ Hw). Qed.

(** Pids over a run, as long as the counter has not reached its end. *)
Lemma pid_inv_step x y : life_step x y → life_inv x → pid_inv (kst x) →
  (forks y = forks x ∨ nextpid (kst x) < 2^31 - 1) →
  pid_inv (kst y) ∧ forks x ≤ forks y ∧ nextpid (kst y) ≤ nextpid (kst x) + (forks y - forks x).
Proof.
  intros Hst [Hw Hpd] Hp Hn. pose proof (pi_next _ Hp) as Hnx.
  destruct (life_step_cases x y Hst) as [(me & Hr & HP & Ef & Hc)|(Ef & Hc)]; rewrite Ef in *.
  - assert (nextpid (kst x) < 2^31 - 1) as Hb by lia. destruct Hc as [[_ Hf]|(np & _ & (Hnp & Hu & _) & (pr & Hat & T1 & T2 & _) & _ & En)].
    + split; [by eapply alloc_failed_pids|]. destruct Hf as (_ & [[_ En]|[En _]]); rewrite En, ?s32_small by lia; lia.
    + rewrite s32_small in En by lia. split; [|lia]. eapply (pid_inv_new _ _ np pr); try done. by rewrite T1.
  - replace (nextpid (kst x) + (forks x - forks x)) with (nextpid (kst x)) by lia.
    destruct Hc as [(me & np & Hr & HP & _ & ->)|[(me & np & Hr & HP & _ & ->)|(_ & Hc)]].
    1, 2: destruct (pd_entry _ _ Hpd _ _ _ HP) as (_ & _ & _ & D & _); split; [|done];
      apply (same_pids_inv (kst x)); [done|]; split; [done|..]; intros q Hq; cbn; rewrite fupd_spec; case_decide; subst; cbn; rewrite ?D; done.
    destruct Hc as [(me & [Hme Hr] & _ & _ & En & Hwt)|[(me & [Hme Hr] & _ & _ & Hx)|(_ & Hs & _)]].
    + split; [by eapply waited_pids|]. lia.
    + specialize (Hx Hw). split; [by eapply exited_pids|]. destruct Hx as [[_ ->] _ _ _ _ _]. lia.
    + split; [by eapply same_pids_inv|]. rewrite (sp_next _ _ Hs). lia.
Qed.

Lemma pid_inv_steps x y : rtc life_step x y → life_inv x → pid_inv (kst x) →
  forks x ≤ forks y ∧ (nextpid (kst x) + (forks y - forks x) < 2^31 → pid_inv (kst y)).
Proof.
  induction 1 as [x|x y z Hst Hs IH]; intros Hi Hp; [split; [lia|done]|]. pose proof (life_step_inv _ _ Hst Hi) as Hi'.
  assert (forks y = forks x ∨ forks y = forks x + 1) as Hf.
  { destruct (life_step_cases x y Hst) as [(_ & _ & _ & E & _)|(E & _)]; auto. }
  destruct (decide (forks y = forks x ∨ nextpid (kst x) < 2^31 - 1)) as [Hc|Hc].
  - destruct (pid_inv_step _ _ Hst Hi Hp Hc) as (Hp' & H1 & H2). destruct (IH Hi' Hp') as [H3 H4]. split; [lia|]. intros. apply H4. lia.
  - assert (forks y ≤ forks z) as Hm.
    { clear -Hs. induction Hs as [|a b c Hst _ IH]; [done|]. destruct (life_step_cases a b Hst) as [(_ & _ & _ & E & _)|(E & _)]; lia. }
    split; lia.
Qed.

(** C35: process identifiers are unique until the counter overflows.  In every
    state reached by these steps in a run in which the number of forks does not
    take nextpid, an int, to 2^31, the processes have different pids, each a
    positive number below nextpid, and no free entry has one of them. *)
Theorem pids_unique x0 x :
  life_inv x0 → pid_inv (kst x0) → rtc life_step x0 x → nextpid (kst x0) + (forks x - forks x0) < 2^31 → let s := kst x in
  ∀ p q, 0 ≤ p < NPROC → 0 ≤ q < NPROC → p_state (procs s p) ≠ UNUSED →
    1 ≤ p_pid (procs s p) < nextpid s ∧
    (p_pid (procs s p) = p_pid (procs s q) → p = q).
Proof.
  intros H0 Hp0 Hs Hb s p q Hp Hq Hu. destruct (pid_inv_steps x0 x Hs H0 Hp0) as [_ H]. destruct (H Hb) as [P1 P2 P3 P4].
  split; [by apply P2|]. intros E. destruct (decide (p_state (procs s q) = UNUSED)) as [Hq'|Hq'].
  - unfold s in *. rewrite (P3 q Hq Hq') in E. specialize (P2 p Hp Hu). lia.
  - by apply P4.
Qed.

(** C40: kill of pid 0 hits a free entry.  Free entries have pid 0, so
    kkill(0), instead of failing, succeeds and marks the first free entry as
    killed; allocproc does not clear the mark, and the next process created
    starts out killed. *)
Theorem kkill_zero_poisons_next s p :
  pid_inv s → first_free s p →
  ∃ s', kkill 0 s = Done (0, s') ∧
    wlp allocproc (λ np s'', np = -1 ∨ (np = p ∧ p_killed (procs s'' p) = 1)) s'.
Proof.
  intros [_ P2 P3 _] Hfirst. pose proof Hfirst as (Hp & Hu & Hq).
  assert (wp (kkill 0) (λ r s', r = 0 ∧ first_free s' p ∧ p_killed (procs s' p) = 1) s) as Hk.
  { unfold kkill. wp_step. eapply (wp_for (λ j s', s' = s ∧ j ≤ p)).
    - split; [done|lia].
    - intros j s' Hj [-> Hjp]. wp_steps. destruct (decide (j = p)) as [->|Hjp'].
      + rewrite (P3 p Hp Hu). cbn [Z.eqb]. wp_steps. rewrite bool_decide_eq_false_2 by (by rewrite Hu). wp_steps.
        split_and!; [done| |cbn; by rewrite fupd_eq]. split_and!; [lia..| |].
        * cbn. by rewrite fupd_eq.
        * intros q Hqp. cbn. rewrite fupd_ne by lia. by apply Hq.
      + pose proof (P2 j ltac:(lia) (Hq j ltac:(lia))).
        rewrite (proj2 (Z.eqb_neq _ _)) by lia. wp_steps. split; [done|lia].
    - intros s' [_ ?]. lia. }
  destruct (wp_elim _ _ _ Hk) as (r & s' & E & -> & (Hp' & Hu' & Hq') & Hkil). exists s'. split; [done|].
  apply allocproc_wlp; [by left|]. intros np s'' (Hnp & Hnu & Hnq) ((pr & [E1 _] & _ & _ & _ & Hk' & _) & _). right.
  assert (np = p) as ->.
  { destruct (Z.lt_trichotomy np p) as [H|[H|H]]; [|done|].
    - destruct (Hq' np); [lia|done].
    - destruct (Hnq p); [lia|done]. }
  split; [done|]. rewrite E1. congruence.
Qed.
End life.
