(* ===== verification/Exec.v ===== *)
(** kernel/exec.c: loading a program. *)

From S2P Require Import Prelude Riscv Memory Kalloc Vm State Printf Proc Pipe Bio Log Fs Console File ProcLife.

Abbreviation ELF_MAGIC := 0x464C457F (only parsing).
Abbreviation ELF_PROG_LOAD := 1 (only parsing).
Abbreviation USERSTACK := 1 (only parsing).

Definition flags2perm (flags : Z) : Z :=
  let perm := if has flags 1 then PTE_X else 0 in
  if has flags 2 then Z.lor perm PTE_W else perm.

(** A field of [n] bytes at offset [o] of a structure read from a file. *)
Definition field (l : list Z) (o n : nat) : Z := le_val (take n (drop o l)).

(** struct elfhdr (64 bytes) and struct proghdr (56 bytes). *)
Definition elf_magic (l : list Z) : Z := field l 0 4.
Definition elf_entry (l : list Z) : Z := field l 24 8.
Definition elf_phoff (l : list Z) : Z := field l 32 8.
Definition elf_phnum (l : list Z) : Z := field l 56 2.
Definition ph_type (l : list Z) : Z := field l 0 4.
Definition ph_flags (l : list Z) : Z := field l 4 4.
Definition ph_off (l : list Z) : Z := field l 8 8.
Definition ph_vaddr (l : list Z) : Z := field l 16 8.
Definition ph_filesz (l : list Z) : Z := field l 32 8.
Definition ph_memsz (l : list Z) : Z := field l 40 8.

Section exec.
Context `{KI : KernelImage} `{KE : KernelEntry}.

Definition loadseg (me pagetable va ip offset sz : Z) : M kstate Z :=
  while (S (Z.to_nat (sz / PGSIZE + 1))) (λ i,
    if i <? sz then
      pa <- on_kmem (walkaddr pagetable (u64 (va + i))) ;;
      if pa =? 0 then panic "loadseg: address should exist" else
      let n := if sz - i <? PGSIZE then sz - i else PGSIZE in
      r <- readi me ip (ToPage pa) (u32 (offset + i)) n ;;
      if negb (u32 (fst r) =? n) then ret (inr (-1)) else
      ret (inl (i + PGSIZE))
    else ret (inr 0)) 0.

(** One program header: [Some sz] goes on with the new size, [None] is
    goto bad with the size reached so far. *)
Definition load_ph (me ip pagetable sz off : Z) : M kstate (Z * bool) :=
  r <- readi me ip ToLocal (u32 off) 56 ;;
  let ph := snd r in
  if negb (fst r =? 56) then ret (sz, false) else
  if negb (ph_type ph =? ELF_PROG_LOAD) then ret (sz, true) else
  if ph_memsz ph <? ph_filesz ph then ret (sz, false) else
  if u64 (ph_vaddr ph + ph_memsz ph) <? ph_vaddr ph then ret (sz, false) else
  if negb (ph_vaddr ph mod PGSIZE =? 0) then ret (sz, false) else
  sz1 <- on_kmem (uvmalloc pagetable sz (u64 (ph_vaddr ph + ph_memsz ph)) (flags2perm (ph_flags ph))) ;;
  if sz1 =? 0 then ret (sz, false) else
  l <- loadseg me pagetable (ph_vaddr ph) ip (u32 (ph_off ph)) (u32 (ph_filesz ph)) ;;
  ret (sz1, negb (l <? 0)).

(** for(i=0, off=elf.phoff; i<elf.phnum; i++, off+=sizeof(ph)) *)
Fixpoint load_phs (n : nat) (me ip pagetable sz off : Z) : M kstate (Z * bool) :=
  match n with
  | O => ret (sz, true)
  | S n' =>
      r <- load_ph me ip pagetable sz off ;;
      if snd r then load_phs n' me ip pagetable (fst r) (s32 (off + 56)) else ret r
  end.

(** Push the argument strings: the stack pointer and ustack[], or None. *)
Fixpoint push_args (pagetable stackbase : Z) (argv : list (list Z)) (sp : Z) (ustack : list Z) :
    M kstate (option (Z * list Z)) :=
  match argv with
  | [] => ret (Some (sp, ustack))
  | s :: argv' =>
      if MAXARG <=? Z.of_nat (length ustack) then ret None else
      let sp := u64 (sp - (Z.of_nat (length s) + 1)) in
      let sp := sp - sp mod 16 in
      if sp <? stackbase then ret None else
      r <- on_kmem (copyout pagetable sp (s ++ [0])) ;;
      if r <? 0 then ret None else
      push_args pagetable stackbase argv' sp (ustack ++ [sp])
  end.

(** The name after the last slash. *)
Fixpoint last_elem (last s : list Z) : list Z :=
  match s with
  | [] => last
  | c :: s' => last_elem (if c =? SLASH then s' else last) s'
  end.

(** The stack of the new image: sz and, unless it fails, sp and argc. *)
Definition exec_stack (pagetable sz : Z) (argv : list (list Z)) : M kstate (Z * option (Z * Z)) :=
  let sz := PGROUNDUP sz in
  sz1 <- on_kmem (uvmalloc pagetable sz (u64 (sz + (USERSTACK + 1) * PGSIZE)) PTE_W) ;;
  if sz1 =? 0 then ret (sz, None) else
  let sz := sz1 in
  on_kmem (uvmclear pagetable (u64 (sz - (USERSTACK + 1) * PGSIZE))) ;;
  let stackbase := u64 (sz - USERSTACK * PGSIZE) in
  r <- push_args pagetable stackbase argv sz [] ;;
  match r with
  | None => ret (sz, None)
  | Some (sp, ustack) =>
      let argc := Z.of_nat (length ustack) in
      if MAXARG <=? argc then undef "ustack[argc]" else
      let sp := u64 (sp - (argc + 1) * 8) in
      let sp := sp - sp mod 16 in
      if sp <? stackbase then ret (sz, None) else
      r <- on_kmem (copyout pagetable sp (concat (map (le_bytes 8) (ustack ++ [0])))) ;;
      if r <? 0 then ret (sz, None) else
      ret (sz, Some (sp, argc))
  end.

(** argv: the strings before the null pointer that ends the array. *)
Definition kexec (me : Z) (path : list Z) (argv : list (list Z)) : M kstate Z :=
  begin_op me ;;
  ip <- namei me path ;;
  if ip =? -1 then end_op me ;; ret (-1) else
  ilock me ip ;;
  r <- readi me ip ToLocal 0 64 ;;
  let elf := snd r in
  if negb (fst r =? 64) || negb (elf_magic elf =? ELF_MAGIC) then
    iunlockput me ip ;; end_op me ;; ret (-1)
  else
  tf <- gets (λ s, p_trapframe (procs s me)) ;;
  pagetable <- on_kmem (proc_pagetable tf) ;;
  if pagetable =? 0 then
    iunlockput me ip ;; end_op me ;; ret (-1)
  else
  r <- load_phs (Z.to_nat (elf_phnum elf)) me ip pagetable 0 (s32 (elf_phoff elf)) ;;
  let '(sz, ok) := r in
  if negb ok then
    on_kmem (proc_freepagetable pagetable sz) ;;
    iunlockput me ip ;; end_op me ;; ret (-1)
  else
  iunlockput me ip ;;
  end_op me ;;
  oldsz <- gets (λ s, p_sz (procs s me)) ;;
  r <- exec_stack pagetable sz argv ;;
  match r with
  | (sz, None) =>
      on_kmem (proc_freepagetable pagetable sz) ;; ret (-1)
  | (sz, Some (sp, argc)) =>
      on_kmem (store64 (tf + TF_a1) sp) ;;
      modify (upd_proc me (set_p_name (take 15 (last_elem path path)))) ;;
      oldpagetable <- gets (λ s, p_pagetable (procs s me)) ;;
      modify (upd_proc me (set_p_pagetable pagetable)) ;;
      modify (upd_proc me (set_p_sz sz)) ;;
      on_kmem (store64 (tf + TF_epc) (elf_entry elf)) ;;
      on_kmem (store64 (tf + TF_sp) sp) ;;
      on_kmem (proc_freepagetable oldpagetable oldsz) ;;
      ret argc
  end.

End exec.
