(* ===== verification/Sysfile.v ===== *)
(** kernel/syscall.c (arguments) and kernel/sysfile.c: the system calls on
    files.

    A user string that has been fetched is the list of its bytes without the
    NUL.  [Ret] is the value a system call returns; [Susp] has gone to sleep
    and is called again with what it kept; [Exited] does not return. *)

From S2P Require Import Prelude Riscv Memory Kalloc Vm State Printf Proc Pipe Bio Log Fs Console File ProcLife Exec.

Abbreviation O_RDONLY := 0 (only parsing).
Abbreviation O_WRONLY := 1 (only parsing).
Abbreviation O_RDWR := 2 (only parsing).
Abbreviation O_CREATE := 0x200 (only parsing).
Abbreviation O_TRUNC := 0x400 (only parsing).
Abbreviation O_NOFOLLOW := 0x1000 (only parsing).

Inductive sysret := Ret (v : Z) | Susp (k : resume) | Exited.

(** The C string at the start of a buffer. *)
Fixpoint cstr (l : list Z) : list Z :=
  match l with
  | [] => []
  | c :: l' => if c =? 0 then [] else c :: cstr l'
  end.

Section sysfile.
Context `{KI : KernelImage} `{KE : KernelEntry}.

(** ** Arguments *)

(** The result code and the eight bytes as an integer. *)
Definition fetchaddr (me addr : Z) : M kstate (Z * Z) :=
  p <- gets (λ s, procs s me) ;;
  if (p_sz p <=? addr) || (p_sz p <? u64 (addr + 8)) then ret (-1, 0) else
  r <- on_kmem (copyin (p_pagetable p) addr 8) ;;
  if negb (fst r =? 0) then ret (-1, 0) else ret (0, le_val (snd r)).

(** The result code and the bytes written to buf. *)
Definition fetchstr (me addr max : Z) : M kstate (Z * list Z) :=
  p <- gets (λ s, procs s me) ;;
  r <- on_kmem (copyinstr (p_pagetable p) addr max) ;;
  if fst r <? 0 then ret (-1, snd r) else
  ret (Z.of_nat (length (cstr (snd r))), snd r).

Definition argraw (me n : Z) : M kstate Z :=
  tf <- gets (λ s, p_trapframe (procs s me)) ;;
  if in_table n 6 then on_kmem (load64 (tf + TF_a0 + 8 * n)) else panic "argraw".

Definition argint (me n : Z) : M kstate Z := v <- argraw me n ;; ret (s32 v).
Definition argaddr (me n : Z) : M kstate Z := argraw me n.
Definition argstr (me n max : Z) : M kstate (Z * list Z) :=
  addr <- argaddr me n ;; fetchstr me addr max.

(** The descriptor and the file, or None. *)
Definition argfd (me n : Z) : M kstate (option (Z * Z)) :=
  fd <- argint me n ;;
  if (fd <? 0) || (NOFILE <=? fd) then ret None else
  f <- gets (λ s, p_ofile (procs s me) fd) ;;
  ret (if f =? -1 then None else Some (fd, f)).

Definition set_ofile (me fd f : Z) : M kstate unit :=
  modify (upd_proc me (λ p, set_p_ofile (fupd (p_ofile p) fd f) p)).

Definition fdalloc (me f : Z) : M kstate Z :=
  r <- for_ (Z.to_nat NOFILE) 0 (λ fd,
    g <- gets (λ s, p_ofile (procs s me) fd) ;;
    if g =? -1 then set_ofile me fd f ;; ret (Some fd) else ret None) ;;
  ret (default (-1) r).

(** ** Calls on open files *)
Definition sys_dup (me : Z) : M kstate Z :=
  a <- argfd me 0 ;;
  match a with
  | None => ret (-1)
  | Some (_, f) =>
      fd <- fdalloc me f ;;
      if fd <? 0 then ret (-1) else
      _ <- filedup f ;;
      ret fd
  end.

Definition to_sysret (r : resume + Z) : sysret :=
  match r with inl k => Susp k | inr v => Ret v end.

Definition sys_read (me : Z) (k : resume) : M kstate sysret :=
  p <- argaddr me 1 ;;
  n <- argint me 2 ;;
  a <- argfd me 0 ;;
  match a with
  | None => ret (Ret (-1))
  | Some (_, f) => r <- fileread me f p n k ;; ret (to_sysret r)
  end.

Definition sys_write (me : Z) (k : resume) : M kstate sysret :=
  p <- argaddr me 1 ;;
  n <- argint me 2 ;;
  a <- argfd me 0 ;;
  match a with
  | None => ret (Ret (-1))
  | Some (_, f) => r <- filewrite me f p n k ;; ret (to_sysret r)
  end.

Definition sys_close (me : Z) : M kstate Z :=
  a <- argfd me 0 ;;
  match a with
  | None => ret (-1)
  | Some (fd, f) =>
      set_ofile me fd (-1) ;;
      fileclose me f ;;
      ret 0
  end.

Definition sys_fstat (me : Z) (pad : list Z) : M kstate Z :=
  st <- argaddr me 1 ;;
  a <- argfd me 0 ;;
  match a with
  | None => ret (-1)
  | Some (_, f) => filestat me f st pad
  end.

(** ** Calls on path names *)

(** bad: of sys_link. *)
Definition link_bad (me ip : Z) : M kstate Z :=
  ilock me ip ;;
  ino_set ip (λ x, set_i_nlink (s16 (i_nlink x - 1)) x) ;;
  iupdate me ip ;;
  iunlockput me ip ;;
  end_op me ;;
  ret (-1).

Definition sys_link (me : Z) : M kstate Z :=
  old <- argstr me 0 MAXPATH ;;
  if fst old <? 0 then ret (-1) else
  new <- argstr me 1 MAXPATH ;;
  if fst new <? 0 then ret (-1) else
  begin_op me ;;
  ip <- namei me (cstr (snd old)) ;;
  if ip =? -1 then end_op me ;; ret (-1) else
  ilock me ip ;;
  i <- ino ip ;;
  if i_type i =? T_DIR then
    iunlockput me ip ;; end_op me ;; ret (-1)
  else
  ino_set ip (λ x, set_i_nlink (s16 (i_nlink x + 1)) x) ;;
  iupdate me ip ;;
  iunlock me ip ;;
  r <- nameiparent me (cstr (snd new)) ;;
  let '(dp, name) := r in
  if dp =? -1 then link_bad me ip else
  ilock me dp ;;
  d <- ino dp ;;
  i <- ino ip ;;
  l <- (if negb (i_dev d =? i_dev i) then ret (-1) else dirlink me dp name (i_inum i)) ;;
  if l <? 0 then iunlockput me dp ;; link_bad me ip else
  iunlockput me dp ;;
  iput me ip ;;
  end_op me ;;
  ret 0.

Definition isdirempty (me dp : Z) : M kstate bool :=
  i <- ino dp ;;
  while (S (Z.to_nat (i_size i / 16 + 1))) (λ off,
    i <- ino dp ;;
    if off <? i_size i then
      r <- readi me dp ToLocal off 16 ;;
      if negb (fst r =? 16) then panic "isdirempty: readi" else
      if negb (de_inum (snd r) =? 0) then ret (inr false) else ret (inl (off + 16))
    else ret (inr true)) 32.

(** bad: of sys_unlink. *)
Definition unlink_bad (me dp : Z) : M kstate Z :=
  iunlockput me dp ;; end_op me ;; ret (-1).

Abbreviation DOT := 46 (only parsing).

Definition sys_unlink (me : Z) : M kstate Z :=
  path <- argstr me 0 MAXPATH ;;
  if fst path <? 0 then ret (-1) else
  begin_op me ;;
  r <- nameiparent me (cstr (snd path)) ;;
  let '(dp, name) := r in
  if dp =? -1 then end_op me ;; ret (-1) else
  ilock me dp ;;
  if (namecmp name [DOT] =? 0) || (namecmp name [DOT; DOT] =? 0) then unlink_bad me dp else
  r <- dirlookup me dp name ;;
  let '(ip, off) := r in
  if ip =? -1 then unlink_bad me dp else
  ilock me ip ;;
  i <- ino ip ;;
  if i_nlink i <? 1 then panic "unlink: nlink < 1" else
  e <- (if i_type i =? T_DIR then isdirempty me ip else ret true) ;;
  if negb e then iunlockput me ip ;; unlink_bad me dp else
  w <- writei me dp (FromLocal (replicate 16 0)) off 16 ;;
  if negb (w =? 16) then panic "unlink: writei" else
  (when i_type i =? T_DIR do
    (ino_set dp (λ x, set_i_nlink (s16 (i_nlink x - 1)) x) ;;
     iupdate me dp)) ;;
  iunlockput me dp ;;
  ino_set ip (λ x, set_i_nlink (s16 (i_nlink x - 1)) x) ;;
  iupdate me ip ;;
  iunlockput me ip ;;
  end_op me ;;
  ret 0.

(** fail: of create. *)
Definition create_fail (me ip dp : Z) : M kstate Z :=
  ino_set ip (set_i_nlink 0) ;;
  iupdate me ip ;;
  iunlockput me ip ;;
  iunlockput me dp ;;
  ret (-1).

(** The inode, locked, or -1. *)
Definition create (me : Z) (path : list Z) (type major minor : Z) : M kstate Z :=
  r <- nameiparent me path ;;
  let '(dp, name) := r in
  if dp =? -1 then ret (-1) else
  ilock me dp ;;
  r <- dirlookup me dp name ;;
  let ip := fst r in
  if negb (ip =? -1) then
    iunlockput me dp ;;
    ilock me ip ;;
    i <- ino ip ;;
    if (type =? T_FILE) && ((i_type i =? T_FILE) || (i_type i =? T_DEVICE)) then ret ip else
    iunlockput me ip ;; ret (-1)
  else
  d <- ino dp ;;
  ip <- ialloc me (i_dev d) type ;;
  if ip =? -1 then iunlockput me dp ;; ret (-1) else
  ilock me ip ;;
  ino_set ip (set_i_major major) ;;
  ino_set ip (set_i_minor minor) ;;
  ino_set ip (set_i_nlink 1) ;;
  iupdate me ip ;;
  i <- ino ip ;;
  l <- (if type =? T_DIR then
          l <- dirlink me ip [DOT] (i_inum i) ;;
          if l <? 0 then ret (-1) else
          d <- ino dp ;; dirlink me ip [DOT; DOT] (i_inum d)
        else ret 0) ;;
  if l <? 0 then create_fail me ip dp else
  l <- dirlink me dp name (i_inum i) ;;
  if l <? 0 then create_fail me ip dp else
  (when type =? T_DIR do
    (ino_set dp (λ x, set_i_nlink (s16 (i_nlink x + 1)) x) ;;
     iupdate me dp)) ;;
  iunlockput me dp ;;
  ret ip.

(** The loop of sys_open that follows symbolic links: the inode it ends at,
    locked, or -1 (nothing locked). *)
Definition follow_links (me omode ip : Z) : M kstate Z :=
  while 13%nat (λ '(ip, depth),
    i <- ino ip ;;
    if (i_type i =? T_SYMLINK) && negb (has omode O_NOFOLLOW) then
      if 10 <? depth then iunlockput me ip ;; ret (inr (-1)) else
      r <- readi me ip ToLocal 0 (MAXPATH - 1) ;;
      if fst r <? 0 then iunlockput me ip ;; ret (inr (-1)) else
      let target := cstr (snd r) in
      iunlockput me ip ;;
      ip <- namei me target ;;
      if ip =? -1 then ret (inr (-1)) else
      ilock me ip ;;
      ret (inl (ip, depth + 1))
    else ret (inr ip)) (ip, 0).

(** The inode sys_open opens, locked, or -1. *)
Definition open_inode (me omode : Z) (path : list Z) : M kstate Z :=
  if has omode O_CREATE then create me path T_FILE 0 0 else
  ip <- namei me path ;;
  if ip =? -1 then ret (-1) else
  ilock me ip ;;
  ip <- follow_links me omode ip ;;
  if ip =? -1 then ret (-1) else
  i <- ino ip ;;
  if (i_type i =? T_DIR) && negb (omode =? O_RDONLY) then
    iunlockput me ip ;; ret (-1)
  else ret ip.

Definition sys_open (me : Z) : M kstate Z :=
  omode <- argint me 1 ;;
  path <- argstr me 0 MAXPATH ;;
  if fst path <? 0 then ret (-1) else
  begin_op me ;;
  ip <- open_inode me omode (cstr (snd path)) ;;
  if ip =? -1 then end_op me ;; ret (-1) else
  i <- ino ip ;;
  if (i_type i =? T_DEVICE) && ((i_major i <? 0) || (NDEV <=? i_major i)) then
    iunlockput me ip ;; end_op me ;; ret (-1)
  else
  f <- filealloc ;;
  fd <- (if f =? -1 then ret (-1) else fdalloc me f) ;;
  if (f =? -1) || (fd <? 0) then
    (when negb (f =? -1) do fileclose me f) ;;
    iunlockput me ip ;; end_op me ;; ret (-1)
  else
  (if i_type i =? T_DEVICE then
     modify (upd_file f (set_f_type FD_DEVICE)) ;;
     modify (upd_file f (set_f_major (i_major i)))
   else
     modify (upd_file f (set_f_type FD_INODE)) ;;
     modify (upd_file f (set_f_off 0))) ;;
  modify (upd_file f (set_f_ip ip)) ;;
  modify (upd_file f (set_f_readable (negb (has omode O_WRONLY)))) ;;
  modify (upd_file f (set_f_writable (has omode O_WRONLY || has omode O_RDWR))) ;;
  (when has omode O_TRUNC && (i_type i =? T_FILE) do itrunc me ip) ;;
  iunlock me ip ;;
  end_op me ;;
  ret fd.

Definition sys_mkdir (me : Z) : M kstate Z :=
  begin_op me ;;
  path <- argstr me 0 MAXPATH ;;
  ip <- (if fst path <? 0 then ret (-1) else create me (cstr (snd path)) T_DIR 0 0) ;;
  if ip =? -1 then end_op me ;; ret (-1) else
  iunlockput me ip ;;
  end_op me ;;
  ret 0.

Definition sys_mknod (me : Z) : M kstate Z :=
  begin_op me ;;
  major <- argint me 1 ;;
  minor <- argint me 2 ;;
  path <- argstr me 0 MAXPATH ;;
  ip <- (if fst path <? 0 then ret (-1)
         else create me (cstr (snd path)) T_DEVICE (s16 major) (s16 minor)) ;;
  if ip =? -1 then end_op me ;; ret (-1) else
  iunlockput me ip ;;
  end_op me ;;
  ret 0.

Definition sys_chdir (me : Z) : M kstate Z :=
  begin_op me ;;
  path <- argstr me 0 MAXPATH ;;
  ip <- (if fst path <? 0 then ret (-1) else namei me (cstr (snd path))) ;;
  if ip =? -1 then end_op me ;; ret (-1) else
  ilock me ip ;;
  i <- ino ip ;;
  if negb (i_type i =? T_DIR) then
    iunlockput me ip ;; end_op me ;; ret (-1)
  else
  iunlock me ip ;;
  cwd <- gets (λ s, p_cwd (procs s me)) ;;
  iput me cwd ;;
  end_op me ;;
  modify (upd_proc me (set_p_cwd ip)) ;;
  ret 0.

(** for(i = 0; i < NELEM(argv) && argv[i] != 0; i++) kfree(argv[i]); *)
Fixpoint free_args (pages : list Z) : M kstate unit :=
  match pages with
  | [] => ret tt
  | p :: pages' => on_kmem (kfree p) ;; free_args pages'
  end.

(** The loop of sys_exec: the pages allocated, the strings in them, and
    whether it ended at the null pointer. *)
Fixpoint fetch_args (n : nat) (me uargv i : Z) (pages : list Z) (argv : list (list Z)) :
    M kstate (list Z * list (list Z) * bool) :=
  match n with
  | O => ret (pages, argv, false)
  | S n' =>
      a <- fetchaddr me (u64 (uargv + 8 * i)) ;;
      if fst a <? 0 then ret (pages, argv, false) else
      if snd a =? 0 then ret (pages, argv, true) else
      page <- on_kmem kalloc ;;
      if page =? 0 then ret (pages, argv, false) else
      r <- fetchstr me (snd a) PGSIZE ;;
      on_kmem (modify (λ s, set_memory (write_bytes (memory s) page (snd r)) s)) ;;
      if fst r <? 0 then ret (pages ++ [page], argv, false) else
      fetch_args n' me uargv (i + 1) (pages ++ [page]) (argv ++ [cstr (snd r)])
  end.

Definition sys_exec (me : Z) : M kstate Z :=
  uargv <- argaddr me 1 ;;
  path <- argstr me 0 MAXPATH ;;
  if fst path <? 0 then ret (-1) else
  r <- fetch_args (Z.to_nat MAXARG) me uargv 0 [] [] ;;
  let '(pages, argv, ok) := r in
  if (ok : bool) then
    v <- kexec me (cstr (snd path)) argv ;;
    free_args pages ;;
    ret v
  else free_args pages ;; ret (-1).

Definition sys_pipe (me : Z) : M kstate Z :=
  fdarray <- argaddr me 0 ;;
  r <- pipealloc me ;;
  match r with
  | None => ret (-1)
  | Some (rf, wf) =>
      fd0 <- fdalloc me rf ;;
      fd1 <- (if fd0 <? 0 then ret (-1) else fdalloc me wf) ;;
      if (fd0 <? 0) || (fd1 <? 0) then
        (when 0 <=? fd0 do set_ofile me fd0 (-1)) ;;
        fileclose me rf ;;
        fileclose me wf ;;
        ret (-1)
      else
      pt <- gets (λ s, p_pagetable (procs s me)) ;;
      c0 <- on_kmem (copyout pt fdarray (le_bytes 4 fd0)) ;;
      c1 <- (if c0 <? 0 then ret (-1) else on_kmem (copyout pt (u64 (fdarray + 4)) (le_bytes 4 fd1))) ;;
      if c1 <? 0 then
        set_ofile me fd0 (-1) ;;
        set_ofile me fd1 (-1) ;;
        fileclose me rf ;;
        fileclose me wf ;;
        ret (-1)
      else ret 0
  end.

(** The results of argstr are not tested: [junk] is what the buffers of the
    call held before, which is used where argstr fails. *)
Definition sys_symlink (me : Z) (junk : list Z * list Z) : M kstate Z :=
  target <- argstr me 0 MAXPATH ;;
  path <- argstr me 1 MAXPATH ;;
  let buffer (l j : list Z) := cstr (l ++ drop (length l) j) in
  symlink me (buffer (snd target) (fst junk)) (buffer (snd path) (snd junk)).

End sysfile.
