(* ===== verification/Syscall.v ===== *)
(** kernel/sysproc.c, the dispatch of kernel/syscall.c and kernel/trap.c.

    A trap is handled with the values the machine gives it ([trap_in]): the
    control registers, what plic_claim returns and the state of the UART.
    Returning to user mode, switching contexts and the timer are machine
    code; the model covers what the C code does between them. *)

From S2P Require Import Prelude Riscv Memory Kalloc Vm State Printf Proc Pipe Mbox Shm Bio Log Fs Console File ProcLife Exec Sysfile.

Abbreviation SBRK_EAGER := 1 (only parsing).

Section sysproc.
Context `{KI : KernelImage} `{KE : KernelEntry}.

Definition sys_exit (me : Z) : M kstate sysret :=
  n <- argint me 0 ;; kexit me n ;; ret Exited.

Definition sys_getpid (me : Z) : M kstate Z := gets (λ s, p_pid (procs s me)).

Definition sys_fork (me : Z) : M kstate Z := kfork me.

Definition sys_wait (me : Z) : M kstate sysret :=
  p <- argaddr me 0 ;;
  r <- kwait me p ;;
  ret (match r with inl _ => Susp R0 | inr v => Ret v end).

Definition sys_sbrk (me : Z) : M kstate Z :=
  n <- argint me 0 ;;
  t <- argint me 1 ;;
  addr <- gets (λ s, p_sz (procs s me)) ;;
  if (t =? SBRK_EAGER) || (n <? 0) then
    r <- growproc me n ;;
    if r <? 0 then ret (-1) else ret addr
  else
  if u64 (addr + n) <? addr then ret (-1) else
  modify (upd_proc me (λ p, set_p_sz (u64 (p_sz p + n)) p)) ;;
  ret addr.

Definition sys_pause (me : Z) (k : resume) : M kstate sysret :=
  n <- argint me 0 ;;
  let n := if n <? 0 then 0 else n in
  now <- gets ticks ;;
  let ticks0 := match k with RTicks t => t | _ => now end in
  if u32 (now - ticks0) <? n then
    k <- killed me ;;
    if (k : bool) then ret (Ret (-1)) else
    sleep me ChTicks ;;
    ret (Susp (RTicks ticks0))
  else ret (Ret 0).

Definition sys_kill (me : Z) : M kstate Z := pid <- argint me 0 ;; kkill pid.

Definition sys_uptime (me : Z) : M kstate Z := gets ticks.

Definition sys_shm_create (me : Z) : M kstate Z := key <- argint me 0 ;; shm_create key.
Definition sys_shm_get (me : Z) : M kstate Z := key <- argint me 0 ;; shm_get me key.
Definition sys_shm_close (me : Z) : M kstate Z := key <- argint me 0 ;; shm_close key.
Definition sys_mbox_create (me : Z) : M kstate Z := key <- argint me 0 ;; mbox_create key.

Definition sys_mbox_send (me : Z) : M kstate sysret :=
  id <- argint me 0 ;;
  msg <- argint me 1 ;;
  r <- mbox_send me id msg ;;
  ret (match r with inl _ => Susp R0 | inr v => Ret v end).

Definition sys_mbox_recv (me : Z) : M kstate sysret :=
  id <- argint me 0 ;;
  addr <- argaddr me 1 ;;
  r <- mbox_recv me id ;;
  match r with
  | inl _ => ret (Susp R0)
  | inr (v, val) =>
      if v =? 0 then
        pt <- gets (λ s, p_pagetable (procs s me)) ;;
        c <- on_kmem (copyout pt addr (le_bytes 4 val)) ;;
        ret (Ret (if c <? 0 then -1 else v))
      else ret (Ret v)
  end.

(** ** Dispatch *)

(** What fstat and symlink find on the kernel stack. *)
Record stack_junk := mkJunk { stat_pad : list Z; link_bufs : list Z * list Z }.

Definition plain (c : M kstate Z) : M kstate sysret := v <- c ;; ret (Ret v).

(** syscalls[num]; None is an empty entry or a number outside the array. *)
Definition syscalls (num me : Z) (k : resume) (j : stack_junk) : option (M kstate sysret) :=
  match num with
  | 1 => Some (plain (sys_fork me))
  | 2 => Some (sys_exit me)
  | 3 => Some (sys_wait me)
  | 4 => Some (plain (sys_pipe me))
  | 5 => Some (sys_read me k)
  | 6 => Some (plain (sys_kill me))
  | 7 => Some (plain (sys_exec me))
  | 8 => Some (plain (sys_fstat me (stat_pad j)))
  | 9 => Some (plain (sys_chdir me))
  | 10 => Some (plain (sys_dup me))
  | 11 => Some (plain (sys_getpid me))
  | 12 => Some (plain (sys_sbrk me))
  | 13 => Some (sys_pause me k)
  | 14 => Some (plain (sys_uptime me))
  | 15 => Some (plain (sys_open me))
  | 16 => Some (sys_write me k)
  | 17 => Some (plain (sys_mknod me))
  | 18 => Some (plain (sys_unlink me))
  | 19 => Some (plain (sys_link me))
  | 20 => Some (plain (sys_mkdir me))
  | 21 => Some (plain (sys_close me))
  | 22 => Some (plain (sys_shm_create me))
  | 23 => Some (plain (sys_shm_get me))
  | 24 => Some (plain (sys_shm_close me))
  | 25 => Some (plain (sys_mbox_create me))
  | 26 => Some (sys_mbox_send me)
  | 27 => Some (sys_mbox_recv me)
  | 28 => Some (plain (sys_symlink me (link_bufs j)))
  | _ => None
  end.

(** p->trapframe->reg *)
Definition tf_read (me o : Z) : M kstate Z :=
  tf <- gets (λ s, p_trapframe (procs s me)) ;; on_kmem (load64 (tf + o)).
Definition tf_write (me o v : Z) : M kstate unit :=
  tf <- gets (λ s, p_trapframe (procs s me)) ;; on_kmem (store64 (tf + o) (u64 v)).

(** The message for an unknown number is left out. *)
Definition syscall (me : Z) (k : resume) (j : stack_junk) : M kstate sysret :=
  a7 <- tf_read me TF_a7 ;;
  match syscalls (s32 a7) me k j with
  | Some call =>
      r <- call ;;
      match r with
      | Ret v => tf_write me TF_a0 v ;; ret r
      | _ => ret r
      end
  | None =>
      p <- gets (λ s, procs s me) ;;
      println "%d %s: unknown sys call %d"
        [AInt (p_pid p); AStr (Some (p_name p)); AInt (s32 a7)] ;;
      tf_write me TF_a0 (-1) ;;
      ret (Ret (-1))
  end.

(** ** Traps *)
Record trap_in := mkTrap {
  scause : Z;
  sepc : Z;
  stval : Z;
  spp : bool;              (* sstatus.SPP *)
  sie : bool;              (* sstatus.SIE *)
  hart : Z;                (* r_tp() *)
  satp : Z;                (* r_satp() *)
  irq : Z;                 (* plic_claim() *)
  tx_idle : bool;
  rx : list Z;
  junk : stack_junk
}.

Definition clockintr (me : Z) (t : trap_in) : M kstate unit :=
  if hart t =? 0 then
    modify (λ s, set_ticks (u32 (ticks s + 1)) s) ;;
    wakeup me ChTicks
  else ret tt.

(** plic_complete(irq), by the hart that took the trap. *)
Definition complete_irq (t : trap_in) : M kstate unit := modify (λ s, set_plic (plic s ++ [(hart t, irq t)]) s).

(** The completion of a disk request, virtio_disk_intr, is part of
    virtio_disk_rw here; Virtio.v has it as a step of its own. *)
Definition devintr (me : Z) (t : trap_in) : M kstate Z :=
  if scause t =? 0x8000000000000009 then
    (if irq t =? 10 then uartintr me (tx_idle t) (rx t)
     else if irq t =? 1 then ret tt
     else if negb (irq t =? 0) then println "unexpected interrupt irq=%d" [AInt (irq t)]
     else ret tt) ;;
    (when negb (irq t =? 0) do complete_irq t) ;;
    ret 1
  else if scause t =? 0x8000000000000005 then
    clockintr me t ;;
    ret 2
  else ret 0.

Context (usertrap_addr : Z).

(** The stores of prepare_return to the trapframe. *)
Definition prepare_return (me : Z) (t : trap_in) : M kstate unit :=
  ks <- gets (λ s, p_kstack (procs s me)) ;;
  tf_write me TF_kernel_satp (satp t) ;;
  tf_write me TF_kernel_sp (ks + PGSIZE) ;;
  tf_write me TF_kernel_trap usertrap_addr ;;
  tf_write me TF_kernel_hartid (hart t).

(** How a trap from user mode ends. *)
Inductive trap_out :=
| ToUserMode (satp : Z)    (* return to user space *)
| Yielded                  (* runnable, prepare_return follows *)
| Asleep (k : resume)      (* the system call sleeps *)
| Dead.                    (* exited *)

(** usertrap after the switch on scause. *)
Definition usertrap_end (me which_dev : Z) (t : trap_in) : M kstate trap_out :=
  k <- killed me ;;
  if (k : bool) then kexit me (-1) ;; ret Dead else
  if which_dev =? 2 then yield me ;; ret Yielded else
  prepare_return me t ;;
  pt <- gets (λ s, p_pagetable (procs s me)) ;;
  ret (ToUserMode (MAKE_SATP pt)).

Definition page_fault (me : Z) (t : trap_in) : M kstate unit :=
  modify (upd_proc me (λ p, set_p_page_faults (s32 (p_page_faults p + 1)) p)) ;;
  pt <- gets (λ s, p_pagetable (procs s me)) ;;
  pa <- on_kmem (vmfault pt (stval t) (scause t =? 15)) ;;
  if pa =? 0 then
    pid <- gets (λ s, p_pid (procs s me)) ;;
    println "usertrap(): vmfault failed (scause=0x%lx) pid=%d va=0x%lx" [AInt (scause t); AInt pid; AInt (stval t)] ;;
    setkilled me
  else
  _ <- on_kmem (walk pt (PGROUNDDOWN (stval t)) false) ;;
  ret tt.

Definition usertrap (me : Z) (t : trap_in) : M kstate trap_out :=
  if spp t then panic "usertrap: not from user mode" else
  tf_write me TF_epc (sepc t) ;;
  if scause t =? 8 then
    k <- killed me ;;
    if (k : bool) then kexit me (-1) ;; ret Dead else
    epc <- tf_read me TF_epc ;;
    tf_write me TF_epc (epc + 4) ;;
    r <- syscall me R0 (junk t) ;;
    match r with
    | Ret _ => usertrap_end me 0 t
    | Susp k => ret (Asleep k)
    | Exited => ret Dead
    end
  else
  which_dev <- devintr me t ;;
  if negb (which_dev =? 0) then usertrap_end me which_dev t else
  if (scause t =? 15) || (scause t =? 13) then
    page_fault me t ;; usertrap_end me 0 t
  else
  pid <- gets (λ s, p_pid (procs s me)) ;;
  println "usertrap(): unexpected scause 0x%lx pid=%d" [AInt (scause t); AInt pid] ;;
  println "            sepc=0x%lx stval=0x%lx" [AInt (sepc t); AInt (stval t)] ;;
  setkilled me ;; usertrap_end me 0 t.

(** A process whose system call slept runs again: the end of sleep, the rest
    of the call, and the end of usertrap. *)
Definition usertrap_resume (me : Z) (k : resume) (t : trap_in) : M kstate trap_out :=
  sleep_return me ;;
  r <- syscall me k (junk t) ;;
  match r with
  | Ret _ => usertrap_end me 0 t
  | Susp k => ret (Asleep k)
  | Exited => ret Dead
  end.

(** kerneltrap; whether the interrupted process has been made to yield. *)
Definition kerneltrap (me : Z) (t : trap_in) : M kstate bool :=
  if negb (spp t) then panic "kerneltrap: not from supervisor mode" else
  if sie t then panic "kerneltrap: interrupts enabled" else
  which_dev <- devintr me t ;;
  if which_dev =? 0 then
    println "scause=0x%lx sepc=0x%lx stval=0x%lx" [AInt (scause t); AInt (sepc t); AInt (stval t)] ;;
    panic "kerneltrap"
  else
  if (which_dev =? 2) && negb (me =? -1) then yield me ;; ret true else ret false.

(** forkret, up to the return to user space. *)
Definition forkret (me : Z) (t : trap_in) : M kstate Z :=
  f <- gets first ;;
  (when f do
    (fsinit me ROOTDEV ;;
     modify (set_first false) ;;
     let init := [47; 105; 110; 105; 116] in                  (* "/init" *)
     r <- kexec me init [init] ;;
     tf_write me TF_a0 r ;;
     if u64 r =? u64 (-1) then panic "exec" else ret tt)) ;;
  prepare_return me t ;;
  pt <- gets (λ s, p_pagetable (procs s me)) ;;
  ret (MAKE_SATP pt).

End sysproc.
