(* ===== verification/TrapThms.v ===== *)
(** Page faults on memory that was only promised. *)

From S2P Require Import Prelude Riscv Memory Kalloc Vm VmSpec VmMap VmUser VmCow VmThms State Printf Proc ShmThms.
From S2P Require Import Pipe Mbox Shm Bio Log Fs Console File ProcLife Exec Sysfile Syscall.

Section trap.
Context `{KI : KernelImage}.

(** vmfault finds no page to hand out where none is mapped. *)
Lemma vmfault_absent s own roots pt va write :
  vm_inv s own roots → roots pt → 0 ≤ va < MAXVA → has (leaf (memory s) pt va) PTE_V = false →
  ∃ s' own', vmfault pt va write s = Done (0, s') ∧ vm_inv s' own' roots ∧ vm_ext roots (s, own) (s', own').
Proof.
  intros H Hr Hva Hno. destruct (PGROUNDDOWN_spec va) as [Hd1 Hd2]; [lia|].
  unfold vmfault. set (va0 := PGROUNDDOWN va) in *. assert (Hv0 : 0 ≤ va0 < MAXVA) by dlia.
  destruct (walk_true_run s own roots pt va0 H Hr Hv0) as (a & s1 & Ew & own1 & H1 & Hext & Hres).
  exists s1, own1. split; [|done]. rewrite (bind_done _ _ _ _ _ Ew).
  destruct Hres as [(-> & _ & _)|(t & Ht & -> & Hnz)]; [done|].
  rewrite (proj2 (Z.eqb_neq _ 0) Hnz), (bind_done _ _ _ _ _ (load64_run _ _)), (leaf_at _ _ _ _ Ht).
  assert (leaf (memory s1) pt va0 = leaf (memory s) pt va) as ->.
  { rewrite (leaf_page (memory s) pt va va0) by by apply same_page_iff. by apply (ve_leaf _ _ _ Hext pt va0). }
  by rewrite Hno.
Qed.

(** C39: lazily grown memory is never provided.  sys_sbrk with SBRK_LAZY only
    raises p->sz.  The first access to such a page, below p->sz and not mapped,
    reads or writes alike, leaves the page unmapped and kills the process. *)
Theorem lazy_page_kills me t s own roots : let p := procs s me in let pt := p_pagetable p in
  vm_inv (kmem_of s) own roots → roots pt → 0 ≤ stval t < p_sz p → p_sz p ≤ MAXVA →
  has (leaf (memory (kmem_of s)) pt (stval t)) PTE_V = false →
  wp (page_fault me t) (λ _ s', p_killed (procs s' me) = 1 ∧ p_page_faults (procs s' me) = s32 (p_page_faults p + 1) ∧
    has (leaf (memory (kmem_of s')) pt (stval t)) PTE_V = false) s.
Proof.
  intros p pt H Hr Hva Hsz Hno. unfold page_fault. do 2 wp_step. wp_step. wp_step.
  cbn [procs upd_proc set_procs]. rewrite fupd_eq. change (p_pagetable _) with pt.
  destruct (vmfault_absent (kmem_of s) own roots pt (stval t) (scause t =? 15)) as (km & own1 & E & H1 & Hext); [done|done|lia|done|].
  wp_step. eapply wp_on_kmem; [exact E|]. cbn [Z.eqb]. do 2 wp_step. wp_step. wp_print u.
  unfold setkilled. wp_step. cbn. rewrite !fupd_eq. cbn. split_and!; [done|done|].
  pose proof (ve_leaf _ _ _ Hext pt (stval t)) as El. cbn [fst] in El. by rewrite El by (done || lia).
Qed.
End trap.
