(* ===== verification/Witness.v ===== *)
(** Concrete states of the kernel in which the theorems on processes, pipes,
    mailboxes, the buffer cache and the log apply. *)

From S2P Require Import Prelude Riscv Memory Kalloc Vm VmSpec VmMap VmUser VmCow VmThms VmWitness.
From S2P Require Import State Printf Proc Pipe Mbox Shm ShmThms Bio BioThms Log LogThms LogOps LogSpace Fs Console ConsoleThms.
From S2P Require Import File ProcLife ProcThms Exec Sysfile Syscall TrapThms.

#[export] Existing Instance Small.small.
#[export] Instance entry : KernelEntry := {| forkret_addr := 0x80002000 |}.

(** The result of a computation and the state after it. *)
Definition result {St A} (c : M St A) (s : St) : option A := match c s with Done (a, _) => Some a | _ => None end.
Definition after {St A} (c : M St A) (s : St) : St := match c s with Done (_, s') => s' | _ => s end.

Lemma ran {St A} (c : M St A) s a : result c s = Some a → c s = Done (a, after c s).
Proof. unfold result, after. destruct (c s) as [[a' s']| | | |]; by intros [= ->]. Qed.

(** ** Four processes: init, a shell waiting to run, its child, and one more;
    the page table of the first is the one of VmWitness. *)
Definition process (st : procstate) (pid parent pt : Z) : proc :=
  mkProc st None 0 0 pid parent 0 PGSIZE pt 0 0 0 (λ _, -1) (-1) [] 0.

Definition table (p : Z) : proc :=
  if p =? 0 then process RUNNING 1 (-1) Small.R1
  else if p =? 1 then process RUNNING 2 0 0
  else if p =? 2 then process RUNNABLE 3 1 0
  else process UNUSED 0 (-1) 0.

Definition empty_inode : inode := mkInode 0 0 0 (mkSleeplock false 0) false 0 0 0 0 0 (λ _, 0).
Definition empty_file : file := mkFile FD_NONE 0 false false (-1) (-1) 0 0.
Definition zero_block : mem := λ _, 0.

(** A disk of 2000 blocks, log at 2, inodes at 33, bitmap at 46. *)
Definition small_sb : superblock := mkSuperblock FSMAGIC 2000 1953 200 31 2 33 46.

Definition kernel : kstate := mkKstate
  (Small.space Small.RWU) table 4 0 (λ _, empty_file) (λ _, empty_inode) small_sb
  (λ _, mkBuf false 0 0 (mkSleeplock false 0) 0 zero_block) (seqZ 0 NBUF)
  (mkLog 2 0 false ROOTDEV 0 (λ _, 0))
  (λ _, zero_block) 2000 []
  (λ _, mkPipe (λ _, 65) 4294967295 1 true true)
  (λ _, mkMailbox (-1) (λ _, 0) 0 0 0)
  (mkShm (λ _, 0) (λ _, 0) (λ _, 0)) (mkCons (λ _, 0) 0 0 0) [] false false 0 [].

#[local] Opaque Small.space.

(** ** Pipes *)
Lemma copyin_space k : 0 ≤ k < PGSIZE → uread (kmem_of kernel) Small.R1 k = Some 0 →
  copyin Small.R1 k 1 (kmem_of kernel) = Done ((0, [0]), kmem_of kernel).
Proof.
  intros Hk Hu. destruct (copyin_loop Small.roots Small.R1 (Small.space Small.RWU) Small.roots_1
    (Small.space_cow Small.RWU ltac:(lia)) 3 k 1 []) as (l & El & Hll & Hlr); [lia..| |dlia|].
  - intros vb Hvb. unfold ureadable. by rewrite Small.space_leaf_0 by lia.
  - etrans; [exact El|]. do 3 f_equal. destruct l as [|x [|? ?]]; [cbn in Hll; lia| |cbn in Hll; lia].
    specialize (Hlr 0 ltac:(lia)). rewrite Z.add_0_r in Hlr. cbn in Hlr. change (kmem_of kernel) with (Small.space Small.RWU) in Hu. rewrite Hu in Hlr. by injection Hlr as <-.
Qed.

(** Process 0 writes two bytes of its page at 0 to a pipe that holds two,
    its counters about to wrap around. *)
Lemma pipewrite_appends_witness :
  wp (pipewrite 0 0 0 2 0) (λ r s', all_woken 0 (ChPipeRead 0) s' ∧ r = inr 2 ∧
    pipe_queue (pipes s' 0) = [65; 65; 0; 0]) kernel.
Proof.
  eapply wp_mono; [apply (pipewrite_appends 0 0 0 2 0 (λ _, 0) kernel)|].
  - lia.
  - split; vm_compute; intuition congruence.
  - reflexivity.
  - reflexivity.
  - intros k Hk. assert (k = 0 ∨ k = 1) as [->| ->] by lia; (rewrite u64_small by lia; apply copyin_space; [lia|vm_compute; reflexivity]).
  - cbv zeta. change (pipe_queue (pipes kernel 0)) with [65; 65].
    change (2 - 0 <=? PIPESIZE - Z.of_nat (length [65; 65])) with true. cbv iota.
    intros r s' (H1 & -> & (_ & H2 & _) & _). split_and!; [done|done|]. rewrite H2. reflexivity.
Defined.

(** Process 0 reads one of the two bytes into its page. *)
Lemma copyout_space k b : 0 ≤ k < PGSIZE → 0 ≤ b < 256 →
  ∃ km, copyout Small.R1 k [b] (kmem_of kernel) = Done (0, km).
Proof.
  intros Hk Hb. destruct (copyout_loop Small.roots Small.R1 Small.roots_1 3 (Small.space Small.RWU) k [b]) as (km & E & _).
  - apply (Small.space_cow Small.RWU). lia.
  - lia.
  - cbn. lia.
  - intros vb Hvb. cbn in Hvb. unfold uwritable. by rewrite Small.space_leaf_0 by lia.
  - repeat constructor; lia.
  - cbn. dlia.
  - by exists km.
Qed.

Lemma piperead_takes_witness :
  wp (piperead 0 0 0 1) (λ r s', r = inr 1 ∧ pipe_queue (pipes s' 0) = [65] ∧ all_woken 0 (ChPipeWrite 0) s') kernel.
Proof.
  destruct (copyout_space 0 65 ltac:(lia) ltac:(lia)) as (km & E).
  eapply wp_mono; [apply (piperead_takes 0 0 0 1 kernel 1 km)|].
  - lia.
  - split; vm_compute; intuition congruence.
  - change (take _ _) with [65]. change (p_pagetable (procs kernel 0)) with Small.R1. cbn [copyout_each].
    unfold bind. change (u64 (0 + 0)) with 0. rewrite E. reflexivity.
  - cbv zeta. change (pipe_queue (pipes kernel 0)) with [65; 65].
    change (Z.to_nat (Z.min 1 (Z.of_nat (length [65; 65])))) with 1%nat.
    change (bool_decide ([65; 65] = []) && pi_writeopen (pipes kernel 0)) with false. cbv iota.
    change (Nat.min 1 2) with 1%nat. intros r s' (_ & H2 & _ & _ & H3 & H4). split; [exact H3|]. split; [exact H2|exact H4].
Defined.

(** ** Mailboxes *)
Definition with_box : kstate := upd_mbox 0 (λ _, mkMailbox 7 (λ _, 0) 15 15 0) kernel.
Definition sent_one : kstate := after (mbox_send 0 0 42) with_box.

(** Process 0 sends 42 through the last cell of the buffer, process 1 receives it. *)
Lemma mbox_fifo_witness :
  mbox_recv 1 0 sent_one = Done (inr (0, 42), after (mbox_recv 1 0) sent_one) ∧
  [42] = [42] ++ mbox_queue (mboxes (after (mbox_recv 1 0) sent_one) 0).
Proof.
  assert (mbox_send 0 0 42 with_box = Done (inr 0, sent_one)) as E1 by (apply ran; vm_compute; reflexivity).
  assert (mbox_recv 1 0 sent_one = Done (inr (0, 42), after (mbox_recv 1 0) sent_one)) as E2 by (apply ran; vm_compute; reflexivity).
  split; [exact E2|]. apply (mbox_fifo 0 with_box _ [42] [42]).
  - lia.
  - split; [split; vm_compute; intuition congruence|reflexivity|].
    intros p (Hp & Hst & _). exfalso. revert Hst. cbn. unfold table. by repeat case_match.
  - eapply rtc_l; [apply (ms_send 0 0 42 with_box (inr 0) sent_one [] []); [reflexivity|exact E1]|].
    apply rtc_once. apply (ms_recv 0 1 sent_one (inr (0, 42)) _ [42] []); [vm_compute; reflexivity|exact E2].
Defined.

Lemma with_box_table : mbox_table with_box 1.
Proof.
  split.
  - lia.
  - intros i Hi. replace i with 0 by lia. vm_compute. discriminate.
  - intros i Hi. cbn. rewrite fupd_ne by lia. reflexivity.
  - intros i j Hi Hj _. lia.
Qed.

Lemma mbox_create_lookup_witness : wp (mbox_create 9) (λ id s', id = -1 ∨ mb_key (mboxes s' id) = 9) with_box.
Proof.
  eapply wp_mono; [apply (mbox_create_lookup 9 1 with_box)|].
  - lia.
  - apply with_box_table.
  - intros id s' [(-> & _)|(_ & H & _)]; [by left|by right].
Defined.

Lemma mbox_create_minus_one_witness :
  mbox_create (-1) with_box = Done (1, with_box) ∧ ∃ s', mbox_create 9 with_box = Done (1, s') ∧ mb_key (mboxes s' 1) = 9.
Proof.
  apply (mbox_create_minus_one 9 1 with_box).
  - lia.
  - apply with_box_table.
  - lia.
  - intros i Hi. replace i with 0 by lia. vm_compute. discriminate.
Defined.

(** ** Shared memory *)

(** Page D, held by entry 0 of the table under key 7 and mapped by no one. *)
Definition shared : kstate := set_shm (mkShm (λ i, if i =? 0 then Small.D else 0) (λ i, if i =? 0 then 7 else -1) (λ i, if i =? 0 then 1 else 0))
  (set_kmem_of Small.s6 kernel).

Lemma shm_page_freed_in_use_witness :
  wp (shm_get 0 7) (λ r s1, r = 0 ∨ r = PGSIZE ∧
    wp (on_kmem (uvmunmap Small.R1 PGSIZE 1 true)) (λ _ s2,
      shm_pages (shm s2) 0 = Small.D ∧ refcount (kmem_of s2) (Small.D / PGSIZE) = 0) s1) shared.
Proof.
  destruct Small.s6_inv as [H6 L6].
  eapply wp_mono; [apply (shm_page_freed_in_use 0 7 0 shared Small.own6 Small.roots)|].
  - exact H6.
  - apply Small.roots_1.
  - cbn. lia.
  - vm_compute. discriminate.
  - change (shm_va (p_sz (procs shared 0))) with PGSIZE. cbn [memory kmem_of shared set_shm set_kmem_of].
    change (p_pagetable (procs shared 0)) with Small.R1. rewrite L6, has_0; [reflexivity|apply Small.roots_1|lia].
  - reflexivity.
  - vm_compute. reflexivity.
  - lia.
  - lia.
  - reflexivity.
  - lia.
  - intros r s1 [->|(-> & _ & _ & H)]; [by left|]. right. split; [reflexivity|exact H].
Defined.

(** ** The console *)

(** "hi", one character too many erased, and the return key. *)
Lemma console_line_editor_witness :
  wp (uartintr 0 true [104; 105; 106; 127; 13]) (λ _ s', avail (cons s') = [104; 105; 10] ∧ line (cons s') = []) kernel.
Proof.
  eapply wp_mono; [apply (console_line_editor 0 true [104; 105; 106; 127; 13] kernel)|].
  - split; vm_compute; [by split|by split|by split|discriminate|constructor].
  - repeat constructor; lia.
  - assert (foldl edit (avail (cons kernel), line (cons kernel)) [104; 105; 106; 127; 13] = ([104; 105; 10], [])) as Hed by (vm_compute; reflexivity).
    intros [] s' (_ & E & _). rewrite Hed in E. by injection E as -> ->.
Defined.

(** ** Page faults *)

(** Process 0 has grown by a page it never got. *)
Definition grown : kstate := upd_proc 0 (set_p_sz (2 * PGSIZE)) kernel.
Definition fault_at (va : Z) : trap_in := mkTrap 15 0 va false false 0 0 0 false [] (mkJunk [] ([], [])).

Lemma lazy_page_kills_witness :
  wp (page_fault 0 (fault_at PGSIZE)) (λ _ s', p_killed (procs s' 0) = 1) grown.
Proof.
  eapply wp_mono; [apply (lazy_page_kills 0 (fault_at PGSIZE) grown Small.own7 Small.roots)|].
  - apply (Small.space_inv Small.RWU). lia.
  - apply Small.roots_1.
  - cbn. lia.
  - cbn. lia.
  - change (kmem_of grown) with (Small.space Small.RWU). change (p_pagetable (procs grown 0)) with Small.R1. cbn [stval fault_at].
    rewrite (Small.space_leaf_none Small.RWU) by (apply Small.roots_1 || lia). apply has_0.
  - intros [] s' (H & _). exact H.
Defined.

(** ** Processes *)
Definition waiting : kstate := after (kwait 1 0) kernel.

Lemma kernel_procs p : 0 ≤ p < NPROC → p = 0 ∨ p = 1 ∨ p = 2 ∨ 3 ≤ p ∧ table p = process UNUSED 0 (-1) 0.
Proof.
  intros Hp. unfold table. destruct (Z.eqb_spec p 0), (Z.eqb_spec p 1), (Z.eqb_spec p 2); auto.
  do 3 right. split; [lia|done].
Qed.

Definition life0 : life := mkLife ∅ 0 kernel.

Lemma kernel_pend : pend_inv ∅ kernel.
Proof. by split. Qed.

Lemma kernel_wait : wait_inv kernel.
Proof.
  split.
  - intros p Hp. destruct (kernel_procs p Hp) as [->|[->|[->|[_ E]]]]; try done. cbn. by rewrite E.
  - intros p Hp. destruct (kernel_procs p Hp) as [->|[->|[->|[? E]]]]; try done. cbn. rewrite E. cbn. lia.
  - split_and!; try done; by vm_compute.
  - intros p (Hp & Hst & _). exfalso. revert Hst. cbn. unfold table. by repeat case_match.
Qed.

Lemma kernel_pids : pid_inv kernel.
Proof.
  split.
  - cbn. lia.
  - intros p Hp. destruct (kernel_procs p Hp) as [->|[->|[->|[? E]]]]; cbn; [lia..|by rewrite E].
  - intros p Hp. destruct (kernel_procs p Hp) as [->|[->|[->|[? E]]]]; try done. cbn. by rewrite E.
  - intros p q Hp Hq. destruct (kernel_procs p Hp) as [->|[->|[->|[? E]]]], (kernel_procs q Hq) as [->|[->|[->|[? E']]]];
      cbn; rewrite ?E, ?E'; done.
Qed.

(** The shell waits for its running child. *)
Lemma waiting_step : life_step life0 (mkLife ∅ 0 waiting).
Proof.
  apply (ls_wait 1 0 (inl tt)); [split; [lia|reflexivity]|done|]. apply ran. vm_compute. reflexivity.
Qed.

Lemma wait_never_misses_exit_witness :
  ∃ c, 0 ≤ c < NPROC ∧ p_parent (procs waiting c) = 1 ∧ live (procs waiting c).
Proof.
  apply (wait_never_misses_exit life0 (mkLife ∅ 0 waiting) 1).
  - split; [apply kernel_wait|apply kernel_pend].
  - apply rtc_once, waiting_step.
  - split_and!; vm_compute; done.
Defined.

Lemma pids_unique_witness : 1 ≤ p_pid (procs waiting 2) < nextpid waiting.
Proof.
  apply (pids_unique life0 (mkLife ∅ 0 waiting)) with (q := 2).
  - split; [apply kernel_wait|apply kernel_pend].
  - apply kernel_pids.
  - apply rtc_once, waiting_step.
  - reflexivity.
  - lia.
  - lia.
  - vm_compute. discriminate.
Defined.

Lemma kkill_zero_poisons_next_witness : ∃ s', kkill 0 kernel = Done (0, s') ∧
  wlp allocproc (λ np s'', np = -1 ∨ (np = 3 ∧ p_killed (procs s'' 3) = 1)) s'.
Proof.
  apply (kkill_zero_poisons_next kernel 3).
  - apply kernel_pids.
  - split_and!; [lia|lia|reflexivity|]. intros q Hq. assert (q = 0 ∨ q = 1 ∨ q = 2) as [->|[->| ->]] by lia; discriminate.
Defined.

(** ** The buffer cache and the log *)
Lemma kernel_cache : cache_ok 0 [] kernel.
Proof.
  split; try done.
  - intros i Hi. cbn. by right.
  - intros b i j (_ & Hd & _). cbn in Hd. lia.
  - by intros i ?%elem_of_nil.
Qed.

Lemma kernel_uncached c : view kernel c = disk kernel c ∧ pins kernel c = 0.
Proof. apply view_uncached. intros i (_ & Hd & _). cbn in Hd. lia. Qed.

Lemma bread_brelse_coherent_witness :
  wp (bread 0 ROOTDEV 50) (λ i s1, b_data (bufs s1 i) = zero_block ∧
    wp (brelse 0 i) (λ _ s2, view s2 50 = zero_block) s1) kernel.
Proof.
  eapply wp_mono; [apply (bread_brelse_coherent 0 kernel 50)|].
  - apply kernel_cache.
  - cbn. lia.
  - left. exists 3. split; [lia|reflexivity].
  - right. apply kernel_uncached.
  - intros i s1 (_ & _ & H & _ & Hw). split; [rewrite H; apply kernel_uncached|].
    eapply wp_mono; [exact Hw|]. intros [] s2 (_ & Hv & _). rewrite Hv. apply kernel_uncached.
Defined.

Lemma kernel_lists : lists 2 [] kernel.
Proof. split; cbn; try done; try lia; [constructor|by intros b ?%elem_of_nil]. Qed.

Lemma kernel_idle : in_txn 0 2 [] (disk kernel) 0 kernel.
Proof.
  split; try done; [apply kernel_cache|apply kernel_lists].
Qed.

(** Two updates, of blocks 50 and 51. *)
Definition two_updates : list (Z * (mem → mem)) := [(50, λ m, fupd m 0 7); (51, λ m, fupd m 0 8)].

Lemma transaction_atomic_witness :
  wp (begin_op 0 ;; run_updates 0 two_updates ;; end_op 0) (λ _ s', view s' 50 = fupd zero_block 0 7) kernel.
Proof.
  eapply wp_mono; [apply (transaction_atomic 0 2 two_updates kernel)|].
  - apply kernel_idle.
  - cbn. lia.
  - repeat constructor; cbn; unfold in_log; lia.
  - intros [] s' (_ & Hv & _). rewrite Hv by (unfold in_log; lia). reflexivity.
Defined.

(** A disk that was left with block 50 in the log. *)
Definition crashed_disk : Z → mem := fupd (fupd (λ _, zero_block) 3 (fupd zero_block 0 7)) 2 (put_header 1 (λ _, 50) zero_block).
Definition rebooted : kstate := set_disk crashed_disk kernel.

Lemma rebooted_booted : booted 0 2 crashed_disk small_sb rebooted.
Proof.
  split; try done.
  destruct kernel_cache. by split.
Qed.

Lemma crashed_header : hdr_list (crashed_disk 2) = [50].
Proof. vm_compute. reflexivity. Qed.

Lemma recovery_idempotent_witness :
  wp (initlog 0 ROOTDEV small_sb) (λ _ s', disk s' 50 = fupd zero_block 0 7) rebooted.
Proof.
  eapply wp_mono; [apply (recovery_idempotent 0 2 crashed_disk small_sb rebooted)|].
  - apply rebooted_booted.
  - split; rewrite ?crashed_header.
    + vm_compute. intuition congruence.
    + apply NoDup_singleton.
    + intros b ->%list_elem_of_singleton. cbn. unfold in_log. lia.
  - intros [] s' (ws & _ & _ & _ & _ & Hd & _). rewrite Hd by (unfold in_log; lia).
    unfold recovered. rewrite crashed_header. reflexivity.
Defined.

(** The first process begins an operation and writes a block. *)
Definition began : kstate := after (begin_op_turn 0) kernel.

Lemma log_never_overflows_witness : ∃ s', log_write 5 began = Done (tt, s').
Proof.
  destruct (log_never_overflows ([], kernel) [∅] began) as (_ & _ & Hw & _).
  - done.
  - apply rtc_once. apply (LBegin 0 [] kernel began). apply ran. vm_compute. reflexivity.
  - apply (Hw ∅ 5); [left|left; reflexivity].
Defined.

(** Thirty blocks, all pinned. *)
Definition full : kstate :=
  set_log_of (mkLog 2 0 true ROOTDEV 30 (λ i, 100 + i))
    (set_bufs (λ i, mkBuf true ROOTDEV (100 + i) (mkSleeplock false 0) 1 zero_block) kernel).

Lemma full_log_commit_panics_witness : commit 0 full = Panic "bget: no buffers".
Proof.
  assert (cache_ok 0 [] full) as Hok.
  { split; try done.
    - intros i Hi. by left.
    - intros b i j (_ & _ & Hi) (_ & _ & Hj). cbn in Hi, Hj. lia.
    - by intros i ?%elem_of_nil. }
  apply (full_log_commit_panics 0 2 (seqZ 100 30)).
  - exact Hok.
  - split; cbn; try done; try lia.
    + intros i b Hb. apply lookup_seqZ in Hb as [-> _]. reflexivity.
    + apply NoDup_seqZ.
    + intros b Hb. rewrite elem_of_seqZ in Hb. unfold in_log. lia.
  - reflexivity.
  - intros b Hb. rewrite elem_of_seqZ in Hb. rewrite (pins_cached 0 [] full b (b - 100) Hok); [done|].
    split_and!; cbn; lia.
Defined.
