(* ===== verification/FsWitness.v ===== *)
(** A small file system on which the theorems on blocks, inodes, files and
    directories apply. *)

From S2P Require Import Prelude Riscv Memory Kalloc Vm VmSpec VmMap VmUser VmCow VmThms VmWitness.
From S2P Require Import State Printf Proc Bio BioThms Log LogThms LogOps LogSpace Txn Fs FsPath FsBlocks FsInode FsRead FsTrunc Witness.

#[local] Opaque Small.space.

(** The superblock, the bitmap with blocks 0 to 47 in use, and the contents of
    the root directory in block 47: inode 1 as ., inode 2 as a. *)
Definition bitmap_bytes (k : Z) : Z := if k <? 6 then 255 else 0.
Definition dir_bytes (k : Z) : Z :=
  if k =? 0 then 1 else if k =? 2 then 46 else if k =? 16 then 2 else if k =? 18 then 97 else 0.
Definition fs_disk (b : Z) : mem :=
  if b =? 1 then st32 zero_block 0 FSMAGIC
  else if b =? 46 then bitmap_bytes
  else if b =? 47 then dir_bytes
  else zero_block.

(** The root directory is in entry 0 of the inode table, an empty file in entry
    1 and another one in entry 2. *)
Definition root_inode : inode := mkInode ROOTDEV 1 1 (mkSleeplock true 1) true T_DIR 0 0 1 32 (λ k, if k =? 0 then 47 else 0).
Definition file_inode (n : Z) : inode := mkInode ROOTDEV n 1 (mkSleeplock true 1) true T_FILE 0 0 1 0 (λ _, 0).
Definition fs_itable (i : Z) : inode :=
  if i =? 0 then root_inode else if i =? 1 then file_inode 2 else if i =? 2 then file_inode 3 else empty_inode.

(** One file system call is running. *)
Definition mounted : kstate :=
  set_log_of (mkLog 2 1 false ROOTDEV 0 (λ _, 0)) (set_itable fs_itable (set_disk fs_disk kernel)).

Lemma mounted_view c : view mounted c = fs_disk c ∧ pins mounted c = 0.
Proof. apply view_uncached. intros i (_ & Hd & _). cbn in Hd. lia. Qed.

Lemma mounted_tx : tx 0 [] 2 [] fs_disk mounted.
Proof.
  split.
  - destruct kernel_cache. by split.
  - destruct kernel_lists. by split.
  - intros c. by rewrite (proj2 (mounted_view c)).
  - constructor.
  - intros c _. apply mounted_view.
  - reflexivity.
Qed.

Lemma mounted_op : in_op mounted.
Proof. done. Qed.

(** ** Blocks *)
Lemma mounted_used b : 0 ≤ b < 48 → used mounted b = true.
Proof.
  intros Hb. unfold used. rewrite (proj1 (mounted_view _)).
  assert (BBLOCK b (sb_of mounted) = 46) as -> by (unfold BBLOCK; cbn; rewrite u32_small; dlia).
  assert (forallb (λ b, bit_get bitmap_bytes (b mod BPB)) (seqZ 0 48) = true) as Hall by (vm_compute; reflexivity).
  rewrite forallb_forall in Hall. apply Hall. apply list_elem_of_In, elem_of_seqZ. lia.
Qed.

Lemma mounted_layout : layout 2 mounted.
Proof.
  assert (∀ b, 0 ≤ b < 2000 → BBLOCK b small_sb = b / BPB + 46 ∧ b / BPB = 0) as Hb.
  { intros b Hb. assert (b / BPB = 0) by dlia. unfold BBLOCK. cbn. rewrite u32_small by lia. done. }
  split; cbn; [lia|..].
  - intros b Hr. destruct (Hb b Hr) as [-> ->]. unfold in_log. lia.
  - intros b Hr Hu. destruct (decide (b < 48)) as [Hlt|]; [rewrite mounted_used in Hu by lia; done|].
    split_and!; [lia|unfold in_log; lia|]. intros c Hc. destruct (Hb c Hc) as [-> ->]. lia.
Qed.

(** Block 48 or a later one is allocated. *)
Lemma balloc_correct_witness :
  wp (balloc 0 ROOTDEV) (λ r s1, r = 0 ∨ used mounted r = false ∧ used s1 r = true ∧
    wp (bfree 0 ROOTDEV r) (λ _ s2, used s2 r = false) s1) mounted.
Proof.
  eapply wp_mono; [apply (balloc_correct 0 2 [] fs_disk mounted)|].
  - apply mounted_tx.
  - apply mounted_op.
  - apply mounted_layout.
  - cbn. lia.
  - intros r s1. cbv beta. case_decide as Hr; [by left|]. intros (Hr1 & Hu & Hu1 & _ & _ & Hf). right.
    split; [done|]. split; [rewrite Hu1 by lia; by rewrite Z.eqb_refl|].
    eapply wp_mono; [exact Hf|]. intros [] s2 Hs2. rewrite Hs2 by lia. done.
Defined.

(** ** Inodes *)
Lemma iupdate_ilock_roundtrip_witness :
  wp (iupdate 0 0) (λ _ s1, wp (ilock 0 5) (λ _ s2, i_size (itable s2 5) = 32 ∧ i_addrs (itable s2 5) 0 = 47)
    (upd_inode 5 (λ _, mkInode ROOTDEV 1 1 (mkSleeplock false 0) false 0 0 0 0 0 (λ _, 0)) s1)) mounted.
Proof.
  eapply wp_mono; [apply (iupdate_ilock_roundtrip 0 2 [] fs_disk mounted 0)|].
  - apply mounted_tx.
  - apply mounted_op.
  - lia.
  - reflexivity.
  - vm_compute. intuition congruence.
  - cbn. lia.
  - split; cbn; try lia. intros k Hk. case_if; lia.
  - discriminate.
  - intros [] s1 (_ & _ & H). eapply wp_mono; [apply H; done|].
    intros [] s2 (_ & _ & _ & _ & _ & Hsz & Ha). split; [exact Hsz|]. rewrite Ha by lia. reflexivity.
Defined.

(** ** Files and directories *)
Lemma root_file : file_ok mounted (itable mounted 0).
Proof.
  split; cbn; try done; try lia. intros bn Hb Hs. assert (bn = 0) as -> by lia. vm_compute. done.
Qed.

(** The second directory entry is read. *)
Lemma readi_contents_witness :
  wp (readi 0 0 ToLocal 16 100) (λ r _, r = (16, [2; 0; 97; 0; 0; 0; 0; 0; 0; 0; 0; 0; 0; 0; 0; 0])) mounted.
Proof.
  eapply wp_mono; [apply (readi_contents 0 2 [] fs_disk mounted 0 16 100)|].
  - apply mounted_tx.
  - cbn. lia.
  - lia.
  - apply root_file.
  - lia.
  - lia.
  - intros r s' [_ ->]. vm_compute. reflexivity.
Defined.

(** The name a is found in it. *)
Lemma dirlookup_finds_witness :
  wp (dirlookup 0 0 [97]) (λ r s', r.2 = 16 ∧ i_inum (itable s' r.1) = 2) mounted.
Proof.
  eapply wp_mono; [apply (dirlookup_finds 0 2 [] fs_disk mounted 0 [97])|].
  - apply mounted_tx.
  - cbn. lia.
  - lia.
  - apply root_file.
  - reflexivity.
  - reflexivity.
  - repeat constructor; lia.
  - cbn. lia.
  - intros k Hk. change (i_size (itable mounted 0)) with 32 in Hk.
    assert (forallb (λ k, (0 <=? file_byte mounted (itable mounted 0) k) && (file_byte mounted (itable mounted 0) k <? 256)) (seqZ 0 32) = true)
      as Hall by (vm_compute; reflexivity).
    rewrite forallb_forall in Hall. specialize (Hall k). rewrite <-list_elem_of_In, elem_of_seqZ in Hall. specialize (Hall ltac:(lia)). lia.
  - exists 7. split; [lia|reflexivity].
  - change (i_size (itable mounted 0) / 16) with 2.
    assert (names [97] (dirent_at mounted (itable mounted 0) 1)) as Hin by (split; [vm_compute; discriminate|vm_compute; reflexivity]).
    assert (¬ names [97] (dirent_at mounted (itable mounted 0) 0)) as Hno by (intros [_ H]; vm_compute in H; discriminate).
    intros r s' (_ & _ & [(k & Hk & Hn & _ & Hr & Hg)|(Hn & _)]); [|by destruct (Hn 1 ltac:(lia))].
    assert (k = 1) as -> by (destruct (decide (k = 0)) as [->|]; [done|lia]).
    split; [exact Hr|]. destruct Hg as (_ & (_ & _ & Hi) & _). rewrite Hi. vm_compute. reflexivity.
Defined.

(** Truncating the empty file of entry 1 takes the device number of entry 2
    for an address. *)
Lemma itrunc_reads_superblock_witness : itrunc 0 1 mounted = Panic "virtio_disk_intr status".
Proof.
  apply (itrunc_reads_superblock 0 2 [] fs_disk mounted 1).
  - apply mounted_tx.
  - cbn. lia.
  - lia.
  - lia.
  - reflexivity.
  - intros k Hk. reflexivity.
  - reflexivity.
  - rewrite (proj1 (mounted_view 1)). vm_compute. reflexivity.
  - cbn. lia.
  - intros j (_ & Hd & _). cbn in Hd. lia.
Defined.
