(* ===== verification/VirtioWitness.v ===== *)
(** A device, and a run of the driver on it. *)

From S2P Require Import Prelude Riscv Memory Kalloc Vm VmSpec VmMap VmUser VmCow VmThms VmWitness.
From S2P Require Import State Proc Bio Virtio VirtioThms Witness.

#[local] Opaque Small.space.

(** A device that takes what is available first, and completes the chain it
    took last. *)
Definition blkdev : Type := list Z * Z.
Definition blk_run (x : blkdev * dstate) : option (blkdev * dstate) :=
  let '(l, n, s) := x in
  if negb (n =? avail_idx (vd s)) then Some (avail_ring (vd s) (n mod NUM) :: l, u16 (n + 1), s) else
  match l with
  | [] => None
  | h :: l' =>
      match chain (vd s) h with
      | Some (sector, w, b, j) => Some (l', n, complete h sector w b j s)
      | None => Some x
      end
  end.
Definition blk_step (x y : blkdev * dstate) : Prop := blk_run x = Some y.

#[export] Instance blk_ok : VirtioBlk fst snd blk_step.
Proof.
  intros [[l n] s] [[l' n'] s'] E. unfold blk_step, blk_run in E. destruct (Z.eqb_spec n (avail_idx (vd s))) as [En|En]; cbn [negb] in E.
  - right. destruct l as [|h l]; [done|]. exists h. split; [left|]. cbn [fst snd].
    destruct (chain (vd s) h) as [[[[sector w] b] j]|] eqn:Ec; [left|by right]. injection E as <- <- <-.
    split; [done|]. split; [done|]. by exists sector, w, b, j.
  - left. injection E as <- <- <-. by split_and!.
Qed.

(** Process 0 reads block 50 into buffer 3. *)
Definition block50 : mem := fupd zero_block 0 7.
Definition idle_queue : vdisk :=
  mkVdisk (λ _, mkDesc ANull 0 0 0) 0 (λ _, 0) 0 (λ _, 0) (λ _, true) 0 (λ _, -1) (λ _, 0) (λ _, mkReq 0 0 0) (λ _, false) [].
Definition d0 : dstate := mkDstate
  (set_disk (fupd (λ _, zero_block) 50 block50) (upd_buf 3 (λ _, mkBuf false 1 50 (mkSleeplock true 1) 1 zero_block) kernel)) idle_queue.
Definition read50 : req := mkRq 0 3 false (ks d0).

Definition d1 : dstate := after (virtio_disk_rw 0 3 false VStart) d0.
Definition d2 : dstate := complete 0 100 false 3 0 d1.
Definition d3 : dstate := after (virtio_disk_intr 1 1) d2.
Definition d4 : dstate := set_ks (upd_proc 0 (set_p_state RUNNING) (ks d3)) d3.

Lemma d1_ran : virtio_disk_rw 0 3 false VStart d0 = Done (inl (VWait 0), d1).
Proof. exact (ran (virtio_disk_rw 0 3 false VStart) d0 (inl (VWait 0)) ltac:(vm_compute; reflexivity)). Qed.

Lemma d3_ran : virtio_disk_intr 1 1 d2 = Done (tt, d3).
Proof. exact (ran (virtio_disk_intr 1 1) d2 tt ltac:(vm_compute; reflexivity)). Qed.

Lemma d0_init : sys_init fst snd 2000 ([], ([], 0), d0).
Proof. by split_and!. Qed.

Lemma run_served : rtc (sys_step blk_step 2000) ([], ([], 0), d0) ([(read50, VWait 0)], ([], 1), d2).
Proof.
  eapply rtc_l; [|eapply rtc_l; [|apply rtc_once]].
  - apply (SCall blk_step 2000 read50 (inl (VWait 0)) [] ([], 0) d0 d1).
    + split_and!; [reflexivity|cbn; lia|cbn; lia|reflexivity|cbn; lia|cbn; lia|cbn; lia|by intros r k ?%elem_of_nil].
    + exact d1_ran.
  - apply (SDevice blk_step 2000 _ ([], 0) d1 ([0], 1) d1). unfold blk_step, blk_run.
    assert (avail_idx (vd d1) = 1) as -> by (vm_compute; reflexivity).
    assert (avail_ring (vd d1) 0 = 0) as Ea by (vm_compute; reflexivity). change (0 mod NUM) with 0. rewrite Ea. reflexivity.
  - apply (SDevice blk_step 2000 _ ([0], 1) d1 ([], 1) d2). unfold blk_step, blk_run.
    assert (avail_idx (vd d1) = 1) as -> by (vm_compute; reflexivity).
    assert (chain (vd d1) 0 = Some (100, false, 3, 0)) as Ec by (vm_compute; reflexivity). change (negb (1 =? 1)) with false. cbv iota. rewrite Ec. reflexivity.
Qed.

Lemma run_noticed : rtc (sys_step blk_step 2000) ([], ([], 0), d0) ([(read50, VWait 0)], ([], 1), d4).
Proof.
  etrans; [apply run_served|]. eapply rtc_l; [|apply rtc_once].
  - apply (SIntr blk_step 2000 1 1 _ _ d2 d3); [vm_compute; reflexivity|exact d3_ran].
  - apply (SOther blk_step 2000 _ _ d3). split_and!; [reflexivity|reflexivity|]. intros r x Hin.
    apply list_elem_of_singleton in Hin as [= -> ->]. split; [reflexivity|]. cbn [r_me read50]. intros Hs. vm_compute in Hs. discriminate.
Qed.

(** The data of block 50 is in the buffer when the call returns. *)
Lemma virtio_disk_transfers_witness :
  wp (resume_rw read50 (VWait 0)) (λ res s', ∀ u, res = inr u → b_data (bufs (ks s') 3) = block50) d4.
Proof.
  destruct (virtio_disk_transfers fst snd blk_step blk_ok 2000 _ _ _ _ d0_init run_noticed) as (_ & _ & H).
  eapply wp_mono; [apply (H read50 (VWait 0) []); [done|vm_compute; reflexivity]|].
  intros res s' [_ Hr] u Hu. destruct (Hr u Hu) as (k1 & E & Eb & _).
  change (Done (tt, upd_buf 3 (set_b_data (disk (ks d0) 50)) (ks d0)) = Done (tt, k1)) in E. injection E as <-. exact Eb.
Defined.

(** The interrupt wakes process 0. *)
Lemma virtio_disk_progress_witness :
  wp (virtio_disk_intr 1 1) (λ _ s', ¬ asleep (ks s') read50) d2.
Proof.
  eapply wp_mono; [apply (virtio_disk_progress fst snd blk_step blk_ok 2000 _ _ _ d2 1 1 d0_init run_served)|].
  - reflexivity.
  - vm_compute. reflexivity.
  - vm_compute. reflexivity.
  - intros [] s' H. exact (proj1 (H read50 (VWait 0) ltac:(left))).
Defined.
