(* ===== verification/Shell.v ===== *)
(** user/sh.c: the command parser of the shell.

    The input is the list of its characters up to the terminating NUL, which
    are not zero.  A pointer into it is the list of the characters from there
    to the end, so that es is the empty list; the parser's state is *ps.  The
    shell's panic prints its message and exits. *)

From S2P Require Import Prelude.

Definition whitespace : list Z := [32; 9; 13; 10; 11].              (* " \t\r\n\v" *)
Definition symbols : list Z := [60; 124; 62; 38; 59; 40; 41].       (* "<|>&;()" *)

(** strchr(toks, c) != 0, for strings without the character 0. *)
Definition strchr (toks : list Z) (c : Z) : bool := existsb (Z.eqb c) toks.

(** *s *)
Definition deref (s : list Z) : Z := match s with [] => 0 | c :: _ => c end.

(** while(s < es && strchr(whitespace, *s)) s++; *)
Fixpoint skip_ws (s : list Z) : list Z :=
  match s with
  | [] => []
  | c :: s' => if strchr whitespace c then skip_ws s' else s
  end.

(** while(s < es && !strchr(whitespace, *s) && !strchr(symbols, *s)) s++; *)
Fixpoint skip_word (s : list Z) : list Z :=
  match s with
  | [] => []
  | c :: s' => if negb (strchr whitespace c) && negb (strchr symbols c) then skip_word s' else s
  end.

(** The token, where it starts and where it ends. *)
Definition token (s : list Z) : Z * list Z * list Z :=
  let s := skip_ws s in
  if deref s =? 0 then (0, s, s)
  else if strchr [124; 40; 41; 59; 38; 60] (deref s) then (deref s, s, tail s)  (* | ( ) ; & < *)
  else if deref s =? 62 then                                                  (* > *)
    if deref (tail s) =? 62 then (43, s, tail (tail s)) else (62, s, tail s)  (* >> is + *)
  else (97, s, skip_word s).                                                  (* a *)

Definition gettoken : M (list Z) (Z * list Z * list Z) :=
  s <- get ;;
  let '(r, q, eq) := token s in
  put (skip_ws eq) ;;
  ret (r, q, eq).

Definition peek (toks : list Z) : M (list Z) bool :=
  s <- get ;;
  let s := skip_ws s in
  put s ;;
  ret (negb (deref s =? 0) && strchr toks (deref s)).

(** ** Commands; a string is given by its two ends. *)
Inductive cmd :=
| EXEC (argv : list (list Z * list Z))
| REDIR (c : cmd) (file efile : list Z) (mode fd : Z)
| PIPE (left right : cmd)
| LIST (left right : cmd)
| BACK (c : cmd).

Abbreviation MAXARGS := 10 (only parsing).
Abbreviation O_RDONLY := 0 (only parsing).
Abbreviation O_WRONLY := 1 (only parsing).
Abbreviation O_CREATE := 0x200 (only parsing).
Abbreviation O_TRUNC := 0x400 (only parsing).

(** The redirection of a token; redircmd(cmd, ...) for each, the first inside. *)
Record redir := mkRedir { rd_file : list Z; rd_efile : list Z; rd_mode : Z; rd_fd : Z }.
Definition redirect (c : cmd) (rs : list redir) : cmd :=
  foldl (λ c r, REDIR c (rd_file r) (rd_efile r) (rd_mode r) (rd_fd r)) c rs.

Definition redir_of (tok : Z) (q eq : list Z) : list redir :=
  if tok =? 60 then [mkRedir q eq O_RDONLY 0]
  else if tok =? 62 then [mkRedir q eq (Z.lor (Z.lor O_WRONLY O_CREATE) O_TRUNC) 1]
  else if tok =? 43 then [mkRedir q eq (Z.lor O_WRONLY O_CREATE) 1]
  else [].

(** parseredirs, the redirections it adds to [rs].  Each turn of the loops
    below takes a character of the input, whose length is the fuel. *)
Definition parseredirs (rs : list redir) : M (list Z) (list redir) :=
  s <- get ;;
  while (S (length s)) (λ rs,
    b <- peek [60; 62] ;;                                                       (* "<>" *)
    if (b : bool) then
      t <- gettoken ;;
      f <- gettoken ;;
      let '(tok, _, _) := t in
      let '(r, q, eq) := f in
      if negb (r =? 97) then panic "missing file for redirection" else
      ret (inl (rs ++ redir_of tok q eq))
    else ret (inr rs)) rs.

(** The loop over the arguments of parseexec. *)
Definition parseargs (rs : list redir) : M (list Z) (list (list Z * list Z) * list redir) :=
  s <- get ;;
  while (S (length s)) (λ '(argv, rs),
    b <- peek [124; 41; 38; 59] ;;                                              (* "|)&;" *)
    if (b : bool) then ret (inr (argv, rs)) else
    t <- gettoken ;;
    let '(tok, q, eq) := t in
    if tok =? 0 then ret (inr (argv, rs)) else
    if negb (tok =? 97) then panic "syntax" else
    let argv := argv ++ [(q, eq)] in
    if MAXARGS <=? Z.of_nat (length argv) then panic "too many args" else
    rs <- parseredirs rs ;;
    ret (inl (argv, rs))) ([], rs).

(** while(peek(ps, es, "&")) cmd = backcmd(cmd); *)
Definition parseback (c : cmd) : M (list Z) cmd :=
  s <- get ;;
  while (S (length s)) (λ c,
    b <- peek [38] ;;
    if (b : bool) then gettoken ;; ret (inl (BACK c)) else ret (inr c)) c.

Fixpoint parseline (fuel : nat) : M (list Z) cmd :=
  match fuel with
  | O => λ _, NoFuel
  | S fuel' =>
      c <- parsepipe fuel' ;;
      c <- parseback c ;;
      b <- peek [59] ;;
      if (b : bool) then
        gettoken ;;
        c' <- parseline fuel' ;;
        ret (LIST c c')
      else ret c
  end
with parsepipe (fuel : nat) : M (list Z) cmd :=
  match fuel with
  | O => λ _, NoFuel
  | S fuel' =>
      c <- parseexec fuel' ;;
      b <- peek [124] ;;
      if (b : bool) then
        gettoken ;;
        c' <- parsepipe fuel' ;;
        ret (PIPE c c')
      else ret c
  end
with parseexec (fuel : nat) : M (list Z) cmd :=
  match fuel with
  | O => λ _, NoFuel
  | S fuel' =>
      b <- peek [40] ;;
      if (b : bool) then parseblock fuel' else
      rs <- parseredirs [] ;;
      a <- parseargs rs ;;
      let '(argv, rs) := a in
      ret (redirect (EXEC argv) rs)
  end
with parseblock (fuel : nat) : M (list Z) cmd :=
  match fuel with
  | O => λ _, NoFuel
  | S fuel' =>
      b <- peek [40] ;;
      if negb b then panic "parseblock" else
      gettoken ;;
      c <- parseline fuel' ;;
      b <- peek [41] ;;
      if negb b then panic "syntax - missing )" else
      gettoken ;;
      rs <- parseredirs [] ;;
      ret (redirect c rs)
  end.

(** ** Strings in the input buffer *)

(** The string that starts at a place of the buffer. *)
Fixpoint cstr (l : list Z) : list Z :=
  match l with
  | [] => []
  | c :: l' => if c =? 0 then [] else c :: cstr l'
  end.

(** Where a pointer points, and a store of 0 there; the byte after the input is
    its NUL. *)
Definition offset (n : nat) (p : list Z) : nat := n - length p.
Definition put0 (n : nat) (buf : list Z) (p : list Z) : list Z := <[offset n p := 0]> buf.

Fixpoint nulterminate (n : nat) (c : cmd) (buf : list Z) : list Z :=
  match c with
  | EXEC argv => foldl (λ buf a, put0 n buf a.2) buf argv
  | REDIR c _ efile _ _ => put0 n (nulterminate n c buf) efile
  | PIPE l r | LIST l r => nulterminate n r (nulterminate n l buf)
  | BACK c => nulterminate n c buf
  end.

(** parsecmd: the command and the buffer after nulterminate. *)
Definition parsecmd (s : list Z) : outcome (cmd * list Z) :=
  match (c <- parseline (4 * S (length s)) ;; peek [] ;; rest <- get ;; ret (c, rest)) s with
  | Done (c, [], _) => Done (c, nulterminate (length s) c (s ++ [0]))
  | Done _ => Panic "syntax"
  | Panic e => Panic e
  | Undef e => Undef e
  | Block => Block
  | NoFuel => NoFuel
  end.
