(* ===== verification/ShellThms.v ===== *)
(** The parser of the shell: it always comes to an end, the strings it cuts out
    of its input are the words of the input. *)

From S2P Require Import Prelude Shell.

(** ** Returning or exiting

    [safe c Q s]: from [s], [c] returns with [Q] or panics; it neither runs out
    of fuel nor does anything undefined. *)
Definition safe {A} (c : M (list Z) A) (Q : A → list Z → Prop) (s : list Z) : Prop :=
  match c s with
  | Done (a, s') => Q a s'
  | Panic _ => True
  | _ => False
  end.

Lemma safe_bind {A B} (c : M (list Z) A) (k : A → M (list Z) B) Q s : safe c (λ a, safe (k a) Q) s → safe (bind c k) Q s.
Proof. unfold safe, bind. by destruct (c s) as [[a s']| | | |]. Qed.

Lemma safe_mono {A} (c : M (list Z) A) (P Q : A → list Z → Prop) s : safe c P s → (∀ a s', P a s' → Q a s') → safe c Q s.
Proof. unfold safe. destruct (c s) as [[a s']| | | |]; auto. Qed.

Lemma safe_while {A B} (Inv : nat → A → list Z → Prop) (body : A → M (list Z) (A + B)) Q n a s :
  (∀ n a s, Inv n a s → ∃ m, n = S m ∧ safe (body a) (λ r s', match r with inl a' => Inv m a' s' | inr b => Q b s' end) s) →
  Inv n a s → safe (while n body a) Q s.
Proof.
  intros Hb. revert a s. induction n as [|n IH]; intros a s HI.
  - by destruct (Hb _ _ _ HI) as (m & ? & _).
  - destruct (Hb _ _ _ HI) as (m & [= <-] & Hw). cbn [while]. apply safe_bind. eapply safe_mono; [exact Hw|].
    intros [a'|b] s' H; [by apply IH|done].
Qed.

Lemma safe_ret {A} (a : A) (Q : A → list Z → Prop) s : Q a s → safe (ret a) Q s.
Proof. done. Qed.
Lemma safe_get (Q : list Z → list Z → Prop) s : Q s s → safe get Q s.
Proof. done. Qed.
Lemma safe_put s' (Q : unit → list Z → Prop) s : Q tt s' → safe (put s') Q s.
Proof. done. Qed.

Ltac safe_step :=
  lazymatch goal with
  | |- safe (bind _ _) _ _ => apply safe_bind
  | |- safe (ret _) _ _ => apply safe_ret
  | |- safe get _ _ => apply safe_get
  | |- safe (put _) _ _ => apply safe_put
  | |- safe (panic _) _ _ => exact I
  | |- safe (let _ := _ in _) _ _ => cbv zeta
  end.

(** ** Characters *)
Definition special (c : Z) : bool := strchr whitespace c || strchr symbols c.

(** A word: characters that are neither blank nor symbols. *)
Definition ordinary (w : list Z) : Prop := Forall (λ c, special c = false ∧ c ≠ 0) w.

Lemma skip_ws_spec s : ∃ w, s = w ++ skip_ws s ∧ (skip_ws s = [] ∨ ∃ c s', skip_ws s = c :: s' ∧ strchr whitespace c = false).
Proof.
  induction s as [|c s (w & E & H)]; cbn [skip_ws]; [exists []; auto|].
  destruct (strchr whitespace c) eqn:Ec; [exists (c :: w); cbn; by rewrite <-E|]. exists []. split; [done|]. right. eauto.
Qed.

Lemma skip_ws_length s : (length (skip_ws s) ≤ length s)%nat.
Proof. destruct (skip_ws_spec s) as (w & E & _). rewrite E at 2. rewrite length_app. lia. Qed.

Lemma skip_ws_idem s : skip_ws (skip_ws s) = skip_ws s.
Proof. destruct (skip_ws_spec s) as (w & _ & [->|(c & s' & -> & Hc)]); [done|]. cbn [skip_ws]. by rewrite Hc. Qed.

Lemma skip_ws_suffix s : skip_ws s `suffix_of` s.
Proof. destruct (skip_ws_spec s) as (w & E & _). by exists w. Qed.

Lemma skip_word_spec s : ∃ w, s = w ++ skip_word s ∧ Forall (λ c, special c = false) w ∧
  (skip_word s = [] ∨ ∃ c s', skip_word s = c :: s' ∧ special c = true).
Proof.
  induction s as [|c s (w & E & Hw & H)]; cbn [skip_word]; [exists []; auto|]. unfold special in *. rewrite <-negb_orb.
  destruct (strchr whitespace c || strchr symbols c) eqn:Ec; cbn [negb].
  - exists []. split; [done|]. split; [constructor|]. right. eauto.
  - exists (c :: w). cbn. rewrite <-E. split; [done|]. split; [by constructor|done].
Qed.

Lemma deref_zero s : Forall (λ c, c ≠ 0) s → deref s = 0 → s = [].
Proof. destruct s as [|c s]; [done|]. intros [? _]%Forall_cons ?. done. Qed.

Lemma suffix_forall (P : Z → Prop) s s' : s' `suffix_of` s → Forall P s → Forall P s'.
Proof. intros [w ->] [_ ?]%Forall_app. done. Qed.

(** ** Strings *)

(** The text between the two ends. *)
Definition text (x : list Z * list Z) : list Z := take (length x.1 - length x.2) x.1.

(** A word of [s0], as long as it goes. *)
Definition string_ok (s0 : list Z) (x : list Z * list Z) : Prop :=
  x.1 `suffix_of` s0 ∧ ∃ w, x.1 = w ++ x.2 ∧ w ≠ [] ∧ Forall (λ c, special c = false) w ∧
    (x.2 = [] ∨ ∃ c s', x.2 = c :: s' ∧ special c = true).

Fixpoint strings (c : cmd) : list (list Z * list Z) :=
  match c with
  | EXEC argv => argv
  | REDIR c file efile _ _ => (file, efile) :: strings c
  | PIPE l r | LIST l r => strings l ++ strings r
  | BACK c => strings c
  end.

Definition cmd_ok (s0 : list Z) (c : cmd) : Prop := Forall (string_ok s0) (strings c).
Definition redirs_ok (s0 : list Z) (rs : list redir) : Prop := Forall (λ r, string_ok s0 (rd_file r, rd_efile r)) rs.

Lemma redirect_ok s0 rs : ∀ c, cmd_ok s0 c → redirs_ok s0 rs → cmd_ok s0 (redirect c rs).
Proof.
  induction rs as [|r rs IH]; intros c Hc Hr; [done|]. apply Forall_cons in Hr as [Hr Hrs].
  apply IH; [|done]. by constructor.
Qed.

(** What is left of the input: a part of [s0] no longer than [s]. *)
Definition left_of (s0 s s' : list Z) : Prop := s' `suffix_of` s0 ∧ (length s' ≤ length s)%nat.

Lemma left_of_trans s0 s1 s2 s3 : left_of s0 s1 s2 → left_of s0 s2 s3 → left_of s0 s1 s3.
Proof. intros [? ?] [? ?]. split; [done|lia]. Qed.

Lemma symbols_special c : strchr [124; 40; 41; 59; 38; 60] c = true ∨ c = 62 → special c = true.
Proof.
  intros [H| ->]; [|done]. unfold special, strchr in *. apply existsb_exists in H as (x & Hx & ->%Z.eqb_eq).
  cbn in Hx. repeat (destruct Hx as [<-|Hx]; [done|]). done.
Qed.

Lemma token_spec s r q eq : Forall (λ c, c ≠ 0) s → token s = (r, q, eq) →
  eq `suffix_of` s ∧ (skip_ws s ≠ [] → (length eq < length s)%nat) ∧ (r ≠ 0 → skip_ws s ≠ []) ∧ (r = 97 → string_ok s (q, eq)).
Proof.
  intros Hnz. unfold token. pose proof (skip_ws_suffix s) as Hsuf. pose proof (skip_ws_length s) as Hlen.
  pose proof (suffix_forall _ _ _ Hsuf Hnz) as Hnz'. destruct (skip_ws_spec s) as (_ & _ & Hws). set (p := skip_ws s) in *. clearbody p.
  destruct (Z.eqb_spec (deref p) 0) as [E|E]; [intros [= <- <- <-]; apply deref_zero in E as ->; done|].
  destruct p as [|c p]; [done|]. cbn [deref tail] in *.
  assert (p `suffix_of` s) as Hp by (etrans; [by exists [c]|done]). cbn [length] in Hlen.
  destruct (strchr _ c) eqn:Es; [intros [= <- <- <-]; split_and!; try done; intros ->; discriminate Es|].
  destruct (Z.eqb_spec c 62) as [->|Hc].
  { destruct p as [|c' p]; cbn [deref tail]; [intros [= <- <- <-]; split_and!; try done; cbn; lia|]. cbn [length] in Hlen.
    destruct (c' =? 62); intros [= <- <- <-]; split_and!; try done; cbn [length]; try lia. by etrans; [exists [c']|]. }
  destruct (skip_word_spec (c :: p)) as (w & E1 & Hw & H). remember (skip_word (c :: p)) as e eqn:Ee. clear Ee.
  intros [= <- <- <-]. destruct Hws as [|(x & y & [= <- <-] & Hx)]; [done|].
  assert (special c = false) as Hsp.
  { unfold special, symbols. rewrite Hx. unfold strchr in *. cbn in *. rewrite !orb_false_iff in *. rewrite (proj2 (Z.eqb_neq _ _) Hc). tauto. }
  assert (w ≠ []) as Hne.
  { intros ->. rewrite app_nil_l in E1. rewrite <-E1 in H. destruct H as [|(? & ? & [= <- <-] & ?)]; [done|congruence]. }
  split_and!; [|intros _|done|intros _; split; [done|by exists w]].
  - etrans; [|exact Hsuf]. rewrite E1. by exists w.
  - assert (length (c :: p) = length w + length e)%nat as E2 by (rewrite E1; apply length_app).
    destruct w; [done|]. cbn [length] in *. lia.
Qed.

Section parse.
Context (s0 : list Z) (Hnz : Forall (λ c, c ≠ 0) s0).

Lemma peek_safe toks s (Q : bool → list Z → Prop) : s `suffix_of` s0 →
  (∀ b, left_of s0 s (skip_ws s) → (b = true → skip_ws s ≠ []) → Q b (skip_ws s)) → safe (peek toks) Q s.
Proof.
  intros Hs HQ. unfold peek. do 2 safe_step. cbv zeta. do 2 safe_step. safe_step. apply HQ.
  - split; [etrans; [apply skip_ws_suffix|done]|apply skip_ws_length].
  - intros H E. by rewrite E in H.
Qed.

Lemma gettoken_safe s (Q : Z * list Z * list Z → list Z → Prop) : s `suffix_of` s0 →
  (∀ r q eq s', left_of s0 s s' → (skip_ws s ≠ [] → (length s' < length s)%nat) → (r ≠ 0 → skip_ws s ≠ []) →
    (r = 97 → string_ok s0 (q, eq)) → Q (r, q, eq) s') → safe gettoken Q s.
Proof.
  intros Hs HQ. unfold gettoken. do 2 safe_step. destruct (token s) as [[r q] eq] eqn:Et.
  destruct (token_spec s r q eq (suffix_forall _ _ _ Hs Hnz) Et) as (H1 & H2 & H3 & H4). do 2 safe_step. safe_step.
  pose proof (skip_ws_length eq). pose proof (suffix_length _ _ H1). apply HQ.
  - split; [by do 2 (etrans; [|eassumption]); apply skip_ws_suffix|lia].
  - intros Hr%H2. lia.
  - done.
  - intros Hr. destruct (H4 Hr) as [Hq Hw]. split; [by etrans|done].
Qed.

Lemma left_of_suffix s s' : left_of s0 s s' → s' `suffix_of` s0.
Proof. by intros []. Qed.

Lemma redir_of_ok tok q eq : string_ok s0 (q, eq) → redirs_ok s0 (redir_of tok q eq).
Proof. intros H. unfold redir_of. unfold redirs_ok. repeat case_if; rewrite ?Forall_singleton; done || apply Forall_nil; done. Qed.

Lemma parseredirs_safe rs s : s `suffix_of` s0 → redirs_ok s0 rs →
  safe (parseredirs rs) (λ rs' s', left_of s0 s s' ∧ redirs_ok s0 rs') s.
Proof.
  intros Hs Hrs. unfold parseredirs. do 2 safe_step.
  apply (safe_while (λ n rs s', left_of s0 s s' ∧ redirs_ok s0 rs ∧ (length s' < n)%nat)); [|split_and!; [by split|done|lia]].
  clear rs Hrs. intros n rs s1 (H1 & Hrs & Hn). destruct n as [|n]; [lia|]. exists n. split; [done|].
  safe_step. apply peek_safe; [apply H1|]. intros [] H2 Hne; [|safe_step; split; [eapply left_of_trans; eassumption|done]].
  specialize (Hne eq_refl). safe_step. apply gettoken_safe; [apply H2|]. intros tok q0 eq0 s2 H3 H4 _ _. rewrite skip_ws_idem in H4.
  specialize (H4 Hne). safe_step. apply gettoken_safe; [apply H3|]. intros r q eq s3 H5 _ _ Hw.
  destruct (Z.eqb_spec r 97) as [->|]; cbn [negb]; [|safe_step]. safe_step. destruct H2 as [_ H2], H5 as [H5 H5'], H1 as [H1 H1'].
  split_and!; [split; [done|lia]|apply Forall_app; split; [done|by apply redir_of_ok, Hw]|lia].
Qed.

Lemma parseargs_safe rs s : s `suffix_of` s0 → redirs_ok s0 rs →
  safe (parseargs rs) (λ a s', left_of s0 s s' ∧ Forall (string_ok s0) a.1 ∧ redirs_ok s0 a.2) s.
Proof.
  intros Hs Hrs. unfold parseargs. do 2 safe_step.
  apply (safe_while (λ n a s', left_of s0 s s' ∧ (Forall (string_ok s0) a.1 ∧ redirs_ok s0 a.2) ∧ (length s' < n)%nat));
    [|split_and!; [by split|constructor|done|lia]].
  clear rs Hrs. intros n [argv rs] s1 (H1 & [Hargv Hrs] & Hn). destruct n as [|n]; [lia|]. exists n. split; [done|]. cbn [fst snd] in *.
  safe_step. apply peek_safe; [apply H1|]. intros [] H2 _; [safe_step; split; [eapply left_of_trans; eassumption|done]|].
  safe_step. apply gettoken_safe; [apply H2|]. intros tok q eq s2 H3 H4 Hne Hw.
  destruct (Z.eqb_spec tok 0) as [->|H0]; [safe_step; split; [by do 2 (eapply left_of_trans; [eassumption|])|done]|].
  specialize (H4 (Hne H0)). destruct (Z.eqb_spec tok 97) as [->|]; cbn [negb]; [|safe_step]. cbv zeta. case_if; [safe_step|].
  safe_step. eapply safe_mono; [apply parseredirs_safe; [apply H3|done]|]. intros rs' s3 [H5 Hrs']. safe_step.
  destruct H2 as [_ H2], H3 as [_ H3], H5 as [H5 H5'], H1 as [_ H1]. cbn [fst snd].
  split_and!; [split; [done|lia]|apply Forall_app; split; [done|apply Forall_singleton; by apply Hw]|done|lia].
Qed.

Lemma parseback_safe c s : s `suffix_of` s0 → cmd_ok s0 c → safe (parseback c) (λ c' s', left_of s0 s s' ∧ cmd_ok s0 c') s.
Proof.
  intros Hs Hc. unfold parseback. do 2 safe_step.
  apply (safe_while (λ n c s', left_of s0 s s' ∧ cmd_ok s0 c ∧ (length s' < n)%nat)); [|split_and!; [by split|done|lia]].
  clear c Hc. intros n c s1 (H1 & Hc & Hn). destruct n as [|n]; [lia|]. exists n. split; [done|].
  safe_step. apply peek_safe; [apply H1|]. intros [] H2 Hne; [|safe_step; split; [eapply left_of_trans; eassumption|done]].
  specialize (Hne eq_refl). safe_step. apply gettoken_safe; [apply H2|]. intros tok q eq s2 H3 H4 _ _. rewrite skip_ws_idem in H4.
  specialize (H4 Hne). safe_step. destruct H2 as [_ H2], H3 as [H3 H3'], H1 as [_ H1]. split_and!; [split; [done|lia]|done|lia].
Qed.

(** A token that peek has seen is taken. *)
Lemma taken_token s (Q : Z * list Z * list Z → list Z → Prop) : skip_ws s `suffix_of` s0 → skip_ws s ≠ [] →
  (∀ t s', left_of s0 s s' → (length s' < length s)%nat → Q t s') → safe gettoken Q (skip_ws s).
Proof.
  intros Hs Hne HQ. apply gettoken_safe; [done|]. intros r q eq s' [H1 H2] H3 _ _. rewrite skip_ws_idem in H3. specialize (H3 Hne).
  pose proof (skip_ws_length s). apply HQ; [split; [done|lia]|lia].
Qed.

Definition good (s : list Z) (c : cmd) (s' : list Z) : Prop := left_of s0 s s' ∧ cmd_ok s0 c.

Lemma parse_safe fuel : ∀ s, s `suffix_of` s0 →
  ((4 * length s + 4 ≤ fuel)%nat → safe (parseline fuel) (good s) s) ∧
  ((4 * length s + 3 ≤ fuel)%nat → safe (parsepipe fuel) (good s) s) ∧
  ((4 * length s + 2 ≤ fuel)%nat → safe (parseexec fuel) (good s) s) ∧
  ((4 * length s + 1 ≤ fuel)%nat → safe (parseblock fuel) (good s) s).
Proof.
  induction fuel as [|fuel IH]; intros s Hs; [split_and!; lia|].
  split_and!; intros Hf; cbn [parseline parsepipe parseexec parseblock].
  - safe_step. eapply safe_mono; [apply IH; [done|lia]|]. intros c s1 [H1 Hc]. safe_step.
    eapply safe_mono; [apply parseback_safe; [apply H1|done]|]. intros c' s2 [H2 Hc']. safe_step.
    pose proof (left_of_trans _ _ _ _ H1 H2) as H12.
    apply peek_safe; [apply H2|]. intros [] H3 Hne; [|safe_step; split; [eapply left_of_trans; eassumption|done]].
    safe_step. apply taken_token; [apply H3|by apply Hne|]. intros _ s4 H4 H4'. safe_step.
    destruct H12 as [_ H12]. eapply safe_mono; [apply IH; [apply H4|lia]|]. intros c2 s5 [[H5 H5'] Hc2]. safe_step.
    split; [split; [done|lia]|by apply Forall_app].
  - safe_step. eapply safe_mono; [apply IH; [done|lia]|]. intros c s1 [H1 Hc]. safe_step.
    apply peek_safe; [apply H1|]. intros [] H3 Hne; [|safe_step; split; [eapply left_of_trans; eassumption|done]].
    safe_step. apply taken_token; [apply H3|by apply Hne|]. intros _ s4 H4 H4'. safe_step.
    destruct H1 as [_ H1]. eapply safe_mono; [apply IH; [apply H4|lia]|]. intros c2 s5 [[H5 H5'] Hc2]. safe_step.
    split; [split; [done|lia]|by apply Forall_app].
  - safe_step. apply peek_safe; [done|]. intros [] H1 Hne.
    + eapply safe_mono; [apply IH; [apply H1|destruct H1; lia]|]. intros c s2 [H2 Hc]. split; [eapply left_of_trans; eassumption|done].
    + safe_step. eapply safe_mono; [apply parseredirs_safe; [apply H1|by apply Forall_nil]|]. intros rs s2 [H2 Hrs]. safe_step.
      eapply safe_mono; [apply parseargs_safe; [apply H2|done]|]. intros [argv rs'] s3 (H3 & Ha & Hr). safe_step.
      split; [by do 2 (eapply left_of_trans; [eassumption|])|by apply redirect_ok].
  - safe_step. apply peek_safe; [done|]. intros [] H1 Hne; cbn [negb]; [|safe_step].
    safe_step. apply taken_token; [apply H1|by apply Hne|]. intros _ s2 H2 H2'. safe_step.
    eapply safe_mono; [apply IH; [apply H2|lia]|]. intros c s3 [H3 Hc]. safe_step.
    apply peek_safe; [apply H3|]. intros [] H4 Hne'; cbn [negb]; [|safe_step].
    safe_step. apply taken_token; [apply H4|by apply Hne'|]. intros _ s5 H5 H5'. safe_step.
    eapply safe_mono; [apply parseredirs_safe; [apply H5|by apply Forall_nil]|]. intros rs s6 [[H6 H6'] Hrs]. safe_step.
    split; [|by apply redirect_ok]. split; [done|]. destruct H3 as [_ H3]. lia.
Qed.
End parse.

(** ** The strings of the command *)
Lemma text_word w e : text (w ++ e, e) = w.
Proof. unfold text. cbn. rewrite length_app. replace (_ + _ - _)%nat with (length w) by lia. by rewrite take_app_length. Qed.

(** [b'] is [b] with zeroes at the positions [ps]. *)
Definition zeroed (ps : list nat) (b b' : list Z) : Prop :=
  length b' = length b ∧ ∀ i, (i < length b)%nat → b' !! i = if decide (i ∈ ps) then Some 0 else b !! i.

Lemma zeroed_refl b : zeroed [] b b.
Proof. split; [done|]. intros i _. by rewrite decide_False by apply not_elem_of_nil. Qed.

Lemma zeroed_trans ps qs b1 b2 b3 : zeroed ps b1 b2 → zeroed qs b2 b3 → zeroed (ps ++ qs) b1 b3.
Proof.
  intros [L1 H1] [L2 H2]. split; [congruence|]. intros i Hi. rewrite H2, H1 by lia. destruct (decide (i ∈ qs)).
  - by rewrite decide_True by set_solver.
  - apply decide_ext. set_solver.
Qed.

Lemma put0_zeroed n b p : length b = S n → zeroed [offset n p] b (put0 n b p).
Proof.
  intros Hl. unfold put0. split; [by rewrite length_insert|]. intros i Hi. destruct (decide (i = offset n p)) as [->|Hne].
  - rewrite decide_True by left. apply list_lookup_insert_eq. unfold offset. lia.
  - rewrite list_lookup_insert_ne by done. rewrite decide_False; [done|]. set_solver.
Qed.

(** nulterminate stores 0 at the ends of the strings and nowhere else. *)
Lemma nulterminate_zeroed n c : ∀ b, length b = S n →
  ∃ ps, zeroed ps b (nulterminate n c b) ∧ ∀ i, i ∈ ps ↔ ∃ x, x ∈ strings c ∧ i = offset n x.2.
Proof.
  induction c as [argv|c IH f ef m fd|l IHl r IHr|l IHl r IHr|c IH]; intros b Hb; cbn [nulterminate strings].
  - revert b Hb. induction argv as [|x argv IH]; intros b Hb; [exists []; split; [apply zeroed_refl|set_solver]|].
    pose proof (put0_zeroed n b x.2 Hb) as Z1. destruct (IH (put0 n b x.2)) as (ps & Z2 & Hps); [by rewrite (proj1 Z1)|].
    exists ([offset n x.2] ++ ps). split; [by eapply zeroed_trans|]. set_solver.
  - destruct (IH b Hb) as (ps & Z1 & Hps). exists (ps ++ [offset n ef]). split; [|set_solver].
    eapply zeroed_trans; [exact Z1|]. apply put0_zeroed. by rewrite (proj1 Z1).
  - destruct (IHl b Hb) as (ps & Z1 & Hps). destruct (IHr (nulterminate n l b)) as (qs & Z2 & Hqs); [by rewrite (proj1 Z1)|].
    exists (ps ++ qs). split; [by eapply zeroed_trans|set_solver].
  - destruct (IHl b Hb) as (ps & Z1 & Hps). destruct (IHr (nulterminate n l b)) as (qs & Z2 & Hqs); [by rewrite (proj1 Z1)|].
    exists (ps ++ qs). split; [by eapply zeroed_trans|set_solver].
  - by apply IH.
Qed.

Lemma cstr_prefix w l : Forall (λ c, c ≠ 0) w → cstr (w ++ 0 :: l) = w.
Proof. induction w as [|c w IH]; [done|]. intros [Hc Hw]%Forall_cons. cbn. rewrite (proj2 (Z.eqb_neq _ _) Hc). by rewrite IH. Qed.

(** What stands at the end of a word. *)
Lemma string_end s x : string_ok s x → offset (length s) x.2 = length s ∨ ∃ c, s !! offset (length s) x.2 = Some c ∧ special c = true.
Proof.
  intros ([u Eu] & w & Eq & _ & _ & [E|(c & s' & E & Hc)]); unfold offset; rewrite E; [left; cbn; lia|right].
  exists c. split; [|done]. rewrite Eu, Eq, E, !length_app. cbn [length]. rewrite (assoc_L (++)), lookup_app_r by (rewrite length_app; lia).
  rewrite length_app. by replace (_ - _)%nat with 0%nat by lia.
Qed.

(** Every string of the command is found in the buffer afterwards. *)
Lemma nulterminate_strings s c x : Forall (λ c, c ≠ 0) s → cmd_ok s c → x ∈ strings c →
  cstr (drop (offset (length s) x.1) (nulterminate (length s) c (s ++ [0]))) = text x.
Proof.
  intros Hnz Hok Hx. unfold cmd_ok in Hok. rewrite Forall_forall in Hok. destruct x as [q e].
  destruct (Hok _ Hx) as ([u Eu] & w & Eq & Hne & Hw & He). cbn [fst snd] in *. subst q. rewrite text_word.
  set (n := length s). set (b := s ++ [0]). assert (length b = S n) as Hb by (unfold b, n; rewrite length_app; cbn; lia).
  destruct (nulterminate_zeroed n c b Hb) as (ps & [Hl Hz] & Hps). set (b' := nulterminate n c b) in *.
  assert (n = length u + length w + length e)%nat as Hn by (unfold n; rewrite Eu, !length_app; lia).
  assert (offset n (w ++ e) = length u) as -> by (unfold offset; rewrite length_app; lia).
  assert (drop (length u) b' = w ++ 0 :: drop (S (length u + length w)) b') as ->; [|by apply cstr_prefix; rewrite Eu in Hnz; apply Forall_app in Hnz as [_ [? _]%Forall_app]].
  apply list_eq. intros i. rewrite lookup_drop. destruct (decide (i < length w)%nat) as [Hi|Hi].
  - rewrite lookup_app_l by done. rewrite Hz by lia. destruct (lookup_lt_is_Some_2 w i Hi) as [ch Hch].
    assert (b !! (length u + i)%nat = Some ch) as Ech.
    { unfold b. rewrite Eu, <-!(assoc_L (++)), lookup_app_r by lia. replace (_ + _ - _)%nat with i by lia. by rewrite lookup_app_l. }
    rewrite Hch, Ech, decide_False; [done|]. intros (x2 & Hx2 & E2)%Hps. pose proof (string_end s x2 (Hok x2 Hx2)) as [E3|(c2 & E3 & Hsp)].
    + fold n in E3. lia.
    + assert (s !! (length u + i)%nat = Some ch) as E4 by (unfold b in Ech; rewrite lookup_app_l in Ech; [done|fold n; lia]).
      fold n in E3. rewrite <-E2, E4 in E3. injection E3 as ->. rewrite Forall_lookup in Hw. specialize (Hw i c2 Hch). congruence.
  - rewrite lookup_app_r by lia. destruct (i - length w)%nat as [|k] eqn:Ek.
    + replace (length u + i)%nat with (length u + length w)%nat by lia. rewrite Hz, decide_True; [done| |lia].
      apply Hps. exists (w ++ e, e). split; [done|]. unfold offset. cbn [snd]. lia.
    + change ((0 :: ?l) !! S k) with (l !! k). rewrite lookup_drop. f_equal. lia.
Qed.

Lemma parsecmd_run s : Forall (λ c, c ≠ 0) s →
  (∃ c, parsecmd s = Done (c, nulterminate (length s) c (s ++ [0])) ∧ cmd_ok s c) ∨ ∃ msg, parsecmd s = Panic msg.
Proof.
  intros Hnz. assert (safe (c <- parseline (4 * S (length s)) ;; peek [] ;; rest <- get ;; ret (c, rest)) (λ r _, cmd_ok s r.1) s) as H.
  { safe_step. eapply safe_mono; [apply (parse_safe s Hnz); [done|lia]|]. intros c s1 [H1 Hc]. safe_step.
    apply (peek_safe s); [apply H1|]. intros b _ _. do 2 safe_step. by safe_step. }
  unfold parsecmd. unfold safe in H. destruct (bind _ _ s) as [[[c [|ch rest]] s']|msg| | |]; try done.
  - left. by exists c.
  - right. by eexists.
  - right. by eexists.
Qed.

(** C31: the shell's parser comes to an end.  Whatever the line, parsecmd either
    exits with an error message or returns a command; neither its loops nor the
    recursion through nested blocks run on, since every turn takes a character
    of the line. *)
Theorem parsecmd_terminates s : Forall (λ c, c ≠ 0) s →
  (∃ c buf, parsecmd s = Done (c, buf)) ∨ ∃ msg, parsecmd s = Panic msg.
Proof. intros Hnz. destruct (parsecmd_run s Hnz) as [(c & E & _)|H]; [left; eauto|by right]. Qed.

Lemma parsecmd_terminates_witness : (∃ c buf, parsecmd [40; 97; 59; 98; 38; 41; 124; 99] = Done (c, buf)) ∨ ∃ msg, parsecmd [40; 97; 59; 98; 38; 41; 124; 99] = Panic msg.
Proof. apply parsecmd_terminates. repeat constructor; discriminate. Defined.

(** the strings of a command are the words of the line.  The pointers that
    the parser keeps for arguments and file names point to maximal words of the
    line, and after nulterminate each of them is the NUL-terminated string of
    that word: no word is cut short by the NUL of another. *)
Theorem parsecmd_strings s c buf : Forall (λ c, c ≠ 0) s → parsecmd s = Done (c, buf) →
  ∀ x, x ∈ strings c → text x ≠ [] ∧ Forall (λ c, special c = false) (text x) ∧ cstr (drop (offset (length s) x.1) buf) = text x.
Proof.
  intros Hnz E x Hx. destruct (parsecmd_run s Hnz) as [(c' & E' & Hok)|(msg & E')]; [|congruence].
  rewrite E in E'. injection E' as <- ->. split_and!; [..|by apply nulterminate_strings].
  all: unfold cmd_ok in Hok; rewrite Forall_forall in Hok; destruct x as [q e]; destruct (Hok _ Hx) as (_ & w & Eq & Hne & Hw & _);
    cbn [fst snd] in Eq; subst q; by rewrite text_word.
Qed.

(** cat<in>>out *)
Lemma parsecmd_strings_witness : let s := [99; 97; 116; 60; 105; 110; 62; 62; 111; 117; 116] in
  ∃ c buf, parsecmd s = Done (c, buf) ∧ ∀ x, x ∈ strings c → cstr (drop (offset (length s) x.1) buf) = text x.
Proof.
  intros s. destruct (parsecmd s) as [[c buf]| | | |] eqn:E; [|vm_compute in E; discriminate..].
  exists c, buf. split; [reflexivity|]. intros x Hx. apply (parsecmd_strings s c buf); [repeat constructor; discriminate|exact E|exact Hx].
Defined.
