(* ===== verification/ShellTypes.v ===== *)
(** The trees that the parser of the shell builds are well formed. *)

From S2P Require Import Prelude Shell.

(** The modes of <, > and >> with the descriptor each one redirects. *)
Definition redir_wf (mode fd : Z) : bool :=
  (mode =? O_RDONLY) && (fd =? 0) ||
  ((mode =? Z.lor (Z.lor O_WRONLY O_CREATE) O_TRUNC) || (mode =? Z.lor O_WRONLY O_CREATE)) && (fd =? 1).

(** The arguments and the null pointer behind them fit the arrays of execcmd,
    and redirections are of standard input or output. *)
Fixpoint cmd_wf (c : cmd) : bool :=
  match c with
  | EXEC argv => Z.of_nat (length argv) <? MAXARGS
  | REDIR c _ _ mode fd => redir_wf mode fd && cmd_wf c
  | PIPE l r | LIST l r => cmd_wf l && cmd_wf r
  | BACK c => cmd_wf c
  end.
Definition redirs_wf (rs : list redir) : Prop := Forall (λ r, redir_wf (rd_mode r) (rd_fd r) = true) rs.

Lemma redirect_wf rs : ∀ c, cmd_wf c = true → redirs_wf rs → cmd_wf (redirect c rs) = true.
Proof. induction rs as [|r rs IH]; intros c Hc Hr; [done|]. apply Forall_cons in Hr as [Hr Hrs]. apply IH; [cbn; by rewrite Hr|done]. Qed.

Lemma redir_of_wf tok q eq : redirs_wf (redir_of tok q eq).
Proof. unfold redir_of. repeat case_if; by repeat constructor. Qed.

(** The tokens decide nothing here. *)
Lemma gettoken_any s (Q : Z * list Z * list Z → list Z → Prop) : (∀ t s', Q t s') → wlp gettoken Q s.
Proof. intros HQ a s' _. apply HQ. Qed.
Lemma peek_any toks s (Q : bool → list Z → Prop) : (∀ b s', Q b s') → wlp (peek toks) Q s.
Proof. intros HQ a s' _. apply HQ. Qed.

Lemma parseredirs_wf rs s : redirs_wf rs → wlp (parseredirs rs) (λ rs' _, redirs_wf rs') s.
Proof.
  intros Hrs. unfold parseredirs. do 2 wlp_step. apply (wlp_while (λ rs _, redirs_wf rs)); [|done]. clear s rs Hrs. intros rs s Hrs.
  wlp_step. apply peek_any. intros [] s1; [|by wlp_step]. wlp_step. apply gettoken_any. intros [[tok ?] ?] s2.
  wlp_step. apply gettoken_any. intros [[r q] eq] s3. destruct (negb (r =? 97)); wlp_step. apply Forall_app_2; [done|apply redir_of_wf].
Qed.

Lemma parseargs_wf rs s : redirs_wf rs → wlp (parseargs rs) (λ a _, cmd_wf (EXEC a.1) = true ∧ redirs_wf a.2) s.
Proof.
  intros Hrs. unfold parseargs. do 2 wlp_step. apply (wlp_while (λ a _, cmd_wf (EXEC a.1) = true ∧ redirs_wf a.2)); [|done].
  clear s rs Hrs. intros [argv rs] s [Ha Hrs]. wlp_step. apply peek_any. intros [] s1; [by wlp_step|]. wlp_step. apply gettoken_any.
  intros [[tok q] eq] s2. destruct (tok =? 0); [by wlp_step|]. destruct (negb (tok =? 97)); [wlp_step|]. cbv zeta.
  destruct (Z.leb_spec MAXARGS (Z.of_nat (length (argv ++ [(q, eq)])))) as [H|H]; [wlp_step|]. wlp_step.
  eapply wlp_mono; [by apply parseredirs_wf|]. intros rs' s3 Hrs'. wlp_step. cbn [fst snd cmd_wf]. split; [by apply Z.ltb_lt|done].
Qed.

Lemma parseback_wf c s : cmd_wf c = true → wlp (parseback c) (λ c' _, cmd_wf c' = true) s.
Proof.
  intros Hc. unfold parseback. do 2 wlp_step. apply (wlp_while (λ c _, cmd_wf c = true)); [|done]. clear s c Hc. intros c s Hc.
  wlp_step. apply peek_any. intros [] s1; [|by wlp_step]. wlp_step. apply gettoken_any. intros t s2. by wlp_step.
Qed.

Lemma parse_wf fuel : ∀ s,
  wlp (parseline fuel) (λ c _, cmd_wf c = true) s ∧ wlp (parsepipe fuel) (λ c _, cmd_wf c = true) s ∧
  wlp (parseexec fuel) (λ c _, cmd_wf c = true) s ∧ wlp (parseblock fuel) (λ c _, cmd_wf c = true) s.
Proof.
  induction fuel as [|fuel IH]; intros s; [done|]. split_and!; cbn [parseline parsepipe parseexec parseblock].
  - wlp_step. eapply wlp_mono; [apply IH|]. intros c s1 Hc. wlp_step. eapply wlp_mono; [by apply parseback_wf|]. intros c1 s2 Hc1.
    wlp_step. apply peek_any. intros [] s3; [|by wlp_step]. wlp_step. apply gettoken_any. intros t s4. wlp_step.
    eapply wlp_mono; [apply IH|]. intros c2 s5 Hc2. wlp_step. cbn. by rewrite Hc1, Hc2.
  - wlp_step. eapply wlp_mono; [apply IH|]. intros c s1 Hc. wlp_step. apply peek_any. intros [] s3; [|by wlp_step].
    wlp_step. apply gettoken_any. intros t s4. wlp_step. eapply wlp_mono; [apply IH|]. intros c2 s5 Hc2. wlp_step. cbn. by rewrite Hc, Hc2.
  - wlp_step. apply peek_any. intros [] s1; [apply IH|]. wlp_step. eapply wlp_mono; [apply parseredirs_wf; constructor|]. intros rs s2 Hrs.
    wlp_step. eapply wlp_mono; [by apply parseargs_wf|]. intros [argv rs'] s3 [Ha Hr]. wlp_step. by apply redirect_wf.
  - wlp_step. apply peek_any. intros [] s1; cbn [negb]; [|wlp_step]. wlp_step. apply gettoken_any. intros t s2.
    wlp_step. eapply wlp_mono; [apply IH|]. intros c s3 Hc. wlp_step. apply peek_any. intros [] s4; cbn [negb]; [|wlp_step].
    wlp_step. apply gettoken_any. intros t' s5. wlp_step. eapply wlp_mono; [apply parseredirs_wf; constructor|]. intros rs s6 Hrs.
    wlp_step. by apply redirect_wf.
Qed.

(** C30: the parser builds well-formed commands only.  In what parsecmd returns,
    whatever the line and however deep the command, every simple command has
    fewer than MAXARGS arguments, so that they and the null pointer behind them
    fit the arrays of struct execcmd, and every redirection is of standard input
    for reading or of standard output for writing with the flags of > or >>. *)
Theorem parsecmd_wf s c buf : parsecmd s = Done (c, buf) → cmd_wf c = true.
Proof.
  unfold parsecmd. assert (wlp (c <- parseline (4 * S (length s)) ;; peek [] ;; rest <- get ;; ret (c, rest)) (λ r _, cmd_wf r.1 = true) s) as H.
  { wlp_step. eapply wlp_mono; [apply parse_wf|]. intros c' s1 Hc. wlp_step. apply peek_any. intros b s2. do 2 wlp_step. by wlp_step. }
  destruct (bind _ _ s) as [[[c' [|ch rest]] s']| | | |] eqn:E; try done. intros [= <- <-]. by specialize (H _ _ E).
Qed.

Lemma parsecmd_wf_witness : ∃ c buf, parsecmd [99; 97; 116; 60; 105; 110; 124; 119; 99; 62; 62; 111] = Done (c, buf) ∧ cmd_wf c = true.
Proof.
  assert (∃ c buf, parsecmd [99; 97; 116; 60; 105; 110; 124; 119; 99; 62; 62; 111] = Done (c, buf)) as (c & buf & E) by (eexists _, _; vm_compute; reflexivity).
  exists c, buf. split; [exact E|exact (parsecmd_wf _ c buf E)].
Defined.
