(* ===== verification/ShellPrint.v ===== *)
(** Printing commands: the shell's parser inverts it.  The parser's grammar is
    given by a printer of command trees with their words in place of pointers,
    and parsing what it prints gives the tree back. *)

From S2P Require Import Prelude Shell ShellThms.

(** ** Command trees *)
Inductive tree :=
| TExec (args : list (list Z))
| TRedir (t : tree) (file : list Z) (mode fd : Z)
| TPipe (l r : tree)
| TList (l r : tree)
| TBack (t : tree).

(** The tree of a command whose strings are read with [rd]. *)
Fixpoint tree_of (rd : list Z * list Z → list Z) (c : cmd) : tree :=
  match c with
  | EXEC argv => TExec (rd <$> argv)
  | REDIR c file efile mode fd => TRedir (tree_of rd c) (rd (file, efile)) mode fd
  | PIPE l r => TPipe (tree_of rd l) (tree_of rd r)
  | LIST l r => TList (tree_of rd l) (tree_of rd r)
  | BACK c => TBack (tree_of rd c)
  end.

Definition word_ok (w : list Z) : Prop := w ≠ [] ∧ ordinary w.

(** A redirection: the file, the open mode and the descriptor. *)
Definition rtree : Type := list Z * Z * Z.
Definition redir_ok (r : rtree) : Prop :=
  word_ok r.1.1 ∧ (r.1.2, r.2) ∈ [(O_RDONLY, 0); (Z.lor (Z.lor O_WRONLY O_CREATE) O_TRUNC, 1); (Z.lor O_WRONLY O_CREATE, 1)].

Fixpoint tree_ok (t : tree) : Prop :=
  match t with
  | TExec args => Forall word_ok args ∧ Z.of_nat (length args) < MAXARGS
  | TRedir t file mode fd => tree_ok t ∧ redir_ok (file, mode, fd)
  | TPipe l r | TList l r => tree_ok l ∧ tree_ok r
  | TBack t => tree_ok t
  end.

(** ** The printer

    The level is that of the parser's functions: 0 for parseexec, 1 for
    parsepipe, 2 for the commands before [&] in parseline, 3 for parseline. *)
Definition paren (b : bool) (s : list Z) : list Z := if b then [40] ++ s ++ [41] else s.

Definition show_redir (r : rtree) : list Z :=
  (if r.2 =? 0 then [60] else if r.1.2 =? Z.lor O_WRONLY O_CREATE then [62; 62] else [62]) ++ r.1.1.

Definition show_args (args : list (list Z)) : list Z := mjoin ((cons 32) <$> args).
Definition show_redirs (rs : list rtree) : list Z := mjoin (show_redir <$> rs).

Fixpoint show (lvl : nat) (t : tree) : list Z :=
  match t with
  | TExec args => show_args args
  | TRedir t file mode fd => show 0 t ++ show_redir (file, mode, fd)
  | TPipe l r => paren (lvl <? 1)%nat (show 0 l ++ [124] ++ show 1 r)
  | TBack t => paren (lvl <? 2)%nat (show 2 t ++ [38])
  | TList l r => paren (lvl <? 3)%nat (show 2 l ++ [59] ++ show 3 r)
  end.

(** ** Runs

    [runs c Q s]: [c] returns with [Q], unless it runs out of fuel, which
    [parsecmd_run] rules out. *)
Definition runs {A} (c : M (list Z) A) (Q : A → list Z → Prop) (s : list Z) : Prop :=
  match c s with
  | Done (a, s') => Q a s'
  | NoFuel => True
  | _ => False
  end.

Lemma runs_bind {A B} (c : M (list Z) A) (k : A → M (list Z) B) Q s : runs c (λ a, runs (k a) Q) s → runs (bind c k) Q s.
Proof. unfold runs, bind. by destruct (c s) as [[a s']| | | |]. Qed.

Lemma runs_mono {A} (c : M (list Z) A) (P Q : A → list Z → Prop) s : runs c P s → (∀ a s', P a s' → Q a s') → runs c Q s.
Proof. unfold runs. destruct (c s) as [[a s']| | | |]; auto. Qed.

Lemma runs_ret {A} (a : A) (Q : A → list Z → Prop) s : Q a s → runs (ret a) Q s.
Proof. done. Qed.
Lemma runs_get (Q : list Z → list Z → Prop) s : Q s s → runs get Q s.
Proof. done. Qed.

Lemma runs_while {A B} (Inv : A → list Z → Prop) (body : A → M (list Z) (A + B)) Q n a s :
  (∀ a s, Inv a s → runs (body a) (λ r s', match r with inl a' => Inv a' s' | inr b => Q b s' end) s) →
  Inv a s → runs (while n body a) Q s.
Proof.
  intros Hb. revert a s. induction n as [|n IH]; intros a s HI; [done|]. cbn [while]. apply runs_bind.
  eapply runs_mono; [by apply Hb|]. intros [a'|b] s' H; [by apply IH|done].
Qed.

Ltac runs_step :=
  lazymatch goal with
  | |- runs (bind _ _) _ _ => apply runs_bind
  | |- runs (ret _) _ _ => apply runs_ret
  | |- runs get _ _ => apply runs_get
  end.

Lemma peek_runs toks s (Q : bool → list Z → Prop) :
  Q (negb (deref (skip_ws s) =? 0) && strchr toks (deref (skip_ws s))) (skip_ws s) → runs (peek toks) Q s.
Proof. done. Qed.

Lemma gettoken_runs s r q eq (Q : Z * list Z * list Z → list Z → Prop) : token s = (r, q, eq) → Q (r, q, eq) (skip_ws eq) → runs gettoken Q s.
Proof. intros E HQ. unfold runs, gettoken, bind, get, put, ret. by rewrite E. Qed.

(** ** Tokens *)

(** The end of a word. *)
Definition stops (s : list Z) : Prop := s = [] ∨ ∃ c s', s = c :: s' ∧ special c = true.

Lemma skip_word_app w s : ordinary w → stops s → skip_word (w ++ s) = s.
Proof.
  induction w as [|c w IH]; intros Hw Hs.
  - rewrite app_nil_l. destruct Hs as [->|(c & s' & -> & Hc)]; [done|]. cbn [skip_word]. rewrite <-negb_orb. unfold special in Hc. by rewrite Hc.
  - apply Forall_cons in Hw as [[Hc _] Hw]. cbn [app skip_word]. unfold special in Hc. rewrite <-negb_orb, Hc. by apply IH.
Qed.

(** A string whose first character is not blank. *)
Definition solid (s : list Z) : Prop := skip_ws s = s.

Lemma solid_cons c s : strchr whitespace c = false → solid (c :: s).
Proof. intros H. unfold solid. cbn [skip_ws]. by rewrite H. Qed.

Lemma special_false c : special c = false → strchr whitespace c = false ∧ strchr symbols c = false.
Proof. apply orb_false_iff. Qed.

Lemma symbols_false c : strchr symbols c = false → strchr [124; 40; 41; 59; 38; 60] c = false ∧ c ≠ 62.
Proof.
  unfold symbols, strchr. cbn. rewrite !orb_false_iff. intros (? & ? & H & ?). split; [tauto|]. by apply Z.eqb_neq in H.
Qed.

Lemma solid_word w s : word_ok w → solid (w ++ s).
Proof. destruct w as [|c w]; intros [? Hw]; [done|]. apply Forall_cons in Hw as [[Hc _] _]. by apply solid_cons, special_false. Qed.

Lemma token_word s w e : skip_ws s = w ++ e → word_ok w → stops e → token s = (97, w ++ e, e).
Proof.
  intros Es [Hne Hw] He. unfold token. rewrite Es. destruct w as [|c w]; [done|]. pose proof Hw as [[Hc Hc0] _]%Forall_cons.
  apply special_false in Hc as [_ Hc]. apply symbols_false in Hc as [Hc H62]. cbn [app deref].
  rewrite (proj2 (Z.eqb_neq _ _) Hc0), Hc, (proj2 (Z.eqb_neq _ _) H62).
  change (c :: w ++ e) with ((c :: w) ++ e). by rewrite skip_word_app.
Qed.

Lemma token_symbol s c e : skip_ws s = c :: e → c ∈ [124; 40; 41; 59; 38; 60] → token s = (c, c :: e, e).
Proof. intros Es Hc. unfold token. rewrite Es. cbn [deref tail]. by set_unfold in Hc; destruct_or! Hc; subst c. Qed.

Lemma token_end s : skip_ws s = [] → token s = (0, [], []).
Proof. intros Es. unfold token. by rewrite Es. Qed.

(** The character that peek sees is the first of [toks], or it is not. *)
Lemma peek_no toks s p (Q : bool → list Z → Prop) : skip_ws s = p → (p = [] ∨ ∃ c p', p = c :: p' ∧ strchr toks c = false) →
  Q false p → runs (peek toks) Q s.
Proof.
  intros E Hp HQ. apply peek_runs. rewrite E. destruct Hp as [->|(c & p' & -> & Hc)]; [done|]. cbn [deref]. by rewrite Hc, andb_false_r.
Qed.

Lemma peek_yes toks s c p (Q : bool → list Z → Prop) : skip_ws s = c :: p → c ≠ 0 → strchr toks c = true → Q true (c :: p) → runs (peek toks) Q s.
Proof. intros E H0 Hc HQ. apply peek_runs. rewrite E. cbn [deref]. by rewrite Hc, (proj2 (Z.eqb_neq _ _) H0). Qed.

(** ** Redirections *)
Definition no (toks s : list Z) : Prop := s = [] ∨ ∃ c s', s = c :: s' ∧ strchr toks c = false.

Definition rtree_of (r : redir) : rtree := (text (rd_file r, rd_efile r), rd_mode r, rd_fd r).

Lemma redirect_tree rs : ∀ c, tree_of text (redirect c rs) = foldl (λ t (r : rtree), TRedir t r.1.1 r.1.2 r.2) (tree_of text c) (rtree_of <$> rs).
Proof. induction rs as [|r rs IH]; intros c; [done|]. exact (IH (REDIR c _ _ _ _)). Qed.

Lemma stops_redirs rs s : stops s → stops (show_redirs rs ++ s).
Proof.
  destruct rs as [|[[f m] fd] rs]; [done|]. intros _. right. unfold show_redirs, show_redir. cbn.
  repeat case_if; cbn; eauto.
Qed.

Lemma show_redirs_cons r rs s : show_redirs (r :: rs) ++ s = show_redir r ++ show_redirs rs ++ s.
Proof. unfold show_redirs. cbn. by rewrite <-(assoc_L (++)). Qed.

(** One turn of parseredirs. *)
Lemma redir_token r s e : redir_ok r → skip_ws s = show_redir r ++ e →
  ∃ tok q eq, token s = (tok, q, eq) ∧ eq = r.1.1 ++ e ∧ strchr [60; 62] (deref (skip_ws s)) = true ∧ deref (skip_ws s) ≠ 0 ∧
    ∀ q e, redir_of tok q e = [mkRedir q e r.1.2 r.2].
Proof.
  destruct r as [[f m] fd]. intros [[Hne Hw] Hr] E. unfold token. rewrite E. unfold show_redir. cbn [fst snd] in *.
  destruct f as [|c f]; [done|]. apply Forall_cons in Hw as [[Hc _] _]. apply special_false in Hc as [_ Hc]. apply symbols_false in Hc as [_ Hc].
  set_unfold in Hr. destruct_or! Hr; injection Hr as -> ->; cbn [app deref tail Z.eqb]; eexists _, _, _.
  - done.
  - change (Z.lor (Z.lor 1 0x200) 0x400 =? Z.lor 1 0x200) with false. cbn [app deref tail]. rewrite (proj2 (Z.eqb_neq _ _) Hc). done.
  - change (Z.lor 1 0x200 =? Z.lor 1 0x200) with true. done.
Qed.

Lemma parseredirs_runs rs rs0 rest s : Forall redir_ok rs → stops rest → no [60; 62] (skip_ws rest) →
  skip_ws s = skip_ws (show_redirs rs ++ rest) →
  runs (parseredirs rs0) (λ rs' s', s' = skip_ws rest ∧ ∃ rs1, rs' = rs0 ++ rs1 ∧ rtree_of <$> rs1 = rs) s.
Proof.
  intros Hrs Hst Hno Es. unfold parseredirs. do 2 runs_step.
  apply (runs_while (λ rs' s', ∃ rs1 todo, rs' = rs0 ++ rs1 ∧ rs = (rtree_of <$> rs1) ++ todo ∧ skip_ws s' = skip_ws (show_redirs todo ++ rest)));
    [|exists [], rs; by rewrite app_nil_r].
  clear s Es. intros rs' s (rs1 & [|r todo] & -> & Ers & Es); runs_step.
  - eapply peek_no; [exact Es|exact Hno|]. runs_step. split; [done|]. exists rs1. by rewrite app_nil_r in Ers.
  - assert (redir_ok r) as Hr by (rewrite Ers in Hrs; by apply Forall_app in Hrs as [_ [? _]%Forall_cons]).
    rewrite show_redirs_cons in Es. replace (skip_ws (_ ++ _ ++ _)) with (show_redir r ++ show_redirs todo ++ rest) in Es; [|symmetry; unfold show_redir; repeat case_if; done].
    destruct (redir_token r (skip_ws s) _ Hr (eq_trans (skip_ws_idem s) Es)) as (tok & q & eq & Et & -> & Hp & Hd & Hof).
    rewrite skip_ws_idem in Hp, Hd. apply peek_runs. rewrite Hp, (proj2 (Z.eqb_neq _ _) Hd). cbn [negb andb]. runs_step.
    eapply gettoken_runs; [exact Et|]. rewrite solid_word by apply Hr. runs_step. eapply gettoken_runs.
    { apply token_word; [by apply solid_word, Hr|apply Hr|by apply stops_redirs]. }
    cbn [negb Z.eqb Pos.eqb]. runs_step. rewrite Hof. eexists (rs1 ++ [_]), todo. split_and!; [by rewrite <-(assoc_L (++))| |by rewrite skip_ws_idem].
    rewrite Ers, fmap_app, <-(assoc_L (++)). f_equal. unfold rtree_of. cbn [fmap list_fmap rd_file rd_efile rd_mode rd_fd app]. rewrite text_word. by destruct r as [[??]?].
Qed.

(** ** Arguments *)
(** What may follow: blanks to the end of the input, or one of [toks]. *)
Definition follow (toks s : list Z) : Prop := (stops s ∧ skip_ws s = []) ∨ ∃ c s', s = c :: s' ∧ c ∈ toks.

Lemma follow_weaken toks toks' s : toks ⊆ toks' → follow toks s → follow toks' s.
Proof. intros Hsub [?|(c & s' & -> & Hc)]; [by left|right]. eauto. Qed.

Lemma follow_facts s : follow [124; 41; 38; 59] s → stops s ∧ no [60; 62] (skip_ws s) ∧ no [40] (skip_ws s).
Proof.
  intros [[H ->]|(c & s' & -> & Hc)]; [split_and!; [done|by left..]|].
  set_unfold in Hc. destruct_or! Hc; subst c; split_and!; right; eauto.
Qed.

Lemma args_head w args s : word_ok w → skip_ws (show_args (w :: args) ++ s) = w ++ show_args args ++ s.
Proof. intros Hw. unfold show_args. cbn [fmap list_fmap mjoin list_join app skip_ws]. rewrite <-(assoc_L (++)). by apply solid_word. Qed.

Lemma args_stops args s : stops s → stops (show_args args ++ s).
Proof. destruct args as [|w args]; [done|]. intros _. right. unfold show_args. cbn. eauto. Qed.

Lemma word_no toks w s : (∀ c, special c = false → strchr toks c = false) → word_ok w → no toks (w ++ s).
Proof. intros Ht [Hne Hw]. destruct w as [|c w]; [done|]. apply Forall_cons in Hw as [[Hc _] _]. right. cbn. eauto. Qed.

Lemma special_sub toks : toks ⊆ symbols → ∀ c, special c = false → strchr toks c = false.
Proof.
  intros Hsub c [_ Hc]%special_false. apply not_true_iff_false. intros (x & Hx & Ex)%existsb_exists. apply not_true_iff_false in Hc.
  apply Hc, existsb_exists. exists x. split; [|done]. apply list_elem_of_In, Hsub. by apply list_elem_of_In.
Qed.

Lemma parseargs_runs args rs rs0 rest s : Forall word_ok args → Z.of_nat (length args) < MAXARGS → Forall redir_ok rs →
  (args = [] → rs = []) → follow [124; 41; 38; 59] rest → skip_ws s = skip_ws (show_args args ++ show_redirs rs ++ rest) →
  runs (parseargs rs0) (λ a s', s' = skip_ws rest ∧ text <$> a.1 = args ∧ ∃ rs1, a.2 = rs0 ++ rs1 ∧ rtree_of <$> rs1 = rs) s.
Proof.
  intros Hargs Hn Hrs Hnil Hf Es. destruct (follow_facts _ Hf) as (Hst & Hno & _). unfold parseargs. do 2 runs_step.
  apply (runs_while (λ a s', ∃ todo, args = (text <$> a.1) ++ todo ∧
    (todo ≠ [] ∧ a.2 = rs0 ∧ skip_ws s' = skip_ws (show_args todo ++ show_redirs rs ++ rest) ∨
     todo = [] ∧ (∃ rs1, a.2 = rs0 ++ rs1 ∧ rtree_of <$> rs1 = rs) ∧ skip_ws s' = skip_ws rest))).
  2: { exists args. split; [done|]. destruct args; [right|by left]. rewrite (Hnil eq_refl) in *. cbn [show_args show_redirs fmap list_fmap mjoin list_join app] in Es.
       split_and!; [done| |done]. exists []. by rewrite app_nil_r. }
  clear s Es. intros [argv rs'] s (todo & Ea & [(Hne & Ers & Es)|(-> & Hrs1 & Es)]); cbn [fst snd] in *; runs_step.
  - subst rs'. destruct todo as [|w todo]; [done|]. clear Hne. rewrite Ea in Hargs. apply Forall_app in Hargs as [_ [Hw Htodo]%Forall_cons].
    rewrite args_head in Es by done. eapply peek_no; [exact Es|by apply word_no; [apply special_sub; set_solver|]|]. runs_step.
    eapply gettoken_runs; [apply token_word; [by apply solid_word|done|by apply args_stops, stops_redirs]|].
    assert (10 <=? Z.of_nat (length (argv ++ [(w ++ show_args todo ++ show_redirs rs ++ rest, show_args todo ++ show_redirs rs ++ rest)])) = false) as Hlen.
    { apply Z.leb_gt. rewrite Ea in Hn. rewrite length_app, length_fmap in Hn. rewrite length_app. cbn [length] in *. lia. }
    cbn [Z.eqb Pos.eqb negb]. rewrite Hlen. runs_step. destruct todo as [|w' todo].
    + eapply runs_mono; [apply (parseredirs_runs rs rs0 rest); [done..|by rewrite skip_ws_idem]|].
      intros rs' s' [-> Hrs1]. runs_step. exists []. cbn [fst snd]. rewrite fmap_app, app_nil_r. cbn [fmap list_fmap]. rewrite text_word.
      split; [done|]. right. by rewrite skip_ws_idem.
    + apply Forall_cons in Htodo as [Hw' Htodo].
      eapply runs_mono; [apply (parseredirs_runs [] rs0 (show_args (w' :: todo) ++ show_redirs rs ++ rest)); [constructor|by apply args_stops, stops_redirs| |]|].
      * rewrite args_head by done. apply word_no; [apply special_sub; set_solver|done].
      * by rewrite skip_ws_idem.
      * intros rs' s' [-> (rs1 & -> & H1%fmap_nil_inv)]. subst rs1. runs_step. exists (w' :: todo). cbn [fst snd]. rewrite fmap_app, <-(assoc_L (++)). cbn [fmap list_fmap app].
        rewrite text_word, app_nil_r, skip_ws_idem. split; [done|]. by left.
  - rewrite app_nil_r in Ea. destruct Hf as [[_ E0]|(c & s' & -> & Hc)].
    + rewrite E0 in *. eapply peek_no; [exact Es|by left|]. runs_step. eapply gettoken_runs; [by apply token_end|]. cbn [Z.eqb]. runs_step. by split_and!.
    + assert (skip_ws (c :: s') = c :: s') as E0 by (by set_unfold in Hc; destruct_or! Hc; subst c). rewrite E0 in *.
      eapply peek_yes; [exact Es|by set_unfold in Hc; destruct_or! Hc; subst c..|]. runs_step. by split_and!.
Qed.

(** ** The levels of the grammar

    Each says that the function of its level parses what the printer prints at
    this level: with redirections behind for parseexec, and with as many [&]
    for the part of parseline before the semicolon. *)
Section levels.
Implicit Types (t : tree).

Definition after_redirs t (rs : list rtree) : tree := foldl (λ t (r : rtree), TRedir t r.1.1 r.1.2 r.2) t rs.

Definition Pexec t : Prop := ∀ fuel rs rest s, Forall redir_ok rs → follow [124; 41; 38; 59] rest →
  skip_ws s = skip_ws (show 0 t ++ show_redirs rs ++ rest) →
  runs (parseexec fuel) (λ c s', s' = skip_ws rest ∧ tree_of text c = after_redirs t rs) s.
Definition Ppipe t : Prop := ∀ fuel rest s, follow [41; 38; 59] rest → skip_ws s = skip_ws (show 1 t ++ rest) →
  runs (parsepipe fuel) (λ c s', s' = skip_ws rest ∧ tree_of text c = t) s.
Definition Pback t : Prop := ∀ fuel k rest s, follow [41; 59] rest → skip_ws s = skip_ws (show 2 t ++ replicate k 38 ++ rest) →
  runs (c <- parsepipe fuel ;; parseback c) (λ c s', s' = skip_ws rest ∧ tree_of text c = Nat.iter k TBack t) s.
Definition Pline t : Prop := ∀ fuel rest s, follow [41] rest → skip_ws s = skip_ws (show 3 t ++ rest) →
  runs (parseline fuel) (λ c s', s' = skip_ws rest ∧ tree_of text c = t) s.

(** A symbol that has been seen is taken. *)
Lemma symbol_runs c p (Q : Z * list Z * list Z → list Z → Prop) : c ∈ [124; 40; 41; 59; 38; 60] →
  Q (c, c :: p, p) (skip_ws p) → runs gettoken Q (c :: p).
Proof.
  intros Hc HQ. eapply gettoken_runs; [apply token_symbol; [|done]|done].
  apply solid_cons. by set_unfold in Hc; destruct_or! Hc; subst c.
Qed.

Lemma follow_no toks toks' s : toks ⊆ [124; 41; 38; 59] → follow toks s → (∀ c, c ∈ toks → strchr toks' c = false) → no toks' (skip_ws s).
Proof.
  intros Hsub [[_ ->]|(c & s' & -> & Hc)] H; [by left|right]. exists c, s'. split; [|auto].
  apply Hsub in Hc. by set_unfold in Hc; destruct_or! Hc; subst c.
Qed.

Lemma exec_words args : tree_ok (TExec args) → Pexec (TExec args).
Proof.
  intros [Hargs Hn] fuel rs rest s Hrs Hf Es. destruct fuel as [|fuel]; [done|]. cbn [parseexec show] in *.
  destruct (follow_facts _ Hf) as (Hst & Hno & Hno'). runs_step. destruct args as [|w args].
  - assert (no [40] (skip_ws (show_redirs rs ++ rest))) as Hno2.
    { destruct rs as [|[[f m] fd] rs]; [done|]. rewrite show_redirs_cons. unfold show_redir. cbn. repeat case_if; cbn; right; eauto. }
    cbn [show_args fmap list_fmap mjoin list_join app] in Es.
    eapply peek_no; [exact Es|done|]. runs_step.
    eapply runs_mono; [apply (parseredirs_runs rs [] rest); [done..|apply skip_ws_idem]|]. intros rs' s' [-> (rs1 & -> & E1)]. runs_step.
    eapply runs_mono; [apply (parseargs_runs [] [] (([] ++ rs1)) rest); [constructor|done|constructor|done|done|]|].
    { cbn [show_args show_redirs fmap list_fmap mjoin list_join app]. apply skip_ws_idem. }
    intros [argv rs''] s' (-> & Ea & rs2 & Ers & E2). cbn [fst snd] in *. apply fmap_nil_inv in Ea, E2. subst. runs_step. split; [done|].
    rewrite redirect_tree, app_nil_r, app_nil_l. done.
  - pose proof Hargs as [Hw _]%Forall_cons. pose proof Es as Es'. rewrite args_head in Es' by done.
    eapply peek_no; [exact Es'|by apply word_no; [apply special_sub; set_solver|]|]. runs_step.
    eapply runs_mono; [apply (parseredirs_runs [] [] (show_args (w :: args) ++ show_redirs rs ++ rest)); [constructor|by apply args_stops, stops_redirs| |]|].
    { rewrite args_head by done. apply word_no; [apply special_sub; set_solver|done]. }
    { rewrite <-Es', skip_ws_idem. done. }
    intros rs' s' [-> (rs1 & -> & ->%fmap_nil_inv)]. runs_step.
    eapply runs_mono; [apply (parseargs_runs (w :: args) rs ([] ++ []) rest); [done..|by rewrite skip_ws_idem]|].
    intros [argv rs''] s' (-> & Ea & rs2 & Ers & E2). cbn [fst snd] in *. subst. runs_step. split; [done|].
    rewrite redirect_tree, app_nil_l. cbn [tree_of]. by rewrite Ea.
Qed.

Lemma exec_redir t file mode fd : redir_ok (file, mode, fd) → Pexec t → Pexec (TRedir t file mode fd).
Proof.
  intros Hr H fuel rs rest s Hrs Hf Es. apply (H fuel ((file, mode, fd) :: rs) rest s); [by constructor|done|].
  rewrite show_redirs_cons. cbn [show] in Es. by rewrite <-(assoc_L (++)) in Es.
Qed.

Lemma exec_block t : show 0 t = [40] ++ show 3 t ++ [41] → Pline t → Pexec t.
Proof.
  intros Et H fuel rs rest s Hrs Hf Es. destruct fuel as [|fuel]; [done|]. rewrite Et, <-!(assoc_L (++)) in Es. cbn [app skip_ws] in Es.
  change (strchr whitespace 40) with false in Es. cbv iota in Es. destruct (follow_facts _ Hf) as (Hst & Hno & _).
  cbn [parseexec]. runs_step. eapply peek_yes; [exact Es|done..|]. destruct fuel as [|fuel]; [done|]. cbn [parseblock]. runs_step.
  eapply peek_yes; [by apply solid_cons|done..|]. cbn [negb]. runs_step. apply symbol_runs; [set_solver|]. runs_step.
  eapply runs_mono; [apply (H fuel (41 :: show_redirs rs ++ rest)); [right; set_solver|by rewrite skip_ws_idem]|]. intros c s' [-> Ec]. runs_step.
  eapply peek_yes; [by apply solid_cons|done..|]. cbn [negb]. runs_step. apply symbol_runs; [set_solver|]. runs_step.
  eapply runs_mono; [apply (parseredirs_runs rs [] rest); [done..|by rewrite skip_ws_idem]|].
  intros rs' s' [-> (rs1 & -> & E1)]. runs_step. split; [done|]. by rewrite redirect_tree, app_nil_l, E1, Ec.
Qed.

Lemma pipe_exec t : show 1 t = show 0 t → Pexec t → Ppipe t.
Proof.
  intros Et H fuel rest s Hf Es. destruct fuel as [|fuel]; [done|]. cbn [parsepipe]. runs_step. rewrite Et in Es.
  eapply runs_mono; [apply (H fuel [] rest); [constructor|by eapply follow_weaken; [|exact Hf]; set_solver|done]|]. intros c s' [-> Ec]. runs_step.
  eapply peek_no; [apply skip_ws_idem| |by runs_step].
  eapply follow_no; [|exact Hf|]; [set_solver|]. intros x Hx. by set_unfold in Hx; destruct_or! Hx; subst x.
Qed.

Lemma pipe_pipe l r : Pexec l → Ppipe r → Ppipe (TPipe l r).
Proof.
  intros Hl Hr fuel rest s Hf Es. destruct fuel as [|fuel]; [done|]. cbn [parsepipe]. runs_step. cbn [show paren Nat.ltb Nat.leb] in Es.
  rewrite <-!(assoc_L (++)) in Es.
  eapply runs_mono; [apply (Hl fuel [] (124 :: show 1 r ++ rest)); [constructor|right; set_solver|done]|]. intros c s' [-> Ec]. runs_step.
  eapply peek_yes; [by apply solid_cons|done..|]. runs_step. apply symbol_runs; [set_solver|]. runs_step.
  eapply runs_mono; [apply (Hr fuel rest); [done|by rewrite skip_ws_idem]|]. intros c' s' [-> Ec']. runs_step. split; [done|].
  cbn [tree_of]. by rewrite Ec, Ec'.
Qed.

Lemma parseback_runs k rest : follow [41; 59] rest → ∀ s c, skip_ws s = skip_ws (replicate k 38 ++ rest) →
  runs (parseback c) (λ c' s', s' = skip_ws rest ∧ tree_of text c' = Nat.iter k TBack (tree_of text c)) s.
Proof.
  intros Hf s c Es. unfold parseback. do 2 runs_step.
  apply (runs_while (λ c' s', ∃ j, skip_ws s' = skip_ws (replicate j 38 ++ rest) ∧ Nat.iter j TBack (tree_of text c') = Nat.iter k TBack (tree_of text c)));
    [|by exists k].
  clear s Es. intros c' s ([|j] & Es & Ej); runs_step.
  - eapply peek_no; [exact Es| |runs_step; by split]. eapply follow_no; [|exact Hf|]; [set_solver|]. intros x Hx. by set_unfold in Hx; destruct_or! Hx; subst x.
  - eapply peek_yes; [exact Es|done..|]. runs_step. apply symbol_runs; [set_solver|]. runs_step. exists j. split.
    + apply skip_ws_idem.
    + rewrite <-Ej, Nat.iter_succ_r. done.
Qed.

Lemma back_pipe t : show 2 t = show 1 t → Ppipe t → Pback t.
Proof.
  intros Et H fuel k rest s Hf Es. rewrite Et in Es. runs_step.
  assert (follow [41; 38; 59] (replicate k 38 ++ rest)) as Hf'.
  { destruct k; [by eapply follow_weaken; [|exact Hf]; set_solver|right; cbn; set_solver]. }
  eapply runs_mono; [by apply (H fuel _ s Hf')|]. intros c s' [-> Ec]. rewrite <-Ec. apply parseback_runs; [done|]. apply skip_ws_idem.
Qed.

Lemma back_back t : Pback t → Pback (TBack t).
Proof.
  intros H fuel k rest s Hf Es. rewrite <-Nat.iter_succ_r. apply H; [done|]. cbn [show paren Nat.ltb Nat.leb] in Es.
  by rewrite <-(assoc_L (++)) in Es.
Qed.

(** parseline, with its first two steps together. *)
Lemma parseline_S fuel s Q :
  runs (c <- (c <- parsepipe fuel ;; parseback c) ;; b <- peek [59] ;;
        if (b : bool) then gettoken ;; c' <- parseline fuel ;; ret (LIST c c') else ret c) Q s → runs (parseline (S fuel)) Q s.
Proof. unfold runs. cbn [parseline]. unfold bind. by destruct (parsepipe fuel s) as [[c s']| | | |]. Qed.

Lemma line_back t : show 3 t = show 2 t → Pback t → Pline t.
Proof.
  intros Et H fuel rest s Hf Es. destruct fuel as [|fuel]; [done|]. apply parseline_S. runs_step. rewrite Et in Es.
  eapply runs_mono; [apply (H fuel 0%nat rest); [by eapply follow_weaken; [|exact Hf]; set_solver|done]|]. intros c s' [-> Ec]. runs_step.
  eapply peek_no; [apply skip_ws_idem| |by runs_step].
  eapply follow_no; [|exact Hf|]; [set_solver|]. by intros x ->%list_elem_of_singleton.
Qed.

Lemma line_list l r : Pback l → Pline r → Pline (TList l r).
Proof.
  intros Hl Hr fuel rest s Hf Es. destruct fuel as [|fuel]; [done|]. apply parseline_S. runs_step. cbn [show paren Nat.ltb Nat.leb] in Es.
  rewrite <-!(assoc_L (++)) in Es.
  eapply runs_mono; [apply (Hl fuel 0%nat (59 :: show 3 r ++ rest)); [right; set_solver|done]|]. intros c s' [-> Ec]. runs_step.
  eapply peek_yes; [by apply solid_cons|done..|]. runs_step. apply symbol_runs; [set_solver|]. runs_step.
  eapply runs_mono; [apply (Hr fuel rest); [done|by rewrite skip_ws_idem]|]. intros c' s' [-> Ec']. runs_step. split; [done|].
  cbn [tree_of]. by rewrite Ec, Ec'.
Qed.

Lemma levels t : tree_ok t → Pexec t ∧ Ppipe t ∧ Pback t ∧ Pline t.
Proof.
  induction t as [args|t IH file mode fd|l IHl r IHr|l IHl r IHr|t IH]; intros Ht.
  - pose proof (exec_words args Ht) as H0. pose proof (pipe_exec (TExec args) eq_refl H0) as H1. pose proof (back_pipe (TExec args) eq_refl H1) as H2.
    by pose proof (line_back (TExec args) eq_refl H2).
  - destruct Ht as [Ht Hr]. pose proof (exec_redir t file mode fd Hr (proj1 (IH Ht))) as H0. pose proof (pipe_exec (TRedir t file mode fd) eq_refl H0) as H1.
    pose proof (back_pipe (TRedir t file mode fd) eq_refl H1) as H2. by pose proof (line_back (TRedir t file mode fd) eq_refl H2).
  - destruct Ht as [Hl Hr]. pose proof (pipe_pipe l r (proj1 (IHl Hl)) (proj1 (proj2 (IHr Hr)))) as H1.
    pose proof (back_pipe (TPipe l r) eq_refl H1) as H2. pose proof (line_back (TPipe l r) eq_refl H2) as H3. by pose proof (exec_block (TPipe l r) eq_refl H3).
  - destruct Ht as [Hl Hr]. pose proof (line_list l r (proj1 (proj2 (proj2 (IHl Hl)))) (proj2 (proj2 (proj2 (IHr Hr))))) as H3.
    pose proof (exec_block (TList l r) eq_refl H3) as H0. pose proof (pipe_exec (TList l r) eq_refl H0) as H1.
    by pose proof (back_pipe (TList l r) eq_refl H1).
  - pose proof (back_back t (proj1 (proj2 (proj2 (IH Ht))))) as H2. pose proof (line_back (TBack t) eq_refl H2) as H3.
    pose proof (exec_block (TBack t) eq_refl H3) as H0. by pose proof (pipe_exec (TBack t) eq_refl H0).
Qed.
End levels.

(** ** Characters of what is printed *)
Lemma show_nonzero t : tree_ok t → ∀ lvl, Forall (λ c, c ≠ 0) (show lvl t).
Proof.
  assert (∀ w, word_ok w → Forall (λ c, c ≠ 0) w) as Hword by (intros w [_ Hw]; eapply Forall_impl; [exact Hw|]; by intros ? []).
  assert (∀ b s, Forall (λ c, c ≠ 0) s → Forall (λ c, c ≠ 0) (paren b s)) as Hparen.
  { intros [] s Hs; [|done]. unfold paren. rewrite !Forall_app, !Forall_singleton. by split_and!. }
  induction t as [args|t IH file mode fd|l IHl r IHr|l IHl r IHr|t IH]; intros Ht lvl; cbn [show].
  - destruct Ht as [Hargs _]. induction Hargs as [|w args Hw _ IH]; [constructor|]. constructor; [done|]. apply Forall_app. auto.
  - destruct Ht as [Ht [Hw _]]. apply Forall_app. split; [auto|]. unfold show_redir. apply Forall_app. split; [|by apply Hword].
    repeat case_if; by repeat constructor.
  - apply Hparen. rewrite !Forall_app, Forall_singleton. destruct Ht. split_and!; auto.
  - apply Hparen. rewrite !Forall_app, Forall_singleton. destruct Ht. split_and!; auto.
  - apply Hparen. rewrite !Forall_app, Forall_singleton. split_and!; auto.
Qed.

Lemma tree_of_ext rd rd' c : (∀ x, x ∈ strings c → rd x = rd' x) → tree_of rd c = tree_of rd' c.
Proof.
  induction c as [argv|c IH f ef m fd|l IHl r IHr|l IHl r IHr|c IH]; intros H; cbn [tree_of strings] in *.
  - f_equal. apply list_fmap_ext. intros i x Hx. apply H. by eapply list_elem_of_lookup_2.
  - rewrite IH, H; [done|left|]. intros x Hx. apply H. by right.
  - rewrite IHl, IHr; [done|..]; intros x Hx; apply H; apply elem_of_app; auto.
  - rewrite IHl, IHr; [done|..]; intros x Hx; apply H; apply elem_of_app; auto.
  - by rewrite IH.
Qed.

(** The command as runcmd finds it: its strings are read in the buffer. *)
Definition read_cmd (n : nat) (buf : list Z) (c : cmd) : tree := tree_of (λ x, cstr (drop (offset n x.1) buf)) c.

Definition blanks (ws : list Z) : Prop := Forall (λ c, strchr whitespace c = true) ws.

Lemma blanks_facts ws : blanks ws → skip_ws ws = [] ∧ stops ws ∧ Forall (λ c, c ≠ 0) ws.
Proof.
  intros H. split_and!.
  - induction H as [|c ws Hc _ IH]; [done|]. cbn [skip_ws]. by rewrite Hc.
  - destruct H as [|c ws Hc _]; [by left|right]. exists c, ws. split; [done|]. unfold special. by rewrite Hc.
  - eapply Forall_impl; [exact H|]. by intros c Hc ->.
Qed.

Lemma parse_read t ws s : tree_ok t → blanks ws → Forall (λ c, c ≠ 0) s → skip_ws s = skip_ws (show 3 t ++ ws) →
  ∃ c buf, parsecmd s = Done (c, buf) ∧ read_cmd (length s) buf c = t.
Proof.
  intros Ht Hws Hnz Es. destruct (blanks_facts ws Hws) as (W1 & W2 & _).
  assert (runs (c <- parseline (4 * S (length s)) ;; peek [] ;; rest <- get ;; ret (c, rest)) (λ r _, r.2 = [] ∧ tree_of text r.1 = t) s) as H.
  { runs_step. eapply runs_mono; [apply (levels t Ht) with (rest := ws); [by left|done]|]. rewrite W1. by intros c s' [-> Ec]. }
  destruct (parsecmd_run s Hnz) as [(c & E & Hok)|(msg & E)]; pose proof E as E'; unfold parsecmd in E'; unfold runs in H;
    destruct (bind _ _ s) as [[[c' rest] s']| | | |]; try done; cbn [fst snd] in H; destruct H as [-> Hc]; [|done].
  injection E' as ->. eexists _, _. split; [exact E|]. rewrite <-Hc. apply tree_of_ext. intros x Hx. by apply nulterminate_strings.
Qed.

Lemma line_nonzero t ws : tree_ok t → blanks ws → Forall (λ c, c ≠ 0) (show 3 t ++ ws).
Proof. intros Ht Hws. apply Forall_app. split; [by apply show_nonzero|by apply blanks_facts]. Qed.

(** C11: parsing inverts printing.  For every command tree (of at most nine
    words per simple command) the parser accepts its printed form, also with
    blanks or a newline behind it, and the strings that the command's pointers
    denote in the buffer make up the tree: pipes bind tighter than [&], [&]
    tighter than [;], redirections apply from left to right, and parentheses
    group. *)
Theorem parse_show t ws : tree_ok t → blanks ws →
  ∃ c buf, parsecmd (show 3 t ++ ws) = Done (c, buf) ∧ read_cmd (length (show 3 t ++ ws)) buf c = t.
Proof. intros Ht Hws. apply (parse_read t ws); [done|done|by apply line_nonzero|done]. Qed.

(** (ls -l|wc)>out & cat<in *)
Lemma parse_show_witness :
  let t := TList (TBack (TRedir (TPipe (TExec [[108; 115]; [45; 108]]) (TExec [[119; 99]])) [111; 117; 116] 0x601 1))
                 (TRedir (TExec [[99; 97; 116]]) [105; 110] 0 0) in
  ∃ c buf, parsecmd (show 3 t ++ [10]) = Done (c, buf) ∧ read_cmd (length (show 3 t ++ [10])) buf c = t.
Proof.
  intros t. apply (parse_show t [10]); [unfold t; cbn [tree_ok]|by repeat constructor].
  repeat (split || apply Forall_cons || apply Forall_nil || constructor); try discriminate; done.
Defined.
