(* ===== verification/ShellRun.v ===== *)
(** user/sh.c: running commands.

    A process of the shell is the tree of what it does: programs it executes,
    children it forks, its waits, its exit.  The descriptor table of a process
    has NOFILE entries; open, dup and pipe use the first free one.  Whether
    fork, pipe and open succeed is a parameter, a function of the place in the
    command; exec may fail, so that what follows it is part of the tree.  main
    is the sequence of what the shell itself does on its input. *)

From S2P Require Import Prelude Shell.

(** ** Descriptors *)
Inductive desc :=
| DFile (path : list Z) (mode : Z)           (* an opened file *)
| DPipe (id : list nat) (write : bool)       (* an end of the pipe made at a place *)
| DOther (n : Z).                            (* what the shell was started with *)

Definition table : Type := list (option desc).

(** The first free entry of the table gets [d]. *)
Fixpoint alloc {A} (d : A) (t : list (option A)) : option (nat * list (option A)) :=
  match t with
  | [] => None
  | None :: t' => Some (0%nat, Some d :: t')
  | Some x :: t' => match alloc d t' with Some (fd, t'') => Some (S fd, Some x :: t'') | None => None end
  end.

Definition close (fd : nat) (t : table) : table := <[fd := None]> t.
Definition dup (fd : nat) (t : table) : table :=
  match t !! fd with
  | Some (Some d) => match alloc d t with Some (_, t') => t' | None => t end
  | _ => t
  end.

(** ** Processes *)
Inductive run :=
| XExec (argv : list (list Z)) (t : table) (failed : run)
| XExit (status : Z)
| XSay (fmt : string) (arg : list Z) (rest : run)    (* fprintf(2, fmt, arg) *)
| XFork (child rest : run)
| XWait (t : table) (rest : run).                    (* wait(0), with the descriptors held meanwhile *)

(** What the system calls at a place of the command answer. *)
Record answers := mkAnswers { fork_ok : list nat → bool; pipe_ok : list nat → bool; open_ok : list nat → bool }.

Section runcmd.
Context (E : answers) (rd : list Z * list Z → list Z).

Definition panic_ (msg : string) : run := XSay msg [] (XExit 1).

Definition fork1 (here : list nat) (child rest : run) : run :=
  if fork_ok E here then XFork child rest else panic_ "fork".

(** pipe(p): the read end, then the write end. *)
Definition pipe_ (here : list nat) (t : table) : option (nat * nat * table) :=
  if negb (pipe_ok E here) then None else
  match alloc (DPipe here false) t with
  | Some (p0, t) => match alloc (DPipe here true) t with Some (p1, t) => Some (p0, p1, t) | None => None end
  | None => None
  end.

Definition open_ (here : list nat) (path : list Z) (mode : Z) (t : table) : option (nat * table) :=
  if open_ok E here then alloc (DFile path mode) t else None.

Fixpoint runcmd (here : list nat) (c : cmd) (t : table) : run :=
  match c with
  | EXEC [] => XExit 1
  | EXEC (a :: argv) => XExec (rd <$> a :: argv) t (XSay "exec %s failed" (rd a) (XExit 0))
  | REDIR c file efile mode fd =>
      let t := close (Z.to_nat fd) t in
      match open_ here (rd (file, efile)) mode t with
      | Some (_, t) => runcmd (here ++ [0%nat]) c t
      | None => XSay "open %s failed" (rd (file, efile)) (XExit 1)
      end
  | LIST l r =>
      fork1 (here ++ [0%nat]) (runcmd (here ++ [0%nat]) l t)
        (XWait t (runcmd (here ++ [1%nat]) r t))
  | PIPE l r =>
      match pipe_ here t with
      | None => panic_ "pipe"
      | Some (p0, p1, t) =>
          fork1 (here ++ [0%nat]) (runcmd (here ++ [0%nat]) l (close p1 (close p0 (dup p1 (close 1 t)))))
            (fork1 (here ++ [1%nat]) (runcmd (here ++ [1%nat]) r (close p1 (close p0 (dup p0 (close 0 t)))))
               (let t := close p1 (close p0 t) in XWait t (XWait t (XExit 0))))
      end
  | BACK c => fork1 (here ++ [0%nat]) (runcmd (here ++ [0%nat]) c t) (XExit 0)
  end.
End runcmd.

(** ** The shell itself *)

(** What the system calls of main answer: the opens of the console, and by the
    number of the line its fork, its chdir, and the calls of the child. *)
Record world := mkWorld {
  console_ok : nat → bool; main_fork_ok : nat → bool; chdir_ok : nat → bool; line_answers : nat → answers }.

Inductive action :=
| Prompt                                     (* write(2, "$ ", 2) *)
| Chdir (path : list Z)                      (* chdir(cmd+3) *)
| Say (fmt : string) (arg : list Z)          (* fprintf(2, fmt, arg) *)
| Run (child : outcome run)                  (* fork and, in the child, runcmd(parsecmd(cmd)); wait *)
| Exit (status : Z).

Definition console_path : list Z := [99; 111; 110; 115; 111; 108; 101].
Abbreviation O_RDWR := 2 (only parsing).

Section main.
Context (W : world).

(** while((fd = open("console", O_RDWR)) >= 0) if(fd >= 3){ close(fd); break; }
    from the [k]th open on. *)
Fixpoint open_console (fuel k : nat) (t : table) : option table :=
  match fuel with
  | O => None
  | S fuel' =>
      if negb (console_ok W k) then Some t else
      match alloc (DFile console_path O_RDWR) t with
      | None => Some t
      | Some (fd, t') => if (3 <=? fd)%nat then Some (close fd t') else open_console fuel' (S k) t'
      end
  end.

(** runcmd(parsecmd(s)) in a child with table [t]: the strings of the command
    are in the buffer that nulterminate has left. *)
Definition run_line (E : answers) (t : table) (s : list Z) : outcome run :=
  match parsecmd s with
  | Done (c, buf) => Done (runcmd E (λ x, cstr (drop (offset (length s) x.1) buf)) [] c t)
  | Panic e => Done (panic_ e)
  | Undef e => Undef e
  | Block => Block
  | NoFuel => NoFuel
  end.

Fixpoint skip_blanks (s : list Z) : list Z :=
  match s with
  | c :: s' => if (c =? 32) || (c =? 9) then skip_blanks s' else s
  | [] => []
  end.

(** One turn of the loop of main on line [n], which getcmd has left in the
    buffer, its characters before the NUL; whether the loop goes on. *)
Definition main_turn (t : table) (n : nat) (buf : list Z) : list action * bool :=
  let s := skip_blanks buf in
  if deref s =? 10 then ([], true) else
  if (deref s =? 99) && (deref (tail s) =? 100) && (deref (tail (tail s)) =? 32) then       (* c d blank *)
    let path := drop 3 (take (length s - 1) s) in
    (Chdir path :: (if chdir_ok W n then [] else [Say "cannot cd %s" path]), true)
  else if main_fork_ok W n then ([Run (run_line (line_answers W n) t s)], true)
  else ([Say "fork" []; Exit 1], false).

(** getcmd: gets(buf, nbuf) takes the characters of the input one by one, up
    to and including the end of a line; a line of no characters is the end. *)
Fixpoint gets_ (max : nat) (input : list Z) : list Z * list Z :=
  match max, input with
  | S (S max'), c :: input' =>
      if (c =? 10) || (c =? 13) then ([c], input')
      else let '(l, rest) := gets_ (S max') input' in (c :: l, rest)
  | _, _ => ([], input)
  end.

Definition getcmd (input : list Z) : option (list Z * list Z) :=
  let '(buf, rest) := gets_ 100 input in
  if deref (cstr buf) =? 0 then None else Some (cstr buf, rest).

(** The loop of main from line [n] on.  Each turn takes a character. *)
Fixpoint main_loop (fuel : nat) (t : table) (n : nat) (input : list Z) : option (list action) :=
  match fuel with
  | O => None
  | S fuel' =>
      match getcmd input with
      | None => Some [Prompt; Exit 0]
      | Some (buf, rest) =>
          let '(acts, go) := main_turn t n buf in
          if (go : bool) then (λ l, Prompt :: acts ++ l) <$> main_loop fuel' t (S n) rest
          else Some (Prompt :: acts)
      end
  end.

Definition main (t : table) (input : list Z) : option (list action) :=
  t ← open_console (S (length t)) 0 t; main_loop (S (length input)) t 0 input.
End main.
