(* ===== verification/ShellRunThms.v ===== *)
(** Running commands: every program gets the descriptors its redirections and
    pipes ask for, and no others. *)

From S2P Require Import Prelude Riscv Memory Kalloc Vm State Printf Proc Pipe Bio Log Fs Console File ProcLife Exec Sysfile.
From S2P Require Import Shell ShellThms ShellPrint ShellRun.

(** ** The descriptor table of the kernel

    The table of [me] as the shell's model has it, with the files it names. *)
Definition ofiles (s : kstate) (me : Z) : list (option Z) :=
  (λ fd, let f := p_ofile (procs s me) fd in if f =? -1 then None else Some f) <$> seqZ 0 NOFILE.

Lemma ofiles_lookup s me i : (i < 16)%nat → ofiles s me !! i = Some (let f := p_ofile (procs s me) (Z.of_nat i) in if f =? -1 then None else Some f).
Proof. intros Hi. unfold ofiles. rewrite list_lookup_fmap, lookup_seqZ_lt by lia. done. Qed.

Lemma alloc_first {A} (d : A) t i : t !! i = Some None → (∀ j, (j < i)%nat → ∃ x, t !! j = Some (Some x)) → alloc d t = Some (i, <[i := Some d]> t).
Proof.
  revert i. induction t as [|o t IH]; intros i Hi Hj; [done|]. destruct i as [|i]; [by injection Hi as ->|].
  destruct (Hj 0%nat ltac:(lia)) as [x Hx]. injection Hx as ->. cbn [alloc].
  rewrite (IH i Hi); [done|]. intros j Hlt. apply (Hj (S j)). lia.
Qed.

Lemma alloc_full {A} (d : A) t : (∀ j, (j < length t)%nat → ∃ x, t !! j = Some (Some x)) → alloc d t = None.
Proof.
  induction t as [|o t IH]; intros Hj; [done|]. destruct (Hj 0%nat ltac:(cbn; lia)) as [x Hx]. injection Hx as ->. cbn [alloc].
  rewrite IH; [done|]. intros j Hlt. apply (Hj (S j)). cbn. lia.
Qed.

(** fdalloc of the kernel takes the first free entry, as the shell relies on. *)
Lemma fdalloc_alloc me f s : f ≠ -1 →
  wp (fdalloc me f) (λ fd s', match alloc f (ofiles s me) with
                              | Some (i, t) => fd = Z.of_nat i ∧ ofiles s' me = t
                              | None => fd = -1 ∧ s' = s
                              end) s.
Proof.
  intros Hf. assert (∀ j, 0 ≤ j < 16 → p_ofile (procs s me) j ≠ -1 → ∃ x, ofiles s me !! Z.to_nat j = Some (Some x)) as Hused.
  { intros j Hj Hne. rewrite ofiles_lookup by lia. rewrite Z2Nat.id by lia. cbv zeta. rewrite (proj2 (Z.eqb_neq _ _) Hne). eauto. }
  unfold fdalloc. wp_step.
  apply (wp_for (λ i s', s' = s ∧ ∀ j, 0 ≤ j < i → p_ofile (procs s me) j ≠ -1)).
  - split; [done|lia].
  - intros j s' Hj [-> Hall]. wp_step. apply wp_gets. destruct (Z.eqb_spec (p_ofile (procs s me) j) (-1)) as [E|E].
    + wp_step. apply wp_modify. wp_step. wp_step. change (default (-1) (Some j)) with j.
      rewrite (alloc_first f (ofiles s me) (Z.to_nat j)).
      * split; [lia|]. apply list_eq. intros i. destruct (decide (i < 16)%nat) as [Hi|Hi].
        -- rewrite ofiles_lookup by done. cbn. rewrite fupd_eq. cbn. rewrite fupd_spec. destruct (decide (i = Z.to_nat j)) as [->|Hij].
           ++ rewrite decide_True by lia. rewrite (proj2 (Z.eqb_neq _ _) Hf). rewrite list_lookup_insert_eq; [done|]. unfold ofiles. rewrite length_fmap, length_seqZ. lia.
           ++ rewrite decide_False by lia. rewrite list_lookup_insert_ne by done. by rewrite ofiles_lookup.
        -- rewrite !lookup_ge_None_2; [done|rewrite length_insert|]; unfold ofiles; rewrite length_fmap, length_seqZ; lia.
      * rewrite ofiles_lookup by lia. rewrite Z2Nat.id by lia. cbv zeta. by rewrite E.
      * intros k Hk. rewrite <-(Nat2Z.id k). apply Hused; [lia|]. apply Hall. lia.
    + wp_step. split; [done|]. intros k Hk. destruct (decide (k = j)) as [->|?]; [done|]. apply Hall. lia.
  - intros s' [-> Hall]. wp_step. rewrite alloc_full; [done|]. intros j Hj. unfold ofiles in Hj. rewrite length_fmap, length_seqZ in Hj.
    rewrite <-(Nat2Z.id j). apply Hused; [lia|]. apply Hall. lia.
Qed.

(** ** Programs

    The programs of a command, each with its standard input, output and error
    output. *)
Fixpoint programs (here : list nat) (t : tree) (i o e : desc) : list (list (list Z) * (desc * desc * desc)) :=
  match t with
  | TExec [] => []
  | TExec argv => [(argv, (i, o, e))]
  | TRedir t file mode fd =>
      if fd =? 0 then programs (here ++ [0%nat]) t (DFile file mode) o e
      else programs (here ++ [0%nat]) t i (DFile file mode) e
  | TPipe l r => programs (here ++ [0%nat]) l i (DPipe here true) e ++ programs (here ++ [1%nat]) r (DPipe here false) o e
  | TList l r => programs (here ++ [0%nat]) l i o e ++ programs (here ++ [1%nat]) r i o e
  | TBack t => programs (here ++ [0%nat]) t i o e
  end.

(** The programs a process and its children execute, with their tables. *)
Fixpoint execs (r : run) : list (list (list Z) * table) :=
  match r with
  | XExec argv t failed => (argv, t) :: execs failed
  | XExit _ => []
  | XSay _ _ rest | XWait _ rest => execs rest
  | XFork child rest => execs child ++ execs rest
  end.

(** The tables of the processes that wait. *)
Fixpoint waits (r : run) : list table :=
  match r with
  | XExec _ _ failed => waits failed
  | XExit _ => []
  | XSay _ _ rest => waits rest
  | XFork child rest => waits child ++ waits rest
  | XWait t rest => t :: waits rest
  end.

(** Nothing but the three standard descriptors. *)
Definition std_table (i o e : desc) : table := [Some i; Some o; Some e] ++ replicate 13 None.
Definition with_table (p : list (list Z) * (desc * desc * desc)) : list (list Z) * table :=
  let '(argv, (i, o, e)) := p in (argv, std_table i o e).

Definition is_std (t : table) : Prop := ∃ i o e, t = std_table i o e.

(** Redirections are of descriptors 0 and 1. *)
Fixpoint std_redirs (c : cmd) : Prop :=
  match c with
  | EXEC _ => True
  | REDIR c _ _ _ fd => (fd = 0 ∨ fd = 1) ∧ std_redirs c
  | PIPE l r | LIST l r => std_redirs l ∧ std_redirs r
  | BACK c => std_redirs c
  end.

Definition all_ok (E : answers) : Prop := ∀ here, fork_ok E here = true ∧ pipe_ok E here = true ∧ open_ok E here = true.

Lemma runcmd_execs E rd c : std_redirs c → ∀ here i o e,
  execs (runcmd E rd here c (std_table i o e)) `sublist_of` (with_table <$> programs here (tree_of rd c) i o e) ∧
  (all_ok E → execs (runcmd E rd here c (std_table i o e)) = with_table <$> programs here (tree_of rd c) i o e).
Proof.
  induction c as [argv|c IH f ef m fd|l IHl r IHr|l IHl r IHr|c IH]; intros Hc here i o e.
  - destruct argv as [|a argv]; done.
  - destruct Hc as [Hfd Hc]. cbn [runcmd tree_of programs]. unfold open_. destruct (open_ok E here) eqn:Eo.
    + destruct Hfd as [-> | ->]; apply (IH Hc).
    + split; [apply sublist_nil_l|]. intros Hok. destruct (Hok here) as (_ & _ & ?). congruence.
  - destruct Hc as [Hl Hr]. cbn [runcmd tree_of programs]. unfold pipe_. destruct (pipe_ok E here) eqn:Ep; cbn [negb].
    2: { split; [apply sublist_nil_l|]. intros Hok. destruct (Hok here) as (_ & ? & _). congruence. }
    destruct (IHl Hl (here ++ [0%nat]) i (DPipe here true) e) as [L1 L2]. destruct (IHr Hr (here ++ [1%nat]) (DPipe here false) o e) as [R1 R2].
    cbn [std_table alloc app replicate close dup insert list_insert lookup list_lookup] in *. unfold fork1. rewrite fmap_app.
    destruct (fork_ok E (here ++ [0%nat])) eqn:E0; [|split; [apply sublist_nil_l|intros Hok; destruct (Hok (here ++ [0%nat])) as [? _]; congruence]].
    destruct (fork_ok E (here ++ [1%nat])) eqn:E1; cbn [execs].
    + rewrite app_nil_r. split; [by apply sublist_app|]. intros Hok. f_equal; auto.
    + split; [apply sublist_app; [done|apply sublist_nil_l]|]. intros Hok; destruct (Hok (here ++ [1%nat])) as [? _]; congruence.
  - destruct Hc as [Hl Hr]. cbn [runcmd tree_of programs]. unfold fork1. rewrite fmap_app.
    destruct (IHl Hl (here ++ [0%nat]) i o e) as [L1 L2]. destruct (IHr Hr (here ++ [1%nat]) i o e) as [R1 R2].
    destruct (fork_ok E (here ++ [0%nat])) eqn:E0; cbn [execs].
    + split; [by apply sublist_app|]. intros Hok. f_equal; auto.
    + split; [apply sublist_nil_l|]. intros Hok; destruct (Hok (here ++ [0%nat])) as [? _]; congruence.
  - cbn [runcmd tree_of programs]. unfold fork1. destruct (IH Hc (here ++ [0%nat]) i o e) as [L1 L2].
    destruct (fork_ok E (here ++ [0%nat])) eqn:E0; cbn [execs].
    + rewrite app_nil_r. done.
    + split; [apply sublist_nil_l|]. intros Hok; destruct (Hok (here ++ [0%nat])) as [? _]; congruence.
Qed.

(** The shell processes that wait hold no end of the pipes they have made. *)
Lemma runcmd_waits E rd c : std_redirs c → ∀ here i o e, Forall is_std (waits (runcmd E rd here c (std_table i o e))).
Proof.
  assert (∀ i o e, is_std (std_table i o e)) as Hstd by (intros; by repeat eexists).
  induction c as [argv|c IH f ef m fd|l IHl r IHr|l IHl r IHr|c IH]; intros Hc here i o e; cbn [runcmd].
  - destruct argv; constructor.
  - destruct Hc as [Hfd Hc]. unfold open_. destruct (open_ok E here); [|constructor]. destruct Hfd as [-> | ->]; apply (IH Hc).
  - destruct Hc as [Hl Hr]. unfold pipe_. destruct (pipe_ok E here); cbn [negb]; [|constructor].
    pose proof (IHl Hl (here ++ [0%nat]) i (DPipe here true) e) as L. pose proof (IHr Hr (here ++ [1%nat]) (DPipe here false) o e) as R.
    pose proof (Hstd i o e) as S. cbn [std_table alloc app replicate close dup insert list_insert lookup list_lookup] in *.
    unfold fork1. destruct (fork_ok E (here ++ [0%nat])), (fork_ok E (here ++ [1%nat])); cbn [waits panic_]; try constructor;
      rewrite ?Forall_app; split_and!; try done; repeat constructor; done.
  - destruct Hc as [Hl Hr]. unfold fork1. destruct (fork_ok E (here ++ [0%nat])); cbn [waits panic_]; [|constructor].
    rewrite Forall_app, Forall_cons. split_and!; auto.
  - unfold fork1. destruct (fork_ok E (here ++ [0%nat])); cbn [waits panic_]; [|constructor]. rewrite app_nil_r. auto.
Qed.

Lemma tree_ok_redirs rd c : tree_ok (tree_of rd c) → std_redirs c.
Proof.
  induction c as [argv|c IH f ef m fd|l IHl r IHr|l IHl r IHr|c IH]; cbn [tree_of tree_ok std_redirs]; [done| | | |done].
  - intros [Hc [_ Hr]]. split; [|auto]. cbn [fst snd] in Hr. set_unfold in Hr. destruct_or! Hr; injection Hr as _ ->; auto.
  - intros []; auto.
  - intros []; auto.
Qed.

(** ** Lines *)
Lemma skip_blanks_ws s : skip_ws (skip_blanks s) = skip_ws s.
Proof.
  induction s as [|c s IH]; [done|]. cbn [skip_blanks]. destruct ((c =? 32) || (c =? 9)) eqn:E; [|done]. rewrite IH. cbn [skip_ws].
  by apply orb_true_iff in E as [->%Z.eqb_eq | ->%Z.eqb_eq].
Qed.

Lemma skip_blanks_suffix s : skip_blanks s `suffix_of` s.
Proof. induction s as [|c s IH]; [done|]. cbn [skip_blanks]. case_if; [by apply suffix_cons_r|done]. Qed.

(** A line that is neither blank nor a cd. *)
Definition command_line (s : list Z) : Prop :=
  let s := skip_blanks s in deref s ≠ 10 ∧ (deref s =? 99) && (deref (tail s) =? 100) && (deref (tail (tail s)) =? 32) = false.

Definition no_eol (s : list Z) : Prop := Forall (λ c, c ≠ 10 ∧ c ≠ 13) s.

Lemma show_no_eol t : tree_ok t → ∀ lvl, no_eol (show lvl t).
Proof.
  assert (∀ w, word_ok w → no_eol w) as Hword.
  { intros w [_ Hw]. eapply Forall_impl; [exact Hw|]. intros c [Hc _]. split; intros ->; done. }
  assert (∀ b s, no_eol s → no_eol (paren b s)) as Hparen.
  { intros [] s Hs; [|done]. unfold paren, no_eol. rewrite !Forall_app, !Forall_singleton. by split_and!. }
  unfold no_eol in *. induction t as [args|t IH file mode fd|l IHl r IHr|l IHl r IHr|t IH]; intros Ht lvl; cbn [show].
  - destruct Ht as [Hargs _]. induction Hargs as [|w args Hw _ IH]; [constructor|]. constructor; [done|]. apply Forall_app. auto.
  - destruct Ht as [Ht [Hw _]]. apply Forall_app. split; [auto|]. unfold show_redir. apply Forall_app. split; [|by apply Hword].
    repeat case_if; by repeat constructor.
  - apply Hparen. rewrite !Forall_app, Forall_singleton. destruct Ht. split_and!; auto.
  - apply Hparen. rewrite !Forall_app, Forall_singleton. destruct Ht. split_and!; auto.
  - apply Hparen. rewrite !Forall_app, Forall_singleton. split_and!; auto.
Qed.

Lemma gets_line max l rest : no_eol l → (length l + 1 < max)%nat → gets_ max (l ++ 10 :: rest) = (l ++ [10], rest).
Proof.
  revert max. induction l as [|c l IH]; intros max Hl Hm; (destruct max as [|[|max]]; [cbn in Hm; lia..|]); [done|].
  apply Forall_cons in Hl as [[H1 H2] Hl]. cbn [app gets_]. rewrite (proj2 (Z.eqb_neq _ _) H1), (proj2 (Z.eqb_neq _ _) H2). cbn [orb].
  rewrite IH; [done|done|cbn in Hm; lia].
Qed.

Lemma cstr_nonzero l : Forall (λ c, c ≠ 0) l → cstr l = l.
Proof. induction 1 as [|c l Hc _ IH]; [done|]. cbn. by rewrite (proj2 (Z.eqb_neq _ _) Hc), IH. Qed.

(** The descriptors of the console that main opens. *)
Definition or_console (o : option desc) : desc := default (DFile console_path O_RDWR) o.

(** The shell is started with some of the standard descriptors and no others;
    when one is missing, the console can be opened. *)
Definition started (W : world) (a b c : option desc) : Prop :=
  (is_Some a ∧ is_Some b ∧ is_Some c) ∨ ∀ k, console_ok W k = true.

Lemma open_console_std W a b c : started W a b c →
  open_console W 17 0 ([a; b; c] ++ replicate 13 None) = Some (std_table (or_console a) (or_console b) (or_console c)).
Proof.
  intros [([x ->] & [y ->] & [z ->])|H].
  - cbn. destruct (console_ok W 0); done.
  - destruct a, b, c; cbn; rewrite ?H; cbn; rewrite ?H; cbn; rewrite ?H; cbn; rewrite ?H; done.
Qed.

(** What can be typed in: a blank line, cd with a path, or a command that is
    printed from its tree; it has to fit the buffer of 100 characters, with the
    end of the line and a NUL. *)
Inductive entry := Blank (s : list Z) | Cd (path : list Z) | Cmd (t : tree).

Definition text (x : entry) : list Z :=
  match x with
  | Blank s => s
  | Cd path => [99; 100; 32] ++ path
  | Cmd t => show 3 t
  end.

Definition typable (x : entry) : Prop := (length (text x) ≤ 98)%nat ∧
  match x with
  | Blank s => Forall (λ c, c = 32 ∨ c = 9) s
  | Cd path => Forall (λ c, c ≠ 0 ∧ c ≠ 10 ∧ c ≠ 13) path
  | Cmd t => tree_ok t ∧ command_line (show 3 t ++ [10])
  end.

(** What the child does that acts on the command [t] with standard descriptors
    [i], [o] and [e]: the programs executed are those of the tree, all of them
    when every call succeeds, and the processes that wait have the standard
    descriptors only. *)
Definition runs_tree (E : answers) (i o e : desc) (t : tree) (child : outcome run) : Prop := ∃ r, child = Done r ∧
  execs r `sublist_of` (with_table <$> programs [] t i o e) ∧ (all_ok E → execs r = with_table <$> programs [] t i o e) ∧
  Forall is_std (waits r).

(** A session of the shell from line [n] on. *)
Inductive session (W : world) (i o e : desc) : nat → list entry → list action → Prop :=
| s_end n : session W i o e n [] [Prompt; Exit 0]
| s_blank n s xs acts : session W i o e (S n) xs acts → session W i o e n (Blank s :: xs) (Prompt :: acts)
| s_cd n path xs acts : session W i o e (S n) xs acts →
    session W i o e n (Cd path :: xs) (Prompt :: Chdir path :: (if chdir_ok W n then [] else [Say "cannot cd %s" path]) ++ acts)
| s_run n t xs child acts : main_fork_ok W n = true → runs_tree (line_answers W n) i o e t child → session W i o e (S n) xs acts →
    session W i o e n (Cmd t :: xs) (Prompt :: Run child :: acts)
| s_fork n t xs : main_fork_ok W n = false → session W i o e n (Cmd t :: xs) [Prompt; Say "fork" []; Exit 1].

Lemma run_line_tree E i o e t : tree_ok t → runs_tree E i o e t (run_line E (std_table i o e) (skip_blanks (show 3 t ++ [10]))).
Proof.
  intros Ht. assert (blanks [10]) as Hb by (by repeat constructor). unfold run_line.
  set (s := skip_blanks (show 3 t ++ [10])). destruct (parse_read t [10] s Ht Hb) as (c & buf & -> & Er).
  - eapply suffix_forall; [apply skip_blanks_suffix|]. by apply line_nonzero.
  - apply skip_blanks_ws.
  - eexists. split; [done|]. unfold read_cmd in Er. assert (std_redirs c) as Hc by (eapply tree_ok_redirs; by rewrite Er).
    destruct (runcmd_execs E (λ x, cstr (drop (offset (length s) x.1) buf)) c Hc [] i o e) as [H1 H2]. rewrite Er in H1, H2.
    split_and!; [done..|]. by apply runcmd_waits.
Qed.

Lemma typable_text x : typable x → no_eol (text x) ∧ Forall (λ c, c ≠ 0) (text x ++ [10]).
Proof.
  intros [_ Hx]. destruct x as [s|path|t]; cbn [text].
  - split; [|apply Forall_app; split; [|by repeat constructor]]; (eapply Forall_impl; [exact Hx|]); cbn; intros c; lia.
  - split; [|apply Forall_app; split; [|by repeat constructor]]; (apply Forall_app; split; [by repeat constructor|]);
      (eapply Forall_impl; [exact Hx|]); cbn; tauto.
  - destruct Hx as [Ht _]. split; [by apply show_no_eol|]. apply line_nonzero; [done|by repeat constructor].
Qed.

Lemma skip_blanks_all s : Forall (λ c, c = 32 ∨ c = 9) s → skip_blanks (s ++ [10]) = [10].
Proof. induction 1 as [|c s [-> | ->] _ IH]; done. Qed.

(** getcmd takes a line. *)
Lemma getcmd_line x rest : typable x → getcmd (text x ++ 10 :: rest) = Some (text x ++ [10], rest).
Proof.
  intros Hx. destruct (typable_text x Hx) as [H1 H2]. destruct Hx as [Hlen _]. unfold getcmd. rewrite gets_line by (done || lia).
  rewrite cstr_nonzero by done. destruct (deref (text x ++ [10]) =? 0) eqn:E0; [|done].
  apply Z.eqb_eq, deref_zero in E0; [by destruct (text x)|done].
Qed.

(** The input: a line for each entry. *)
Definition typed (xs : list entry) : list Z := mjoin ((λ x, text x ++ [10]) <$> xs).

Lemma main_loop_lines W i o e xs : Forall typable xs → ∀ n fuel, (length (typed xs) < fuel)%nat →
  ∃ acts, main_loop W fuel (std_table i o e) n (typed xs) = Some acts ∧ session W i o e n xs acts.
Proof.
  induction 1 as [|x xs Hx _ IH]; intros n fuel Hf; (destruct fuel as [|fuel]; [lia|]); cbn [main_loop].
  { exists [Prompt; Exit 0]. split; [done|constructor]. }
  change (typed (x :: xs)) with ((text x ++ [10]) ++ typed xs) in *. rewrite !length_app in Hf. cbn [length] in Hf.
  rewrite <-(assoc_L (++)). cbn [app]. rewrite getcmd_line by done. destruct Hx as [_ Hx].
  destruct (IH (S n) fuel ltac:(lia)) as (acts & Ea & Hacts). unfold main_turn. destruct x as [s|path|t]; cbn [text].
  - rewrite skip_blanks_all by done. cbn -[main_loop std_table typed]. rewrite Ea. eexists. split; [done|]. by constructor.
  - change (skip_blanks (([99; 100; 32] ++ path) ++ [10])) with ([99; 100; 32] ++ path ++ [10]).
    cbn -[main_loop std_table typed length take]. rewrite Ea. eexists. split; [done|].
    replace (drop 3 _) with path; [by constructor|]. rewrite !length_cons, length_app. cbn [length].
    replace (S (S (S (length path + 1))) - 1)%nat with (S (S (S (length path)))) by lia. cbn [take drop]. by rewrite take_app_length.
  - destruct Hx as [Ht [Hne Hcd]]. rewrite (proj2 (Z.eqb_neq _ _) Hne), Hcd. destruct (main_fork_ok W n) eqn:Ef.
    + rewrite Ea. eexists. split; [done|]. constructor; [done|by apply run_line_tree|done].
    + eexists. split; [done|]. by constructor.
Qed.

(** C10: the shell runs what is typed in.  The shell is started with standard
    descriptors, those that are missing being opened on the console, and its
    input is a sequence of lines of at most 98 characters: blank lines, cd with
    a path, and commands printed from their trees.  main prompts for and acts
    on one line after the other and exits at the end of the input: it changes
    directory for a cd, with a message if that fails, and forks a child for a
    command; when this fork fails the shell says so and exits.  The programs
    that the child and its children execute are among those of the tree, in
    order, and all of them when every fork, pipe and open succeeds; each has the
    standard descriptors that its redirections and pipes give it and no other
    descriptor, and the shell processes that wait have no other descriptors
    either, so that no process holds an end of a pipe it does not use. *)
Theorem shell_runs_lines W a b c xs : started W a b c → Forall typable xs →
  ∃ acts, main W ([a; b; c] ++ replicate 13 None) (typed xs) = Some acts ∧
    session W (or_console a) (or_console b) (or_console c) 0 xs acts.
Proof.
  intros Hs Hx. unfold main. change (S (length ([a; b; c] ++ replicate 13 None))) with 17%nat. rewrite (open_console_std W a b c Hs).
  apply (main_loop_lines W _ _ _ xs Hx). lia.
Qed.

(** A shell without error output: ls | wc > f, cd /d, and (a; b) & *)
Lemma shell_runs_lines_witness :
  let W := mkWorld (λ _, true) (λ _, true) (λ _, true) (λ _, mkAnswers (λ _, true) (λ _, true) (λ _, true)) in
  let xs := [Cmd (TPipe (TExec [[108; 115]]) (TRedir (TExec [[119; 99]]) [102] 0x601 1)); Cd [47; 100];
             Cmd (TBack (TList (TExec [[97]]) (TExec [[98]])))] in
  ∃ acts, main W ([Some (DOther 0); Some (DOther 1); None] ++ replicate 13 None) (typed xs) = Some acts ∧
    session W (DOther 0) (DOther 1) (DFile console_path O_RDWR) 0 xs acts.
Proof.
  intros W xs. apply (shell_runs_lines W (Some (DOther 0)) (Some (DOther 1)) None xs); [by right|].
  unfold xs. repeat (apply Forall_cons; split); [..|constructor].
  2: split; [vm_compute; lia|]; by repeat constructor.
  all: split; [vm_compute; lia|split; [|split; [discriminate|reflexivity]]].
  all: cbn [tree_ok]; repeat (split || apply Forall_cons || apply Forall_nil || constructor); try discriminate; done.
Defined.
