(* ===== verification/Grep.v ===== *)
(** user/grep.c: the pattern matcher and the loop over the lines of a file.

    A NUL-terminated string is the list of its characters, which are not zero,
    and a pointer into it the list of the characters from there on.  The buffer
    of [grep] is an array: a list of 1024 characters, and pointers into it are
    indices.  The file is the list of the pieces that its reads deliver: a read
    that asks for less than the next piece takes the first part of it, and an
    empty piece is a read that fails.  The
    output is the list of the characters written to descriptor 1. *)

From S2P Require Import Prelude Shell.

(** ** The matcher *)

(** The loop of matchstar(c, re, text), [here] being matchhere(re, .). *)
Fixpoint matchstar (here : list Z → bool) (c : Z) (text : list Z) : bool :=
  if here text then true else
  match text with
  | [] => false
  | t :: text' => if (t =? c) || (c =? 46) then matchstar here c text' else false        (* . *)
  end.

Fixpoint matchhere (re text : list Z) : bool :=
  match re with
  | [] => true
  | c :: re' =>
      let single :=
        if (c =? 36) && (deref re' =? 0) then deref text =? 0                             (* $ *)
        else match text with
             | [] => false
             | t :: text' => if (c =? 46) || (c =? t) then matchhere re' text' else false
             end in
      match re' with
      | s :: re'' => if s =? 42 then matchstar (matchhere re'') c text else single        (* * *)
      | [] => single
      end
  end.

(** The loop of match: every end of the text, the empty one included. *)
Fixpoint match_from (re text : list Z) : bool :=
  if matchhere re text then true else
  match text with
  | [] => false
  | _ :: text' => match_from re text'
  end.

Definition match_ (re text : list Z) : bool :=
  if deref re =? 94 then matchhere (tail re) text else match_from re text.                (* ^ *)

(** ** The buffer *)
Abbreviation BUFSZ := 1024%nat (only parsing).

(** strchr(p, c): the index of the first [c], before the NUL. *)
Fixpoint strchr_at (c : Z) (l : list Z) : option nat :=
  match l with
  | [] => None
  | x :: l' => if x =? 0 then None else if x =? c then Some 0%nat else S <$> strchr_at c l'
  end.

(** read(fd, ., n) *)
Definition read (n : nat) (f : list (list Z)) : list Z * list (list Z) :=
  match f with
  | [] => ([], [])
  | p :: f' => if (length p <=? n)%nat then (p, f') else (take n p, drop n p :: f')
  end.

(** The loop over the lines in the buffer from index [p] on: the buffer, where
    it stops, and what it writes. *)
Fixpoint lines_loop (fuel : nat) (pattern buf : list Z) (p : nat) (out : list Z) : outcome (list Z * nat * list Z) :=
  match fuel with
  | O => NoFuel
  | S fuel' =>
      match strchr_at 10 (drop p buf) with
      | None => Done (buf, p, out)
      | Some d =>
          let q := (p + d)%nat in
          let buf := <[q := 0]> buf in
          if match_ pattern (cstr (drop p buf)) then
            let buf := <[q := 10]> buf in
            lines_loop fuel' pattern buf (q + 1) (out ++ take (q + 1 - p) (drop p buf))
          else lines_loop fuel' pattern buf (q + 1) out
      end
  end.

(** memmove(buf, p, m) *)
Definition move_down (buf : list Z) (p m : nat) : list Z := take m (drop p buf) ++ drop m buf.

Fixpoint grep_loop (fuel : nat) (pattern buf : list Z) (m : nat) (f : list (list Z)) (out : list Z) : outcome (list Z) :=
  match fuel with
  | O => NoFuel
  | S fuel' =>
      let '(d, f) := read (BUFSZ - m - 1) f in
      let n := length d in
      if (0 <? n)%nat then
        let buf := take m buf ++ d ++ drop (m + n) buf in
        let m := (m + n)%nat in
        let buf := <[m := 0]> buf in
        match lines_loop (S BUFSZ) pattern buf 0 out with
        | Done (buf, p, out) =>
            if (0 <? m)%nat then grep_loop fuel' pattern (move_down buf p (m - p)) (m - p) f out
            else grep_loop fuel' pattern buf m f out
        | Panic e => Panic e
        | Undef e => Undef e
        | Block => Block
        | NoFuel => NoFuel
        end
      else Done out
  end.

(** grep(pattern, fd), with a buffer left by an earlier call; each read takes
    characters of the file. *)
Definition grep (pattern buf : list Z) (f : list (list Z)) : outcome (list Z) :=
  grep_loop (S (length (mjoin f))) pattern buf 0 f [].
