(* ===== verification/GrepThms.v ===== *)
(** The pattern matcher of grep decides the language of its pattern, and grep
    prints the lines that match. *)

From S2P Require Import Prelude Shell ShellThms Grep.

(** ** Patterns *)
Inductive item :=
| One (c : Z)        (* c, or any character when c is the dot *)
| Many (c : Z)       (* as many of these as there may be *)
| End.               (* the end of the text *)

Fixpoint items (re : list Z) : list item :=
  match re with
  | [] => []
  | c :: re' =>
      let single := if (c =? 36) && (deref re' =? 0) then [End] else One c :: items re' in
      match re' with
      | s :: re'' => if s =? 42 then Many c :: items re'' else single
      | [] => single
      end
  end.

Definition stands_for (c t : Z) : Prop := c = 46 ∨ c = t.

(** [accepts p w r]: the items describe [w], where [r] follows. *)
Inductive accepts : list item → list Z → list Z → Prop :=
| accepts_nil r : accepts [] [] r
| accepts_one c p t w r : stands_for c t → accepts p w r → accepts (One c :: p) (t :: w) r
| accepts_many c p u w r : Forall (stands_for c) u → accepts p w r → accepts (Many c :: p) (u ++ w) r
| accepts_end p w : accepts p w [] → accepts (End :: p) w [].

(** A pattern is a string of characters other than NUL. *)
Definition pattern_ok (re : list Z) : Prop := Forall (λ c, c ≠ 0) re.

Definition here (re text : list Z) : Prop := ∃ w r, text = w ++ r ∧ accepts (items re) w r.

Lemma matchstar_spec (f : list Z → bool) c text :
  matchstar f c text = true ↔ ∃ u rest, text = u ++ rest ∧ Forall (stands_for c) u ∧ f rest = true.
Proof.
  induction text as [|t text IH]; cbn [matchstar].
  - destruct (f []) eqn:E; split; [intros _; by exists [], []|done|done|].
    intros (u & rest & Eu & _ & Hf). symmetry in Eu. apply app_eq_nil in Eu as [_ ->]. congruence.
  - destruct (f (t :: text)) eqn:E; [split; [intros _; by exists [], (t :: text)|done]|]. split.
    + destruct ((t =? c) || (c =? 46)) eqn:Ec; [|done]. intros (u & rest & -> & Hu & Hf)%IH. exists (t :: u), rest.
      split_and!; [done| |done]. constructor; [|done]. apply orb_true_iff in Ec as [Ec|Ec]; apply Z.eqb_eq in Ec; subst; [by right|by left].
    + intros ([|t' u] & rest & Eu & Hu & Hf); cbn in Eu; [congruence|]. injection Eu as <- Eu. apply Forall_cons in Hu as [Ht Hu].
      destruct ((t =? c) || (c =? 46)) eqn:Ec; [apply IH; eauto|]. apply orb_false_iff in Ec as [E1 E2].
      apply Z.eqb_neq in E1, E2. destruct Ht; congruence.
Qed.

Lemma here_many c re text : (∃ w r, text = w ++ r ∧ accepts (Many c :: items re) w r) ↔ ∃ u rest, text = u ++ rest ∧ Forall (stands_for c) u ∧ here re rest.
Proof.
  split.
  - intros (w & r & -> & H). inversion H as [| |? ? u w' ? Hu Hw|]; subst. exists u, (w' ++ r). split_and!; [by rewrite (assoc_L (++))|done|by exists w', r].
  - intros (u & rest & -> & Hu & w & r & -> & Hw). exists (u ++ w), r. split; [by rewrite (assoc_L (++))|by constructor].
Qed.

Lemma here_one c re text : (∃ w r, text = w ++ r ∧ accepts (One c :: items re) w r) ↔ ∃ t rest, text = t :: rest ∧ stands_for c t ∧ here re rest.
Proof.
  split.
  - intros (w & r & -> & H). inversion H as [|? ? t w' ? Ht Hw| |]; subst. exists t, (w' ++ r). by split_and!; [..|exists w', r].
  - intros (t & rest & -> & Ht & w & r & -> & Hw). exists (t :: w), r. by split; [|constructor].
Qed.

Lemma here_end text : (∃ w r, text = w ++ r ∧ accepts [End] w r) ↔ text = [].
Proof.
  split; [|intros ->; exists [], []; by split; repeat constructor].
  intros (w & r & -> & H). inversion H as [| | |? ? Hw]; subst. by inversion Hw.
Qed.

(** The part of matchhere for a pattern that does not start with a star. *)
Lemma single_spec c re (mh : list Z → bool) text : pattern_ok re → Forall (λ c, c ≠ 0) text → (∀ text, Forall (λ c, c ≠ 0) text → mh text = true ↔ here re text) →
  (if (c =? 36) && (deref re =? 0) then deref text =? 0
   else match text with [] => false | t :: text' => if (c =? 46) || (c =? t) then mh text' else false end) = true ↔
  ∃ w r, text = w ++ r ∧ accepts (if (c =? 36) && (deref re =? 0) then [End] else One c :: items re) w r.
Proof.
  intros Hre Ht IH. destruct ((c =? 36) && (deref re =? 0)) eqn:E.
  - rewrite here_end. destruct text as [|t text]; [done|]. cbn [deref]. apply Forall_cons in Ht as [Ht _].
    rewrite (proj2 (Z.eqb_neq _ _) Ht). done.
  - rewrite here_one. destruct text as [|t text]; [by split; [|intros (? & ? & ? & _)]|]. apply Forall_cons in Ht as [_ Ht]. split.
    + destruct ((c =? 46) || (c =? t)) eqn:Ec; [|done]. intros Hm%IH; [|done]. exists t, text. split_and!; [done| |done].
      apply orb_true_iff in Ec as [Ec|Ec]; apply Z.eqb_eq in Ec; subst; [by left|by right].
    + intros (t' & rest & [= <- <-] & Hs & Hh). replace ((c =? 46) || (c =? t)) with true; [by apply IH|].
      symmetry. apply orb_true_iff. rewrite !Z.eqb_eq. by destruct Hs; [left|right].
Qed.

Lemma suffix_nonzero (text u rest : list Z) : Forall (λ c, c ≠ 0) text → text = u ++ rest → Forall (λ c, c ≠ 0) rest.
Proof. intros H ->. by apply Forall_app in H as []. Qed.

Lemma matchhere_spec re : pattern_ok re → ∀ text, Forall (λ c, c ≠ 0) text → matchhere re text = true ↔ here re text.
Proof.
  remember (length re) as n eqn:En. revert re En. induction (lt_wf n) as [n _ IH]. intros [|c re] -> Hre text Ht.
  { split; [intros _; exists [], text; by split; [|constructor]|done]. }
  apply Forall_cons in Hre as [Hc Hre]. assert (∀ text, Forall (λ c, c ≠ 0) text → matchhere re text = true ↔ here re text) as IH1 by (apply (IH (length re)); [cbn; lia|done..]).
  unfold here. destruct re as [|s re].
  - exact (single_spec c [] (matchhere []) text Hre Ht IH1).
  - destruct (Z.eqb_spec s 42) as [->|Hs].
    + apply Forall_cons in Hre as [_ Hre]. change (matchhere (c :: 42 :: re) text) with (matchstar (matchhere re) c text).
      change (items (c :: 42 :: re)) with (Many c :: items re). rewrite here_many, matchstar_spec.
      assert (∀ text, Forall (λ c, c ≠ 0) text → matchhere re text = true ↔ here re text) as IH2 by (apply (IH (length re)); [cbn; lia|done..]).
      split; intros (u & rest & E & Hu & H); exists u, rest; (split_and!; [done..|]); apply IH2; eauto using suffix_nonzero.
    + pose proof (single_spec c (s :: re) (matchhere (s :: re)) text Hre Ht IH1) as H.
      assert (∀ x y : list item, (if s =? 42 then x else y) = y) as Hif by (intros; by rewrite (proj2 (Z.eqb_neq _ _) Hs)).
      assert (∀ x y : bool, (if s =? 42 then x else y) = y) as Hif' by (intros; by rewrite (proj2 (Z.eqb_neq _ _) Hs)).
      cbn [matchhere items]. rewrite Hif, Hif'. exact H.
Qed.

Lemma match_from_spec re text : pattern_ok re → Forall (λ c, c ≠ 0) text →
  match_from re text = true ↔ ∃ pre rest, text = pre ++ rest ∧ here re rest.
Proof.
  intros Hre. induction text as [|t text IH]; intros Ht; cbn [match_from]; destruct (matchhere re _) eqn:E.
  - split; [intros _; exists [], []; split; [done|by apply matchhere_spec]|done].
  - split; [done|]. intros (pre & rest & Ep & H). symmetry in Ep. apply app_eq_nil in Ep as [-> ->]. apply matchhere_spec in H; [congruence|done..].
  - split; [intros _; exists [], (t :: text); split; [done|by apply matchhere_spec]|done].
  - pose proof Ht as [_ Ht']%Forall_cons. rewrite (IH Ht'). split.
    + intros (pre & rest & -> & H). by exists (t :: pre), rest.
    + intros ([|t' pre] & rest & Ep & H); cbn in Ep; [subst; apply matchhere_spec in H; [congruence|done..]|].
      injection Ep as <- ->. eauto.
Qed.

(** C25: the matcher decides its patterns.  A text matches when a part of it is
    described by the pattern: a character stands for itself, a dot for any
    character, a starred one for any number of them, and a final [$] for the
    end of the text; a pattern that begins with [^] describes the beginning of
    the text. *)
Theorem match_correct re text : pattern_ok re → Forall (λ c, c ≠ 0) text →
  match_ re text = true ↔
  ∃ pre w post, text = pre ++ w ++ post ∧ accepts (items (if deref re =? 94 then tail re else re)) w post ∧ (deref re = 94 → pre = []).
Proof.
  intros Hre Ht. unfold match_. destruct (Z.eqb_spec (deref re) 94) as [E|E].
  - rewrite matchhere_spec; [|by destruct re as [|c re]; [|apply Forall_cons in Hre as []]|done]. split.
    + intros (w & r & -> & H). by exists [], w, r.
    + intros (pre & w & r & -> & H & Hp). rewrite (Hp E). by exists w, r.
  - rewrite match_from_spec by done. split.
    + intros (pre & rest & -> & w & r & -> & H). by exists pre, w, r.
    + intros (pre & w & r & -> & H & _). exists pre, (w ++ r). split; [done|]. by exists w, r.
Qed.

(** ^a.*c$ on abbc *)
Lemma match_correct_witness : let re := [94; 97; 46; 42; 99; 36] in let text := [97; 98; 98; 99] in
  match_ re text = true ∧ ∃ pre w post, text = pre ++ w ++ post ∧ accepts (items (tail re)) w post ∧ (deref re = 94 → pre = []).
Proof. split; [reflexivity|]. apply (match_correct [94; 97; 46; 42; 99; 36]); [by repeat constructor..|reflexivity]. Defined.

(** ** Lines *)

(** The lines of [l] that end in a newline, and the one that does not; [cur]
    is what has been read of the first. *)
Fixpoint complete (cur l : list Z) : list (list Z) :=
  match l with
  | [] => []
  | c :: l' => if c =? 10 then cur :: complete [] l' else complete (cur ++ [c]) l'
  end.
Fixpoint pending (cur l : list Z) : list Z :=
  match l with
  | [] => cur
  | c :: l' => if c =? 10 then pending [] l' else pending (cur ++ [c]) l'
  end.

Definition matching (re : list Z) (ls : list (list Z)) : list Z := mjoin ((λ ln, ln ++ [10]) <$> filter (λ ln, match_ re ln = true) ls).

Definition one_line (l : list Z) : Prop := Forall (λ c, c ≠ 10) l.

Lemma complete_app l1 : ∀ cur l2, complete cur (l1 ++ l2) = complete cur l1 ++ complete (pending cur l1) l2.
Proof. induction l1 as [|c l1 IH]; intros cur l2; [done|]. cbn [app complete pending]. case_if; rewrite IH; done. Qed.

Lemma pending_app l1 : ∀ cur l2, pending cur (l1 ++ l2) = pending (pending cur l1) l2.
Proof. induction l1 as [|c l1 IH]; intros cur l2; [done|]. cbn [app pending]. case_if; by rewrite IH. Qed.

Lemma one_line_spec l : one_line l → ∀ cur, complete cur l = [] ∧ pending cur l = cur ++ l.
Proof.
  induction l as [|c l IH]; intros Hl cur; [by rewrite app_nil_r|]. apply Forall_cons in Hl as [Hc Hl]. cbn [complete pending].
  rewrite (proj2 (Z.eqb_neq _ _) Hc). destruct (IH Hl (cur ++ [c])) as [-> ->]. by rewrite <-(assoc_L (++)).
Qed.

Lemma complete_first ln t : one_line ln → complete [] (ln ++ 10 :: t) = ln :: complete [] t ∧ pending [] (ln ++ 10 :: t) = pending [] t.
Proof. intros Hl. rewrite complete_app, pending_app. destruct (one_line_spec ln Hl []) as [-> ->]. done. Qed.

Lemma split_line t : one_line t ∨ ∃ ln t', t = ln ++ 10 :: t' ∧ one_line ln.
Proof.
  induction t as [|c t [IH|(ln & t' & -> & IH)]]; [left; constructor|..]; destruct (decide (c = 10)) as [->|Hc].
  - right. exists [], t. by split; [|constructor].
  - left. by constructor.
  - right. exists [], (ln ++ 10 :: t'). by split; [|constructor].
  - right. exists (c :: ln), t'. by split; [|constructor].
Qed.

Lemma pending_one_line l : ∀ cur, one_line cur → one_line (pending cur l).
Proof.
  induction l as [|c l IH]; intros cur Hcur; [done|]. cbn [pending]. destruct (Z.eqb_spec c 10); [apply IH; constructor|].
  apply IH, Forall_app. by split; [|repeat constructor].
Qed.

Lemma pending_nonzero l : ∀ cur, Forall (λ c, c ≠ 0) cur → Forall (λ c, c ≠ 0) l → Forall (λ c, c ≠ 0) (pending cur l).
Proof.
  induction l as [|c l IH]; intros cur Hcur Hl; [done|]. apply Forall_cons in Hl as [Hc Hl]. cbn [pending]. case_if; apply IH; try done.
  apply Forall_app. by split; [|repeat constructor].
Qed.

(** Lines that fit into the buffer, with room for another character and the
    NUL. *)
Definition fits_in (k : nat) (cur l : list Z) : Prop := Forall (λ ln, (length ln ≤ k)%nat) (complete cur l) ∧ (length (pending cur l) ≤ k)%nat.

Lemma fits_cur k l : ∀ cur, fits_in k cur l → (length cur ≤ k)%nat.
Proof.
  induction l as [|c l IH]; intros cur [H1 H2]; [done|]. cbn [complete pending] in *. destruct (c =? 10); [by apply Forall_cons in H1 as []|].
  pose proof (IH _ (conj H1 H2)) as H. rewrite length_app in H. lia.
Qed.

Lemma fits_app k cur l1 l2 : fits_in k cur (l1 ++ l2) → fits_in k (pending cur l1) l2.
Proof. unfold fits_in. rewrite complete_app, pending_app, Forall_app. tauto. Qed.

(** ** The loops *)
Lemma strchr_line ln s : Forall (λ c, c ≠ 0) ln → one_line ln → strchr_at 10 (ln ++ 10 :: s) = Some (length ln).
Proof.
  induction ln as [|c ln IH]; intros Hz Hl; [done|]. apply Forall_cons in Hz as [Hz Hz'], Hl as [Hl Hl']. cbn [app strchr_at].
  rewrite (proj2 (Z.eqb_neq _ _) Hz), (proj2 (Z.eqb_neq _ _) Hl), IH; done.
Qed.

Lemma strchr_none t s : one_line t → strchr_at 10 (t ++ 0 :: s) = None.
Proof.
  induction t as [|c t IH]; intros Hl; [done|]. apply Forall_cons in Hl as [Hl Hl']. cbn [app strchr_at]. case_if; [done|].
  rewrite (proj2 (Z.eqb_neq _ _) Hl), IH; done.
Qed.

(** Marking the end of a line in the buffer. *)
Lemma line_mark (buf : list Z) (p : nat) (ln : list Z) (c : Z) (s : list Z) (x : Z) : drop p buf = ln ++ c :: s →
  drop p (<[(p + length ln)%nat := x]> buf) = ln ++ x :: s ∧ drop (p + length ln + 1) (<[(p + length ln)%nat := x]> buf) = s.
Proof.
  intros E. assert (drop p (<[(p + length ln)%nat := x]> buf) = ln ++ x :: s) as E'.
  { rewrite drop_insert_ge by lia. replace (p + length ln - p)%nat with (length ln + 0)%nat by lia. by rewrite E, insert_app_r. }
  split; [done|]. replace (p + length ln + 1)%nat with (p + (length ln + 1))%nat by lia. rewrite <-drop_drop, E', drop_app_ge by lia.
  by replace (length ln + 1 - length ln)%nat with 1%nat by lia.
Qed.

Lemma lines_loop_spec re t : Forall (λ c, c ≠ 0) t → ∀ fuel buf p junk out, (length t < fuel)%nat → drop p buf = t ++ 0 :: junk →
  ∃ buf' p', lines_loop fuel re buf p out = Done (buf', p', out ++ matching re (complete [] t)) ∧
    drop p' buf' = pending [] t ++ 0 :: junk ∧ length buf' = length buf.
Proof.
  remember (length t) as n eqn:En. revert t En. induction (lt_wf n) as [n _ IH]. intros t -> Hz fuel buf p junk out Hf E.
  destruct fuel as [|fuel]; [lia|]. cbn [lines_loop]. destruct (split_line t) as [Hl|(ln & t' & -> & Hl)].
  - rewrite E, strchr_none by done. destruct (one_line_spec t Hl []) as [-> ->]. exists buf, p. by rewrite app_nil_r.
  - apply Forall_app in Hz as [Hz [_ Hz']%Forall_cons]. rewrite length_app in Hf, IH. cbn [length] in Hf, IH.
    rewrite <-(assoc_L (++)) in E. change ((10 :: t') ++ 0 :: junk) with (10 :: t' ++ 0 :: junk) in E. rewrite E, strchr_line by done.
    destruct (line_mark buf p ln 10 (t' ++ 0 :: junk) 0 E) as [E0 E1]. rewrite E0, cstr_prefix by done.
    destruct (complete_first ln t' Hl) as [-> ->]. unfold matching. rewrite filter_cons.
    destruct (match_ re ln) eqn:Em; [rewrite decide_True by done|rewrite decide_False by done].
    + destruct (line_mark _ p ln 0 (t' ++ 0 :: junk) 10 E0) as [E2 E3].
      destruct (IH (length t') ltac:(lia) t' eq_refl Hz' fuel _ _ junk (out ++ ln ++ [10]) ltac:(lia) E3) as (buf' & p' & EL & Ed & Elen).
      rewrite E2. replace (p + length ln + 1 - p)%nat with (length (ln ++ [10])) by (rewrite length_app; cbn; lia).
      replace (ln ++ 10 :: t' ++ 0 :: junk) with ((ln ++ [10]) ++ t' ++ 0 :: junk) by (by rewrite <-(assoc_L (++))). rewrite take_app_length, EL.
      exists buf', p'. rewrite !length_insert in Elen. split; [|done]. unfold matching. cbn. by rewrite <-!(assoc_L (++)).
    + destruct (IH (length t') ltac:(lia) t' eq_refl Hz' fuel _ _ junk out ltac:(lia) E1) as (buf' & p' & EL & Ed & Elen).
      rewrite EL. exists buf', p'. rewrite length_insert in Elen. done.
Qed.

Lemma read_spec n f : (0 < n)%nat → f ≠ [] → Forall (λ p, p ≠ []) f →
  ∃ d f', read n f = (d, f') ∧ mjoin f = d ++ mjoin f' ∧ d ≠ [] ∧ (length d ≤ n)%nat ∧ Forall (λ p, p ≠ []) f'.
Proof.
  intros Hn Hf Hp. destruct f as [|p f]; [done|]. apply Forall_cons in Hp as [Hp Hf']. unfold read.
  destruct (Nat.leb_spec (length p) n); [by exists p, f|]. exists (take n p), (drop n p :: f). split; [done|]. split_and!.
  - cbn. by rewrite (assoc_L (++)), take_drop.
  - intros E%(f_equal length). rewrite length_take in E. cbn in E. lia.
  - rewrite length_take. lia.
  - constructor; [|done]. intros E%(f_equal length). rewrite length_drop in E. cbn in E. lia.
Qed.

Lemma move_down_take (buf : list Z) (p m : nat) (l s : list Z) : drop p buf = l ++ s → length l = m → (m ≤ length buf)%nat →
  take m (move_down buf p m) = l ∧ length (move_down buf p m) = length buf.
Proof.
  intros E <- Hm. unfold move_down. rewrite E, !take_app_length, length_app, length_drop. split; [done|lia].
Qed.

(** What the buffer holds after a read. *)
Lemma buffer_read (buf cur d : list Z) : take (length cur) buf = cur → length buf = BUFSZ → (length cur + length d < BUFSZ)%nat →
  <[(length cur + length d)%nat := 0]> (take (length cur) buf ++ d ++ drop (length cur + length d) buf) =
  (cur ++ d) ++ 0 :: drop (S (length cur + length d)) buf.
Proof.
  intros -> Hb Hl. rewrite (assoc_L (++)). rewrite <-length_app. replace (length (cur ++ d)) with (length (cur ++ d) + 0)%nat at 1 by lia.
  rewrite insert_app_r. f_equal.
  destruct (drop (length (cur ++ d)) buf) as [|x s] eqn:E; [apply (f_equal length) in E; rewrite length_drop, Hb, length_app in E; cbn in E; lia|].
  change (<[0%nat:=0]> (x :: s)) with (0 :: s). f_equal. replace (S (length (cur ++ d))) with (length (cur ++ d) + 1)%nat by lia. by rewrite <-drop_drop, E.
Qed.

Lemma grep_loop_spec re fuel : ∀ buf cur f out, (length (mjoin f) < fuel)%nat → Forall (λ p, p ≠ []) f → Forall (λ c, c ≠ 0) (mjoin f) →
  length buf = BUFSZ → take (length cur) buf = cur → Forall (λ c, c ≠ 0) cur → one_line cur → fits_in 1022 cur (mjoin f) →
  grep_loop fuel re buf (length cur) f out = Done (out ++ matching re (complete cur (mjoin f))).
Proof.
  induction fuel as [|fuel IH]; intros buf cur f out Hf Hp Hz Hb Hcur Hcz Hone Hfit; [lia|]. cbn [grep_loop].
  destruct (decide (f = [])) as [->|Hne]; [by rewrite app_nil_r|]. pose proof (fits_cur _ _ _ Hfit) as Hlen.
  destruct (read_spec (BUFSZ - length cur - 1) f ltac:(lia) Hne Hp) as (d & f' & -> & Ef & Hd & Hdl & Hp'). rewrite Ef in *.
  apply Forall_app in Hz as [Hdz Hz']. rewrite length_app in Hf. assert (0 < length d)%nat as Hd0 by (destruct d; [done|cbn; lia]).
  rewrite (proj2 (Nat.ltb_lt _ _) Hd0), buffer_read by (done || lia).
  set (junk := drop (S (length cur + length d)) buf).
  destruct (lines_loop_spec re (cur ++ d) ltac:(by apply Forall_app) (S BUFSZ) ((cur ++ d) ++ 0 :: junk) 0%nat junk out ltac:(rewrite length_app; lia) eq_refl) as (buf' & p' & -> & Ed & Elen).
  rewrite complete_app, pending_app in *. destruct (one_line_spec cur Hone []) as [Ec1 Ec2]. rewrite Ec1, Ec2 in *. cbn [app] in Ed |- *.
  assert (length buf' = BUFSZ) as Hb' by (rewrite Elen, length_app; cbn [length]; unfold junk; rewrite length_drop, length_app; lia).
  assert (length cur + length d - p' = length (pending cur d))%nat as Em.
  { apply (f_equal length) in Ed. rewrite length_drop, length_app in Ed. cbn [length] in Ed. unfold junk in Ed. rewrite length_drop in Ed. lia. }
  rewrite (proj2 (Nat.ltb_lt _ _) (ltac:(lia) : (0 < length cur + length d)%nat)), Em.
  pose proof (fits_app _ _ _ _ Hfit) as Hfit'. pose proof (fits_cur _ _ _ Hfit') as Hlen'.
  destruct (move_down_take buf' p' _ _ _ Ed eq_refl ltac:(lia)) as [Et El]. rewrite IH; [..|done].
  - rewrite complete_app. unfold matching. by rewrite filter_app, fmap_app, join_app, (assoc_L (++)).
  - lia.
  - done.
  - done.
  - lia.
  - done.
  - by apply pending_nonzero.
  - by apply pending_one_line.
Qed.

(** C26: grep prints the lines that match.  For a file of text, however its
    reads cut it into pieces, and whatever an earlier call left in the buffer,
    grep returns and has written the lines that match, whole and in order.
    Lines are at most 1022 characters long, so that the buffer always has room
    for more; a last line without a newline is not printed. *)
Theorem grep_prints_matching_lines re buf f : length buf = BUFSZ → Forall (λ p, p ≠ []) f → Forall (λ c, c ≠ 0) (mjoin f) →
  fits_in 1022 [] (mjoin f) → grep re buf f = Done (matching re (complete [] (mjoin f))).
Proof.
  intros Hb Hp Hz Hfit. apply (grep_loop_spec re (S (length (mjoin f))) buf [] f []); [lia|done..| | |done]; constructor.
Qed.

(** Two reads of ab, newline, bc, newline, d, with the pattern a. *)
Lemma grep_prints_matching_lines_witness : grep [97] (replicate BUFSZ 7) [[97; 98; 10; 98]; [99; 10; 100]] = Done [97; 98; 10].
Proof.
  rewrite (grep_prints_matching_lines [97] (replicate BUFSZ 7) [[97; 98; 10; 98]; [99; 10; 100]]); [reflexivity|apply length_replicate|by repeat constructor..|].
  split; cbn; [repeat constructor; lia|lia].
Defined.

(** A line that fills the buffer ends the search: nothing that follows is read. *)
Lemma grep_stops_at_long_line re buf f : length buf = BUFSZ → Forall (λ p, p ≠ []) f → Forall (λ c, c ≠ 0) (mjoin f) →
  ∀ fuel cur out, take (length cur) buf = cur → length cur = 1023%nat → grep_loop (S fuel) re buf (length cur) f out = Done out.
Proof.
  intros Hb Hp Hz fuel cur out Hc Hl. cbn [grep_loop]. rewrite Hl. change (1024 - 1023 - 1)%nat with 0%nat.
  destruct f as [|[|c p] f]; [done|by apply Forall_cons in Hp as []|done].
Qed.
