(* ===== verification/Umalloc.v ===== *)
(** user/umalloc.c: the memory allocator of user programs.

    The heap of a process is its byte memory, the pointer [freep] and the break,
    the size of its memory.  A [Header] of 16 bytes has the pointer at offset 0
    and the size, in headers, at offset 8.  Pointers are addresses.

    sbrk is a system call: [grow sz n] is the size of the memory after growing
    it by [n] bytes from [sz], or None when there is no memory.  [base] is the
    address of the variable of this name, which lies below the heap. *)

From S2P Require Import Prelude Memory.

Record uheap := mkHeap { um : mem; freep : Z; brk : Z }.
Definition set_um (m : mem) (h : uheap) : uheap := mkHeap m (freep h) (brk h).
Definition set_freep (p : Z) (h : uheap) : uheap := mkHeap (um h) p (brk h).
Definition set_brk (b : Z) (h : uheap) : uheap := mkHeap (um h) (freep h) b.

Class Sbrk := {
  base : Z;
  grow : Z → Z → option Z;
  base_pos : 0 < base;
  (** sbrk of a number of bytes appends them; the memory of a process is much
      smaller than 2^35 bytes. *)
  grow_ok sz n sz' : 0 ≤ n → grow sz n = Some sz' → sz' = sz + n ∧ sz' ≤ 2^35;
}.

Abbreviation HEADER := 16 (only parsing).                           (* sizeof(Header) *)
Abbreviation SBRK_ERROR := (2^64 - 1) (only parsing).

Section umalloc.
Context `{SB : Sbrk}.

(** p->s.ptr and p->s.size *)
Definition h_ptr (m : mem) (p : Z) : Z := ld64 m p.
Definition h_size (m : mem) (p : Z) : Z := ld32 m (p + 8).
Definition get_ptr (p : Z) : M uheap Z := gets (λ h, h_ptr (um h) p).
Definition get_size (p : Z) : M uheap Z := gets (λ h, h_size (um h) p).
Definition set_ptr (p v : Z) : M uheap unit := modify (λ h, set_um (st64 (um h) p v) h).
Definition set_size (p v : Z) : M uheap unit := modify (λ h, set_um (st32 (um h) (p + 8) v) h).

(** sbrk(n), n an int. *)
Definition sbrk (n : Z) : M uheap Z :=
  old <- gets brk ;;
  match grow old n with
  | Some sz => modify (set_brk sz) ;; ret old
  | None => ret SBRK_ERROR
  end.

(** Twice the number of blocks that memory has room for, and base. *)
Definition ring_fuel (h : uheap) : nat := 2 * Z.to_nat (brk h / HEADER) + 4.

(** The loop of free: the block after which bp goes. *)
Definition place_turn (bp p : Z) : M uheap (Z + Z) :=
  q <- get_ptr p ;;
  if (p <? bp) && (bp <? q) then ret (inr p) else
  if (q <=? p) && ((p <? bp) || (bp <? q)) then ret (inr p) else
  ret (inl q).

Definition find_place (bp : Z) : M uheap Z :=
  h <- get ;;
  while (ring_fuel h) (place_turn bp) (freep h).

Definition free (ap : Z) : M uheap unit :=
  let bp := ap - HEADER in
  p <- find_place bp ;;
  q <- get_ptr p ;;
  n <- get_size bp ;;
  (if bp + HEADER * n =? q then
     k <- get_size q ;;
     set_size bp (u32 (n + k)) ;;
     r <- get_ptr q ;;
     set_ptr bp r
   else set_ptr bp q) ;;
  n <- get_size p ;;
  (if p + HEADER * n =? bp then
     k <- get_size bp ;;
     set_size p (u32 (n + k)) ;;
     r <- get_ptr bp ;;
     set_ptr p r
   else set_ptr p bp) ;;
  modify (set_freep p).

Definition morecore (nu : Z) : M uheap Z :=
  let nu := if nu <? 4096 then 4096 else nu in
  p <- sbrk (s32 (nu * HEADER)) ;;
  if p =? SBRK_ERROR then ret 0 else
  set_size p nu ;;
  free (p + HEADER) ;;
  gets freep.

(** (nbytes + sizeof(Header) - 1)/sizeof(Header) + 1, as a uint *)
Definition units (nbytes : Z) : Z := u32 ((nbytes + HEADER - 1) / HEADER + 1).

(** The turn of malloc's loop at p, the block after prevp. *)
Definition malloc_turn (nunits : Z) : Z * Z → M uheap ((Z * Z) + Z) := λ '(prevp, p),
  n <- get_size p ;;
  if nunits <=? n then
    p <- (if n =? nunits then
            q <- get_ptr p ;;
            set_ptr prevp q ;;
            ret p
          else
            set_size p (n - nunits) ;;
            set_size (p + HEADER * (n - nunits)) nunits ;;
            ret (p + HEADER * (n - nunits))) ;;
    modify (set_freep prevp) ;;
    ret (inr (p + HEADER))
  else
  f <- gets freep ;;
  if p =? f then
    p <- morecore nunits ;;
    if p =? 0 then ret (inr 0) else
    q <- get_ptr p ;;
    ret (inl (p, q))
  else
  q <- get_ptr p ;;
  ret (inl (p, q)).

Definition malloc (nbytes : Z) : M uheap Z :=
  let nunits := units nbytes in
  f <- gets freep ;;
  (when f =? 0 do
     (set_ptr base base ;;
      modify (set_freep base) ;;
      set_size base 0)) ;;
  prevp <- gets freep ;;
  p <- get_ptr prevp ;;
  h <- get ;;
  while (2 * ring_fuel h) (malloc_turn nunits) (prevp, p).

End umalloc.
