(* ===== verification/UmallocThms.v ===== *)
(** The allocator of user programs: blocks handed out are disjoint, nothing
    that belongs to the program is overwritten, and malloc and free return. *)

From stdpp Require Import sorting.
From S2P Require Import Prelude Memory Umalloc.
#[local] Open Scope Z_scope.

Section umalloc_thms.
Context `{SB : Sbrk}.
Implicit Types (L A : list (Z * Z)).

(** ** Headers *)
Definition apart (p q : Z) : Prop := p + HEADER ≤ q ∨ q + HEADER ≤ p.

Lemma h_size_range m p : mem_ok m → 0 ≤ h_size m p < 2^32.
Proof. apply (ldn_range 4). Qed.
Lemma h_ptr_range m p : mem_ok m → 0 ≤ h_ptr m p < 2^64.
Proof. apply (ldn_range 8). Qed.

Lemma h_ptr_set_ptr m p v : 0 ≤ v < 2^64 → h_ptr (st64 m p v) p = v.
Proof. apply ld64_st64_same. Qed.
Lemma h_size_set_size m p v : 0 ≤ v < 2^32 → h_size (st32 m (p + 8) v) p = v.
Proof. intros. unfold h_size, ld32, st32. rewrite ldn_stn_same. by apply Z.mod_small. Qed.
Lemma h_ptr_set_size m p q v : p = q ∨ apart p q → h_ptr (st32 m (q + 8) v) p = h_ptr m p.
Proof. unfold apart. intros. apply ldn_stn_other. lia. Qed.
Lemma h_size_set_ptr m p q v : p = q ∨ apart p q → h_size (st64 m q v) p = h_size m p.
Proof. unfold apart. intros. apply ldn_stn_other. lia. Qed.
Lemma h_ptr_set_ptr_other m p q v : apart p q → h_ptr (st64 m q v) p = h_ptr m p.
Proof. unfold apart. intros. apply ldn_stn_other. lia. Qed.
Lemma h_size_set_size_other m p q v : apart p q → h_size (st32 m (q + 8) v) p = h_size m p.
Proof. unfold apart. intros. apply ldn_stn_other. lia. Qed.

(** Two memories that agree on the header at [p]. *)
Definition same_header (m m' : mem) (p : Z) : Prop := ∀ x, p ≤ x < p + HEADER → m' x = m x.

Lemma same_header_ptr m m' p : same_header m m' p → h_ptr m' p = h_ptr m p.
Proof. intros H. apply ldn_ext. intros x Hx. apply H. lia. Qed.
Lemma same_header_size m m' p : same_header m m' p → h_size m' p = h_size m p.
Proof. intros H. apply ldn_ext. intros x Hx. apply H. lia. Qed.

(** Only headers of [ps] differ. *)
Definition only (ps : list Z) (m m' : mem) : Prop := ∀ x, (∀ p, p ∈ ps → x < p ∨ p + HEADER ≤ x) → m' x = m x.

Lemma only_refl ps m : only ps m m.
Proof. done. Qed.
Lemma only_trans ps m1 m2 m3 : only ps m1 m2 → only ps m2 m3 → only ps m1 m3.
Proof. intros H1 H2 x Hx. by rewrite H2, H1. Qed.
Lemma only_set_ptr ps m p v : p ∈ ps → only ps m (st64 m p v).
Proof. intros Hp x Hx. apply st64_other. specialize (Hx p Hp). lia. Qed.
Lemma only_set_size ps m p v : p ∈ ps → only ps m (st32 m (p + 8) v).
Proof. intros Hp x Hx. apply (stn_other 4). specialize (Hx p Hp). lia. Qed.
Lemma only_same_header ps m m' q : only ps m m' → (∀ p, p ∈ ps → apart p q) → same_header m m' q.
Proof. intros H Hp x Hx. apply H. intros p Hin. specialize (Hp p Hin). unfold apart in Hp. lia. Qed.

(** ** The ring of free blocks *)

(** Each node of [N] points to the next, the last one to [b]. *)
Fixpoint links (m : mem) (N : list Z) (b : Z) : Prop :=
  match N with
  | [] => True
  | x :: N' => h_ptr m x = hd b N' ∧ links m N' b
  end.

Lemma hd_app (N1 N2 : list Z) b : hd b (N1 ++ N2) = hd (hd b N2) N1.
Proof. by destruct N1. Qed.

Lemma links_app m N1 N2 b : links m (N1 ++ N2) b ↔ links m N1 (hd b N2) ∧ links m N2 b.
Proof. induction N1 as [|x N1 IH]; cbn [app links]; [tauto|]. rewrite IH, hd_app. tauto. Qed.

Lemma links_same m m' N b : links m N b → (∀ x, x ∈ N → same_header m m' x) → links m' N b.
Proof.
  induction N as [|x N IH]; [done|]. intros [H1 H2] Hs. split; [rewrite same_header_ptr with (m := m); [done|apply Hs; left]|].
  apply IH; [done|]. intros y Hy. apply Hs. by right.
Qed.

Lemma links_iter m N b i x : links m N b → N !! i = Some x → Nat.iter (length N - i) (h_ptr m) x = b.
Proof.
  revert i x. induction N as [|y N IH]; intros i x Hl Hx; [done|]. destruct Hl as [Hy Hl]. destruct i as [|i].
  - injection Hx as <-. destruct N as [|z N]; [done|]. change (length (y :: z :: N) - 0)%nat with (S (length (z :: N))).
    rewrite Nat.iter_succ_r, Hy. cbn [hd]. rewrite <-(Nat.sub_0_r (length (z :: N))). by apply IH.
  - cbn [length]. rewrite Nat.sub_succ. by apply IH.
Qed.

(** From any node of the ring every other is reached. *)
Lemma ring_reach m a N x y : links m (a :: N) a → x ∈ a :: N → y ∈ a :: N →
  ∃ k, (k ≤ 2 * S (length N))%nat ∧ Nat.iter k (h_ptr m) x = y.
Proof.
  intros Hl [i Hi]%list_elem_of_lookup_1 [j Hj]%list_elem_of_lookup_1.
  assert (∀ j y, (a :: N) !! j = Some y → Nat.iter j (h_ptr m) a = y) as Hfrom.
  { clear Hi Hj. intros k z Hk. pose proof (take_drop_middle _ _ _ Hk) as E. rewrite <-E in Hl.
    apply lookup_lt_Some in Hk as Hlt. assert (length (take k (a :: N)) = k) as Hlen by (rewrite length_take; lia).
    apply links_app in Hl as [Hl _]. destruct k as [|k]; [by injection Hk|]. cbn [hd] in Hl. cbn [take] in Hl, Hlen.
    pose proof (links_iter m _ z 0%nat a Hl eq_refl) as H. rewrite Hlen, Nat.sub_0_r in H. done. }
  apply lookup_lt_Some in Hi as Hi', Hj as Hj'. cbn [length] in *. exists (j + (S (length N) - i))%nat. split; [lia|].
  rewrite Nat.iter_add. pose proof (links_iter m (a :: N) a i x Hl Hi) as E. cbn [length] in E. rewrite E. by apply Hfrom.
Qed.

(** ** Blocks *)
Definition area (b : Z * Z) : list Z := seqZ b.1 (HEADER * b.2).
Definition areas (l : list (Z * Z)) : list Z := l ≫= area.

#[local] Instance areas_proper : Proper ((≡ₚ) ==> (≡ₚ)) areas.
Proof. intros l l' E. unfold areas. by rewrite E. Qed.

Lemma areas_app l1 l2 : areas (l1 ++ l2) = areas l1 ++ areas l2.
Proof. apply bind_app. Qed.

Lemma elem_of_area x b : x ∈ area b ↔ b.1 ≤ x < b.1 + HEADER * b.2.
Proof. apply elem_of_seqZ. Qed.

Lemma elem_of_areas x l : x ∈ areas l ↔ ∃ b, b ∈ l ∧ b.1 ≤ x < b.1 + HEADER * b.2.
Proof. unfold areas. rewrite list_elem_of_bind. setoid_rewrite elem_of_area. naive_solver. Qed.

(** A block is split in two, or two are merged. *)
Lemma area_split a n k : 0 ≤ n → 0 ≤ k → area (a, n + k) = area (a, n) ++ area (a + HEADER * n, k).
Proof. intros. unfold area. cbn. replace (16 * (n + k)) with (16 * n + 16 * k) by lia. by rewrite seqZ_app by lia. Qed.

Lemma areas_disjoint b b' l : NoDup (areas (b :: l)) → b' ∈ l → 1 ≤ b.2 → 1 ≤ b'.2 →
  b.1 + HEADER * b.2 ≤ b'.1 ∨ b'.1 + HEADER * b'.2 ≤ b.1.
Proof.
  intros Hd Hb' H1 H2. change (areas (b :: l)) with (area b ++ areas l) in Hd. apply NoDup_app in Hd as (_ & Hd & _).
  destruct (decide (b.1 + 16 * b.2 ≤ b'.1)); [by left|]. destruct (decide (b'.1 + 16 * b'.2 ≤ b.1)); [by right|]. exfalso.
  apply (Hd (Z.max b.1 b'.1)); [apply elem_of_area; lia|]. apply elem_of_areas. exists b'. split; [done|lia].
Qed.

Fixpoint sorted (lo : Z) (L : list (Z * Z)) : Prop :=
  match L with
  | [] => True
  | b :: L' => lo < b.1 ∧ sorted (b.1 + HEADER * b.2) L'
  end.

(** [L] are the free blocks and [A] the others. *)
Record heap_inv (L A : list (Z * Z)) (h : uheap) : Prop := {
  hi_mem : mem_ok (um h);
  hi_ring : links (um h) (base :: L.*1) base;
  hi_base : h_size (um h) base = 0;
  hi_freep : freep h ∈ base :: L.*1;
  hi_size : ∀ b, b ∈ L ++ A → h_size (um h) b.1 = b.2 ∧ 1 ≤ b.2;
  hi_sorted : sorted (base + HEADER - 1) L;
  hi_disj : NoDup (areas (L ++ A));
  hi_in : ∀ x, x ∈ areas (L ++ A) → base + HEADER ≤ x < brk h;
  hi_brk : base + HEADER ≤ brk h ≤ 2^35;
}.

Lemma heap_inv_perm L A A' h : A ≡ₚ A' → heap_inv L A h → heap_inv L A' h.
Proof.
  intros E []. split; try done.
  - intros b Hb. apply hi_size0. by rewrite E.
  - by rewrite <-E.
  - intros x Hx. apply hi_in0. by rewrite E.
Qed.

(** ** Order *)
Definition inc (N : list Z) : Prop := StronglySorted Z.lt N.

Lemma sorted_inc lo L : (∀ b, b ∈ L → 1 ≤ b.2) → sorted lo L → inc L.*1 ∧ Forall (λ x, lo < x) L.*1.
Proof.
  revert lo. induction L as [|b L IH]; intros lo Hs H; [by split; constructor|]. destruct H as [H1 H2].
  destruct (IH _ ltac:(intros; apply Hs; by right) H2) as [I1 I2]. specialize (Hs b ltac:(left)).
  split; constructor; try done; (eapply Forall_impl; [exact I2|]; cbn; lia).
Qed.

Lemma links_next m N b x : inc N → links m N b → x ∈ N → h_ptr m x = b ∨ (x < h_ptr m x ∧ h_ptr m x ∈ N).
Proof.
  induction N as [|y N IH]; intros Hi Hl Hx; [by apply not_elem_of_nil in Hx|]. destruct Hl as [Hy Hl]. inversion Hi as [|? ? Hi' Hall]; subst.
  apply elem_of_cons in Hx as [->|Hx].
  - destruct N as [|z N]; [by left|]. cbn [hd] in Hy. rewrite Hy. apply Forall_cons in Hall as [Hz _]. right. split; [done|]. right. left.
  - destruct (IH Hi' Hl Hx) as [|[? ?]]; [by left|right]. split; [done|by right].
Qed.

(** Where a block goes among the free blocks. *)
Lemma place lo L a n : 1 ≤ n → (∀ b, b ∈ L → 1 ≤ b.2) → sorted lo L →
  (∀ b, b ∈ L → a + HEADER * n ≤ b.1 ∨ b.1 + HEADER * b.2 ≤ a) →
  ∃ L1 L2, L = L1 ++ L2 ∧ (∀ b, b ∈ L1 → b.1 + HEADER * b.2 ≤ a) ∧ (∀ b, b ∈ L2 → a + HEADER * n ≤ b.1).
Proof.
  intros Hn. revert lo. induction L as [|b L IH]; intros lo Hs Hso Hd; [exists [], []; split_and!; [done|set_solver..]|].
  destruct (Hd b ltac:(left)) as [H|H].
  - exists [], (b :: L). split_and!; [done|set_solver|]. intros b' [->|Hb']%elem_of_cons; [done|]. destruct Hso as [_ Hso].
    destruct (sorted_inc _ _ ltac:(intros; apply Hs; by right) Hso) as [_ HF]. rewrite Forall_fmap, Forall_forall in HF.
    specialize (HF b' Hb'). cbn in HF. specialize (Hs b ltac:(left)). lia.
  - destruct Hso as [_ Hso]. destruct (IH _ ltac:(intros; apply Hs; by right) Hso ltac:(intros; apply Hd; by right)) as (L1 & L2 & -> & H1 & H2).
    exists (b :: L1), L2. split_and!; [done| |done]. intros b' [->|Hb']%elem_of_cons; auto.
Qed.

(** The number of free blocks is bounded by the memory they take. *)
Lemma areas_count l lo hi : NoDup (areas l) → (∀ b, b ∈ l → 1 ≤ b.2) → (∀ x, x ∈ areas l → lo ≤ x < hi) →
  HEADER * Z.of_nat (length l) ≤ Z.max 0 (hi - lo).
Proof.
  intros Hd Hs Hin. assert (HEADER * Z.of_nat (length l) ≤ Z.of_nat (length (areas l))) as H1.
  { clear Hd Hin. induction l as [|b l IH]; [done|]. change (areas (b :: l)) with (area b ++ areas l). rewrite length_app.
    specialize (IH ltac:(intros; apply Hs; by right)). specialize (Hs b ltac:(left)). unfold area. rewrite length_seqZ. cbn [length]. lia. }
  assert (length (areas l) ≤ length (seqZ lo (hi - lo)))%nat as H2.
  { apply submseteq_length, NoDup_submseteq; [done|]. intros x Hx%Hin. apply elem_of_seqZ. lia. }
  rewrite length_seqZ in H2. lia.
Qed.

Lemma heap_count L A h : heap_inv L A h → (2 * S (length L) < ring_fuel h)%nat.
Proof.
  intros H. pose proof base_pos as Hbase. unfold ring_fuel.
  assert (HEADER * Z.of_nat (length (L ++ A)) ≤ Z.max 0 (brk h - (base + HEADER))) as Hc.
  { apply areas_count; [apply H|intros; by apply (hi_size _ _ _ H)|apply H]. }
  rewrite length_app in Hc. pose proof (hi_brk _ _ _ H) as [Hb _].
  assert (Z.of_nat (length L) ≤ brk h / 16) by (apply Z.div_le_lower_bound; lia). lia.
Qed.

(** ** Searching the ring in free

    [p] is the node after which the block [bp] goes: the nodes up to it are
    below [bp] and those behind above. *)
Record place_at (m : mem) (N1 : list Z) (p : Z) (N2 : list Z) (bp : Z) : Prop := {
  pa_inc : inc (N1 ++ p :: N2);
  pa_links : links m (N1 ++ p :: N2) base;
  pa_first : hd p N1 = base;
  pa_before : Forall (λ x, x < bp) (N1 ++ [p]);
  pa_behind : Forall (λ x, bp < x) N2;
}.

Lemma place_at_ge m N1 p N2 bp x : place_at m N1 p N2 bp → x ∈ N1 ++ p :: N2 → base ≤ x.
Proof.
  intros [Hi _ Hf _ _] Hx. destruct N1 as [|y N1]; cbn in *; subst; inversion Hi as [|? ? _ Hall]; subst;
    (apply elem_of_cons in Hx as [->|Hx]; [done|]); rewrite Forall_forall in Hall; specialize (Hall _ Hx); lia.
Qed.

Lemma place_stop m N1 p N2 bp : place_at m N1 p N2 bp →
  (p <? bp) && (bp <? h_ptr m p) = true ∨ (h_ptr m p <=? p) && ((p <? bp) || (bp <? h_ptr m p)) = true.
Proof.
  intros H. assert (base ≤ p) as Hp by (eapply place_at_ge; [exact H|set_solver]). destruct H as [_ Hl _ H1 H2].
  rewrite Forall_app, Forall_singleton in H1. destruct H1 as [_ H1]. apply links_app in Hl as [_ [Hl _]].
  destruct N2 as [|y N2]; cbn [hd] in Hl; rewrite Hl; [right|left; apply Forall_cons in H2 as [H2 _]]; lia.
Qed.

Lemma place_go m N1 p N2 bp x : place_at m N1 p N2 bp → x ∈ N1 ++ p :: N2 → x ≠ p →
  h_ptr m x ∈ N1 ++ p :: N2 ∧ (x <? bp) && (bp <? h_ptr m x) = false ∧ (h_ptr m x <=? x) && ((x <? bp) || (bp <? h_ptr m x)) = false.
Proof.
  intros H Hx Hne. assert (base ≤ x) as Hb by (eapply place_at_ge; eauto). assert (base ≤ p) as Hp by (eapply place_at_ge; [exact H|set_solver]).
  destruct H as [Hi Hl Hf H1 H2]. rewrite Forall_app, Forall_singleton in H1. destruct H1 as [H1 Hpb].
  apply links_app in Hl as [Hl1 [_ Hl2]]. cbn [hd] in Hl1. unfold inc in Hi. apply StronglySorted_app in Hi as (Hlt & Hi1 & Hi2).
  inversion Hi2 as [|? ? Hi2' Hall]; subst. rewrite Forall_forall in H1, H2.
  apply elem_of_app in Hx as [Hx|[->|Hx]%elem_of_cons]; [|done|].
  - specialize (H1 x Hx) as Hxb. destruct (links_next m N1 p x Hi1 Hl1 Hx) as [E|[Hxn Hn]].
    + rewrite E. specialize (Hlt x p Hx ltac:(left)). split_and!; [set_solver|lia|lia].
    + specialize (H1 _ Hn). split_and!; [set_solver|lia|lia].
  - specialize (H2 x Hx) as Hxb. destruct (links_next m N2 base x Hi2' Hl2 Hx) as [E|[Hxn Hn]].
    + rewrite E. split_and!; [|lia|lia]. destruct N1 as [|y N1]; cbn in Hf; subst; set_solver.
    + split_and!; [set_solver|lia|lia].
Qed.

Lemma find_place_wp N1 p N2 bp h : place_at (um h) N1 p N2 bp → freep h ∈ N1 ++ p :: N2 → (2 * length (N1 ++ p :: N2) < ring_fuel h)%nat →
  wp (find_place bp) (λ r h', r = p ∧ h' = h) h.
Proof.
  intros H Hf Hfuel. unfold find_place. wp_step. wp_step. set (N := N1 ++ p :: N2) in *.
  assert (∃ N', N = base :: N') as (N' & EN).
  { pose proof (pa_first _ _ _ _ _ H) as Hhd. unfold N. destruct N1; cbn in *; subst; eauto. }
  destruct (ring_reach (um h) base N' (freep h) p) as (k & Hk & Ek); [rewrite <-EN; apply H|by rewrite <-EN|rewrite <-EN; unfold N; set_solver|].
  assert (k < ring_fuel h)%nat as Hkf by (rewrite EN in Hfuel; cbn [length] in Hfuel; lia). clear Hfuel Hk.
  generalize dependent (ring_fuel h). revert Hf Ek. generalize (freep h). induction k as [|k IH]; intros x Hx Ek fuel Hkf;
    (destruct fuel as [|fuel]; [lia|]); apply wp_while_S; unfold place_turn; wp_step; apply wp_gets;
    (destruct (decide (x = p)) as [->|Hne]; [destruct (place_stop _ _ _ _ _ H) as [-> | ->]; [|case_if]; wp_step; done|]).
  - done.
  - rewrite Nat.iter_succ_r in Ek. destruct (place_go _ _ _ _ _ x H Hx Hne) as (Hin & -> & ->). wp_step. apply IH; [done..|lia].
Qed.

(** ** Merging *)
Definition merge (bp p : Z) : M uheap unit :=
  q <- get_ptr p ;;
  n <- get_size bp ;;
  (if bp + HEADER * n =? q then
     k <- get_size q ;;
     set_size bp (u32 (n + k)) ;;
     r <- get_ptr q ;;
     set_ptr bp r
   else set_ptr bp q) ;;
  n <- get_size p ;;
  (if p + HEADER * n =? bp then
     k <- get_size bp ;;
     set_size p (u32 (n + k)) ;;
     r <- get_ptr bp ;;
     set_ptr p r
   else set_ptr p bp) ;;
  modify (set_freep p).

Lemma free_merge ap : free ap = (p <- find_place (ap - HEADER) ;; merge (ap - HEADER) p).
Proof. done. Qed.

(** The first half of merge: the block takes in the one behind it. *)
Lemma merge_right m bp q n k : mem_ok m → apart q bp → 0 ≤ n + k < 2^32 →
  let m' := st64 (st32 m (bp + 8) (u32 (n + k))) bp (h_ptr (st32 m (bp + 8) (u32 (n + k))) q) in
  mem_ok m' ∧ only [bp] m m' ∧ h_size m' bp = n + k ∧ h_ptr m' bp = h_ptr m q.
Proof.
  intros Hm Ha Hnk m'. unfold m'. rewrite (h_ptr_set_size m q bp) by auto. rewrite u32_small by done. split_and!.
  - by apply stn_ok, stn_ok.
  - eapply only_trans; [apply only_set_size|apply only_set_ptr]; left.
  - rewrite h_size_set_ptr by auto. by apply h_size_set_size.
  - apply h_ptr_set_ptr. by apply h_ptr_range.
Qed.

Record merged (m : mem) (bp p n1 r1 : Z) (m' : mem) : Prop := {
  mg_ok : mem_ok m';
  mg_only : only [p; bp] m m';
  mg_here : p + HEADER * h_size m p = bp → h_size m' p = h_size m p + n1 ∧ h_ptr m' p = r1;
  mg_apart : p + HEADER * h_size m p ≠ bp → h_size m' p = h_size m p ∧ h_ptr m' p = bp ∧ h_size m' bp = n1 ∧ h_ptr m' bp = r1;
}.

Lemma only_weaken ps qs m m' : ps ⊆ qs → only ps m m' → only qs m m'.
Proof. intros Hs H x Hx. apply H. auto. Qed.

(** The second half: it is taken in by the one before it, or linked behind. *)
Lemma merge_left m m1 bp p n1 r1 : mem_ok m1 → only [bp] m m1 → apart p bp → 0 ≤ bp < 2^64 → h_size m1 bp = n1 → h_ptr m1 bp = r1 →
  0 ≤ h_size m p + n1 < 2^32 →
  merged m bp p n1 r1 (if p + HEADER * h_size m1 p =? bp then st64 (st32 m1 (p + 8) (u32 (h_size m1 p + h_size m1 bp))) p (h_ptr (st32 m1 (p + 8) (u32 (h_size m1 p + h_size m1 bp))) bp)
                       else st64 m1 p bp).
Proof.
  intros Hm Ho Ha Hbp <- <- Hn. assert (apart bp p) as Ha' by (unfold apart in *; lia).
  assert (h_size m1 p = h_size m p) as Es. { apply same_header_size. eapply only_same_header; [exact Ho|]. by intros ? ->%list_elem_of_singleton. }
  rewrite Es. pose proof (h_ptr_range m1 bp Hm). rewrite (h_ptr_set_size m1 bp p) by auto. rewrite u32_small by done.
  case_if; split; try (intros; lia).
  - by apply stn_ok, stn_ok.
  - eapply only_trans; [eapply only_weaken; [|exact Ho]; set_solver|]. eapply only_trans; [apply only_set_size|apply only_set_ptr]; left.
  - intros _. rewrite h_size_set_ptr, h_ptr_set_ptr by auto. by rewrite h_size_set_size.
  - by apply stn_ok.
  - eapply only_trans; [eapply only_weaken; [|exact Ho]; set_solver|]. apply only_set_ptr. left.
  - intros _. rewrite h_size_set_ptr, h_ptr_set_ptr, h_size_set_ptr, h_ptr_set_ptr_other by auto. by rewrite Es.
Qed.

Lemma merge_wp bp p h (Q : unit → uheap → Prop) :
  let m := um h in let q := h_ptr m p in let n := h_size m bp in
  let n1 := if bp + HEADER * n =? q then n + h_size m q else n in
  let r1 := if bp + HEADER * n =? q then h_ptr m q else q in
  mem_ok m → apart p bp → apart q bp → 0 ≤ bp < 2^64 → 0 ≤ n1 < 2^32 → 0 ≤ h_size m p + n1 < 2^32 →
  (∀ m', merged m bp p n1 r1 m' → Q tt (mkHeap m' p (brk h))) → wp (merge bp p) Q h.
Proof.
  intros m q n n1 r1 Hm Hp Hq Hbp Hn1 Hp1 HQ. unfold merge. wp_step. apply wp_gets. fold m q. wp_step. apply wp_gets. fold m n. wp_step.
  assert (∀ m1, mem_ok m1 → only [bp] m m1 → h_size m1 bp = n1 → h_ptr m1 bp = r1 →
    wp (n <- get_size p ;;
        (if p + HEADER * n =? bp then k <- get_size bp ;; set_size p (u32 (n + k)) ;; r <- get_ptr bp ;; set_ptr p r else set_ptr p bp) ;;
        modify (set_freep p)) Q (set_um m1 h)) as Hrest.
  { intros m1 H1 H2 H3 H4. pose proof (HQ _ (merge_left m m1 bp p n1 r1 H1 H2 Hp Hbp H3 H4 Hp1)) as HQ'.
    wp_step. apply wp_gets. wp_step. cbn [um set_um]. destruct (p + 16 * h_size m1 p =? bp).
    - wp_step. apply wp_gets. wp_step. apply wp_modify. wp_step. apply wp_gets. apply wp_modify. apply wp_modify. exact HQ'.
    - apply wp_modify. apply wp_modify. exact HQ'. }
  unfold n1, r1 in *. destruct (bp + 16 * n =? q).
  - wp_step. apply wp_gets. wp_step. apply wp_modify. wp_step. apply wp_gets. apply wp_modify.
    destruct (merge_right m bp q n (h_size m q) Hm Hq Hn1) as (H1 & H2 & H3 & H4). exact (Hrest _ H1 H2 H3 H4).
  - apply wp_modify. refine (Hrest (st64 m bp q) _ _ _ _); [by apply stn_ok|apply only_set_ptr; left|apply h_size_set_ptr; auto|].
    apply h_ptr_set_ptr. by apply h_ptr_range.
Qed.

(** The end of the last block. *)
Fixpoint fin (lo : Z) (L : list (Z * Z)) : Z :=
  match L with
  | [] => lo
  | b :: L' => fin (b.1 + HEADER * b.2) L'
  end.

Lemma fin_app lo L1 L2 : fin lo (L1 ++ L2) = fin (fin lo L1) L2.
Proof. revert lo. by induction L1 as [|b L1 IH]; intros lo; cbn. Qed.
Lemma sorted_app lo L1 L2 : sorted lo (L1 ++ L2) ↔ sorted lo L1 ∧ sorted (fin lo L1) L2.
Proof. revert lo. induction L1 as [|b L1 IH]; intros lo; cbn; [tauto|]. rewrite IH. tauto. Qed.

Lemma areas_split l1 a n k l2 : 0 ≤ n → 0 ≤ k → areas (l1 ++ (a, n + k) :: l2) = areas (l1 ++ (a, n) :: (a + HEADER * n, k) :: l2).
Proof.
  intros Hn Hk. rewrite !areas_app. f_equal. change (area (a, n + k) ++ areas l2 = area (a, n) ++ area (a + HEADER * n, k) ++ areas l2).
  by rewrite area_split, (assoc_L (++)).
Qed.

(** ** Distinct headers *)
Lemma nodes_nodup l : (∀ b, b ∈ l → 1 ≤ b.2) → NoDup (areas l) → NoDup l.*1.
Proof.
  induction l as [|b l IH]; intros Hs Hd; [constructor|]. change (areas (b :: l)) with (area b ++ areas l) in Hd.
  apply NoDup_app in Hd as (_ & Hx & Hd). constructor; [|apply IH; [intros; apply Hs; by right|done]].
  intros (b' & E & Hb')%list_elem_of_fmap. specialize (Hs b ltac:(left)) as H1. specialize (Hs b' ltac:(by right)) as H2.
  apply (Hx b.1); [apply elem_of_area; lia|]. apply elem_of_areas. exists b'. split; [done|lia].
Qed.

Lemma heap_nodes L A h : heap_inv L A h → NoDup (base :: (L ++ A).*1) ∧
  ∀ x y, x ∈ base :: (L ++ A).*1 → y ∈ base :: (L ++ A).*1 → x ≠ y → apart x y.
Proof.
  intros H. assert (∀ b, b ∈ L ++ A → base + HEADER ≤ b.1) as Hb.
  { intros b Hb. pose proof (hi_size _ _ _ H b Hb). apply (hi_in _ _ _ H), elem_of_areas. exists b. split; [done|lia]. }
  split.
  - constructor; [|apply nodes_nodup; [intros; by apply (hi_size _ _ _ H)|apply H]].
    intros (b & E & Hin)%list_elem_of_fmap. specialize (Hb b Hin). lia.
  - assert (∀ b b', b ∈ L ++ A → b' ∈ L ++ A → b.1 ≠ b'.1 → apart b.1 b'.1) as Hbb.
    { intros b b' H1 H2 Hne. pose proof (hi_size _ _ _ H b H1) as [_ ?]. pose proof (hi_size _ _ _ H b' H2) as [_ ?].
      pose proof (hi_disj _ _ _ H) as Hd. apply elem_of_Permutation in H1 as [l Hl]. rewrite Hl in Hd, H2.
      apply elem_of_cons in H2 as [->|H2]; [done|]. pose proof (areas_disjoint b b' l Hd H2). unfold apart. lia. }
    intros x y [->|(b & -> & H1)%list_elem_of_fmap]%elem_of_cons [->|(b' & -> & H2)%list_elem_of_fmap]%elem_of_cons Hne; [done| | |by apply Hbb].
    + left. by apply Hb.
    + right. by apply Hb.
Qed.

(** ** Giving a block back *)
Section give_back.
Context (L1 L2 A : list (Z * Z)) (bp n : Z) (h : uheap).
Hypothesis HI : heap_inv (L1 ++ L2) ((bp, n) :: A) h.
Hypothesis Hbefore : ∀ b, b ∈ L1 → b.1 + HEADER * b.2 ≤ bp.
Hypothesis Hbehind : ∀ b, b ∈ L2 → bp + HEADER * n ≤ b.1.
Notation m := (um h).

Lemma gb_n : h_size m bp = n ∧ 1 ≤ n.
Proof using HI. clear Hbefore Hbehind. apply (hi_size _ _ _ HI (bp, n)). set_solver. Qed.

Lemma gb_size b : b ∈ L1 ++ L2 → h_size m b.1 = b.2 ∧ 1 ≤ b.2.
Proof using HI. clear Hbefore Hbehind. intros Hb. apply (hi_size _ _ _ HI). set_solver. Qed.

Lemma gb_range b : b ∈ (bp, n) :: L1 ++ L2 → base + HEADER ≤ b.1 ∧ b.1 + HEADER * b.2 ≤ 2^35.
Proof using HI. clear Hbefore Hbehind.
  intros Hb. assert (b ∈ (L1 ++ L2) ++ (bp, n) :: A) as Hb' by set_solver. pose proof (hi_size _ _ _ HI b Hb') as [_ Hn].
  assert (∀ x, b.1 ≤ x < b.1 + 16 * b.2 → base + 16 ≤ x < brk h) as Hx.
  { intros x Hx. apply (hi_in _ _ _ HI), elem_of_areas. eauto. }
  pose proof (Hx b.1 ltac:(lia)). pose proof (Hx (b.1 + 16 * b.2 - 1) ltac:(lia)). pose proof (hi_brk _ _ _ HI). lia.
Qed.

(** The block with those behind it. *)
Lemma right_merge : let q := hd base L2.*1 in
  let n1 := if bp + HEADER * n =? q then n + h_size m q else n in
  let r1 := if bp + HEADER * n =? q then h_ptr m q else q in
  ∃ L2', r1 = hd base L2'.*1 ∧ areas ((bp, n1) :: L2') = areas ((bp, n) :: L2) ∧ sorted (bp + HEADER * n1) L2' ∧ L2' `suffix_of` L2 ∧
    n ≤ n1 ∧ bp + HEADER * n1 ≤ 2^35.
Proof using HI Hbehind. clear Hbefore.
  destruct gb_n as [_ Hn]. pose proof (gb_range (bp, n) ltac:(left)) as Hr. cbn [fst snd] in Hr.
  pose proof (hi_sorted _ _ _ HI) as Hs. apply sorted_app in Hs as [_ Hs]. pose proof gb_size as Hsz. pose proof gb_range as Hrg.
  pose proof (hi_ring _ _ _ HI) as Hl. pose proof Hbehind as Hbe. clear HI Hbehind.
  destruct L2 as [|[a k] L2t]; cbn [fmap list_fmap hd fst snd].
  - cbv zeta. case_if; [lia|]. exists []. split_and!; try done. lia.
  - pose proof (Hsz (a, k) ltac:(set_solver)) as [Hk Hk1]. cbn [fst snd] in Hk, Hk1. destruct Hs as [_ Hs].
    pose proof (Hrg (a, k) ltac:(set_solver)) as Hra. cbn [fst snd] in Hra.
    cbv zeta. case_if.
    + subst a. exists L2t. rewrite Hk. split_and!; [|by apply (areas_split []); lia| |by exists [(bp + 16 * n, k)]|lia|lia].
      * rewrite fmap_app, app_comm_cons in Hl. apply links_app in Hl as [_ Hl]. by destruct Hl as [Hl _].
      * by replace (bp + 16 * (n + k)) with (bp + 16 * n + 16 * k) by lia.
    + exists ((a, k) :: L2t). split_and!; try done; try lia. split; [|done]. pose proof (Hbe (a, k) ltac:(left)). cbn in *. lia.
Qed.

Context (N1 : list Z) (p n1 r1 : Z) (m' : mem) (L2' : list (Z * Z)).
Hypothesis HN : base :: L1.*1 = N1 ++ [p].
Hypothesis HM : merged m bp p n1 r1 m'.
Hypothesis Hr1 : r1 = hd base L2'.*1.
Hypothesis Hareas : areas ((bp, n1) :: L2') = areas ((bp, n) :: L2).
Hypothesis Hsorted : sorted (bp + HEADER * n1) L2'.
Hypothesis Hsuffix : L2' `suffix_of` L2.
Hypothesis Hn1 : n ≤ n1.

Notation nodes := (base :: ((L1 ++ L2) ++ (bp, n) :: A).*1).

Lemma gb_others x : x ∈ nodes → x ≠ p → x ≠ bp → same_header m m' x.
Proof.
  intros Hx Hp Hb. eapply only_same_header; [apply HM|]. destruct (heap_nodes _ _ _ HI) as [_ Ha].
  assert (p ∈ base :: L1.*1) as Hpin by (rewrite HN; set_solver).
  intros y [->|[->|[]%not_elem_of_nil]%elem_of_cons]%elem_of_cons; apply Ha; try done; rewrite !fmap_app, fmap_cons; cbn [fst]; set_solver.
Qed.

Lemma gb_L2' : (∀ b, b ∈ L2' → b ∈ L2) ∧ links m L2'.*1 base.
Proof.
  destruct Hsuffix as [k Ek]. split; [rewrite Ek; set_solver|]. pose proof (hi_ring _ _ _ HI) as Hl.
  rewrite Ek, !fmap_app, app_comm_cons, (assoc_L (++)) in Hl. by apply links_app in Hl as [_ Hl].
Qed.

Lemma gb_p : p ∈ base :: L1.*1 ∧ p < bp.
Proof.
  assert (p ∈ base :: L1.*1) as Hp by (rewrite HN; set_solver). split; [done|].
  pose proof (gb_range (bp, n) ltac:(left)) as Hr. cbn in Hr.
  apply elem_of_cons in Hp as [->|(b & -> & Hb)%list_elem_of_fmap]; [lia|]. pose proof (gb_size b ltac:(set_solver)). pose proof (Hbefore b Hb). lia.
Qed.

(** Everything but the blocks that take part is as before. *)
Lemma gb_same b : b ∈ (L1 ++ L2') ++ A → b.1 ≠ p → same_header m m' b.1.
Proof.
  intros Hb Hp. destruct (heap_nodes _ _ _ HI) as [Hnd _]. apply gb_others; [|done|].
  - right. apply list_elem_of_fmap. exists b. split; [done|]. pose proof (proj1 gb_L2'). set_solver.
  - intros E. apply NoDup_cons in Hnd as [_ Hnd]. rewrite !fmap_app, fmap_cons in Hnd. cbn [fst] in Hnd.
    apply NoDup_app in Hnd as (_ & Hd & Hnd). apply NoDup_cons in Hnd as [Hnd _].
    apply elem_of_app in Hb as [Hb|Hb]; [|apply Hnd; rewrite <-E; by apply list_elem_of_fmap_2].
    apply (Hd bp); [|left]. rewrite <-fmap_app, <-E. apply list_elem_of_fmap_2. pose proof (proj1 gb_L2'). set_solver.
Qed.

Lemma gb_links : links m' N1 p ∧ links m' L2'.*1 base.
Proof.
  destruct (heap_nodes _ _ _ HI) as [Hnd _]. pose proof (hi_ring _ _ _ HI) as Hl. rewrite fmap_app in Hl. rewrite fmap_app, (fmap_app fst L1), <-(assoc_L (++)) in Hnd. rewrite app_comm_cons, HN in Hnd, Hl.
  rewrite <-!(assoc_L (++)) in Hnd, Hl. apply NoDup_app in Hnd as (_ & Hd & _). apply links_app in Hl as [Hl _]. split.
  - eapply links_same; [exact Hl|]. intros x Hx. specialize (Hd x Hx). apply gb_others; [|set_solver..].
    assert (x ∈ base :: L1.*1) as Hx' by (rewrite HN; set_solver). rewrite !fmap_app. set_solver.
  - eapply links_same; [apply gb_L2'|]. intros x (b & -> & Hb)%list_elem_of_fmap. apply gb_same; [set_solver|].
    pose proof (Hbehind b (proj1 gb_L2' b Hb)). pose proof (proj2 gb_p). pose proof (proj2 gb_n). lia.
Qed.

Lemma gb_areas : areas ((L1 ++ (bp, n1) :: L2') ++ A) ≡ₚ areas ((L1 ++ L2) ++ (bp, n) :: A).
Proof.
  rewrite !areas_app, Hareas. change (areas ((bp, n) :: L2)) with (area (bp, n) ++ areas L2).
  change (areas ((bp, n) :: A)) with (area (bp, n) ++ areas A). solve_Permutation.
Qed.

Lemma gb_disj (l : list (Z * Z)) : areas l ≡ₚ areas ((L1 ++ (bp, n1) :: L2') ++ A) →
  NoDup (areas l) ∧ ∀ x, x ∈ areas l → base + HEADER ≤ x < brk h.
Proof. rewrite gb_areas. intros E. split; [rewrite E; apply HI|]. intros x. rewrite E. apply HI. Qed.

Lemma gb_base_size : p ≠ base → h_size m' base = 0.
Proof.
  intros Hp. rewrite <-(hi_base _ _ _ HI). apply same_header_size, gb_others; [left|done|].
  pose proof (gb_range (bp, n) ltac:(left)). cbn in *. lia.
Qed.

Lemma gb_old b : b ∈ (L1 ++ L2') ++ A → h_size m b.1 = b.2 ∧ 1 ≤ b.2.
Proof. intros Hb. apply (hi_size _ _ _ HI). pose proof (proj1 gb_L2'). set_solver. Qed.

Lemma link_behind : p + HEADER * h_size m p ≠ bp → fin (base + HEADER - 1) L1 < bp → heap_inv (L1 ++ (bp, n1) :: L2') A (mkHeap m' p (brk h)).
Proof.
  intros Hne Hfin. destruct (mg_apart _ _ _ _ _ _ HM Hne) as (M1 & M2 & M3 & M4). destruct gb_links as [Hl1 Hl2].
  destruct (gb_disj _ (reflexivity _)) as [D1 D2]. pose proof (hi_sorted _ _ _ HI) as Hs. apply sorted_app in Hs as [Hs _].
  split; cbn [um freep brk]; try done.
  - apply HM.
  - rewrite fmap_app, app_comm_cons, HN, <-(assoc_L (++)). apply links_app. cbn [links hd app fmap list_fmap fst]. by rewrite M4, Hr1.
  - destruct (decide (p = base)) as [->|Hp]; [rewrite M1; apply HI|by apply gb_base_size].
  - rewrite fmap_app, app_comm_cons, HN. set_solver.
  - intros b Hb. assert (b = (bp, n1) ∨ b ∈ (L1 ++ L2') ++ A) as [->|Hb'] by set_solver; [pose proof (proj2 gb_n); cbn; split; [done|lia]|].
    destruct (gb_old b Hb') as [S1 S2]. split; [|done]. rewrite <-S1.
    destruct (decide (b.1 = p)) as [->|Hp]; [done|]. by rewrite (same_header_size m m') by (by apply gb_same).
  - apply sorted_app. done.
  - apply HI.
Qed.

Lemma merge_into L1i np : L1 = L1i ++ [(p, np)] → p + HEADER * np = bp → heap_inv (L1i ++ (p, np + n1) :: L2') A (mkHeap m' p (brk h)).
Proof.
  intros E1 Ebp. pose proof (gb_size (p, np) ltac:(set_solver)) as [Hnp Hnp1]. cbn [fst snd] in Hnp, Hnp1.
  destruct (mg_here _ _ _ _ _ _ HM) as (M1 & M2); [by rewrite Hnp|]. destruct gb_links as [Hl1 Hl2]. pose proof (proj2 gb_n) as Hn.
  pose proof (gb_range (p, np) ltac:(set_solver)) as Hpb. cbn in Hpb.
  assert (base :: L1i.*1 = N1) as EN. { rewrite E1, fmap_app, app_comm_cons in HN. by apply app_inj_tail in HN as [? _]. }
  destruct (gb_disj ((L1i ++ (p, np + n1) :: L2') ++ A)) as [D1 D2].
  { rewrite areas_app, (areas_split L1i), Ebp by lia. rewrite <-areas_app, E1. by rewrite <-!(assoc_L (++)). }
  pose proof (hi_sorted _ _ _ HI) as Hs. apply sorted_app in Hs as [Hs _]. rewrite E1 in Hs. apply sorted_app in Hs as [Hs [Hs' _]].
  split; cbn [um freep brk]; try done.
  - apply HM.
  - rewrite fmap_app, app_comm_cons, EN. apply links_app. cbn [links hd app fmap list_fmap fst]. by rewrite M2, Hr1.
  - apply gb_base_size. lia.
  - rewrite fmap_app. set_solver.
  - intros b Hb. destruct (decide (b.1 = p)) as [Ep|Hp].
    + destruct (decide (b = (p, np + n1))) as [->|Hne]; [cbn [fst snd]; split; [by rewrite M1, Hnp|lia]|]. exfalso.
      destruct (heap_nodes _ _ _ HI) as [[_ Hnd]%NoDup_cons _]. rewrite E1 in Hnd.
      assert ((p, np) :: L1i ++ L2 ++ (bp, n) :: A ≡ₚ ((L1i ++ [(p, np)]) ++ L2) ++ (bp, n) :: A) as EP by solve_Permutation.
      rewrite <-EP, fmap_cons in Hnd. apply NoDup_cons in Hnd as [Hnd _]. apply Hnd, list_elem_of_fmap. exists b. split; [done|].
      pose proof (proj1 gb_L2'). set_solver.
    + assert (b ∈ (L1 ++ L2') ++ A) as Hb'.
      { assert (b ≠ (p, np + n1)) by (by intros ->). rewrite E1. set_solver. }
      destruct (gb_old b Hb') as [S1 S2]. split; [|done]. rewrite <-S1. by rewrite (same_header_size m m') by (by apply gb_same).
  - apply sorted_app. split; [done|]. split; [done|]. cbn [fst snd]. by replace (p + 16 * (np + n1)) with (bp + 16 * n1) by lia.
  - apply HI.
Qed.
End give_back.

(** Memory that is not free is not touched. *)
Lemma used_bytes L A bp n h x : heap_inv L ((bp, n) :: A) h → x ∈ areas A → ∀ y, y ∈ bp :: base :: L.*1 → x < y ∨ y + HEADER ≤ x.
Proof.
  intros HI Hx. assert (∀ b, b ∈ (bp, n) :: L → x < b.1 ∨ b.1 + HEADER ≤ x) as Hb.
  { intros b Hb. assert (1 ≤ b.2) as Hb1 by (apply (hi_size _ _ _ HI); set_solver).
    destruct (decide (x < b.1)); [by left|]. destruct (decide (b.1 + 16 ≤ x)); [by right|]. exfalso.
    assert (x ∈ areas ((bp, n) :: L)) as Hx2 by (apply elem_of_areas; exists b; split; [done|lia]).
    pose proof (hi_disj _ _ _ HI) as Hd. assert (L ++ (bp, n) :: A ≡ₚ ((bp, n) :: L) ++ A) as E by solve_Permutation.
    rewrite E, areas_app in Hd. apply NoDup_app in Hd as (_ & Hd & _). by apply (Hd x). }
  intros y [->|[->|(b & -> & Hin)%list_elem_of_fmap]%elem_of_cons]%elem_of_cons.
  - apply (Hb (bp, n)). left.
  - right. assert (x ∈ areas (L ++ (bp, n) :: A)) as Hx2; [|by destruct (hi_in _ _ _ HI x Hx2)].
    rewrite areas_app. apply elem_of_app. right. apply elem_of_areas. apply elem_of_areas in Hx as (b & ? & ?). exists b. split; [by right|done].
  - apply Hb. by right.
Qed.

(** The place of the block, in the ring. *)
Lemma give_back_place L A bp n h : heap_inv L ((bp, n) :: A) h →
  ∃ L1 L2 N1 p, L = L1 ++ L2 ∧ (∀ b, b ∈ L1 → b.1 + HEADER * b.2 ≤ bp) ∧ (∀ b, b ∈ L2 → bp + HEADER * n ≤ b.1) ∧
    base :: L1.*1 = N1 ++ [p] ∧ place_at (um h) N1 p L2.*1 bp.
Proof.
  intros HI. assert (h_size (um h) bp = n ∧ 1 ≤ n) as [_ Hn] by (apply (hi_size _ _ _ HI (bp, n)); set_solver).
  destruct (place (base + HEADER - 1) L bp n Hn) as (L1 & L2 & -> & H1 & H2).
  - intros b Hb. apply (hi_size _ _ _ HI). set_solver.
  - apply HI.
  - intros b Hb. assert (1 ≤ b.2) as Hb1 by (apply (hi_size _ _ _ HI); set_solver). pose proof (hi_disj _ _ _ HI) as Hd.
    rewrite <-Permutation_middle in Hd. apply (areas_disjoint (bp, n) b (L ++ A) Hd); [set_solver|done..].
  - assert (∃ N1 p, base :: L1.*1 = N1 ++ [p]) as (N1 & p & EN).
    { destruct (exists_last (l := base :: L1.*1)) as (N1 & p & E); [done|]. eauto. }
    assert (base :: (L1 ++ L2).*1 = N1 ++ p :: L2.*1) as EN' by (rewrite fmap_app, app_comm_cons, EN, <-(assoc_L (++)); done).
    exists L1, L2, N1, p. split_and!; try done.
    destruct (sorted_inc (base + HEADER - 1) (L1 ++ L2)) as [Hi Hgt]; [intros b Hb; apply (hi_size _ _ _ HI); set_solver|apply HI|].
    assert (∀ b, b ∈ L1 → b.1 < bp) as Hlt. { intros b Hb. specialize (H1 b Hb). assert (1 ≤ b.2); [apply (hi_size _ _ _ HI); set_solver|lia]. }
    assert (base + HEADER ≤ bp) as Hbp. { apply (hi_in _ _ _ HI), elem_of_areas. exists (bp, n). cbn. split; [set_solver|lia]. }
    split.
    + rewrite <-EN'. constructor; [done|]. eapply Forall_impl; [exact Hgt|]. cbn. lia.
    + rewrite <-EN'. apply HI.
    + destruct N1; cbn in EN |- *; congruence.
    + rewrite <-EN. constructor; [lia|]. rewrite Forall_fmap, Forall_forall. done.
    + rewrite Forall_fmap, Forall_forall. intros b Hb. cbn. specialize (H2 b Hb). lia.
Qed.

(** The last of the blocks before it, or base. *)
Lemma last_block L1 (N1 : list Z) p : base :: L1.*1 = N1 ++ [p] → (L1 = [] ∧ p = base) ∨ ∃ L1i np, L1 = L1i ++ [(p, np)].
Proof.
  destruct L1 as [|[a k] L1i _] using rev_ind; intros E.
  - left. destruct N1 as [|? [|]]; cbn in E; by simplify_eq.
  - right. rewrite fmap_app, app_comm_cons in E. apply app_inj_tail in E as [_ E]. cbn in E. subst. eauto.
Qed.

Lemma free_wp L A bp n h : heap_inv L ((bp, n) :: A) h →
  wp (free (bp + HEADER)) (λ _ h', brk h' = brk h ∧ (∀ x, x ∈ areas A → um h' x = um h x) ∧
    ∃ L', heap_inv L' A h' ∧ (length L' ≤ S (length L))%nat ∧ ∃ b, b ∈ L' ∧ n ≤ b.2) h.
Proof.
  intros HI. destruct (give_back_place L A bp n h HI) as (L1 & L2 & N1 & p & -> & H1 & H2 & EN & HP).
  assert (h_size (um h) bp = n ∧ 1 ≤ n) as [Hsz Hn] by (apply (hi_size _ _ _ HI (bp, n)); set_solver).
  assert (base :: (L1 ++ L2).*1 = N1 ++ p :: L2.*1) as EN' by (rewrite fmap_app, app_comm_cons, EN, <-(assoc_L (++)); done).
  rewrite free_merge. replace (bp + 16 - 16) with bp by lia. wp_step. eapply wp_mono.
  { apply (find_place_wp N1 p L2.*1); [done|rewrite <-EN'; apply HI|]. rewrite <-EN'. cbn [length]. rewrite length_fmap. by apply (heap_count _ _ _ HI). }
  intros r h' [-> ->]. assert (h_ptr (um h) p = hd base L2.*1) as Eq.
  { pose proof (hi_ring _ _ _ HI) as Hl. rewrite EN' in Hl. apply links_app in Hl as [_ [Hl _]]. done. }
  destruct (right_merge L1 L2 A bp n h HI H2) as (L2' & R1 & R2 & R3 & R4 & R5 & R6).
  destruct (heap_nodes _ _ _ HI) as [_ Hap]. pose proof (gb_range L1 L2 A bp n h HI (bp, n) ltac:(left)) as Hr. cbn [fst snd] in Hr.
  pose proof base_pos as Hbase. assert (bp ∈ base :: ((L1 ++ L2) ++ (bp, n) :: A).*1) as Hbn.
  { right. apply list_elem_of_fmap. exists (bp, n). split; [done|set_solver]. }
  assert (∀ x, x ∈ base :: (L1 ++ L2).*1 → x ∈ base :: ((L1 ++ L2) ++ (bp, n) :: A).*1) as Hnodes.
  { intros x Hx. rewrite (fmap_app fst (L1 ++ L2)). clear -Hx; set_solver. }
  assert (Hpn : p ∈ base :: (L1 ++ L2).*1) by (rewrite EN'; set_solver). pose proof (last_block _ _ _ EN) as Hlast.
  assert (p < bp ∧ p + 16 * h_size (um h) p ≤ bp) as [Hpb Hpe].
  { destruct Hlast as [[-> ->]|(L1i & np & ->)]; [rewrite (hi_base _ _ _ HI); lia|].
    destruct (hi_size _ _ _ HI (p, np)) as [Ep Hnp]; [clear; set_solver|]. cbn [fst snd] in Ep, Hnp. rewrite Ep. specialize (H1 (p, np) ltac:(clear; set_solver)). cbn [fst snd] in H1. lia. }
  assert (0 ≤ h_size (um h) p) as Hp0 by (apply h_size_range, HI).
  assert (base ≤ p) as Hbpl by (eapply place_at_ge; [exact HP|clear; set_solver]).
  apply merge_wp; rewrite ?Eq, ?Hsz.
  - apply HI.
  - apply Hap; [by apply Hnodes|done|lia].
  - apply Hap; [apply Hnodes; clear; destruct L2; set_solver|done|].
    destruct L2 as [|b L2t]; cbn; [lia|]. specialize (H2 b ltac:(left)). lia.
  - lia.
  - lia.
  - lia.
  - intros m' HM. cbn [brk um]. split; [done|]. split.
    { intros x Hx. apply (mg_only _ _ _ _ _ _ HM). intros y Hy. eapply used_bytes; [exact HI|exact Hx|]. clear -Hy Hpn; set_solver. }
    set (n1 := if bp + 16 * n =? hd base L2.*1 then n + h_size (um h) (hd base L2.*1) else n) in *.
    set (r1 := if bp + 16 * n =? hd base L2.*1 then h_ptr (um h) (hd base L2.*1) else hd base L2.*1) in *.
    assert (length L2' ≤ length L2)%nat as Hlen by (by apply suffix_length).
    destruct (decide (p + 16 * h_size (um h) p = bp)) as [E|E].
    + destruct Hlast as [[-> ->]|(L1i & np & E1)]; [rewrite (hi_base _ _ _ HI) in E; lia|].
      destruct (hi_size _ _ _ HI (p, np)) as [Ep Hnp]; [try rewrite E1; clear; set_solver|]. cbn [fst snd] in Ep, Hnp. rewrite Ep in E.
      eexists. split; [exact (merge_into L1 L2 A bp n h HI H1 H2 N1 p n1 r1 m' L2' EN HM R1 R2 R3 R4 R5 L1i np E1 E)|].
      split; [rewrite E1, !length_app; cbn [length]; lia|]. exists (p, np + n1). split; [clear; set_solver|cbn; lia].
    + eexists. split; [apply (link_behind L1 L2 A bp n h HI H1 H2 N1 p n1 r1 m' L2' EN HM R1 R2 R3 R4 R5); [done|]|].
      * destruct Hlast as [[-> ->]|(L1i & np & ->)]; [cbn; lia|]. destruct (hi_size _ _ _ HI (p, np)) as [Ep Hnp]; [try rewrite E1; clear; set_solver|].
        cbn [fst snd] in Ep. rewrite fin_app. cbn [fin fst snd]. lia.
      * split; [rewrite !length_app; cbn [length]; lia|]. exists (bp, n1). split; [clear; set_solver|done].
Qed.

(** ** More memory *)
Lemma add_core L A h nu : heap_inv L A h → 1 ≤ nu → brk h + HEADER * nu ≤ 2^35 →
  heap_inv L ((brk h, nu) :: A) (mkHeap (st32 (um h) (brk h + 8) nu) (freep h) (brk h + HEADER * nu)).
Proof.
  intros HI Hnu Hb. set (m' := st32 (um h) (brk h + 8) nu).
  assert (∀ x, x ∈ base :: (L ++ A).*1 → same_header (um h) m' x) as Hsame.
  { intros x Hx y Hy. apply (stn_other 4). pose proof (hi_brk _ _ _ HI) as Hbrk.
    apply elem_of_cons in Hx as [->|(b & -> & Hb')%list_elem_of_fmap]; [lia|]. pose proof (hi_size _ _ _ HI b Hb') as [_ Hs].
    assert (b.1 + 16 * b.2 - 1 < brk h); [|lia]. apply (hi_in _ _ _ HI), elem_of_areas. exists b. split; [done|lia]. }
  assert (∀ x, x ∈ base :: L.*1 → x ∈ base :: (L ++ A).*1) as Hsub by (intros x; rewrite fmap_app; set_solver).
  split; cbn [um freep brk].
  - apply stn_ok, HI.
  - eapply links_same; [apply HI|]. auto.
  - rewrite (same_header_size (um h)); [apply HI|apply Hsame; left].
  - apply HI.
  - intros b Hb'. assert (b = (brk h, nu) ∨ b ∈ L ++ A) as [->|Hin] by set_solver.
    + cbn [fst snd]. split; [|done]. apply h_size_set_size. pose proof base_pos. pose proof (hi_brk _ _ _ HI). lia.
    + rewrite (same_header_size (um h)); [by apply HI|]. apply Hsame. right. by apply list_elem_of_fmap_2.
  - apply HI.
  - rewrite <-Permutation_middle. apply NoDup_app. split_and!; [apply NoDup_seqZ| |apply HI].
    intros x Hx%elem_of_area Hx2. apply (hi_in _ _ _ HI) in Hx2. cbn in Hx. lia.
  - intros x. rewrite <-Permutation_middle. intros [Hx%elem_of_area|Hx]%elem_of_app; pose proof (hi_brk _ _ _ HI) as Hbrk.
    + cbn in Hx. lia.
    + apply (hi_in _ _ _ HI) in Hx. lia.
  - pose proof (hi_brk _ _ _ HI) as Hbrk. lia.
Qed.

Lemma freep_pos L A h : heap_inv L A h → 0 < freep h.
Proof.
  intros HI. pose proof base_pos. pose proof (hi_freep _ _ _ HI) as Hf. apply elem_of_cons in Hf as [->|(b & -> & Hb)%list_elem_of_fmap]; [done|].
  assert (base + 16 ≤ b.1); [|lia]. pose proof (hi_size _ _ _ HI b ltac:(set_solver)). apply (hi_in _ _ _ HI), elem_of_areas. exists b. split; [set_solver|lia].
Qed.

Lemma morecore_wp L A h nu : heap_inv L A h → 1 ≤ nu < 2^27 →
  wp (morecore nu) (λ r h', (r = 0 ∧ h' = h) ∨ (r ≠ 0 ∧ r = freep h' ∧ brk h ≤ brk h' ∧ (∀ x, x ∈ areas A → um h' x = um h x) ∧
    ∃ L', heap_inv L' A h' ∧ (length L' ≤ S (length L))%nat ∧ ∃ b, b ∈ L' ∧ nu ≤ b.2)) h.
Proof.
  intros HI Hnu. unfold morecore. set (n := if nu <? 4096 then 4096 else nu).
  assert (nu ≤ n ∧ 1 ≤ n < 2^27) as [Hn1 Hn2] by (unfold n; case_if; lia). rewrite s32_small by lia.
  wp_step. unfold sbrk. wp_step. apply wp_gets. pose proof (hi_brk _ _ _ HI) as Hbrk. pose proof base_pos.
  destruct (grow (brk h) (n * 16)) as [sz|] eqn:Eg; [|wp_step; rewrite Z.eqb_refl; wp_step; by left].
  apply grow_ok in Eg as [-> Hsz]; [|lia]. wp_step. apply wp_modify. wp_step. case_if; [lia|]. wp_step. apply wp_modify. wp_step.
  pose proof (add_core L A h n HI ltac:(lia) ltac:(lia)) as HI'. replace (16 * n) with (n * 16) in HI' by lia.
  eapply wp_mono; [exact (free_wp _ _ _ _ _ HI')|]. intros _ h' (E1 & E2 & L' & H1 & H2 & b & Hb & H3). apply wp_gets. right.
  pose proof (freep_pos _ _ _ H1). cbn [um brk] in E1, E2. split_and!; [lia|done|lia| |].
  - intros x Hx. rewrite E2 by done. apply (stn_other 4). assert (x < brk h); [|lia]. apply (hi_in _ _ _ HI). rewrite areas_app. set_solver.
  - exists L'. split_and!; [done..|]. exists b. split; [done|lia].
Qed.

(** ** Taking a block *)

(** The turn of malloc that finds a block. *)
Definition take_block (nunits prevp p n : Z) : M uheap ((Z * Z) + Z) :=
  p <- (if n =? nunits then
          q <- get_ptr p ;;
          set_ptr prevp q ;;
          ret p
        else
          set_size p (n - nunits) ;;
          set_size (p + HEADER * (n - nunits)) nunits ;;
          ret (p + HEADER * (n - nunits))) ;;
  modify (set_freep prevp) ;;
  ret (inr (p + HEADER)).

Definition allocated_block (A : list (Z * Z)) (nunits : Z) (h : uheap) (r : Z) (h' : uheap) : Prop :=
  brk h ≤ brk h' ∧ (∀ x, x ∈ areas A → um h' x = um h x) ∧ ∃ L', heap_inv L' ((r - HEADER, nunits) :: A) h'.

Lemma take_exact L1 L2 A (N1 : list Z) prevp p n h : heap_inv (L1 ++ (p, n) :: L2) A h → base :: L1.*1 = N1 ++ [prevp] →
  heap_inv (L1 ++ L2) ((p, n) :: A) (mkHeap (st64 (um h) prevp (h_ptr (um h) p)) prevp (brk h)).
Proof.
  intros HI EN. destruct (heap_nodes _ _ _ HI) as [Hnd Hap]. pose proof (hi_ring _ _ _ HI) as Hl.
  rewrite fmap_app, fmap_cons, app_comm_cons, EN, <-(assoc_L (++)) in Hl. cbn [fst app] in Hl.
  apply links_app in Hl as [Hl1 [Hl2 [Hl3 Hl4]]]. cbn [hd] in Hl1, Hl2.
  assert (prevp ∈ base :: L1.*1) as Hpv by (rewrite EN; set_solver).
  assert (∀ x, x ∈ base :: ((L1 ++ (p, n) :: L2) ++ A).*1 → x ≠ prevp → same_header (um h) (st64 (um h) prevp (h_ptr (um h) p)) x) as Hsame.
  { intros x Hx Hne. eapply only_same_header; [by apply (only_set_ptr [prevp]); left|]. intros ? ->%list_elem_of_singleton. apply Hap; [|done|done].
    rewrite !fmap_app. set_solver. }
  assert ((L1 ++ L2) ++ (p, n) :: A ≡ₚ (L1 ++ (p, n) :: L2) ++ A) as EP by solve_Permutation.
  assert (∀ x, x ∈ N1 ∨ x ∈ L2.*1 → x ≠ prevp) as Hne.
  { rewrite fmap_app, (fmap_app fst L1), fmap_cons, <-(assoc_L (++)), app_comm_cons, EN, <-!(assoc_L (++)) in Hnd. cbn [fst app] in Hnd.
    apply NoDup_app in Hnd as (_ & Hd & [Hnd _]%NoDup_cons). intros x [Hx|Hx] ->; [apply (Hd _ Hx); left|apply Hnd; set_solver]. }
  split; cbn [um freep brk].
  - apply stn_ok, HI.
  - rewrite fmap_app, app_comm_cons, EN, <-(assoc_L (++)). apply links_app. cbn [links hd app]. split_and!.
    + eapply links_same; [exact Hl1|]. intros x Hx. apply Hsame; [|by apply Hne; left].
      assert (x ∈ base :: L1.*1) by (rewrite EN; set_solver). rewrite !fmap_app. set_solver.
    + rewrite h_ptr_set_ptr; [done|apply h_ptr_range, HI].
    + eapply links_same; [exact Hl4|]. intros x Hx. apply Hsame; [|by apply Hne; right]. rewrite !fmap_app, fmap_cons. set_solver.
  - rewrite <-(hi_base _ _ _ HI). destruct (decide (base = prevp)) as [->|Hb]; [apply h_size_set_ptr; auto|].
    apply same_header_size, Hsame; [left|done].
  - rewrite fmap_app. set_solver.
  - intros b. rewrite EP. intros Hb. destruct (hi_size _ _ _ HI b Hb) as [S1 S2]. split; [|done]. rewrite <-S1.
    destruct (decide (b.1 = prevp)) as [->|Hb']; [apply h_size_set_ptr; auto|]. apply same_header_size, Hsame; [|done]. right. by apply list_elem_of_fmap_2.
  - pose proof (hi_sorted _ _ _ HI) as Hs. apply sorted_app in Hs as [Hs1 [Hs2 Hs3]]. apply sorted_app. split; [done|].
    cbn [fst snd] in *. pose proof (hi_size _ _ _ HI (p, n) ltac:(set_solver)) as [_ ?]. destruct L2 as [|b L2]; [done|]. cbn in *. split; [lia|tauto].
  - rewrite EP. apply HI.
  - intros x. rewrite EP. apply HI.
  - apply HI.
Qed.

Lemma take_split L1 L2 A prevp p n k h : heap_inv (L1 ++ (p, n) :: L2) A h → prevp ∈ base :: L1.*1 → 1 ≤ k < n →
  let q := p + HEADER * (n - k) in
  heap_inv (L1 ++ (p, n - k) :: L2) ((q, k) :: A) (mkHeap (st32 (st32 (um h) (p + 8) (n - k)) (q + 8) k) prevp (brk h)).
Proof.
  intros HI Hpv Hk q. destruct (heap_nodes _ _ _ HI) as [Hnd Hap]. set (m' := st32 (st32 (um h) (p + 8) (n - k)) (q + 8) k).
  destruct (hi_size _ _ _ HI (p, n)) as [Hp Hn]; [set_solver|]. cbn [fst snd] in Hp, Hn. pose proof (h_size_range (um h) p (hi_mem _ _ _ HI)) as Hr.
  assert (p ∈ base :: ((L1 ++ (p, n) :: L2) ++ A).*1) as Hpin by (rewrite !fmap_app, fmap_cons; set_solver).
  assert (h_size m' p = n - k ∧ h_size m' q = k ∧ h_ptr m' p = h_ptr (um h) p) as (M1 & M2 & M3).
  { unfold m'. split_and!; [rewrite h_size_set_size_other by (unfold apart, q; lia); apply h_size_set_size; lia|apply h_size_set_size; lia|].
    rewrite !h_ptr_set_size by (unfold apart, q; lia || auto). done. }
  assert (∀ b, b ∈ (L1 ++ L2) ++ A → b.1 ≠ p ∧ same_header (um h) m' b.1) as Hsame.
  { intros b Hb. assert ((L1 ++ (p, n) :: L2) ++ A ≡ₚ (p, n) :: (L1 ++ L2) ++ A) as EP by solve_Permutation.
    pose proof (hi_disj _ _ _ HI) as Hd. rewrite EP in Hd. pose proof (hi_size _ _ _ HI b ltac:(clear -Hb; set_solver)) as [_ Hb1].
    pose proof (areas_disjoint (p, n) b _ Hd Hb Hn Hb1) as Hdis. cbn [fst snd] in Hdis. split; [lia|].
    intros x Hx. unfold m'. rewrite !(stn_other 4); [done|unfold q in *; lia..]. }
  assert (base + HEADER ≤ p) as Hbp. { apply (hi_in _ _ _ HI), elem_of_areas. exists (p, n). cbn. split; [set_solver|lia]. }
  assert (same_header (um h) m' base) as Hsb by (intros x Hx; unfold m'; rewrite !(stn_other 4); [done|unfold q; lia..]).
  assert (areas ((L1 ++ (p, n - k) :: L2) ++ (q, k) :: A) ≡ₚ areas ((L1 ++ (p, n) :: L2) ++ A)) as EA.
  { replace ((L1 ++ (p, n) :: L2) ++ A) with (L1 ++ (p, (n - k) + k) :: L2 ++ A) by (rewrite <-(assoc_L (++)); cbn; by replace (n - k + k) with n by lia).
    rewrite areas_split by lia. fold q. apply areas_proper. solve_Permutation. }
  split; cbn [um freep brk].
  - by apply stn_ok, stn_ok, HI.
  - pose proof (hi_ring _ _ _ HI) as Hl. assert ((L1 ++ (p, n - k) :: L2).*1 = (L1 ++ (p, n) :: L2).*1) as -> by (by rewrite !fmap_app).
    revert Hl. assert (∀ N, (∀ x, x ∈ N → h_ptr m' x = h_ptr (um h) x) → links (um h) N base → links m' N base) as Hlinks.
    { induction N as [|x N IH]; [done|]. intros Hx [H1 H2]. split; [rewrite Hx by left; done|]. apply IH; [|done]. intros y Hy. apply Hx. by right. }
    apply Hlinks. intros x [->|(b & -> & Hb)%list_elem_of_fmap]%elem_of_cons; [by apply same_header_ptr|].
    assert (b = (p, n) ∨ b ∈ (L1 ++ L2) ++ A) as [->|Hb'] by (clear -Hb; set_solver); [done|]. by apply same_header_ptr, Hsame.
  - rewrite (same_header_size (um h)); [apply HI|done].
  - rewrite fmap_app. set_solver.
  - intros b Hb. assert (b = (p, n - k) ∨ b = (q, k) ∨ b ∈ (L1 ++ L2) ++ A) as [->|[->|Hb']] by (clear -Hb; set_solver); cbn [fst snd]; [split; [done|lia]..|].
    destruct (hi_size _ _ _ HI b ltac:(clear -Hb'; set_solver)) as [S1 S2]. split; [|done]. rewrite <-S1. by apply same_header_size, Hsame.
  - pose proof (hi_sorted _ _ _ HI) as Hs. apply sorted_app in Hs as [Hs1 [Hs2 Hs3]]. apply sorted_app. split; [done|]. split; [done|].
    cbn [fst snd] in *. destruct L2 as [|b L2]; [done|]. destruct Hs3. split; [lia|done].
  - rewrite EA. apply HI.
  - intros x. rewrite EA. apply HI.
  - apply HI.
Qed.

(** The block after [prevp]. *)
Lemma take_block_wp L A (N1 N2 : list Z) prevp p k h (Q : _ → uheap → Prop) : heap_inv L A h → base :: L.*1 = N1 ++ prevp :: N2 → p = hd base N2 →
  1 ≤ k ≤ h_size (um h) p → (∀ r h', r ≠ 0 → allocated_block A k h r h' → Q (inr r) h') → wp (take_block k prevp p (h_size (um h) p)) Q h.
Proof.
  intros HI EN Ep Hk HQ. destruct N2 as [|p' N2]; cbn in Ep; subst p; [rewrite (hi_base _ _ _ HI) in Hk; lia|].
  assert (∃ L1 n L2, L = L1 ++ (p', n) :: L2 ∧ base :: L1.*1 = N1 ++ [prevp]) as (L1 & n & L2 & -> & EN1).
  { assert (L.*1 !! length N1 = Some p') as Hp.
    { change (L.*1 !! length N1) with ((base :: L.*1) !! S (length N1)). rewrite EN, lookup_app_r by lia.
      by replace (S (length N1) - length N1)%nat with 1%nat by lia. }
    apply list_lookup_fmap_Some in Hp as ([p n] & -> & Hp). exists (take (length N1) L), n, (drop (S (length N1)) L).
    split; [by rewrite take_drop_middle|]. rewrite fmap_take. change (base :: take (length N1) L.*1) with (take (S (length N1)) (base :: L.*1)).
    rewrite EN, take_app_ge by lia. f_equal. by replace (S (length N1) - length N1)%nat with 1%nat by lia. }
  assert (prevp ∈ base :: L1.*1) as Hpv by (rewrite EN1; clear; set_solver).
  destruct (hi_size _ _ _ HI (p', n)) as [Hp Hn]; [clear; set_solver|]. cbn [fst snd] in Hp, Hn.
  assert (base + HEADER ≤ p') as Hbp. { apply (hi_in _ _ _ HI), elem_of_areas. exists (p', n). cbn [fst snd]. split; [clear; set_solver|lia]. }
  pose proof base_pos. unfold take_block. rewrite Hp in *. wp_step. destruct (Z.eqb_spec n k) as [->|Hne].
  - wp_step. apply wp_gets. wp_step. apply wp_modify. wp_step. wp_step. apply wp_modify. wp_step.
    pose proof (take_exact L1 L2 A N1 prevp p' k h HI EN1) as HI'. apply HQ; [lia|]. split; [done|]. split.
    + intros x Hx. apply st64_other. destruct (used_bytes _ _ _ _ _ x HI' Hx prevp) as [?|?]; [rewrite fmap_app; clear -Hpv; set_solver|lia..].
    + replace (p' + 16 - 16) with p' by lia. eauto.
  - wp_step. apply wp_modify. wp_step. apply wp_modify. wp_step. wp_step. apply wp_modify. wp_step.
    pose proof (take_split L1 L2 A prevp p' n k h HI Hpv ltac:(lia)) as HI'. cbv zeta in HI'. set (q := p' + 16 * (n - k)) in *. apply HQ; [lia|]. split; [done|]. split.
    + intros x Hx. cbn [um set_um set_freep]. pose proof (used_bytes _ _ _ _ _ x HI' Hx) as Hu.
      assert (x < q ∨ q + 16 ≤ x) by (apply Hu; left). assert (x < p' ∨ p' + 16 ≤ x) by (apply Hu; rewrite fmap_app; clear; set_solver).
      rewrite !(stn_other 4); [done|lia..].
    + replace (q + 16 - 16) with q by lia. eauto.
Qed.

(** ** The search of malloc *)

(** The nodes of the ring, beginning behind [f]. *)
Lemma ring_from m X f Y : hd f X = base → links m (X ++ f :: Y) base → ∃ e, links m (Y ++ X ++ [f]) e ∧ h_ptr m f = hd base (Y ++ X ++ [f]).
Proof.
  intros Hhd Hl. apply links_app in Hl as [H1 [H2 H3]]. cbn [hd] in H1. exists (hd base Y). rewrite !links_app, !hd_app. cbn [hd links].
  rewrite Hhd. split_and!; done.
Qed.

Lemma malloc_search nunits L A : 1 ≤ nunits → ∀ ys e h prevp fuel Q, heap_inv L A h → links (um h) ys e → NoDup ys → (∀ x, x ∈ ys → x ∈ base :: L.*1) →
  last ys = Some (freep h) → prevp ∈ base :: L.*1 → h_ptr (um h) prevp = hd base ys → (length ys ≤ fuel)%nat →
  (∀ r h', r ≠ 0 → allocated_block A nunits h r h' → Q r h') →
  ((∀ x, x ∈ ys → h_size (um h) x < nunits) → ∀ prevp' fuel', (fuel ≤ fuel' + length ys)%nat → wp (while (S fuel') (malloc_turn nunits) (prevp', freep h)) Q h) →
  wp (while fuel (malloc_turn nunits) (prevp, hd base ys)) Q h.
Proof.
  intros Hnu. induction ys as [|p ys IH]; intros e h prevp fuel Q HI Hl Hnd Hsub Hlast Hpv Hnext Hfuel Hfound Hend; [done|]. cbn [hd] in *.
  destruct fuel as [|fuel]; [cbn in Hfuel; lia|]. destruct (decide (nunits ≤ h_size (um h) p)) as [Hbig|Hsmall].
  - apply wp_while_S. unfold malloc_turn. wp_step. apply wp_gets. rewrite (proj2 (Z.leb_le _ _) Hbig).
    apply list_elem_of_split in Hpv as (N1 & N2 & EN). pose proof (hi_ring _ _ _ HI) as Hr. rewrite EN in Hr.
    apply links_app in Hr as [_ [Hr _]].
    refine (take_block_wp L A N1 N2 prevp p nunits h _ HI EN _ (conj Hnu Hbig) _); [congruence|]. intros r h' Hr0 HB. by apply Hfound.
  - destruct ys as [|p2 ys].
    { injection Hlast as ->. apply Hend; [by intros x ->%list_elem_of_singleton; lia|cbn; lia]. }
    destruct Hl as [Hp Hl]. cbn [hd] in Hp. apply NoDup_cons in Hnd as [Hp1 Hnd].
    assert (p ≠ freep h) as Hpf. { intros ->. apply Hp1. by apply last_Some_elem_of. }
    apply wp_while_S. unfold malloc_turn. wp_step. apply wp_gets. rewrite (proj2 (Z.leb_gt _ _)) by lia. wp_step. apply wp_gets.
    rewrite (proj2 (Z.eqb_neq _ _) Hpf). wp_step. apply wp_gets. wp_step. rewrite Hp. cbn [length] in Hfuel.
    apply (IH e h p fuel Q); [done|done|done|intros x Hx; apply Hsub; by right|done|apply Hsub; left|done|cbn [length]; lia|done|].
    intros Hall prevp' fuel' Hf. apply Hend; [|cbn [length] in *; lia]. intros x [->|Hx]%elem_of_cons; [lia|by apply Hall].
Qed.

Lemma search_from L A h : heap_inv L A h → ∃ ys e, links (um h) ys e ∧ NoDup ys ∧ (∀ x, x ∈ ys ↔ x ∈ base :: L.*1) ∧ last ys = Some (freep h) ∧
  h_ptr (um h) (freep h) = hd base ys ∧ length ys = S (length L).
Proof.
  intros HI. pose proof (hi_freep _ _ _ HI) as Hf. apply list_elem_of_split in Hf as (X & Y & EN). pose proof (hi_ring _ _ _ HI) as Hl. rewrite EN in Hl.
  destruct (ring_from (um h) X (freep h) Y) as (e & H1 & H2); [destruct X; cbn in EN |- *; congruence|done|].
  destruct (heap_nodes _ _ _ HI) as [Hnd _]. rewrite fmap_app, app_comm_cons, EN in Hnd. apply NoDup_app in Hnd as (Hnd & _ & _).
  assert (X ++ freep h :: Y ≡ₚ Y ++ X ++ [freep h]) as EP by solve_Permutation.
  exists (Y ++ X ++ [freep h]), e. split_and!; try done.
  - by rewrite <-EP.
  - intros x. by rewrite <-EP, <-EN.
  - by rewrite (assoc_L (++)), last_snoc.
  - rewrite <-EP, <-EN. cbn. by rewrite length_fmap.
Qed.

(** The turn at freep: more memory, and a search that finds it. *)
Lemma malloc_more nunits L A h prevp fuel (Q : Z → uheap → Prop) : heap_inv L A h → 1 ≤ nunits < 2^27 → h_size (um h) (freep h) < nunits → (S (S (length L)) ≤ fuel)%nat →
  Q 0 h → (∀ r h', r ≠ 0 → allocated_block A nunits h r h' → Q r h') → wp (while (S fuel) (malloc_turn nunits) (prevp, freep h)) Q h.
Proof.
  intros HI Hnu Hs Hfuel HQ0 HQ. apply wp_while_S. unfold malloc_turn at 1. wp_step. apply wp_gets. rewrite (proj2 (Z.leb_gt _ _)) by lia.
  wp_step. apply wp_gets. rewrite Z.eqb_refl. wp_step. eapply wp_mono; [apply (morecore_wp L A h nunits HI Hnu)|].
  intros r h' [[-> ->]|(Hr & -> & Hbrk & Hsame & L' & HI' & HL' & b & Hb & Hbig)]; [rewrite Z.eqb_refl; wp_step; done|].
  rewrite (proj2 (Z.eqb_neq _ _) Hr). wp_step. apply wp_gets. wp_step.
  destruct (search_from L' A h' HI') as (ys & e & Y1 & Y2 & Y3 & Y4 & Y5 & Y6). rewrite Y5.
  apply (malloc_search nunits L' A ltac:(lia) ys e h' (freep h') fuel Q); try done; [by intros x ?%Y3|apply HI'|lia| |].
  - intros r h2 Hr0 (B1 & B2 & B3). apply HQ; [done|]. split; [lia|]. split; [|done]. intros x Hx. by rewrite B2, Hsame.
  - intros Hall. exfalso. pose proof (hi_size _ _ _ HI' b) as [E _]; [clear -Hb; set_solver|].
    assert (b.1 ∈ ys) as Hin by (apply Y3; right; by apply list_elem_of_fmap_2). specialize (Hall _ Hin). lia.
Qed.

(** An allocator that has not been used yet, or one with its ring. *)
Definition heap_ok (A : list (Z * Z)) (h : uheap) : Prop :=
  (freep h = 0 ∧ A = [] ∧ mem_ok (um h) ∧ base + HEADER ≤ brk h ≤ 2^35) ∨ ∃ L, heap_inv L A h.

Lemma first_call h : mem_ok (um h) → base + HEADER ≤ brk h ≤ 2^35 → heap_inv [] [] (mkHeap (st32 (st64 (um h) base base) (base + 8) 0) base (brk h)).
Proof.
  intros Hm Hb. pose proof base_pos. split; cbn [um freep brk]; try done.
  - by apply stn_ok, stn_ok.
  - split; [|done]. cbn [hd fmap list_fmap]. rewrite h_ptr_set_size by auto. apply h_ptr_set_ptr. lia.
  - by apply h_size_set_size.
  - left.
  - intros b Hb'. by apply not_elem_of_nil in Hb'.
  - constructor.
  - intros x Hx. by apply not_elem_of_nil in Hx.
Qed.

Lemma malloc_wp A h n : heap_ok A h → 0 ≤ n ≤ 2^31 - 64 →
  wp (malloc n) (λ r h', (r = 0 ∧ heap_ok A h' ∧ brk h' = brk h ∧ ∀ x, x ∈ areas A → um h' x = um h x) ∨ (r ≠ 0 ∧ allocated_block A (units n) h r h')) h.
Proof.
  intros Hok Hn. assert (1 ≤ units n < 2^27) as Hu.
  { unfold units. assert (0 ≤ (n + 16 - 1) / 16 < 2^27 - 1) by (change (2^27) with 134217728; dlia). rewrite u32_small; lia. }
  assert (∀ L h, heap_inv L A h → wp (prevp <- gets freep ;; p <- get_ptr prevp ;; h <- get ;; while (2 * ring_fuel h) (malloc_turn (units n)) (prevp, p))
    (λ r h', (r = 0 ∧ h' = h) ∨ (r ≠ 0 ∧ allocated_block A (units n) h r h')) h) as Hloop.
  { clear h Hok. intros L h HI. wp_step. apply wp_gets. wp_step. apply wp_gets. wp_step. wp_step.
    destruct (search_from L A h HI) as (ys & e & Y1 & Y2 & Y3 & Y4 & Y5 & Y6). rewrite Y5. pose proof (heap_count _ _ _ HI) as Hc.
    apply (malloc_search (units n) L A ltac:(lia) ys e h); try done; [by intros x ?%Y3|apply HI|lia|by right|].
    intros Hall prevp' fuel' Hf. apply (malloc_more _ L A); try done; [|lia|by left|by right]. apply Hall, Y3, HI. }
  unfold malloc. wp_step. apply wp_gets. destruct Hok as [(Hf & -> & Hm & Hb)|(L & HI)].
  - rewrite Hf. cbn [Z.eqb]. wp_step. wp_step. apply wp_modify. wp_step. apply wp_modify. apply wp_modify.
    eapply wp_mono; [exact (Hloop [] _ (first_call h Hm Hb))|]. intros r h' [[-> ->]|[Hr HB]]; [left|right].
    + split_and!; [done|right; exists []; by apply first_call|done|]. intros x Hx. by apply not_elem_of_nil in Hx.
    + split; [done|]. destruct HB as (B1 & _ & B3). split; [done|]. split; [|done]. intros x Hx. by apply not_elem_of_nil in Hx.
  - pose proof (freep_pos _ _ _ HI). rewrite (proj2 (Z.eqb_neq _ _)) by lia. wp_step. wp_step.
    eapply wp_mono; [exact (Hloop L _ HI)|]. intros r h' [[-> ->]|?]; [left|by right]. split_and!; [done|right; eauto|done..].
Qed.

(** ** Programs

    A program calls malloc and free, stores into the blocks it has, and grows
    its memory; [live] are the blocks it has, with the sizes it asked for.  A
    request is at most 2^31 - 64 bytes, so that the int that morecore passes to
    sbrk holds the size, and the program does not give memory back to sbrk that
    malloc may have handed out. *)
Inductive use : uheap * list (Z * Z) → uheap * list (Z * Z) → Prop :=
| use_malloc n h live r h' : 0 ≤ n ≤ 2^31 - 64 → malloc n h = Done (r, h') → use (h, live) (h', if r =? 0 then live else (r, n) :: live)
| use_free h l1 b l2 h' : free b.1 h = Done (tt, h') → use (h, l1 ++ b :: l2) (h', l1 ++ l2)
| use_store h live b x v : b ∈ live → b.1 ≤ x < b.1 + b.2 → 0 ≤ v < 256 → use (h, live) (set_um (fupd (um h) x v) h, live)
| use_sbrk h live sz : brk h ≤ sz ≤ 2^35 → use (h, live) (set_brk sz h, live).

(** A program starts with freep 0 and its memory behind its data. *)
Definition fresh (h : uheap) : Prop := freep h = 0 ∧ mem_ok (um h) ∧ base + HEADER ≤ brk h ≤ 2^35.

Definition block_of (b : Z * Z) : Z * Z := (b.1 - HEADER, units b.2).
Definition live_ok (live : list (Z * Z)) : Prop := ∀ b, b ∈ live → 0 ≤ b.2 ≤ 2^31 - 64.

Lemma units_enough n : 0 ≤ n ≤ 2^31 - 64 → HEADER + n ≤ HEADER * units n.
Proof. intros Hn. unfold units. rewrite u32_small by dlia. dlia. Qed.

(** The bytes of a block lie in it, behind its header. *)
Lemma payload live b x : live_ok live → b ∈ live → b.1 ≤ x < b.1 + b.2 → x ∈ areas (block_of <$> live) ∧ (block_of b).1 + HEADER ≤ x < (block_of b).1 + HEADER * (block_of b).2.
Proof.
  intros Hok Hb Hx. pose proof (units_enough b.2 (Hok b Hb)) as Hu. assert ((block_of b).1 + HEADER ≤ x < (block_of b).1 + HEADER * (block_of b).2) as H by (cbn; lia).
  split; [|done]. apply elem_of_areas. exists (block_of b). split; [by apply list_elem_of_fmap_2|lia].
Qed.

Lemma heap_store L A h b x v : heap_inv L A h → b ∈ A → b.1 + HEADER ≤ x < b.1 + HEADER * b.2 → 0 ≤ v < 256 → heap_inv L A (set_um (fupd (um h) x v) h).
Proof.
  intros HI Hb Hx Hv. assert (∀ y, y ∈ base :: (L ++ A).*1 → same_header (um h) (fupd (um h) x v) y) as Hsame.
  { intros y Hy z Hz. apply fupd_ne. assert (b ∈ L ++ A) as HbA by (clear -Hb; set_solver). pose proof (hi_size _ _ _ HI b HbA) as [_ Hb1].
    apply elem_of_cons in Hy as [->|(b' & -> & Hb')%list_elem_of_fmap].
    - assert (base + 16 ≤ b.1); [|lia]. apply (hi_in _ _ _ HI), elem_of_areas. exists b. split; [done|lia].
    - pose proof (hi_size _ _ _ HI b' Hb') as [_ Hb1']. pose proof (hi_disj _ _ _ HI) as Hd. apply elem_of_Permutation in HbA as [l El]. rewrite El in Hd, Hb'.
      apply elem_of_cons in Hb' as [->|Hb']; [lia|]. pose proof (areas_disjoint b b' l Hd Hb' Hb1 Hb1'). lia. }
  split; cbn [um freep brk set_um]; try apply HI.
  - intros y. rewrite fupd_spec. case_decide; [done|]. apply HI.
  - eapply links_same; [apply HI|]. intros y Hy. apply Hsame. rewrite fmap_app. clear -Hy. set_solver.
  - rewrite (same_header_size (um h)); [apply HI|apply Hsame; left].
  - intros b' Hb'. rewrite (same_header_size (um h)); [by apply HI|]. apply Hsame. right. by apply list_elem_of_fmap_2.
Qed.

Lemma use_inv s s' : use s s' → live_ok s.2 → heap_ok (block_of <$> s.2) s.1 → live_ok s'.2 ∧ heap_ok (block_of <$> s'.2) s'.1.
Proof.
  intros [n h live r h' Hn E|h l1 b l2 h' E|h live b x v Hb Hx Hv|h live sz Hsz] Hlive Hok; cbn [fst snd] in *.
  - pose proof (malloc_wp _ h n Hok Hn) as Hw. unfold wp in Hw. rewrite E in Hw. destruct Hw as [(-> & Hok' & _)|(Hr & _ & _ & L' & HI)]; [done|].
    rewrite (proj2 (Z.eqb_neq _ _) Hr). split; [by intros b [->|?%Hlive]%elem_of_cons|]. right. by exists L'.
  - split; [intros b' Hb'; apply Hlive; clear -Hb'; set_solver|]. destruct Hok as [(_ & Hnil & _)|(L & HI)].
    { by rewrite fmap_app in Hnil; apply app_eq_nil in Hnil as [_ ?]. }
    apply (heap_inv_perm _ _ (block_of b :: (block_of <$> l1 ++ l2))) in HI; [|by rewrite !fmap_app, fmap_cons, Permutation_middle].
    pose proof (free_wp _ _ _ _ _ HI) as Hw. cbn [block_of fst] in Hw. replace (b.1 - 16 + 16) with b.1 in Hw by lia.
    unfold wp in Hw. rewrite E in Hw. destruct Hw as (_ & _ & L' & HI' & _). right. by exists L'.
  - split; [done|]. destruct Hok as [(_ & Hnil & _)|(L & HI)]; [apply fmap_nil_inv in Hnil; subst; by apply not_elem_of_nil in Hb|].
    right. exists L. destruct (payload live b x Hlive Hb Hx) as [_ Hp]. eapply heap_store; [done| |exact Hp|done]. by apply list_elem_of_fmap_2.
  - split; [done|]. destruct Hok as [(H1 & H2 & H3 & H4)|(L & HI)]; [left; cbn; split_and!; done || lia|]. right. exists L.
    split; cbn [um freep brk set_brk]; try apply HI; pose proof (hi_brk _ _ _ HI); [|lia]. intros x Hx%(hi_in _ _ _ HI). lia.
Qed.

Lemma use_ok h0 h live : fresh h0 → rtc use (h0, []) (h, live) → live_ok live ∧ heap_ok (block_of <$> live) h.
Proof.
  intros (H1 & H2 & H3) Hr. assert (∀ s, rtc use (h0, []) s → live_ok s.2 ∧ heap_ok (block_of <$> s.2) s.1) as H.
  { intros s Hs. refine (rtc_ind_r (λ s, live_ok s.2 ∧ heap_ok (block_of <$> s.2) s.1) (h0, []) _ _ s Hs).
    - split; [intros b Hb; by apply not_elem_of_nil in Hb|]. by left.
    - intros s1 s2 _ Hst [I1 I2]. exact (use_inv s1 s2 Hst I1 I2). }
  exact (H _ Hr).
Qed.

Definition kept (live : list (Z * Z)) (h h' : uheap) : Prop := ∀ b x, b ∈ live → b.1 ≤ x < b.1 + b.2 → um h' x = um h x.
Definition off (b b' : Z * Z) : Prop := b.1 + b.2 ≤ b'.1 ∨ b'.1 + b'.2 ≤ b.1.

Lemma blocks_off L l1 b l2 h : heap_inv L (block_of <$> l1 ++ b :: l2) h → live_ok (l1 ++ b :: l2) → ∀ b', b' ∈ l1 ++ l2 → off b b'.
Proof.
  intros HI Hok b' Hb'. apply (heap_inv_perm _ _ (block_of b :: (block_of <$> l1 ++ l2))) in HI; [|by rewrite !fmap_app, fmap_cons, Permutation_middle].
  pose proof (hi_disj _ _ _ HI) as Hd. rewrite areas_app in Hd. apply NoDup_app in Hd as (_ & _ & Hd).
  assert (∀ c, c ∈ l1 ++ b :: l2 → HEADER + c.2 ≤ HEADER * units c.2) as Hu by (intros c Hc; apply units_enough, Hok, Hc).
  pose proof (Hu b ltac:(clear; set_solver)). pose proof (Hu b' ltac:(clear -Hb'; set_solver)).
  assert (0 ≤ b.2 ∧ 0 ≤ b'.2) as [? ?] by (split; apply Hok; clear -Hb'; set_solver).
  pose proof (areas_disjoint (block_of b) (block_of b') (block_of <$> l1 ++ l2) Hd) as Hdis. cbn [block_of fst snd] in Hdis.
  unfold off. apply (list_elem_of_fmap_2 block_of) in Hb'. specialize (Hdis Hb' ltac:(lia) ltac:(lia)). lia.
Qed.

Lemma kept_areas live h h' : live_ok live → (∀ x, x ∈ areas (block_of <$> live) → um h' x = um h x) → kept live h h'.
Proof. intros Hok H b x Hb Hx. apply H. by eapply payload. Qed.

(** C8: memory from malloc belongs to the program.  A program calls malloc for
    at most 2^31 - 64 bytes at a time, frees blocks it has, stores into them,
    and uses sbrk only to grow its memory, which stays below 2^35 bytes.  Its
    blocks then never overlap; malloc, for as many bytes, returns 0 or a block
    of the size asked for that lies in the memory of the program and overlaps no
    other block; free returns; and neither of them changes a byte of a block
    that stays.  (malloc_too_large below is a request beyond the bound for which
    malloc returns a block that is not in the memory of the program.) *)
Theorem malloc_safe h0 h live : fresh h0 → rtc use (h0, []) (h, live) →
  (∀ l1 b l2, live = l1 ++ b :: l2 → ∀ b', b' ∈ l1 ++ l2 → off b b') ∧
  (∀ n, 0 ≤ n ≤ 2^31 - 64 → ∃ r h', malloc n h = Done (r, h') ∧ kept live h h' ∧
    (r ≠ 0 → base < r ∧ r + n ≤ brk h' ∧ ∀ b, b ∈ live → off (r, n) b)) ∧
  (∀ l1 b l2, live = l1 ++ b :: l2 → ∃ h', free b.1 h = Done (tt, h') ∧ kept (l1 ++ l2) h h').
Proof.
  intros Hf Hr. destruct (use_ok h0 h live Hf Hr) as [Hlive Hok]. split_and!.
  - intros l1 b l2 ->. destruct Hok as [(_ & Hnil & _)|(L & HI)]; [by rewrite fmap_app in Hnil; apply app_eq_nil in Hnil as [_ ?]|].
    by eapply blocks_off.
  - intros n Hn. pose proof (malloc_wp _ h n Hok Hn) as Hw. apply wp_elim in Hw as (r & h' & E & Hw). exists r, h'. split; [done|].
    destruct Hw as [(-> & _ & _ & Hs)|(Hr0 & Hb & Hs & L' & HI)]; (split; [by apply kept_areas|]); [done|]. intros _.
    assert (live_ok ([] ++ (r, n) :: live)) as Hlive' by (by intros b [->|?%Hlive]%elem_of_cons).
    split_and!; [..|by intros b Hb'; apply (blocks_off L' [] (r, n) live h' HI Hlive')].
    all: pose proof (units_enough n Hn) as Hu; assert (∀ x, r - 16 ≤ x < r - 16 + 16 * units n → base + 16 ≤ x < brk h') as Hin
      by (intros x Hx; apply (hi_in _ _ _ HI), elem_of_areas; exists (r - 16, units n); cbn [fst snd]; split; [clear; set_solver|lia]).
    + pose proof (Hin (r - 16) ltac:(lia)). lia.
    + pose proof (Hin (r - 16 + 16 * units n - 1) ltac:(lia)). lia.
  - intros l1 b l2 ->. destruct Hok as [(_ & Hnil & _)|(L & HI)]; [by rewrite fmap_app in Hnil; apply app_eq_nil in Hnil as [_ ?]|].
    apply (heap_inv_perm _ _ (block_of b :: (block_of <$> l1 ++ l2))) in HI; [|by rewrite !fmap_app, fmap_cons, Permutation_middle].
    pose proof (free_wp _ _ _ _ _ HI) as Hw. cbn [block_of fst] in Hw. replace (b.1 - 16 + 16) with b.1 in Hw by lia.
    apply wp_elim in Hw as ([] & h' & E & _ & Hs & _). exists h'. split; [done|]. apply kept_areas; [|done]. intros b' Hb'. apply Hlive. clear -Hb'. set_solver.
Qed.
End umalloc_thms.

(** ** A program *)
Module Prog.

#[local] Instance prog_sbrk : Sbrk.
Proof.
  refine {| base := 4000; grow := λ sz n, if sz + n <=? 2^35 then Some (sz + n) else None |}; [done|].
  intros sz n sz' Hn. case_if; [|done]. intros [= <-]. lia.
Defined.

Definition prog_start : uheap := mkHeap (λ _, 0) 0 4096.
Definition run {A} (c : M uheap A) (h : uheap) : uheap := match c h with Done (_, h') => h' | _ => h end.

(** malloc(10), malloc(100), a store, free of the first. *)
Definition h1 : uheap := run (malloc 10) prog_start.
Definition h2 : uheap := run (malloc 100) h1.
Definition h3 : uheap := set_um (fupd (um h2) 69550 7) h2.
Definition h4 : uheap := run (free 69616) h3.

Lemma runs_to {A} (c : M uheap A) h a : match c h with Done (r, _) => r = a | _ => False end → c h = Done (a, run c h).
Proof. unfold run. destruct (c h) as [[r h']| | | |]; [by intros ->|done..]. Qed.

Lemma malloc_safe_witness : rtc use (prog_start, []) (h4, [(69488, 100)]) ∧
  ∀ n, 0 ≤ n ≤ 2^31 - 64 → ∃ r h', malloc n h4 = Done (r, h') ∧ kept [(69488, 100)] h4 h' ∧
    (r ≠ 0 → base < r ∧ r + n ≤ brk h' ∧ ∀ b, b ∈ [(69488, 100)] → off (r, n) b).
Proof.
  assert (rtc use (prog_start, []) (h4, [(69488, 100)])) as Hr.
  { eapply rtc_l; [apply (use_malloc 10 prog_start [] 69616 h1); [lia|apply runs_to; vm_compute; reflexivity]|].
    eapply rtc_l; [apply (use_malloc 100 h1 [(69616, 10)] 69488 h2); [lia|apply runs_to; vm_compute; reflexivity]|].
    eapply rtc_l; [apply (use_store h2 [(69488, 100); (69616, 10)] (69488, 100) 69550 7); [left|cbn; lia|lia]|].
    eapply rtc_l; [apply (use_free h3 [(69488, 100)] (69616, 10) [] h4), runs_to; vm_compute; reflexivity|]. apply rtc_refl. }
  split; [exact Hr|]. apply (malloc_safe prog_start h4 [(69488, 100)]); [|exact Hr].
  split; [reflexivity|]. split; [intros a; cbn; lia|cbn; lia].
Defined.

(** A request that is too large: sbrk is asked for 0 bytes, and the block lies
    behind the memory of the program. *)
Lemma malloc_too_large : match malloc (2^32 - 16) prog_start with Done (r, h) => r = brk prog_start + HEADER ∧ brk h = brk prog_start | _ => False end.
Proof. vm_compute. done. Qed.
End Prog.
