(* ===== verification/Mkfs.v ===== *)
(** mkfs/mkfs.c: building the first disk image.

    The image is a file of blocks, [img], of which the first [len] exist: a
    write behind the end extends the file with zeroes, a read there fails.  The
    numbers xint and xshort convert are stored with the low byte first, which
    is how [ld32] and [ld16] read them.  A failed assert and [die] end the
    program.  The messages it prints on the terminal are left out, and
    main starts when the image has been opened and is empty. *)

From S2P Require Import Prelude Riscv Memory Kalloc Vm State Printf Proc Bio Log Fs.

Abbreviation NINODES := 200 (only parsing).
Abbreviation FSSIZE := 4000 (only parsing).
Abbreviation nbitmap := 1 (only parsing).            (* FSSIZE/BPB + 1 *)
Abbreviation ninodeblocks := 13 (only parsing).      (* NINODES / IPB + 1 *)
Abbreviation nlog := 31 (only parsing).              (* LOGBLOCKS + 1 *)
Abbreviation nmeta := 47 (only parsing).             (* 2 + nlog + ninodeblocks + nbitmap *)
Abbreviation nblocks := 3953 (only parsing).         (* FSSIZE - nmeta *)

Definition mkfs_sb : superblock := mkSuperblock FSMAGIC FSSIZE nblocks NINODES nlog 2 (2 + nlog) (2 + nlog + ninodeblocks).

(** The image, and the globals freeinode and freeblock. *)
Record mkfs := mkMkfs { img : Z → mem; len : Z; freeinode : Z; freeblock : Z }.
Definition set_img (f : Z → mem) (n : Z) (s : mkfs) : mkfs := mkMkfs f n (freeinode s) (freeblock s).
Definition set_freeinode (n : Z) (s : mkfs) : mkfs := mkMkfs (img s) (len s) n (freeblock s).
Definition set_freeblock (n : Z) (s : mkfs) : mkfs := mkMkfs (img s) (len s) (freeinode s) n.

Definition die {A} (msg : string) : M mkfs A := panic msg.
Definition assert (b : bool) : M mkfs unit := if b then ret tt else panic "assert".

Definition wsect (sec : Z) (buf : mem) : M mkfs unit :=
  modify (λ s, set_img (fupd (img s) sec buf) (Z.max (len s) (sec + 1)) s).

Definition rsect (sec : Z) : M mkfs mem :=
  s <- get ;;
  if sec <? len s then ret (img s sec) else die "read".

(** ** Inodes *)
Record dinode := mkDinode { d_type : Z; d_major : Z; d_minor : Z; d_nlink : Z; d_size : Z; d_addrs : Z → Z }.
Definition set_d_size (n : Z) (d : dinode) : dinode := mkDinode (d_type d) (d_major d) (d_minor d) (d_nlink d) n (d_addrs d).
Definition set_d_addr (k a : Z) (d : dinode) : dinode :=
  mkDinode (d_type d) (d_major d) (d_minor d) (d_nlink d) (d_size d) (fupd (d_addrs d) k a).

(** The struct at offset [o] of a block. *)
Definition get_dinode (m : mem) (o : Z) : dinode :=
  mkDinode (di_type m o) (di_major m o) (di_minor m o) (di_nlink m o) (di_size m o) (di_addr m o).
Definition store_dinode (d : dinode) (m : mem) (o : Z) : mem :=
  let m := st16 m o (d_type d) in
  let m := st16 m (o + 2) (d_major d) in
  let m := st16 m (o + 4) (d_minor d) in
  let m := st16 m (o + 6) (d_nlink d) in
  let m := st32 m (o + 8) (d_size d) in
  put_addrs (Z.to_nat (NDIRECT + 2)) (d_addrs d) 0 m o.

Definition winode (inum : Z) (d : dinode) : M mkfs unit :=
  let bn := IBLOCK inum mkfs_sb in
  buf <- rsect bn ;;
  wsect bn (store_dinode d buf (di_off inum)).

Definition rinode (inum : Z) : M mkfs dinode :=
  buf <- rsect (IBLOCK inum mkfs_sb) ;;
  ret (get_dinode buf (di_off inum)).

Definition ialloc (type : Z) : M mkfs Z :=
  inum <- gets freeinode ;;
  modify (set_freeinode (u32 (inum + 1))) ;;
  winode inum (mkDinode (s16 type) 0 0 1 0 (λ _, 0)) ;;
  ret inum.

(** ** The bitmap *)
Fixpoint mark (n : nat) (m : mem) : mem :=
  match n with
  | O => m
  | S n' => bit_set (mark n' m) (Z.of_nat n')
  end.

Definition balloc (used : Z) : M mkfs unit :=
  assert (used <? BPB) ;;
  wsect (sb_bmapstart mkfs_sb) (mark (Z.to_nat used) (λ _, 0)).

(** ** Appending to a file *)

(** freeblock++ *)
Definition fresh_block : M mkfs Z :=
  b <- gets freeblock ;;
  modify (set_freeblock (u32 (b + 1))) ;;
  ret b.

(** An address of the dinode, given a block when it has none. *)
Definition inode_entry (k : Z) (din : dinode) : M mkfs dinode :=
  if d_addrs din k =? 0 then
    b <- fresh_block ;;
    ret (set_d_addr k b din)
  else ret din.

(** An entry of an indirect block, given a block when it has none. *)
Definition block_entry (blk j : Z) : M mkfs Z :=
  ind <- rsect blk ;;
  if word ind j =? 0 then
    b <- fresh_block ;;
    wsect blk (st32 ind (4 * j) b) ;;
    ret (word (st32 ind (4 * j) b) j)
  else ret (word ind j).

(** The block of the file that holds byte [fbn * BSIZE]. *)
Definition block_for (fbn : Z) (din : dinode) : M mkfs (Z * dinode) :=
  if fbn <? NDIRECT then
    din <- inode_entry fbn din ;;
    ret (d_addrs din fbn, din)
  else if fbn <? NDIRECT + NINDIRECT then
    din <- inode_entry NDIRECT din ;;
    x <- block_entry (d_addrs din NDIRECT) (fbn - NDIRECT) ;;
    ret (x, din)
  else
    din <- inode_entry (NDIRECT + 1) din ;;
    let di := (fbn - NDIRECT - NINDIRECT) / NINDIRECT in
    let si := (fbn - NDIRECT - NINDIRECT) mod NINDIRECT in
    y <- block_entry (d_addrs din (NDIRECT + 1)) di ;;
    x <- block_entry y si ;;
    ret (x, din).

(** The turn of the loop of iappend with [p] left to append. *)
Definition iappend_turn : dinode * Z * list Z → M mkfs (dinode * Z * list Z + dinode * Z) := λ '(din, off, p),
  match p with
  | [] => ret (inr (din, off))
  | _ =>
      let fbn := off / BSIZE in
      assert (fbn <? MAXFILE) ;;
      r <- block_for fbn din ;;
      let '(x, din) := r in
      let n1 := Z.min (Z.of_nat (length p)) ((fbn + 1) * BSIZE - off) in
      buf <- rsect x ;;
      wsect x (write_bytes buf (off - fbn * BSIZE) (take (Z.to_nat n1) p)) ;;
      ret (inl (din, u32 (off + n1), drop (Z.to_nat n1) p))
  end.

Definition iappend (inum : Z) (p : list Z) : M mkfs unit :=
  din <- rinode inum ;;
  r <- while (S (length p)) iappend_turn (din, d_size din, p) ;;
  let '(din, off) := r in
  winode inum (set_d_size off din).

(** ** main *)

(** An argument of mkfs: its name and, when it can be opened, the pieces its
    reads deliver. *)
Definition source : Type := list Z * option (list (list Z)).

(** argv[i] without user/ and without a leading underscore. *)
Definition shortname (arg : list Z) : M mkfs (list Z) :=
  let short := if decide (take 5 arg = [117; 115; 101; 114; 47]) then drop 5 arg else arg in
  assert (negb (existsb (Z.eqb 47) short)) ;;
  ret short.

Definition skip_underscore (short : list Z) : list Z :=
  match short with c :: short' => if c =? 95 then short' else short | [] => [] end.

Fixpoint append_all (inum : Z) (ps : list (list Z)) : M mkfs unit :=
  match ps with
  | [] => ret tt
  | p :: ps' => iappend inum p ;; append_all inum ps'
  end.

Definition add_file (rootino : Z) (f : source) : M mkfs unit :=
  short <- shortname f.1 ;;
  match f.2 with
  | None => die "open"
  | Some pieces =>
      let short := skip_underscore short in
      assert (Z.of_nat (length short) <=? DIRSIZ) ;;
      inum <- ialloc T_FILE ;;
      iappend rootino (mk_dirent inum short) ;;
      append_all inum pieces
  end.

Fixpoint add_files (rootino : Z) (fs : list source) : M mkfs unit :=
  match fs with
  | [] => ret tt
  | f :: fs' => add_file rootino f ;; add_files rootino fs'
  end.

(** The superblock in its block. *)
Definition sb_block : mem :=
  let m : mem := λ _, 0 in
  let m := st32 m 0 (sb_magic mkfs_sb) in
  let m := st32 m 4 (sb_size mkfs_sb) in
  let m := st32 m 8 (sb_nblocks mkfs_sb) in
  let m := st32 m 12 (sb_ninodes mkfs_sb) in
  let m := st32 m 16 (sb_nlog mkfs_sb) in
  let m := st32 m 20 (sb_logstart mkfs_sb) in
  let m := st32 m 24 (sb_inodestart mkfs_sb) in
  st32 m 28 (sb_bmapstart mkfs_sb).

Definition mkfs_start : mkfs := mkMkfs (λ _ _, 0) 0 1 0.

Definition mkfs_main (fs : list source) : M mkfs unit :=
  modify (set_freeblock nmeta) ;;
  foreach (Z.to_nat FSSIZE) 0 (λ i, wsect i (λ _, 0)) ;;
  wsect 1 sb_block ;;
  rootino <- ialloc T_DIR ;;
  assert (rootino =? ROOTINO) ;;
  iappend rootino (mk_dirent rootino [46]) ;;
  iappend rootino (mk_dirent rootino [46; 46]) ;;
  add_files rootino fs ;;
  din <- rinode rootino ;;
  winode rootino (set_d_size (u32 ((d_size din / BSIZE + 1) * BSIZE)) din) ;;
  used <- gets freeblock ;;
  balloc used.
