(* ===== verification/MkfsThms.v ===== *)
(** The image mkfs builds.

    A file under construction is described by a [finfo]: its bytes, the blocks
    that hold them in order, and its indirect block.  [din_ok] says that a
    dinode and an image represent it; appending keeps that, takes blocks from
    the free end of the disk only, and touches no block of another file. *)

From S2P Require Import Prelude Riscv Memory Kalloc Vm State Printf Proc Bio Log Fs FsPath FsBlocks FsInode Mkfs.

(** ** Lists of numbers, read with 0 behind the end *)
Definition zth (l : list Z) (k : Z) : Z := default 0 (l !! Z.to_nat k).

Lemma zth_app_l l l' k : 0 ≤ k < Z.of_nat (length l) → zth (l ++ l') k = zth l k.
Proof. intros H. unfold zth. rewrite lookup_app_l by lia. done. Qed.
Lemma zth_app_r l l' k : Z.of_nat (length l) ≤ k → zth (l ++ l') k = zth l' (k - Z.of_nat (length l)).
Proof. intros H. unfold zth. rewrite lookup_app_r by lia. do 2 f_equal. lia. Qed.
Lemma zth_ge l k : Z.of_nat (length l) ≤ k → zth l k = 0.
Proof. intros H. unfold zth. by rewrite lookup_ge_None_2 by lia. Qed.
Lemma zth_app l l' k : 0 ≤ k → let n := Z.of_nat (length l) in
  zth (l ++ l') k = if decide (n ≤ k < n + Z.of_nat (length l')) then zth l' (k - n) else zth l k.
Proof.
  intros Hk n. case_decide; [apply zth_app_r; lia|]. destruct (decide (k < n)); [apply zth_app_l; lia|].
  rewrite !zth_ge; [done|lia|rewrite length_app; lia].
Qed.
Lemma zth_Some l k : 0 ≤ k < Z.of_nat (length l) → l !! Z.to_nat k = Some (zth l k).
Proof. intros H. unfold zth. destruct (lookup_lt_is_Some_2 l (Z.to_nat k)) as [x ->]; [lia|done]. Qed.
Lemma zth_in l k : 0 ≤ k < Z.of_nat (length l) → zth l k ∈ l.
Proof. intros H. eapply list_elem_of_lookup_2. by apply zth_Some. Qed.
Lemma zth_inj l i j : NoDup l → 0 ≤ i < Z.of_nat (length l) → 0 ≤ j < Z.of_nat (length l) → zth l i = zth l j → i = j.
Proof.
  intros Hnd Hi Hj He. apply zth_Some in Hi as Hi', Hj as Hj'. rewrite He in Hi'.
  pose proof (NoDup_lookup _ _ _ _ Hnd Hi' Hj'). lia.
Qed.
Lemma zth_snoc l x k : 0 ≤ k → zth (l ++ [x]) k = if decide (k = Z.of_nat (length l)) then x else zth l k.
Proof.
  intros Hk. case_decide as E.
  - rewrite zth_app_r by lia. by rewrite E, Z.sub_diag.
  - destruct (decide (k < Z.of_nat (length l))); [by rewrite zth_app_l by lia|]. rewrite !zth_ge; [done|lia|rewrite length_app; cbn; lia].
Qed.

(** Bytes written at [a] read back; the rest stays. *)
Lemma write_bytes_get l : ∀ m a x, byte_list l → write_bytes m a l x =
  if decide (a ≤ x < a + Z.of_nat (length l)) then zth l (x - a) else m x.
Proof.
  induction l as [|b l IH]; intros m a x Hl; [by rewrite decide_False by (cbn; lia)|].
  apply Forall_cons in Hl as [Hb Hl]. cbn [write_bytes length]. rewrite IH by done. unfold zth.
  destruct (decide (x = a)) as [->|Hne].
  - rewrite decide_False, decide_True by lia. rewrite Z.sub_diag. cbn. by rewrite fupd_eq, u8_small by lia.
  - destruct (decide (a + 1 ≤ x < a + 1 + Z.of_nat (length l))).
    + rewrite decide_True by lia. by replace (Z.to_nat (x - a)) with (S (Z.to_nat (x - (a + 1)))) by lia.
    + rewrite decide_False by lia. by rewrite fupd_ne.
Qed.

(** ** The dinode in its block *)

(** The same thirteen addresses and the same fields. *)
Definition same_din (d d' : dinode) : Prop :=
  d_type d = d_type d' ∧ d_major d = d_major d' ∧ d_minor d = d_minor d' ∧ d_nlink d = d_nlink d' ∧ d_size d = d_size d' ∧
  ∀ k, 0 ≤ k < NDIRECT + 2 → d_addrs d k = d_addrs d' k.

Definition din_fits (d : dinode) : Prop :=
  - 2^15 ≤ d_type d < 2^15 ∧ - 2^15 ≤ d_major d < 2^15 ∧ - 2^15 ≤ d_minor d < 2^15 ∧ - 2^15 ≤ d_nlink d < 2^15 ∧
  0 ≤ d_size d < 2^32 ∧ ∀ k, 0 ≤ k < NDIRECT + 2 → 0 ≤ d_addrs d k < 2^32.

Lemma store_dinode_get d m o : din_fits d → same_din (get_dinode (store_dinode d m o) o) d.
Proof.
  intros (F1 & F2 & F3 & F4 & F5 & F6). unfold same_din, get_dinode, store_dinode. cbv zeta.
  unfold di_type, di_major, di_minor, di_nlink, di_size, di_addr, ld16. cbn [d_type d_major d_minor d_nlink d_size d_addrs].
  set (n := Z.to_nat (NDIRECT + 2)). assert (Z.of_nat n = 13) as Hn by done.
  assert (∀ k a m, a + Z.of_nat k ≤ o + 12 → ldn k (put_addrs n (d_addrs d) 0 m o) a = ldn k m a) as Hlow.
  { intros k a m' Ha. apply ldn_ext. intros x Hx. apply put_addrs_other. lia. }
  split_and!; [..|intros k Hk; rewrite put_addrs_get by lia; by apply u32_small, F6].
  all: unfold ld32; rewrite Hlow by lia; unfold st16, st32; repeat (rewrite ldn_stn_other by lia); rewrite ldn_stn_same.
  1-4: apply s16_small; lia. by rewrite Z.mod_small by lia.
Qed.

Lemma store_dinode_other d m o x : x < o ∨ o + 64 ≤ x → store_dinode d m o x = m x.
Proof. intros Hx. unfold store_dinode. cbv zeta. rewrite put_addrs_other by lia. unfold st16, st32. by rewrite !stn_other by lia. Qed.

Lemma get_dinode_ext m m' o : (∀ x, o ≤ x < o + 64 → m x = m' x) → same_din (get_dinode m o) (get_dinode m' o).
Proof.
  intros H. unfold same_din, get_dinode, di_type, di_major, di_minor, di_nlink, di_size, di_addr, ld16, ld32.
  cbn [d_type d_major d_minor d_nlink d_size d_addrs].
  assert (∀ n a, o ≤ a → a + Z.of_nat n ≤ o + 64 → ldn n m a = ldn n m' a) as Hn.
  { intros n a H1 H2. apply ldn_ext. intros x Hx. apply H. lia. }
  split_and!; [..|intros k Hk]; by rewrite Hn by lia.
Qed.

(** Two inodes of one block do not overlap. *)
Lemma di_off_apart i j : IBLOCK i mkfs_sb = IBLOCK j mkfs_sb → 1 ≤ i < 208 → 1 ≤ j < 208 → i ≠ j →
  di_off i + 64 ≤ di_off j ∨ di_off j + 64 ≤ di_off i.
Proof.
  unfold IBLOCK, di_off. cbn [sb_inodestart mkfs_sb]. intros He Hi Hj Hne. rewrite !u32_small in He by dlia. dlia.
Qed.

Lemma IBLOCK_range i : 1 ≤ i < 208 → 33 ≤ IBLOCK i mkfs_sb < 46.
Proof. intros Hi. unfold IBLOCK. cbn [sb_inodestart mkfs_sb]. rewrite u32_small by dlia. dlia. Qed.

(** ** Files under construction *)
Record finfo := mkFinfo { f_type : Z; f_data : list Z; f_blks : list Z; f_ind : Z }.
Definition nblk (f : finfo) : Z := Z.of_nat (length (f_blks f)).
Definition fsize (f : finfo) : Z := Z.of_nat (length (f_data f)).
Definition f_blocks (f : finfo) : list Z := f_blks f ++ (if f_ind f =? 0 then [] else [f_ind f]).

Record din_ok (m : Z → mem) (f : finfo) (d : dinode) : Prop := {
  do_fields : d_type d = f_type f ∧ d_major d = 0 ∧ d_minor d = 0 ∧ d_nlink d = 1;
  do_direct : ∀ k, 0 ≤ k < NDIRECT → d_addrs d k = zth (f_blks f) k;
  do_ind : d_addrs d NDIRECT = f_ind f;
  do_dbl : d_addrs d (NDIRECT + 1) = 0;
  do_max : nblk f ≤ NDIRECT + NINDIRECT;
  do_noind : nblk f ≤ NDIRECT → f_ind f = 0;
  do_words : NDIRECT < nblk f → f_ind f ≠ 0 ∧ ∀ j, 0 ≤ j < NINDIRECT → word (m (f_ind f)) j = zth (f_blks f) (NDIRECT + j);
  do_size : fsize f ≤ BSIZE * nblk f;
  do_data : ∀ k, 0 ≤ k < BSIZE * nblk f → m (zth (f_blks f) (k / BSIZE)) (k mod BSIZE) = zth (f_data f) k
}.

Lemma din_ok_same m f d d' : same_din d d' → din_ok m f d → din_ok m f d'.
Proof.
  intros (S1 & S2 & S3 & S4 & S5 & S6) [F1 F2 F3 F4 F5 F6 F7 F8 F9]. split; rewrite <-?S1, <-?S2, <-?S3, <-?S4, <-?S6 by lia; try done.
  intros k Hk. rewrite <-S6 by lia. by apply F2.
Qed.

Lemma din_ok_frame m m' f d : (∀ b, b ∈ f_blocks f → m' b = m b) → din_ok m f d → din_ok m' f d.
Proof.
  intros Hm [F1 F2 F3 F4 F5 F6 F7 F8 F9]. split; try done.
  - intros Hn. destruct (F7 Hn) as [Hne Hw]. split; [done|]. intros j Hj. rewrite Hm; [by apply Hw|].
    unfold f_blocks. rewrite (proj2 (Z.eqb_neq _ _) Hne). rewrite elem_of_app, list_elem_of_singleton. by right.
  - intros k Hk. rewrite Hm; [by apply F9|]. unfold f_blocks. rewrite elem_of_app. left. apply zth_in. unfold nblk in Hk. dlia.
Qed.

(** The disk has its size, and what has not been handed out is zero. *)
Record st_ok (s : mkfs) : Prop := {
  so_len : len s = FSSIZE;
  so_free : nmeta ≤ freeblock s ≤ FSSIZE;
  so_zero : ∀ b x, freeblock s ≤ b → img s b x = 0
}.

Definition blocks_ok (s : mkfs) (f : finfo) : Prop := NoDup (f_blocks f) ∧ ∀ b, b ∈ f_blocks f → nmeta ≤ b < freeblock s.

(** [f] became [f'] with the next [k] blocks of the disk. *)
Record file_grown (k : Z) (f f' : finfo) (s s' : mkfs) : Prop := {
  gr_k : 0 ≤ k;
  gr_free : freeblock s' = freeblock s + k;
  gr_inode : freeinode s' = freeinode s;
  gr_len : len s' = len s;
  gr_type : f_type f' = f_type f;
  gr_blocks : f_blocks f' ≡ₚ f_blocks f ++ seqZ (freeblock s) k;
  gr_frame : ∀ b, b ∉ f_blocks f' → img s' b = img s b
}.

Lemma grown_refl f s : file_grown 0 f f s s.
Proof. split; try done; [lia|]. cbn. by rewrite app_nil_r. Qed.

Lemma grown_trans k k' f f1 f2 s s1 s2 : file_grown k f f1 s s1 → file_grown k' f1 f2 s1 s2 → file_grown (k + k') f f2 s s2.
Proof.
  intros [A1 A2 A3 A4 A5 A6 A7] [B1 B2 B3 B4 B5 B6 B7]. split; [lia|lia|congruence|congruence|congruence|..].
  - rewrite B6, A6, A2, <-app_assoc, <-seqZ_app by lia. done.
  - intros b Hb. rewrite B7 by done. apply A7. intros Hin. apply Hb. rewrite B6. apply elem_of_app. by left.
Qed.

Lemma grown_blocks k f f' s s' : file_grown k f f' s s' → nmeta ≤ freeblock s → blocks_ok s f → blocks_ok s' f'.
Proof.
  intros [A1 A2 A3 A4 A5 A6 A7] Hf [Hnd Hin]. split.
  - rewrite A6. apply NoDup_app. split_and!; [done| |apply NoDup_seqZ]. intros b Hb Hs%elem_of_seqZ. apply Hin in Hb. lia.
  - intros b. rewrite A6, elem_of_app, elem_of_seqZ. intros [Hb|Hb]; [apply Hin in Hb|]; lia.
Qed.

Lemma grown_st k f f' s s' : file_grown k f f' s s' → blocks_ok s f → st_ok s → freeblock s + k ≤ FSSIZE → st_ok s'.
Proof.
  intros Hg Hb [O1 O2 O3] Hk. pose proof (grown_blocks _ _ _ _ _ Hg (proj1 O2) Hb) as [_ Hin]. destruct Hg as [A1 A2 A3 A4 A5 A6 A7].
  split; [congruence|lia|]. intros b x Hx. rewrite A7; [apply O3; lia|]. intros Hb'%Hin. lia.
Qed.

(** ** Finding the block to write to *)
Lemma fresh_block_wp s (Q : Z → mkfs → Prop) : st_ok s → Q (freeblock s) (set_freeblock (freeblock s + 1) s) → wp fresh_block Q s.
Proof. intros [O1 O2 O3] HQ. unfold fresh_block. wp_steps. by rewrite u32_small by lia. Qed.

Lemma rsect_wp b s (Q : mem → mkfs → Prop) : b < len s → Q (img s b) s → wp (rsect b) Q s.
Proof. intros Hb HQ. unfold rsect. wp_step. wp_step. rewrite (proj2 (Z.ltb_lt _ _)) by done. by wp_step. Qed.

Lemma wsect_wp b m s (Q : unit → mkfs → Prop) : b < len s → Q tt (set_img (fupd (img s) b m) (len s) s) → wp (wsect b m) Q s.
Proof. intros Hb HQ. unfold wsect. wp_step. by rewrite Z.max_l by lia. Qed.

Definition add_blk (b i : Z) (f : finfo) : finfo := mkFinfo (f_type f) (f_data f) (f_blks f ++ [b]) i.

Lemma nblk_add b i f : nblk (add_blk b i f) = nblk f + 1.
Proof. unfold nblk, add_blk. cbn. rewrite length_app. cbn. lia. Qed.

(** A zero block behind the last one continues the file with zeroes. *)
Lemma data_add m f b : fsize f ≤ BSIZE * nblk f → (∀ x, m b x = 0) →
  (∀ k, 0 ≤ k < BSIZE * nblk f → m (zth (f_blks f) (k / BSIZE)) (k mod BSIZE) = zth (f_data f) k) →
  ∀ k, 0 ≤ k < BSIZE * (nblk f + 1) → m (zth (f_blks f ++ [b]) (k / BSIZE)) (k mod BSIZE) = zth (f_data f) k.
Proof.
  intros Hs Hz Hd k Hk. rewrite zth_snoc by dlia. fold (nblk f). case_decide; [|apply Hd; dlia].
  rewrite Hz. symmetry. apply zth_ge. unfold fsize in *. dlia.
Qed.

(** The block that holds byte [fbn * BSIZE], in [k] more blocks. *)
Definition found_in (f : finfo) (k fbn : Z) (s : mkfs) : Z * dinode → mkfs → Prop := λ '(x, din) s', ∃ f',
  file_grown k f f' s s' ∧ f_data f' = f_data f ∧ din_ok (img s') f' din ∧ nblk f' = Z.max (nblk f) (fbn + 1) ∧ x = zth (f_blks f') fbn.

(** A file with an indirect block [i] gets its next block from there. *)
Lemma entry_new s f din i : st_ok s → NDIRECT ≤ nblk f < NDIRECT + NINDIRECT → nmeta ≤ i < freeblock s → i ∉ f_blks f →
  d_type din = f_type f ∧ d_major din = 0 ∧ d_minor din = 0 ∧ d_nlink din = 1 → (∀ k, 0 ≤ k < NDIRECT → d_addrs din k = zth (f_blks f) k) →
  d_addrs din NDIRECT = i → d_addrs din (NDIRECT + 1) = 0 → fsize f ≤ BSIZE * nblk f →
  (∀ b, b ∈ f_blks f → b < freeblock s) →
  (∀ k, 0 ≤ k < BSIZE * nblk f → img s (zth (f_blks f) (k / BSIZE)) (k mod BSIZE) = zth (f_data f) k) →
  (∀ j, 0 ≤ j < NINDIRECT → word (img s i) j = zth (f_blks f) (NDIRECT + j)) →
  wp (block_entry i (nblk f - NDIRECT)) (λ x s', x = freeblock s ∧ freeblock s' = freeblock s + 1 ∧ freeinode s' = freeinode s ∧
    len s' = len s ∧ (∀ b, b ≠ i → img s' b = img s b) ∧ din_ok (img s') (add_blk x i f) din) s.
Proof.
  intros [O1 O2 O3] Hn Hi Hni F1 F2 F3 F4 F8 Hlt F9 Hw. set (b := freeblock s). unfold block_entry. wp_step. apply rsect_wp; [lia|].
  set (j := nblk f - NDIRECT). assert (word (img s i) j = 0) as -> by (rewrite Hw by lia; apply zth_ge; unfold nblk in *; lia).
  cbn [Z.eqb]. wp_step. apply fresh_block_wp; [done|]. wp_step. apply wsect_wp; [cbn; lia|]. wp_step. fold b.
  cbn [img len freeblock freeinode set_img set_freeblock].
  assert (∀ j', 0 ≤ j' < NINDIRECT → word (st32 (img s i) (4 * j) b) j' = if decide (j' = j) then b else word (img s i) j') as Hst.
  { intros j' Hj'. unfold word, ld32, st32. case_decide as E; [|by rewrite ldn_stn_other by lia].
    rewrite E, ldn_stn_same. apply Z.mod_small. unfold b. cbn. lia. }
  rewrite Hst, decide_True by lia. split_and!; [done..|intros c Hc; by rewrite fupd_ne|].
  split; rewrite ?nblk_add; cbn [add_blk f_type f_blks f_ind f_data]; try done; [|lia|lia| |unfold fsize in *; cbn; lia|].
  - intros k Hk. rewrite zth_snoc, decide_False by (fold (nblk f); lia). by apply F2.
  - intros _. split; [lia|]. intros j' Hj'. rewrite fupd_eq, Hst, zth_snoc by lia. fold (nblk f). rewrite Hw by done.
    destruct (decide (j' = j)); [rewrite decide_True by lia|rewrite decide_False by lia]; done.
  - apply data_add; [done| |].
    + intros x. rewrite fupd_ne by lia. apply O3. unfold b. lia.
    + intros k Hk. rewrite fupd_ne; [by apply F9|]. intros E. apply Hni. rewrite <-E. apply zth_in. unfold nblk in Hk. dlia.
Qed.

Section find.
Context (s : mkfs) (f : finfo) (din : dinode).
Hypothesis Hst : st_ok s.
Hypothesis Hbl : blocks_ok s f.
Hypothesis Hdin : din_ok (img s) f din.

Lemma blk_range k : 0 ≤ k < nblk f → nmeta ≤ zth (f_blks f) k < freeblock s.
Proof. intros Hk. apply Hbl. unfold f_blocks. apply elem_of_app. left. by apply zth_in. Qed.

Lemma find_old fbn : 0 ≤ fbn < nblk f → wp (block_for fbn din) (found_in f 0 fbn s) s.
Proof.
  intros Hf. pose proof (blk_range fbn Hf) as Hr. pose proof Hdin as [F1 F2 F3 F4 F5 F6 F7 F8 F9]. pose proof Hst as [O1 O2 O3].
  assert (∀ x, x = zth (f_blks f) fbn → found_in f 0 fbn s (x, din) s) as HQ.
  { intros x ->. exists f. split_and!; [apply grown_refl|done|done|lia|done]. }
  unfold block_for. case_if.
  - wp_step. unfold inode_entry. rewrite F2 by lia. rewrite (proj2 (Z.eqb_neq _ _)) by lia. wp_step. wp_step. apply HQ, F2. lia.
  - rewrite (proj2 (Z.ltb_lt _ _)) by lia. wp_step. unfold inode_entry. destruct (F7 ltac:(lia)) as [Hne Hw].
    rewrite F3, (proj2 (Z.eqb_neq _ _)) by done. wp_step. wp_step. unfold block_entry. wp_step. rewrite F3.
    assert (nmeta ≤ f_ind f < freeblock s).
    { apply Hbl. unfold f_blocks. rewrite (proj2 (Z.eqb_neq _ _) Hne). apply elem_of_app. right. by apply list_elem_of_singleton. }
    apply rsect_wp; [lia|]. rewrite Hw by lia. replace (NDIRECT + (fbn - NDIRECT)) with fbn by lia.
    rewrite (proj2 (Z.eqb_neq _ _)) by lia. wp_step. wp_step. by apply HQ.
Qed.

Lemma find_direct : nblk f < NDIRECT → wp (block_for (nblk f) din) (found_in f 1 (nblk f) s) s.
Proof.
  intros Hf. pose proof Hdin as [F1 F2 F3 F4 F5 F6 F7 F8 F9]. pose proof Hst as [O1 O2 O3]. assert (0 ≤ nblk f) by (unfold nblk; lia).
  unfold block_for. rewrite (proj2 (Z.ltb_lt _ _)) by done. wp_step. unfold inode_entry. rewrite F2, zth_ge by (unfold nblk in *; lia).
  cbn [Z.eqb]. wp_step. apply fresh_block_wp; [done|]. wp_step. wp_step. cbn [set_d_addr d_addrs]. rewrite fupd_eq.
  exists (add_blk (freeblock s) (f_ind f) f). assert (f_ind f = 0) as Hi by (apply F6; lia).
  split_and!; [|done| |rewrite nblk_add; lia|].
  - split; try done. unfold f_blocks. cbn. rewrite Hi. cbn. by rewrite !app_nil_r.
  - split; rewrite ?nblk_add; cbn [add_blk f_type f_blks f_ind f_data set_d_addr d_type d_major d_minor d_nlink d_addrs]; try done.
    + intros k Hk. rewrite zth_snoc, fupd_spec by lia. fold (nblk f). case_decide; [done|]. by apply F2.
    + by rewrite fupd_ne by lia.
    + by rewrite fupd_ne by lia.
    + lia.
    + intros ?. exfalso. lia.
    + unfold fsize in *. cbn. lia.
    + apply data_add; [done| |done]. intros x. apply O3. cbn. lia.
  - cbn. by rewrite zth_snoc, decide_True by (unfold nblk; lia).
Qed.

(** The first block behind the direct ones needs the indirect block too. *)
Lemma find_first_indirect : nblk f = NDIRECT → freeblock s + 2 ≤ FSSIZE → wp (block_for (nblk f) din) (found_in f 2 (nblk f) s) s.
Proof.
  intros Hf Hroom. pose proof Hdin as [F1 F2 F3 F4 F5 F6 F7 F8 F9]. pose proof Hst as [O1 O2 O3]. assert (f_ind f = 0) as Hi by (apply F6; lia).
  assert (f_blocks f = f_blks f) as Hfb by (unfold f_blocks; rewrite Hi; apply app_nil_r).
  unfold block_for. rewrite (proj2 (Z.ltb_ge _ _)), (proj2 (Z.ltb_lt _ _)) by lia.
  wp_step. unfold inode_entry. rewrite F3, Hi. cbn [Z.eqb]. wp_step. apply fresh_block_wp; [done|]. wp_step. wp_step.
  cbn [set_d_addr d_addrs]. rewrite fupd_eq. set (i := freeblock s). set (s1 := set_freeblock (i + 1) s). fold (set_d_addr NDIRECT i din).
  assert (st_ok s1) as Hst1 by (split; cbn; [done|unfold i; lia|intros; apply O3; unfold i in *; lia]).
  assert (∀ b, b ∈ f_blks f → b < i) as Hlt by (intros b Hb; rewrite <-Hfb in Hb; by apply Hbl).
  eapply wp_mono; [apply (entry_new s1 f (set_d_addr NDIRECT i din) i); cbn [d_type d_major d_minor d_nlink d_addrs set_d_addr]|].
  - done.
  - lia.
  - cbn. unfold i. lia.
  - intros Hin%Hlt. lia.
  - done.
  - intros k Hk. rewrite fupd_ne by lia. by apply F2.
  - apply fupd_eq.
  - by rewrite fupd_ne by lia.
  - done.
  - intros b Hb%Hlt. cbn. lia.
  - done.
  - intros j Hj. cbn [img s1 set_freeblock]. rewrite zth_ge by (unfold nblk in *; lia). unfold word, ld32.
    rewrite (ldn_ext 4 _ (λ _, 0)); [done|]. intros x _. apply O3. unfold i. lia.
  - intros x s' (-> & G1 & G2 & G3 & G4 & Hd). wp_step. exists (add_blk (i + 1) i f).
    split_and!; [|done|done|rewrite nblk_add; lia|cbn; by rewrite zth_snoc, decide_True by (unfold nblk; lia)].
    split; [lia|cbn in G1; fold i; lia|done|done|done| |].
    + rewrite Hfb. unfold f_blocks. cbn [add_blk f_ind f_blks]. rewrite (proj2 (Z.eqb_neq _ _)) by (unfold i; lia).
      fold i. rewrite (seqZ_cons i), seqZ_cons, <-app_assoc by lia. cbn [seqZ Z.pred]. apply Permutation_app_head, Permutation_swap.
    + intros b Hb. rewrite G4; [done|]. intros ->. apply Hb. unfold f_blocks. cbn. rewrite (proj2 (Z.eqb_neq _ _)) by (unfold i; lia).
      apply elem_of_app. right. by apply list_elem_of_singleton.
Qed.

Lemma find_next_indirect : NDIRECT < nblk f < NDIRECT + NINDIRECT → freeblock s + 1 ≤ FSSIZE →
  wp (block_for (nblk f) din) (found_in f 1 (nblk f) s) s.
Proof.
  intros Hf Hroom. pose proof Hdin as [F1 F2 F3 F4 F5 F6 F7 F8 F9]. pose proof Hst as [O1 O2 O3]. destruct (F7 ltac:(lia)) as [Hne Hw].
  pose proof Hbl as [Hnd Hin]. assert (f_blocks f = f_blks f ++ [f_ind f]) as Hfb by (unfold f_blocks; by rewrite (proj2 (Z.eqb_neq _ _) Hne)).
  rewrite Hfb in Hnd, Hin. apply NoDup_app in Hnd as (_ & Hni & _).
  unfold block_for. rewrite (proj2 (Z.ltb_ge _ _)), (proj2 (Z.ltb_lt _ _)) by lia.
  wp_step. unfold inode_entry. rewrite F3, (proj2 (Z.eqb_neq _ _)) by done. wp_step. wp_step. rewrite F3.
  eapply wp_mono; [apply (entry_new s f din (f_ind f)); try done; [lia| | |]|].
  - apply Hin, elem_of_app. right. by apply list_elem_of_singleton.
  - intros H. apply (Hni _ H). by apply list_elem_of_singleton.
  - intros b Hb. apply Hin, elem_of_app. by left.
  - intros x s' (-> & G1 & G2 & G3 & G4 & Hd). wp_step. exists (add_blk (freeblock s) (f_ind f) f).
    assert (f_blocks (add_blk (freeblock s) (f_ind f) f) = f_blks f ++ [freeblock s] ++ [f_ind f]) as Hfb'.
    { unfold f_blocks. cbn [add_blk f_ind f_blks]. by rewrite (proj2 (Z.eqb_neq _ _) Hne), <-app_assoc. }
    split_and!; [|done|done|rewrite nblk_add; lia|cbn; by rewrite zth_snoc, decide_True by (unfold nblk; lia)].
    split; [lia|done|done|done|done| |].
    + rewrite Hfb, Hfb', <-app_assoc. rewrite seqZ_cons by lia. cbn.
      apply Permutation_app_head, Permutation_swap.
    + intros b Hb. rewrite Hfb' in Hb. apply G4. intros ->. apply Hb. rewrite !elem_of_app, !list_elem_of_singleton. tauto.
Qed.
End find.

(** The data blocks of a file of [n] bytes, and all its blocks. *)
Definition blkcount (n : Z) : Z := (n + BSIZE - 1) / BSIZE.
Definition cost (n : Z) : Z := blkcount n + (if NDIRECT <? blkcount n then 1 else 0).
Definition exact (f : finfo) : Prop := nblk f = blkcount (fsize f).
Definition MAXBYTES : Z := (NDIRECT + NINDIRECT) * BSIZE.

Lemma cost_mono n m : n ≤ m → cost n ≤ cost m.
Proof.
  intros H. unfold cost. assert (blkcount n ≤ blkcount m) by (unfold blkcount; dlia).
  destruct (Z.ltb_spec NDIRECT (blkcount n)), (Z.ltb_spec NDIRECT (blkcount m)); lia.
Qed.

Lemma cost_same n m : blkcount n = blkcount m → cost n = cost m.
Proof. unfold cost. by intros ->. Qed.

Lemma blkcount_next n m : 0 ≤ n → n < m ≤ (n / BSIZE + 1) * BSIZE → blkcount m = n / BSIZE + 1.
Proof. intros. unfold blkcount. dlia. Qed.

(** The block for the byte behind the last one. *)
Lemma find_wp s f din : st_ok s → blocks_ok s f → din_ok (img s) f din → exact f → fsize f < MAXBYTES →
  let k := cost (fsize f + 1) - cost (fsize f) in freeblock s + k ≤ FSSIZE →
  wp (block_for (fsize f / BSIZE) din) (found_in f k (fsize f / BSIZE) s) s.
Proof.
  intros Hst Hbl Hdin Hex Hmax k Hroom. unfold MAXBYTES in Hmax. assert (0 ≤ fsize f) as H0 by (unfold fsize; lia).
  assert (blkcount (fsize f + 1) = fsize f / BSIZE + 1) as Hb1 by (apply blkcount_next; dlia).
  destruct (decide (fsize f mod BSIZE = 0)) as [Hm|Hm].
  - assert (nblk f = fsize f / BSIZE) as Hn by (rewrite Hex; unfold blkcount; dlia). unfold exact in Hex. unfold k, cost in *.
    rewrite Hb1, <-Hex in *. rewrite <-Hn in *. destruct (Z.lt_trichotomy (nblk f) NDIRECT) as [?|[?|?]].
    + rewrite !(proj2 (Z.ltb_ge _ _)) in * by lia. replace (nblk f + 1 + 0 - (nblk f + 0)) with 1 in * by lia. by apply find_direct.
    + rewrite (proj2 (Z.ltb_ge NDIRECT (nblk f))), (proj2 (Z.ltb_lt NDIRECT (nblk f + 1))) in * by lia.
      replace (nblk f + 1 + 1 - (nblk f + 0)) with 2 in * by lia. by apply find_first_indirect.
    + rewrite !(proj2 (Z.ltb_lt _ _)) in * by lia. replace (nblk f + 1 + 1 - (nblk f + 1)) with 1 in * by lia.
      apply find_next_indirect; [done..|dlia|done].
  - assert (nblk f = fsize f / BSIZE + 1) as Hn by (rewrite Hex; unfold blkcount; dlia).
    unfold k. rewrite (cost_same (fsize f + 1) (fsize f)) by (rewrite Hb1, <-Hn; apply Hex). rewrite Z.sub_diag.
    apply find_old; [done..|dlia].
Qed.

Definition add_data (q : list Z) (f : finfo) : finfo := mkFinfo (f_type f) (f_data f ++ q) (f_blks f) (f_ind f).

Lemma fsize_add q f : fsize (add_data q f) = fsize f + Z.of_nat (length q).
Proof. unfold fsize, add_data. cbn. rewrite length_app. lia. Qed.

(** Bytes written behind the last one, in one block. *)
Lemma write_ok m f d q : let fbn := fsize f / BSIZE in let x := zth (f_blks f) fbn in
  din_ok m f d → NoDup (f_blocks f) → fbn < nblk f → byte_list q → fsize f mod BSIZE + Z.of_nat (length q) ≤ BSIZE →
  din_ok (fupd m x (write_bytes (m x) (fsize f - fbn * BSIZE) q)) (add_data q f) d.
Proof.
  intros fbn x [F1 F2 F3 F4 F5 F6 F7 F8 F9] Hnd Hf Hq Hlen. assert (0 ≤ fsize f) by (unfold fsize; lia).
  assert (0 ≤ fbn < nblk f) as Hfbn by (unfold fbn in *; dlia).
  assert (x ∈ f_blks f) as Hx by by apply zth_in.
  split; try done; change (nblk (add_data q f)) with (nblk f) in *; [|rewrite fsize_add; unfold fbn in *; dlia|].
  - intros Hn. destruct (F7 Hn) as [Hne Hw]. split; [done|]. cbn [add_data f_ind f_blks]. intros j Hj. rewrite fupd_ne; [by apply Hw|].
    intros E. unfold f_blocks in Hnd. rewrite (proj2 (Z.eqb_neq _ _) Hne) in Hnd. apply NoDup_app in Hnd as (_ & Hd & _).
    apply (Hd x Hx). rewrite <-E. by apply list_elem_of_singleton.
  - intros k Hk. cbn [add_data f_data f_blks]. rewrite zth_app by lia. fold (fsize f). rewrite fupd_spec.
    destruct (decide (k / BSIZE = fbn)) as [E|E].
    + rewrite decide_True by (unfold x; by rewrite E). rewrite write_bytes_get by done. unfold x. rewrite <-E, F9 by done.
      unfold fbn in E. case_decide.
      * rewrite decide_True by dlia. f_equal. dlia.
      * by rewrite decide_False by dlia.
    + rewrite decide_False, decide_False, F9; [done|done|unfold fbn in *; dlia|].
      intros Heq. apply E. apply (zth_inj (f_blks f)); try done; [|fold (nblk f); dlia].
      unfold f_blocks in Hnd. by apply NoDup_app in Hnd as (? & _).
Qed.

(** ** Appending *)

(** [f] was extended by [q], with the blocks that takes. *)
Definition extended (q : list Z) (f f' : finfo) (s s' : mkfs) : Prop :=
  file_grown (cost (fsize f') - cost (fsize f)) f f' s s' ∧ f_data f' = f_data f ++ q ∧ exact f'.

Lemma extended_size q f f' s s' : extended q f f' s s' → fsize f' = fsize f + Z.of_nat (length q).
Proof. intros (_ & E & _). unfold fsize. rewrite E, length_app. lia. Qed.

Lemma extended_trans q q' f f1 f2 s s1 s2 : extended q f f1 s s1 → extended q' f1 f2 s1 s2 → extended (q ++ q') f f2 s s2.
Proof.
  intros (A1 & A2 & A3) (B1 & B2 & B3). split_and!; [|by rewrite B2, A2, app_assoc|done].
  replace (cost (fsize f2) - cost (fsize f)) with (cost (fsize f1) - cost (fsize f) + (cost (fsize f2) - cost (fsize f1))) by lia.
  by eapply grown_trans.
Qed.

(** What appending relies on, with room for a file of [n] bytes. *)
Definition ready (n : Z) (f : finfo) (din : dinode) (s : mkfs) : Prop :=
  st_ok s ∧ blocks_ok s f ∧ din_ok (img s) f din ∧ exact f ∧ n ≤ MAXBYTES ∧ freeblock s + (cost n - cost (fsize f)) ≤ FSSIZE.

Lemma ready_extended n q f f' din din' s s' : ready n f din s → extended q f f' s s' → din_ok (img s') f' din' → fsize f' ≤ n →
  ready n f' din' s'.
Proof.
  intros (Hst & Hbl & Hd & He & Hn & Hr) Hx Hd' Hs. pose proof Hx as (Hg & _ & He').
  pose proof (cost_mono _ _ Hs). unfold ready. split_and!; [|eapply grown_blocks; [done|apply Hst|done]|done..|].
  - eapply grown_st; [done..|lia].
  - rewrite (gr_free _ _ _ _ _ Hg). lia.
Qed.

Lemma turn_wp n f din p s (Q : dinode * Z * list Z + dinode * Z → mkfs → Prop) : ready n f din s → p ≠ [] → byte_list p →
  fsize f + Z.of_nat (length p) ≤ n →
  (∀ q p' f' din' s', p = q ++ p' → q ≠ [] → extended q f f' s s' → din_ok (img s') f' din' → Q (inl (din', fsize f', p')) s') →
  wp (iappend_turn (din, fsize f, p)) Q s.
Proof.
  intros (Hst & Hbl & Hd & He & Hn & Hr) Hp Hby Hlen HQ. unfold iappend_turn. destruct p as [|c p0]; [done|].
  cbv beta iota. assert (0 < Z.of_nat (length (c :: p0))) as Hp' by (cbn; lia). set (p := c :: p0) in *. clearbody p.
  assert (0 ≤ fsize f) as H0 by (unfold fsize; lia). unfold MAXBYTES in Hn. cbv zeta. set (fbn := fsize f / BSIZE).
  wp_step. unfold assert. rewrite (proj2 (Z.ltb_lt _ _)) by (unfold fbn; dlia). wp_step. wp_step.
  pose proof (cost_mono (fsize f + 1) n ltac:(lia)) as Hc. eapply wp_mono; [apply find_wp; try done; unfold MAXBYTES; lia|].
  intros [x din1] s1 (f1 & Hg1 & Hdata & Hd1 & Hn1 & ->). fold fbn in Hn1 |- *.
  assert (fsize f1 = fsize f) as Hs1 by (unfold fsize; by rewrite Hdata).
  pose proof (grown_blocks _ _ _ _ _ Hg1 (proj1 (so_free _ Hst)) Hbl) as [Hnd1 Hin1].
  assert (st_ok s1) as Hst1 by (eapply grown_st; [done..|lia]).
  assert (zth (f_blks f1) fbn ∈ f_blocks f1) as Hxin.
  { unfold f_blocks. apply elem_of_app. left. apply zth_in. fold (nblk f1). unfold fbn in *. dlia. }
  pose proof (Hin1 _ Hxin) as Hx. pose proof (so_free _ Hst1) as Hfr. pose proof (so_len _ Hst1) as Hl1.
  set (n1 := Z.min (Z.of_nat (length p)) ((fbn + 1) * BSIZE - fsize f)). set (q := take (Z.to_nat n1) p).
  assert (0 < n1 ∧ fsize f + n1 ≤ (fbn + 1) * BSIZE ∧ n1 ≤ Z.of_nat (length p)) as (Hn1p & Hn1b & Hn1l) by (unfold n1, fbn; dlia).
  assert (Z.of_nat (length q) = n1) as Hq by (unfold q; rewrite length_take; lia).
  wp_step. apply rsect_wp; [lia|]. wp_step. apply wsect_wp; [lia|]. wp_step.
  rewrite u32_small by lia. replace (fsize f + n1) with (fsize (add_data q f1)) by (rewrite fsize_add; lia).
  apply (HQ q); [unfold q; by rewrite take_drop|intros Hq0; rewrite Hq0 in Hq; cbn in Hq; lia| |].
  - unfold extended. rewrite fsize_add, Hq, Hs1. split_and!; [|cbn; by rewrite Hdata|].
    + rewrite (cost_same (fsize f + n1) (fsize f + 1)) by (rewrite !(blkcount_next (fsize f)); fold fbn; unfold fbn in *; dlia).
      destruct Hg1 as [G1 G2 G3 G4 G5 G6 G7]. split; try done. intros b Hb. cbn. rewrite fupd_ne; [by apply G7|].
      intros ->. by apply Hb.
    + unfold exact. rewrite fsize_add, Hq, Hs1, (blkcount_next (fsize f)) by (fold fbn; lia). change (nblk (add_data q f1)) with (nblk f1).
      rewrite Hn1, He. fold fbn. unfold blkcount, fbn. dlia.
  - cbn. rewrite <-Hs1. unfold fbn. rewrite <-Hs1. apply write_ok; [done..| | |]; rewrite ?Hs1; fold fbn; [lia| |unfold fbn in *; dlia].
    unfold q, byte_list. by apply Forall_take.
Qed.

Lemma append_loop n f din p s : ready n f din s → byte_list p → fsize f + Z.of_nat (length p) ≤ n →
  wp (while (S (length p)) iappend_turn (din, fsize f, p)) (λ '(din', off) s', ∃ f', extended p f f' s s' ∧
    din_ok (img s') f' din' ∧ off = fsize f') s.
Proof.
  intros Hrd Hby Hlen. apply (wp_while (λ k '(din', off, rest) s', ∃ f' q, p = q ++ rest ∧ extended q f f' s s' ∧
    ready n f' din' s' ∧ off = fsize f' ∧ (length rest < k)%nat)).
  2:{ exists f, []. split_and!; [done| |done|done|lia]. unfold extended. rewrite Z.sub_diag.
      split_and!; [apply grown_refl|by rewrite app_nil_r|apply Hrd]. }
  intros k [[din1 off] rest] s1 (f1 & q & -> & Hx & Hrd1 & -> & Hk). destruct k as [|k]; [lia|]. exists k. split; [done|].
  apply Forall_app in Hby as [Hbq Hbr]. rewrite length_app in Hlen. pose proof (extended_size _ _ _ _ _ Hx).
  destruct (decide (rest = [])) as [->|Hne].
  { unfold iappend_turn. wp_step. exists f1. rewrite app_nil_r. split_and!; [done|apply Hrd1|done]. }
  eapply turn_wp; [done..|lia|]. intros q1 p' f2 din2 s2 -> Hq1 Hx2 Hd2. exists f2, (q ++ q1). rewrite length_app in *.
  pose proof (extended_size _ _ _ _ _ Hx2).
  split_and!; [by rewrite app_assoc|by eapply extended_trans|eapply ready_extended; [done..|lia]|done|].
  destruct q1; [done|]. cbn in *. lia.
Qed.

(** ** The image *)

(** Inode [n] of the image represents [f] and has size [sz]. *)
Definition inode_is (s : mkfs) (n : Z) (f : finfo) (sz : Z) : Prop :=
  let d := get_dinode (img s (IBLOCK n mkfs_sb)) (di_off n) in
  din_ok (img s) f d ∧ exact f ∧ d_size d = sz ∧ (f_type f = T_DIR ∨ f_type f = T_FILE).

(** The blocks that belong to no file. *)
Record meta_ok (s : mkfs) : Prop := {
  me_sb : img s 1 = sb_block;
  me_zero : ∀ b x, b = 0 ∨ 2 ≤ b < 33 → img s b x = 0;
  me_inodes : ∀ n x, freeinode s ≤ n < 208 → di_off n ≤ x < di_off n + 64 → img s (IBLOCK n mkfs_sb) x = 0
}.

(** The blocks of all files. *)
Definition total (fs : list finfo) : Z := foldr (λ f a, cost (fsize f) + a) 0 fs.

Lemma total_app fs1 fs2 : total (fs1 ++ fs2) = total fs1 + total fs2.
Proof. induction fs1 as [|f fs1 IH]; [done|]. cbn. fold (total (fs1 ++ fs2)) (total fs1). lia. Qed.

(** Inodes 1, 2, ... represent the files [fs], which share no block. *)
Record image_ok (fs : list finfo) (s : mkfs) : Prop := {
  im_st : st_ok s;
  im_free : freeblock s = nmeta + total fs;
  im_meta : meta_ok s;
  im_inode : freeinode s = 1 + Z.of_nat (length fs) ∧ Z.of_nat (length fs) < NINODES;
  im_files : ∀ n f, fs !! n = Some f → inode_is s (1 + Z.of_nat n) f (fsize f);
  im_nodup : NoDup (fs ≫= f_blocks);
  im_range : ∀ b, b ∈ fs ≫= f_blocks → nmeta ≤ b < freeblock s
}.

Lemma din_ok_fits s f d : st_ok s → din_ok (img s) f d → blocks_ok s f → f_type f = T_DIR ∨ f_type f = T_FILE → 0 ≤ d_size d < 2^32 → din_fits d.
Proof.
  intros Hst [F1 F2 F3 F4 F5 F6 F7 F8 F9] [_ Hin] Hty Hsz. pose proof (so_free _ Hst) as Hfr.
  unfold din_fits. destruct F1 as (-> & -> & -> & ->). assert (∀ k, 0 ≤ k → 0 ≤ zth (f_blks f) k < 2^32) as Hz.
  { intros k Hk. destruct (decide (k < nblk f)); [|rewrite zth_ge by (unfold nblk in *; lia); lia].
    assert (zth (f_blks f) k ∈ f_blocks f) as Hb%Hin by (unfold f_blocks; apply elem_of_app; left; by apply zth_in). lia. }
  split_and!; try lia. intros k Hk.
  destruct (decide (k < NDIRECT)); [rewrite F2 by lia; apply Hz; lia|]. destruct (decide (k = NDIRECT)) as [->|].
  - rewrite F3. destruct (decide (f_ind f = 0)) as [->|Hne]; [lia|]. assert (f_ind f ∈ f_blocks f) as Hb%Hin; [|lia].
    unfold f_blocks. rewrite (proj2 (Z.eqb_neq _ _) Hne). apply elem_of_app. right. by apply list_elem_of_singleton.
  - replace k with (NDIRECT + 1) by lia. rewrite F4. lia.
Qed.

Lemma winode_wp n d s (Q : unit → mkfs → Prop) : st_ok s → 1 ≤ n < 208 → let b := IBLOCK n mkfs_sb in
  Q tt (set_img (fupd (img s) b (store_dinode d (img s b) (di_off n))) (len s) s) → wp (winode n d) Q s.
Proof.
  intros [O1 O2 O3] Hn b HQ. pose proof (IBLOCK_range n Hn). unfold winode. wp_step. apply rsect_wp; [lia|]. by apply wsect_wp; [lia|].
Qed.

Lemma rinode_wp n s (Q : dinode → mkfs → Prop) : st_ok s → 1 ≤ n < 208 →
  Q (get_dinode (img s (IBLOCK n mkfs_sb)) (di_off n)) s → wp (rinode n) Q s.
Proof. intros [O1 O2 O3] Hn HQ. pose proof (IBLOCK_range n Hn). unfold rinode. wp_step. apply rsect_wp; [lia|]. by wp_step. Qed.

(** Writing inode [n] leaves the other ones and the blocks of files. *)
Definition with_inode (n : Z) (d : dinode) (s : mkfs) : mkfs :=
  let b := IBLOCK n mkfs_sb in set_img (fupd (img s) b (store_dinode d (img s b) (di_off n))) (len s) s.

Lemma with_inode_st n d s : 1 ≤ n < 208 → st_ok s → st_ok (with_inode n d s).
Proof.
  intros Hn [O1 O2 O3]. pose proof (IBLOCK_range n Hn). split; [done..|]. intros b x Hb. cbn in *. rewrite fupd_ne by lia. by apply O3.
Qed.

Lemma with_inode_get n d s : din_fits d → same_din d (get_dinode (img (with_inode n d s) (IBLOCK n mkfs_sb)) (di_off n)).
Proof.
  intros Hd. cbn. rewrite fupd_eq. destruct (store_dinode_get d (img s (IBLOCK n mkfs_sb)) (di_off n) Hd) as (?&?&?&?&?&H).
  unfold same_din. split_and!; try done. intros k Hk. by rewrite H.
Qed.

Lemma with_inode_other n m d s x : 1 ≤ n < 208 → 1 ≤ m < 208 → n ≠ m → di_off m ≤ x < di_off m + 64 →
  img (with_inode n d s) (IBLOCK m mkfs_sb) x = img s (IBLOCK m mkfs_sb) x.
Proof.
  intros Hn Hm Hne Hx. cbn. rewrite fupd_spec. case_decide as E; [|done].
  rewrite store_dinode_other by (destruct (di_off_apart m n E Hm Hn); lia). by rewrite E.
Qed.

Lemma with_inode_data n d s b : 1 ≤ n < 208 → nmeta ≤ b → img (with_inode n d s) b = img s b.
Proof. intros Hn Hb. pose proof (IBLOCK_range n Hn). cbn. by rewrite fupd_ne by lia. Qed.

Lemma inode_is_frame s s' n f sz : inode_is s n f sz → (∀ b, b ∈ f_blocks f → img s' b = img s b) →
  (∀ x, di_off n ≤ x < di_off n + 64 → img s' (IBLOCK n mkfs_sb) x = img s (IBLOCK n mkfs_sb) x) → inode_is s' n f sz.
Proof.
  intros (Hd & He & Hs & Ht) Hb Hi. assert (same_din (get_dinode (img s (IBLOCK n mkfs_sb)) (di_off n)) (get_dinode (img s' (IBLOCK n mkfs_sb)) (di_off n)))
    as Hsame by (apply get_dinode_ext; intros x Hx; by rewrite Hi).
  unfold inode_is. split_and!; [|done| |done].
  - eapply din_ok_frame; [done|]. by eapply din_ok_same.
  - destruct Hsame as (_ & _ & _ & _ & <- & _). done.
Qed.

(** The blocks of all files when one of them grows. *)
Lemma bind_grown k f f' s s' fs1 fs2 : file_grown k f f' s s' →
  (fs1 ++ f' :: fs2) ≫= f_blocks ≡ₚ ((fs1 ++ f :: fs2) ≫= f_blocks) ++ seqZ (freeblock s) k.
Proof.
  intros Hg. rewrite !bind_app, !bind_cons, (gr_blocks _ _ _ _ _ Hg). solve_Permutation.
Qed.

Lemma image_blocks fs1 f fs2 s : image_ok (fs1 ++ f :: fs2) s → blocks_ok s f.
Proof.
  intros [I1 I0 I2 I3 I4 I5 I6]. rewrite bind_app, bind_cons in I5, I6. split.
  - apply NoDup_app in I5 as (_ & _ & I5). by apply NoDup_app in I5 as (? & _).
  - intros b Hb. apply I6. rewrite !elem_of_app. tauto.
Qed.

(** Two files share no block. *)
Lemma files_apart fs i j f g b : NoDup (fs ≫= f_blocks) → fs !! i = Some f → fs !! j = Some g → i ≠ j → b ∈ f_blocks f → b ∉ f_blocks g.
Proof.
  intros Hnd Hi Hj Hne Hf Hg. assert (∀ i j f g, fs !! i = Some f → fs !! j = Some g → (i < j)%nat → b ∈ f_blocks f → b ∈ f_blocks g → False) as Hlt.
  { clear -Hnd. intros i j f g Hi Hj Hlt Hf Hg. rewrite <-(take_drop_middle fs i f Hi), bind_app, bind_cons in Hnd.
    apply NoDup_app in Hnd as (_ & _ & Hnd). apply NoDup_app in Hnd as (_ & Hd & _). apply (Hd b Hf), list_elem_of_bind.
    exists g. split; [done|]. apply list_elem_of_lookup. exists (j - S i)%nat. rewrite lookup_drop. by replace (S i + (j - S i))%nat with j by lia. }
  destruct (decide (i < j)%nat); [by eapply (Hlt i j)|eapply (Hlt j i); try done; lia].
Qed.

(** A file keeps its inode when another one is written and its blocks stay. *)
Lemma other_kept s s' n j g d sz : inode_is s j g sz → 1 ≤ n < 208 → 1 ≤ j < 208 → n ≠ j → (∀ b, b ∈ f_blocks g → nmeta ≤ b) →
  (∀ b, b < nmeta ∨ b ∈ f_blocks g → img s' b = img s b) → inode_is (with_inode n d s') j g sz.
Proof.
  intros Hi Hn Hj Hne Hb Hs. eapply inode_is_frame; [done| |].
  - intros b Hin. rewrite with_inode_data by auto. apply Hs. by right.
  - intros x Hx. rewrite with_inode_other by done. pose proof (IBLOCK_range j Hj). rewrite Hs by lia. done.
Qed.

(** A file that was written is read back. *)
Lemma this_written s n f d : 1 ≤ n < 208 → din_fits d → din_ok (img s) f d → exact f → f_type f = T_DIR ∨ f_type f = T_FILE →
  (∀ b, b ∈ f_blocks f → nmeta ≤ b) → inode_is (with_inode n d s) n f (d_size d).
Proof.
  intros Hn Hfit Hd He Hty Hb. unfold inode_is. pose proof (with_inode_get n d s Hfit) as Hs. split_and!; [|done| |done].
  - eapply din_ok_same; [done|]. eapply din_ok_frame; [|done]. intros b Hin%Hb. by apply with_inode_data.
  - by destruct Hs as (_ & _ & _ & _ & <- & _).
Qed.

Lemma meta_written s s' n d : meta_ok s → 1 ≤ n < 208 → n < freeinode s' → freeinode s ≤ freeinode s' →
  (∀ b, b < nmeta → img s' b = img s b) → meta_ok (with_inode n d s').
Proof.
  intros [M1 M2 M3] Hn Hni Hfi Hlow. pose proof (IBLOCK_range n Hn). split.
  - cbn. by rewrite fupd_ne, Hlow by lia.
  - intros b x Hb. cbn. rewrite fupd_ne, Hlow by lia. by apply M2.
  - intros j x Hj Hx. cbn in Hj. rewrite with_inode_other by lia. pose proof (IBLOCK_range j ltac:(lia)). rewrite Hlow by lia. by apply M3; [lia|].
Qed.

(** A file that grew is written back. *)
Lemma image_grown fs1 f f' fs2 s s' d : let k := cost (fsize f') - cost (fsize f) in
  image_ok (fs1 ++ f :: fs2) s → file_grown k f f' s s' → freeblock s + k ≤ FSSIZE →
  din_ok (img s') f' d → exact f' → d_size d = fsize f' → fsize f' ≤ MAXBYTES →
  image_ok (fs1 ++ f' :: fs2) (with_inode (1 + Z.of_nat (length fs1)) d s').
Proof.
  intros k HI Hg Hk Hd He Hsz Hmax. pose proof (image_blocks _ _ _ _ HI) as Hbl. pose proof HI as [I1 I0 I2 I3 I4 I5 I6].
  pose proof (grown_st _ _ _ _ _ Hg Hbl I1 Hk) as Hst'. pose proof (so_free _ I1) as Hfr.
  pose proof (grown_blocks _ _ _ _ _ Hg (proj1 Hfr) Hbl) as [Hnd' Hin'].
  set (n := 1 + Z.of_nat (length fs1)). assert (1 ≤ n < 208) as Hn.
  { destruct I3 as [_ I3]. rewrite length_app in I3. cbn in I3. unfold n. lia. }
  pose proof (gr_frame _ _ _ _ _ Hg) as Hfrm. pose proof (gr_free _ _ _ _ _ Hg) as Hf'. pose proof (gr_k _ _ _ _ _ Hg) as Hk0.
  assert (∀ b, b < nmeta → img s' b = img s b) as Hlow by (intros b Hb; apply Hfrm; intros H%Hin'; lia).
  assert (f_type f' = T_DIR ∨ f_type f' = T_FILE) as Hty.
  { rewrite (gr_type _ _ _ _ _ Hg). eapply (I4 (length fs1)). by apply list_lookup_middle. }
  assert (din_fits d) as Hfit.
  { eapply din_ok_fits; [exact Hst'|done|done|done|]. rewrite Hsz. unfold MAXBYTES, fsize in *. lia. }
  assert (NoDup ((fs1 ++ f' :: fs2) ≫= f_blocks)) as Hnda.
  { rewrite (bind_grown _ _ _ _ _ _ _ Hg). apply NoDup_app. split_and!; [done| |apply NoDup_seqZ]. intros b Hb%I6 Hs%elem_of_seqZ. lia. }
  split.
  - by apply with_inode_st.
  - cbn. rewrite Hf', I0, !total_app. cbn. lia.
  - eapply meta_written; [done|done|rewrite (gr_inode _ _ _ _ _ Hg); destruct I3 as [-> _]; rewrite length_app; cbn; unfold n; lia| |done].
    by rewrite (gr_inode _ _ _ _ _ Hg).
  - cbn. rewrite (gr_inode _ _ _ _ _ Hg). rewrite length_app in *. cbn in *. lia.
  - intros j g Hj. destruct (decide (j = length fs1)) as [->|Hne].
    + rewrite list_lookup_middle in Hj by done. injection Hj as <-. fold n. rewrite <-Hsz. apply this_written; try done. intros b Hb%Hin'. lia.
    + assert ((fs1 ++ f :: fs2) !! j = Some g) as Hj0.
      { rewrite <-Hj. destruct (decide (j < length fs1)%nat); [by rewrite !lookup_app_l by lia|]. rewrite !lookup_app_r by lia.
        by destruct (j - length fs1)%nat eqn:E; [lia|]. }
      pose proof (lookup_lt_Some _ _ _ Hj0) as Hlt.
      eapply (other_kept s); [by eapply I4|done|lia|unfold n; lia| |].
      * intros b Hb. apply I6, list_elem_of_bind. exists g. split; [done|]. by eapply list_elem_of_lookup_2.
      * intros b [Hb|Hb]; [by apply Hlow|]. apply Hfrm. eapply (files_apart _ j (length fs1)); [done..|by apply list_lookup_middle|done|done].
  - done.
  - intros b. cbn. rewrite (bind_grown _ _ _ _ _ _ _ Hg), elem_of_app, elem_of_seqZ. intros [Hb%I6|Hb]; lia.
Qed.

(** ** The operations on the image *)
Lemma iappend_wp fs1 f fs2 p s : let n := fsize f + Z.of_nat (length p) in
  image_ok (fs1 ++ f :: fs2) s → byte_list p → n ≤ MAXBYTES → nmeta + total (fs1 ++ f :: fs2) + (cost n - cost (fsize f)) ≤ FSSIZE →
  wp (iappend (1 + Z.of_nat (length fs1)) p) (λ _ s', ∃ f', f_type f' = f_type f ∧ f_data f' = f_data f ++ p ∧
    image_ok (fs1 ++ f' :: fs2) s') s.
Proof.
  intros n HI Hby Hmax Hroom. pose proof HI as [I1 I0 I2 I3 I4 I5 I6]. pose proof (image_blocks _ _ _ _ HI) as Hbl.
  destruct (I4 (length fs1) f ltac:(by apply list_lookup_middle)) as (Hd & He & Hs & Ht).
  assert (1 ≤ 1 + Z.of_nat (length fs1) < 208) as Hn by (rewrite length_app in I3; cbn in I3; lia).
  unfold iappend. wp_step. apply rinode_wp; [done..|]. rewrite Hs. wp_step.
  eapply wp_mono; [apply (append_loop n); [|done|done]|].
  - unfold ready. split_and!; try done. lia.
  - intros [din' off] s' (f' & Hx & Hd' & ->). pose proof (extended_size _ _ _ _ _ Hx) as Hsz. destruct Hx as (Hg & Hdata & He').
    assert (freeblock s + (cost (fsize f') - cost (fsize f)) ≤ FSSIZE) as Hk by (rewrite Hsz, I0; fold n; lia).
    apply winode_wp; [by eapply grown_st|done|]. exists f'. split_and!; [by eapply gr_type|done|].
    apply (image_grown fs1 f f' fs2 s s'); try done; [|fold n in Hsz; lia].
    destruct Hd'. split; done.
Qed.

Lemma ialloc_wp fs t s : image_ok fs s → Z.of_nat (length fs) + 1 < NINODES → t = T_DIR ∨ t = T_FILE →
  wp (ialloc t) (λ n s', n = 1 + Z.of_nat (length fs) ∧ image_ok (fs ++ [mkFinfo t [] [] 0]) s') s.
Proof.
  intros [I1 I0 I2 I3 I4 I5 I6] Hlen Ht. pose proof I3 as [Hfi _]. unfold ialloc. wp_step. wp_step. wp_step. wp_step.
  assert (∀ b, b ∈ fs ≫= f_blocks → nmeta ≤ b) as Hge by (intros b Hb%I6; lia).
  set (n := freeinode s) in *. rewrite u32_small by lia. set (s1 := set_freeinode (n + 1) s).
  set (d := mkDinode (s16 t) 0 0 1 0 (λ _, 0)). set (f := mkFinfo t [] [] 0).
  assert (din_ok (img s1) f d) as Hd.
  { split; cbn; try done; [by destruct Ht as [-> | ->]|unfold nblk; cbn; intros; lia]. }
  assert (din_fits d) as Hfit.
  { assert (s16 t = t) as E by (by destruct Ht as [-> | ->]). unfold din_fits. cbn [d_type d_major d_minor d_nlink d_size d_addrs d].
    rewrite E. split_and!; intros; lia. }
  wp_step. apply winode_wp; [by destruct I1; split|lia|]. wp_step. split; [done|]. change (image_ok (fs ++ [f]) (with_inode n d s1)).
  assert ((fs ++ [f]) ≫= f_blocks = fs ≫= f_blocks) as Hbind by (rewrite bind_app; cbn; by rewrite app_nil_r).
  split.
  - apply with_inode_st; [lia|]. by destruct I1; split.
  - rewrite total_app. change (total [f]) with 0. change (freeblock (with_inode n d s1)) with (freeblock s). lia.
  - apply (meta_written s); [done|lia|cbn; lia|cbn; lia|done].
  - cbn. rewrite length_app. cbn. lia.
  - intros j g [Hj|[Hj Hg]]%lookup_app_Some.
    + pose proof (lookup_lt_Some _ _ _ Hj). apply (other_kept s); [by apply I4|lia|lia|lia| |done].
      intros b Hb. apply Hge, list_elem_of_bind. exists g. split; [done|]. by eapply list_elem_of_lookup_2.
    + apply list_lookup_singleton_Some in Hg as [Hz <-]. replace (1 + Z.of_nat j) with n by lia.
      apply (this_written s1 n f d); try done; [lia|]. intros b Hb. by apply elem_of_nil in Hb.
  - by rewrite Hbind.
  - by rewrite Hbind.
Qed.

(** ** The files named on the command line *)
Definition base_name (arg : list Z) : list Z :=
  if decide (take 5 arg = [117; 115; 101; 114; 47]) then drop 5 arg else arg.
Definition file_name (f : source) : list Z := skip_underscore (base_name f.1).
Definition contents (f : source) : list Z := concat (default [] f.2).

(** A file that can be opened, of at most MAXBYTES bytes, with a name that fits
    in a directory entry. *)
Record source_ok (f : source) : Prop := {
  sr_open : is_Some f.2;
  sr_base : existsb (Z.eqb 47) (base_name f.1) = false;
  sr_name : Z.of_nat (length (file_name f)) ≤ DIRSIZ;
  sr_chars : byte_list f.1;
  sr_bytes : byte_list (contents f);
  sr_size : Z.of_nat (length (contents f)) ≤ MAXBYTES
}.

(** Their entries in the root directory, from inode [n] on, and their blocks. *)
Fixpoint entries (n : Z) (fs : list source) : list Z :=
  match fs with
  | [] => []
  | f :: fs' => mk_dirent n (file_name f) ++ entries (n + 1) fs'
  end.
Definition source_blocks (fs : list source) : Z := foldr (λ f a, cost (Z.of_nat (length (contents f))) + a) 0 fs.

Lemma source_blocks_nonneg srcs : 0 ≤ source_blocks srcs.
Proof.
  induction srcs as [|s srcs IH]; [done|]. cbn. fold (source_blocks srcs). pose proof (cost_mono 0 (Z.of_nat (length (contents s))) ltac:(lia)).
  change (cost 0) with 0 in *. lia.
Qed.

Lemma file_name_bytes f : byte_list f.1 → byte_list (file_name f).
Proof.
  intros H. unfold file_name, base_name. assert (byte_list (if decide (take 5 f.1 = [117; 115; 101; 114; 47]) then drop 5 f.1 else f.1)) as Hb.
  { case_decide; [by apply Forall_drop|done]. }
  destruct (if decide _ then _ else _) as [|c l]; [done|]. cbn. apply Forall_cons in Hb as [? ?]. case_if; [done|by constructor].
Qed.

Lemma mk_dirent_bytes n name : byte_list name → byte_list (mk_dirent n name).
Proof.
  intros H. unfold mk_dirent. apply Forall_app. split.
  - cbn [le_bytes]. repeat constructor; try apply Z.mod_pos_bound; lia.
  - apply Forall_take, Forall_app. split; [done|]. apply Forall_replicate. lia.
Qed.

Lemma append_all_wp fs1 fs2 ps : ∀ f s, let n := fsize f + Z.of_nat (length (concat ps)) in
  image_ok (fs1 ++ f :: fs2) s → byte_list (concat ps) → n ≤ MAXBYTES → nmeta + total (fs1 ++ f :: fs2) + (cost n - cost (fsize f)) ≤ FSSIZE →
  wp (append_all (1 + Z.of_nat (length fs1)) ps) (λ _ s', ∃ f', f_type f' = f_type f ∧ f_data f' = f_data f ++ concat ps ∧
    image_ok (fs1 ++ f' :: fs2) s') s.
Proof.
  induction ps as [|p ps IH]; intros f s n HI Hby Hmax Hroom; cbn [append_all].
  { wp_step. exists f. split_and!; [done|by rewrite app_nil_r|done]. }
  unfold n in *. clear n. cbn [concat] in *. rewrite length_app in *. apply Forall_app in Hby as [Hb1 Hb2].
  pose proof (cost_mono (fsize f + Z.of_nat (length p)) (fsize f + Z.of_nat (length p + length (concat ps))) ltac:(lia)) as Hc.
  wp_step. eapply wp_mono; [apply iappend_wp; [done|done|lia|lia]|]. intros [] s1 (f1 & Ht1 & Hd1 & HI1).
  assert (fsize f1 = fsize f + Z.of_nat (length p)) as Hs1 by (unfold fsize; rewrite Hd1, length_app; lia).
  rewrite total_app in Hroom. cbn [total foldr] in Hroom. fold (total fs2) in Hroom.
  eapply wp_mono; [apply (IH f1); [done|done|rewrite Hs1; lia|]|].
  - rewrite total_app. cbn [total foldr]. fold (total fs2). rewrite Hs1.
    replace (fsize f + Z.of_nat (length p) + Z.of_nat (length (concat ps))) with (fsize f + Z.of_nat (length p + length (concat ps))) by lia. lia.
  - intros [] s2 (f2 & Ht2 & Hd2 & HI2). exists f2. split_and!; [congruence|by rewrite Hd2, Hd1, app_assoc|done].
Qed.

(** One file: an inode, an entry of the root directory, the bytes. *)
Lemma add_file_wp root fs src s : let n := Z.of_nat (length (contents src)) in
  image_ok (root :: fs) s → source_ok src → 2 + Z.of_nat (length fs) < NINODES → fsize root + 16 ≤ MAXBYTES →
  nmeta + total fs + cost (fsize root + 16) + cost n ≤ FSSIZE →
  wp (add_file 1 src) (λ _ s', ∃ root' f, f_type root' = f_type root ∧
    f_data root' = f_data root ++ mk_dirent (2 + Z.of_nat (length fs)) (file_name src) ∧
    f_type f = T_FILE ∧ f_data f = contents src ∧ image_ok (root' :: fs ++ [f]) s') s.
Proof.
  intros n HI [[ps Hps] Hbase Hname Hch Hby Hsz] Hlen Hmax Hroom. unfold add_file. wp_step. unfold shortname. fold (base_name src.1).
  cbv zeta. wp_step. unfold assert at 1. rewrite Hbase. cbn [negb]. wp_step. wp_step. rewrite Hps. fold (file_name src). cbv zeta.
  wp_step. unfold assert. rewrite (proj2 (Z.leb_le _ _)) by done. wp_step. wp_step.
  assert (Z.of_nat (length (mk_dirent (2 + Z.of_nat (length fs)) (file_name src))) = 16) as H16 by (rewrite (proj1 (mk_dirent_parts _ _)); done).
  eapply wp_mono; [apply (ialloc_wp (root :: fs)); [done|cbn [length]; lia|by right]|].
  intros inum s1 [-> HI1]. cbn [length app] in HI1 |- *. replace (1 + Z.of_nat (S (length fs))) with (2 + Z.of_nat (length fs)) by lia.
  set (f0 := mkFinfo T_FILE [] [] 0) in *. assert (total (fs ++ [f0]) = total fs) as Ht0 by (rewrite total_app; change (total [f0]) with 0; lia).
  assert (0 ≤ cost n) by (apply (cost_mono 0); unfold n; lia).
  wp_step. eapply wp_mono; [apply (iappend_wp [] root (fs ++ [f0])); [done|by apply mk_dirent_bytes, file_name_bytes|rewrite H16; done|]|].
  { cbn [app total foldr]. fold (total (fs ++ [f0])). rewrite Ht0, H16. lia. }
  intros [] s2 (root' & Hr1 & Hr2 & HI2). cbn [app] in HI2. unfold n, contents in *. rewrite Hps in *. cbn [default from_option id] in *.
  assert (fsize root' = fsize root + 16) as Hrs by (unfold fsize in *; rewrite Hr2, length_app; lia).
  replace (2 + Z.of_nat (length fs)) with (1 + Z.of_nat (length (root' :: fs))) at 1 by (cbn [length]; lia).
  eapply wp_mono; [apply (append_all_wp (root' :: fs) [] ps f0); [done|done|done|]|].
  - cbn [app total foldr]. fold (total (fs ++ [f0])). rewrite Ht0, Hrs. change (fsize f0) with 0. change (cost 0) with 0. rewrite Z.add_0_l. lia.
  - intros [] s3 (f & Hf1 & Hf2 & HI3). exists root', f. by split_and!.
Qed.

Lemma add_files_wp srcs : ∀ root fs s, image_ok (root :: fs) s → Forall source_ok srcs →
  1 + Z.of_nat (length fs) + Z.of_nat (length srcs) < NINODES → fsize root + 16 * Z.of_nat (length srcs) ≤ MAXBYTES →
  nmeta + total fs + source_blocks srcs + cost (fsize root + 16 * Z.of_nat (length srcs)) ≤ FSSIZE →
  wp (add_files 1 srcs) (λ _ s', ∃ root' fs', f_type root' = f_type root ∧
    f_data root' = f_data root ++ entries (2 + Z.of_nat (length fs)) srcs ∧
    Forall2 (λ src f, f_type f = T_FILE ∧ f_data f = contents src) srcs fs' ∧ image_ok (root' :: fs ++ fs') s') s.
Proof.
  induction srcs as [|src srcs IH]; intros root fs s HI Hok Hlen Hmax Hroom; cbn [add_files entries].
  { wp_step. exists root, []. rewrite !app_nil_r. by split_and!. }
  apply Forall_cons in Hok as [Hsrc Hok]. cbn [length source_blocks foldr] in *. fold (source_blocks srcs) in Hroom.
  pose proof (source_blocks_nonneg srcs).
  pose proof (cost_mono (fsize root + 16) (fsize root + 16 * Z.of_nat (S (length srcs))) ltac:(lia)).
  wp_step. eapply wp_mono; [apply add_file_wp; [done|done|lia|lia|lia]|]. intros [] s1 (root1 & f & R1 & R2 & F1 & F2 & HI1).
  assert (fsize root1 = fsize root + 16) as Hrs by (unfold fsize; rewrite R2, length_app, (proj1 (mk_dirent_parts _ _)); lia).
  eapply wp_mono; [apply (IH root1 (fs ++ [f])); [done|done|rewrite length_app; cbn; lia|lia|]|].
  - rewrite total_app, Hrs. cbn [total foldr]. unfold fsize at 1. rewrite F2.
    replace (fsize root + 16 + 16 * Z.of_nat (length srcs)) with (fsize root + 16 * Z.of_nat (S (length srcs))) by lia. lia.
  - intros [] s2 (root2 & fs2 & S1 & S2 & S3 & HI2). exists root2, (f :: fs2). rewrite <-app_assoc in HI2. cbn in HI2.
    split_and!; [congruence| |by constructor|done]. rewrite S2, R2, <-app_assoc, length_app. cbn [length].
    by replace (2 + Z.of_nat (length fs + 1)) with (2 + Z.of_nat (length fs) + 1) by lia.
Qed.

(** ** main *)
Definition dot_entries : list Z := mk_dirent 1 [46] ++ mk_dirent 1 [46; 46].
Definition root_entries (srcs : list source) : list Z := dot_entries ++ entries 2 srcs.

(** The blocks of the disk in use. *)
Definition blocks_used (srcs : list source) : Z := nmeta + cost (Z.of_nat (length (root_entries srcs))) + source_blocks srcs.
Definition root_size (srcs : list source) : Z := (Z.of_nat (length (root_entries srcs)) / BSIZE + 1) * BSIZE.

Lemma entries_length srcs : ∀ n, Z.of_nat (length (entries n srcs)) = 16 * Z.of_nat (length srcs).
Proof.
  induction srcs as [|f srcs IH]; intros n; [done|]. cbn [entries length]. rewrite length_app, (proj1 (mk_dirent_parts _ _)). specialize (IH (n + 1)). lia.
Qed.

Lemma root_length srcs : Z.of_nat (length (root_entries srcs)) = 32 + 16 * Z.of_nat (length srcs).
Proof. unfold root_entries, dot_entries. rewrite !length_app, !(proj1 (mk_dirent_parts _ _)). pose proof (entries_length srcs 2). lia. Qed.

(** The image that represents the root directory and the files. *)
Record built (srcs : list source) (root : finfo) (fs : list finfo) (t : mkfs) : Prop := {
  bu_len : len t = FSSIZE;
  bu_root : f_type root = T_DIR ∧ f_data root = root_entries srcs ∧ inode_is t 1 root (root_size srcs);
  bu_sources : Forall2 (λ src f, f_type f = T_FILE ∧ f_data f = contents src) srcs fs;
  bu_files : ∀ j f, fs !! j = Some f → inode_is t (2 + Z.of_nat j) f (fsize f);
  bu_nodup : NoDup ((root :: fs) ≫= f_blocks);
  bu_range : ∀ b, b ∈ (root :: fs) ≫= f_blocks → nmeta ≤ b < blocks_used srcs;
  bu_sb : img t 1 = sb_block;
  bu_zero : ∀ b x, b = 0 ∨ 2 ≤ b < 33 ∨ blocks_used srcs ≤ b → img t b x = 0;
  bu_free : ∀ n x, 2 + Z.of_nat (length srcs) ≤ n < 208 → di_off n ≤ x < di_off n + 64 → img t (IBLOCK n mkfs_sb) x = 0;
  bu_bits : ∀ b, 0 ≤ b → bit_get (img t 46) b = (b <? blocks_used srcs)
}.

Lemma mark_get n : ∀ b, 0 ≤ b → bit_get (mark n (λ _, 0)) b = (b <? Z.of_nat n).
Proof.
  induction n as [|n IH]; intros b Hb; cbn [mark].
  - rewrite (proj2 (Z.ltb_ge _ _)) by lia. done.
  - rewrite bit_get_set, IH by done. destruct (Z.eqb_spec (Z.of_nat n) b), (Z.ltb_spec b (Z.of_nat n)), (Z.ltb_spec b (Z.of_nat (S n))); lia.
Qed.

Lemma clear_disk : wp (modify (set_freeblock nmeta) ;; foreach (Z.to_nat FSSIZE) 0 (λ i, wsect i (λ _, 0)) ;; wsect 1 sb_block)
  (λ _ s, image_ok [] s) mkfs_start.
Proof.
  wp_step. wp_step. wp_step. eapply wp_mono; [apply (wp_foreach (λ i s, (∀ b x, img s b x = 0) ∧ len s = i ∧ freeinode s = 1 ∧ freeblock s = nmeta))|].
  - done.
  - intros j s Hj (H1 & H2 & H3 & H4). unfold wsect. wp_step. cbn [img len freeinode freeblock set_img]. split_and!; [|lia|done|done].
    intros b x. rewrite fupd_spec. by case_decide.
  - intros [] s (H1 & H2 & H3 & H4). rewrite Z2Nat.id in H2 by lia. apply wsect_wp; [lia|].
    assert (∀ b, b ≠ 1 → ∀ x, fupd (img s) 1 sb_block b x = 0) as Hz by (intros b Hb x; by rewrite fupd_ne).
    split; cbn [img len freeinode freeblock set_img].
    + split; cbn; [lia|lia|]. intros b x Hb. apply Hz. lia.
    + done.
    + split; cbn [img len freeinode freeblock set_img]; [apply fupd_eq|intros b x Hb; apply Hz; lia|].
      intros n x Hn _. pose proof (IBLOCK_range n ltac:(lia)). apply Hz. lia.
    + cbn. lia.
    + done.
    + constructor.
    + intros b Hb. by apply elem_of_nil in Hb.
Qed.

(** The last steps: the size of the root directory and the bitmap. *)
Definition with_bitmap (n : Z) (s : mkfs) : mkfs := set_img (fupd (img s) 46 (mark (Z.to_nat n) (λ _, 0))) (len s) s.

Lemma with_bitmap_inode m s n f sz : 1 ≤ n < 208 → (∀ b, b ∈ f_blocks f → nmeta ≤ b) → inode_is s n f sz → inode_is (with_bitmap m s) n f sz.
Proof.
  intros Hn Hb Hi. pose proof (IBLOCK_range n Hn). eapply inode_is_frame; [done| |]; intros; cbn; rewrite fupd_ne; try done; [|lia].
  specialize (Hb b ltac:(done)). lia.
Qed.

Section finish.
Context (srcs : list source) (root : finfo) (fs : list finfo) (s : mkfs).
Hypothesis HI : image_ok (root :: fs) s.
Hypothesis Ht : f_type root = T_DIR.
Hypothesis Hd : f_data root = root_entries srcs.
Hypothesis HF : Forall2 (λ src f, f_type f = T_FILE ∧ f_data f = contents src) srcs fs.

Lemma used_blocks : freeblock s = blocks_used srcs.
Proof using HI Hd HF.
  assert (total fs = source_blocks srcs) as Htot.
  { clear -HF. induction HF as [|src f srcs' fs' [_ Hf] HF' IH]; [done|]. cbn. fold (total fs') (source_blocks srcs').
    unfold fsize. by rewrite Hf, IH. }
  rewrite (im_free _ _ HI). change (total (root :: fs)) with (cost (fsize root) + total fs). unfold blocks_used, fsize. rewrite Htot, Hd. lia.
Qed.

Lemma finished d : din_ok (img s) root d → din_fits d → d_size d = root_size srcs →
  built srcs root fs (with_bitmap (freeblock s) (with_inode 1 d s)).
Proof using HI Ht Hd HF.
  intros Hdin Hfit Hsz. pose proof used_blocks as Hused. pose proof HI as [I1 I0 I2 I3 I4 I5 I6]. cbn [length] in I3.
  pose proof (so_free _ I1) as Hfr. destruct (I4 0%nat root eq_refl) as (_ & He & _ & Hty).
  assert (∀ b, b ≠ 46 → img (with_bitmap (freeblock s) (with_inode 1 d s)) b = img (with_inode 1 d s) b) as Hne.
  { intros b Hb. cbn. by rewrite fupd_ne by lia. }
  assert (∀ j f, (root :: fs) !! j = Some f → ∀ b, b ∈ f_blocks f → nmeta ≤ b) as Hge.
  { intros j f Hj b Hb. apply I6, list_elem_of_bind. exists f. split; [done|]. by eapply list_elem_of_lookup_2. }
  destruct (meta_written s s 1 d I2) as [M1 M2 M3]; [lia|lia|lia|done|].
  split.
  - by destruct I1.
  - split_and!; [done|done|]. apply with_bitmap_inode; [lia|by apply (Hge 0%nat)|].
    rewrite <-Hsz. apply this_written; try done. by apply (Hge 0%nat).
  - done.
  - intros j f Hj. pose proof (lookup_lt_Some _ _ _ Hj). apply with_bitmap_inode; [lia|by apply (Hge (S j))|].
    apply (other_kept s); [|lia|lia|lia|by apply (Hge (S j))|done]. specialize (I4 (S j) f Hj).
    by replace (1 + Z.of_nat (S j)) with (2 + Z.of_nat j) in I4 by lia.
  - done.
  - intros b Hb%I6. lia.
  - rewrite Hne by lia. done.
  - intros b x Hb. rewrite Hne by lia. destruct Hb as [->|[Hb|Hb]]; [by apply M2; left|by apply M2; right|].
    apply (with_inode_st 1 d s ltac:(lia) I1). cbn. lia.
  - intros n x Hn Hx. pose proof (IBLOCK_range n ltac:(lia)). rewrite Hne by lia. apply M3; [|done].
    cbn. destruct I3 as [-> _]. apply Forall2_length in HF. lia.
  - intros b Hb. unfold with_bitmap. cbn [img set_img]. rewrite fupd_eq, mark_get by done. rewrite Z2Nat.id by lia. by rewrite Hused.
Qed.

Lemma finish_wp : wp (din <- rinode 1 ;; winode 1 (set_d_size (u32 ((d_size din / BSIZE + 1) * BSIZE)) din) ;;
    used <- gets freeblock ;; balloc used) (λ _ t, built srcs root fs t) s.
Proof using HI Ht Hd HF.
  pose proof HI as [I1 I0 I2 I3 I4 I5 I6]. destruct (I4 0%nat root eq_refl) as (Hdin & He & Hs & Hty). change (1 + Z.of_nat 0) with 1 in *.
  assert (fsize root = Z.of_nat (length (root_entries srcs))) as Hfs by (unfold fsize; by rewrite Hd).
  pose proof (do_max _ _ _ Hdin) as Hmax. pose proof (do_size _ _ _ Hdin) as Hsz0. pose proof (so_free _ I1) as Hfr.
  assert (0 ≤ root_size srcs < 2^32) as Hrs by (unfold root_size; rewrite <-Hfs; unfold fsize in *; dlia).
  wp_step. apply rinode_wp; [done|lia|]. rewrite Hs. set (d := get_dinode _ _) in *. rewrite Hfs. fold (root_size srcs).
  rewrite u32_small by done. set (d' := set_d_size (root_size srcs) d).
  wp_step. apply winode_wp; [done|lia|]. wp_step. wp_step. fold (with_inode 1 d' s).
  unfold balloc. wp_step. unfold assert. rewrite (proj2 (Z.ltb_lt _ _)) by (cbn; lia). wp_step. apply wsect_wp; [cbn; rewrite (so_len _ I1); lia|].
  apply (finished d'); [by destruct Hdin; split| |done].
  eapply din_ok_fits; [exact I1|by destruct Hdin; split|by apply (image_blocks [] root fs)|done|done].
Qed.
End finish.

Lemma mkfs_main_wp srcs : Forall source_ok srcs → 1 + Z.of_nat (length srcs) < NINODES → blocks_used srcs ≤ FSSIZE →
  wp (mkfs_main srcs) (λ _ t, ∃ root fs, built srcs root fs t) mkfs_start.
Proof.
  intros Hok Hlen Hroom. pose proof (root_length srcs) as Hrl. unfold mkfs_main.
  pose proof clear_disk as Hc. apply wp_bind_inv in Hc. wp_step. eapply wp_mono; [exact Hc|]. intros [] s0 Hc0. cbv beta in Hc0.
  apply wp_bind_inv in Hc0. wp_step. eapply wp_mono; [exact Hc0|]. intros [] s1 Hc1. cbv beta in Hc1. wp_step. eapply wp_mono; [exact Hc1|].
  clear Hc Hc0 Hc1. intros [] s2 HI. wp_step. eapply wp_mono; [apply (ialloc_wp []); [done|cbn; lia|by left]|].
  intros r s3 [-> HI3]. cbn [length app] in *. change (1 + Z.of_nat 0) with 1. wp_step. unfold assert. change (1 =? ROOTINO) with true. cbv iota. wp_step.
  set (r0 := mkFinfo T_DIR [] [] 0) in *. assert (total [r0] = 0) as Ht0 by done. assert (fsize r0 = 0) as Hs0 by done.
  assert (cost (32 + 16 * Z.of_nat (length srcs)) + nmeta ≤ FSSIZE) as Hcost.
  { unfold blocks_used in Hroom. rewrite Hrl in Hroom. pose proof (source_blocks_nonneg srcs). lia. }
  wp_step. eapply wp_mono; [apply (iappend_wp [] r0 [] (mk_dirent 1 [46])); [done|by repeat constructor|done|done]|].
  intros [] s4 (r1 & T1 & D1 & HI4). wp_step.
  assert (fsize r1 = 16) as Hs1 by (unfold fsize; by rewrite D1). assert (total [r1] = 1) as Ht1 by (cbn; by rewrite Hs1).
  eapply wp_mono; [apply (iappend_wp [] r1 [] (mk_dirent 1 [46; 46])); [done|by repeat constructor|by rewrite Hs1|cbn [app]; by rewrite Ht1, Hs1]|].
  intros [] s5 (r2 & T2 & D2 & HI5). cbn [app] in HI5. assert (f_data r2 = dot_entries) as D2' by (rewrite D2, D1; done).
  assert (fsize r2 = 32) as Hs2 by (unfold fsize; by rewrite D2').
  wp_step. eapply wp_mono; [apply (add_files_wp srcs r2 []); [done|done|cbn [length]; lia|rewrite Hs2; unfold MAXBYTES; lia|]|].
  - rewrite Hs2. change (total []) with 0. unfold blocks_used in Hroom. rewrite Hrl in Hroom. lia.
  - intros [] s6 (root & fs & R1 & R2 & RF & HI6). cbn [app length] in *. change (2 + Z.of_nat 0) with 2 in R2. rewrite D2' in R2.
    eapply wp_mono; [apply (finish_wp srcs root fs); [done|by rewrite R1, T2, T1|done|done]|]. intros [] t Hb. by exists root, fs.
Qed.
