(* ===== verification/MkfsBoot.v ===== *)
(** The kernel on the image of mkfs.

    A kernel that has mounted the image finds there the superblock, an empty
    log, the bitmap with the blocks mkfs handed out, and every file under its
    name in the root directory with its contents. *)

From S2P Require Import Prelude Riscv Memory Kalloc Vm State Printf Proc Bio BioThms Log LogThms LogOps LogSpace Txn.
From S2P Require Import Fs FsPath FsBlocks FsInode FsRead Mkfs MkfsThms.

(** The file system as the kernel [s] sees it is the image [m]. *)
Record mounts (m : Z → mem) (s : kstate) : Prop := {
  mo_size : disk_size s = FSSIZE;
  mo_sb : sb_of s = get_superblock (m 1);
  mo_view : ∀ c, view s c = m c
}.

(** What ilock loads for inode [n] is a file of [sz] bytes, all of whose blocks
    are there: [data] and then zeroes. *)
Definition stored (s : kstate) (n ty sz : Z) (data : list Z) : Prop := ∀ x lk, i_dev x = ROOTDEV →
  let i := loaded_inode (view s (IBLOCK n (sb_of s))) (di_off n) x lk in
  i_type i = ty ∧ i_nlink i = 1 ∧ i_size i = sz ∧ file_ok s i ∧ ∀ k, 0 ≤ k < sz → file_byte s i k = zth data k.

Section image.
Context (srcs : list source) (root : finfo) (fs : list finfo) (t : mkfs) (s : kstate).
Hypothesis HB : built srcs root fs t.
Hypothesis HM : mounts (img t) s.
Hypothesis Hroom : blocks_used srcs ≤ FSSIZE.

Lemma boot_sb : sb_of s = mkfs_sb.
Proof using HB HM. rewrite (mo_sb _ _ HM), (bu_sb _ _ _ _ HB). reflexivity. Qed.

Lemma boot_stored n f sz : inode_is t n f sz → 1 ≤ n < 208 → fsize f ≤ sz ≤ BSIZE * nblk f →
  (∀ b, b ∈ f_blocks f → nmeta ≤ b < blocks_used srcs) → stored s n (f_type f) sz (f_data f).
Proof using HB HM Hroom.
  intros ([F1 F2 F3 F4 F5 F6 F7 F8 F9] & He & Hs & Hty) Hn Hsz Hin x lk Hx. destruct F1 as (T1 & _ & _ & T4). pose proof (mo_view _ _ HM) as Hv.
  rewrite boot_sb, Hv. intros i. set (d := get_dinode _ _) in *.
  assert (∀ k, 0 ≤ k < NDIRECT + 1 → i_addrs i k = d_addrs d k) as Ha.
  { intros k Hk. cbn. unfold in_table. by rewrite (proj2 (Z.leb_le _ _)), (proj2 (Z.ltb_lt _ _)) by lia. }
  assert (∀ bn, 0 ≤ bn < nblk f → block_of s i bn = zth (f_blks f) bn) as Hbo.
  { intros bn Hbn. unfold block_of. case_if; [by rewrite Ha, F2 by lia|]. rewrite Ha, F3, Hv by lia.
    destruct (F7 ltac:(lia)) as [_ Hw]. rewrite Hw by lia. f_equal. lia. }
  assert (0 ≤ fsize f) by (unfold fsize; lia). pose proof (mo_size _ _ HM) as Hds.
  split_and!; [done..| |].
  - split; [done|change (0 ≤ d_size d ≤ (NDIRECT + NINDIRECT) * BSIZE); lia| |]; change (i_size i) with (d_size d); rewrite Hs, Hds.
    + intros Hbig. rewrite Ha, F3 by lia. destruct (F7 ltac:(lia)) as [Hne _]. assert (f_ind f ∈ f_blocks f) as Hb%Hin; [|lia].
      unfold f_blocks. rewrite (proj2 (Z.eqb_neq _ _) Hne). apply elem_of_app. right. by apply list_elem_of_singleton.
    + intros bn Hb0 Hb. rewrite Hbo by lia. assert (zth (f_blks f) bn ∈ f_blocks f) as Hb'%Hin; [|lia].
      unfold f_blocks. apply elem_of_app. left. apply zth_in. fold (nblk f). lia.
  - intros k Hk. unfold file_byte. rewrite Hbo, Hv by dlia. apply F9. lia.
Qed.

Lemma boot_file j src : srcs !! j = Some src → 1 + Z.of_nat (length srcs) < NINODES →
  stored s (2 + Z.of_nat j) T_FILE (Z.of_nat (length (contents src))) (contents src).
Proof using HB HM Hroom.
  intros Hj Hlen. destruct (Forall2_lookup_l _ _ _ _ _ (bu_sources _ _ _ _ HB) Hj) as (f & Hf & Ht & Hd).
  pose proof (bu_files _ _ _ _ HB j f Hf) as Hi. pose proof (lookup_lt_Some _ _ _ Hj). pose proof Hi as (Hdin & _).
  assert (stored s (2 + Z.of_nat j) (f_type f) (fsize f) (f_data f)) as Hst; [|unfold fsize in Hst; by rewrite Ht, Hd in Hst].
  apply boot_stored; [done|lia| |].
  - pose proof (do_size _ _ _ Hdin). unfold fsize in *. lia.
  - intros b Hb. apply (bu_range _ _ _ _ HB), list_elem_of_bind. exists f. split; [done|]. right. by eapply list_elem_of_lookup_2.
Qed.

(** The blocks of the root directory are all there unless its entries fill
    the last one. *)
Lemma boot_root : (2 + Z.of_nat (length srcs)) mod 64 ≠ 0 → stored s 1 T_DIR (root_size srcs) (root_entries srcs).
Proof using HB HM Hroom.
  intros Hm. destruct (bu_root _ _ _ _ HB) as (Ht & Hd & Hi). pose proof Hi as (Hdin & He & _).
  assert (stored s 1 (f_type root) (root_size srcs) (f_data root)) as Hst; [|by rewrite Ht, Hd in Hst].
  pose proof (root_length srcs) as Hl. apply boot_stored; [done|lia| |].
  - unfold exact, fsize in *. rewrite Hd in *. rewrite He. unfold root_size, blkcount. rewrite Hl. dlia.
  - intros b Hb. apply (bu_range _ _ _ _ HB), list_elem_of_bind. exists root. split; [done|]. by left.
Qed.

Lemma boot_used b : 0 ≤ b < FSSIZE → used s b = (b <? blocks_used srcs).
Proof using HB HM.
  intros Hb. unfold used. rewrite (mo_view _ _ HM), boot_sb. unfold BBLOCK. cbn [sb_bmapstart mkfs_sb].
  replace (b / BPB + (2 + nlog + ninodeblocks)) with 46 by dlia. rewrite Z.mod_small by lia. rewrite u32_small by lia.
  apply (bu_bits _ _ _ _ HB); lia.
Qed.

Lemma boot_layout : layout 2 s.
Proof using HB HM Hroom.
  pose proof boot_used as Hu. pose proof (mo_size _ _ HM) as Hsz. pose proof (source_blocks_nonneg srcs).
  assert (nmeta ≤ blocks_used srcs).
  { unfold blocks_used. pose proof (cost_mono 0 (Z.of_nat (length (root_entries srcs))) ltac:(lia)). change (cost 0) with 0 in *. lia. }
  assert (∀ b, 0 ≤ b < FSSIZE → BBLOCK b mkfs_sb = 46 ∧ b / BPB = 0) as Hbb.
  { intros b Hb. unfold BBLOCK. cbn [sb_bmapstart mkfs_sb]. rewrite u32_small by dlia. dlia. }
  split; rewrite boot_sb, ?Hsz; cbn [sb_size sb_bmapstart mkfs_sb].
  - lia.
  - intros b Hb. destruct (Hbb b Hb) as [-> ->]. unfold in_log. lia.
  - intros b Hb Hub. rewrite Hu in Hub by done. apply Z.ltb_ge in Hub. unfold in_log. split_and!; [lia|lia|].
    intros c Hc. destruct (Hbb c Hc) as [-> _]. lia.
Qed.
End image.

(** ** The entries of the root directory *)
Fixpoint entry_list (n : Z) (fs : list source) : list (list Z) :=
  match fs with
  | [] => []
  | f :: fs' => mk_dirent n (file_name f) :: entry_list (n + 1) fs'
  end.
Definition root_list (srcs : list source) : list (list Z) := mk_dirent 1 [46] :: mk_dirent 1 [46; 46] :: entry_list 2 srcs.
Definition root_names (srcs : list source) : list (list Z) := [46] :: [46; 46] :: (file_name <$> srcs).

Lemma root_concat srcs : root_entries srcs = concat (root_list srcs).
Proof.
  unfold root_entries, dot_entries, root_list. cbn [concat]. rewrite <-app_assoc. do 2 f_equal. generalize 2.
  induction srcs as [|f srcs IH]; intros n; [done|]. cbn [entries entry_list concat]. by rewrite IH.
Qed.

Lemma entry_lookup srcs : ∀ n k f, srcs !! k = Some f → entry_list n srcs !! k = Some (mk_dirent (n + Z.of_nat k) (file_name f)).
Proof.
  induction srcs as [|g srcs IH]; intros n [|k] f Hk; try done.
  - injection Hk as ->. by rewrite Z.add_0_r.
  - replace (n + Z.of_nat (S k)) with (n + 1 + Z.of_nat k) by lia. apply (IH (n + 1) k f Hk).
Qed.

Lemma root_lookup srcs k name : root_names srcs !! k = Some name →
  ∃ n, 1 ≤ n ≤ 1 + Z.of_nat k ∧ root_list srcs !! k = Some (mk_dirent n name) ∧ ((2 ≤ k)%nat → n = Z.of_nat k).
Proof.
  intros Hk. destruct k as [|[|k]]; [injection Hk as <-; exists 1; cbn; split_and!; [lia|lia|done|lia]..|].
  change ((file_name <$> srcs) !! k = Some name) in Hk. rewrite list_lookup_fmap in Hk. destruct (srcs !! k) as [f|] eqn:E; [|done]. injection Hk as <-.
  exists (2 + Z.of_nat k). split_and!; [lia|lia|by apply entry_lookup|lia].
Qed.

Lemma root_list_16 srcs : Forall (λ e, length e = 16%nat) (root_list srcs).
Proof.
  unfold root_list. repeat constructor. generalize 2. induction srcs as [|f srcs IH]; intros n; cbn [entry_list]; constructor; [apply mk_dirent_parts|done].
Qed.

Lemma zth_list l n : Z.of_nat (length l) = n → zth l <$> seqZ 0 n = l.
Proof.
  intros Hn. apply list_eq. intros k. rewrite list_lookup_fmap. destruct (decide (Z.of_nat k < n)).
  - rewrite lookup_seqZ_lt by lia. cbn. rewrite <-(Nat2Z.id k) at 2. rewrite zth_Some by lia. f_equal.
  - rewrite lookup_seqZ_ge by lia. symmetry. apply lookup_ge_None. lia.
Qed.

(** An entry of a list of entries of 16 bytes, in their concatenation. *)
Lemma concat_slice l k e : Forall (λ e, length e = 16%nat) l → l !! k = Some e → zth (concat l) <$> seqZ (16 * Z.of_nat k) 16 = e.
Proof.
  intros Hl. revert k. induction Hl as [|a l Ha Hl IH]; intros [|k] Hk; try done; cbn [concat].
  - injection Hk as ->. rewrite <-(zth_list e 16) at 2 by lia. apply list_fmap_ext. intros i x Hx.
    apply lookup_seqZ in Hx. apply zth_app_l. lia.
  - rewrite <-(IH k Hk). replace (16 * Z.of_nat (S k)) with (16 * Z.of_nat k + 16) by lia.
    apply list_eq. intros i. rewrite !list_lookup_fmap. destruct (decide (Z.of_nat i < 16)); [|by rewrite !lookup_seqZ_ge by lia].
    rewrite !lookup_seqZ_lt by lia. cbn. rewrite zth_app_r by lia. do 2 f_equal. lia.
Qed.

Lemma zth_byte l k : byte_list l → 0 ≤ zth l k < 256.
Proof.
  intros Hl. unfold zth. destruct (l !! Z.to_nat k) as [b|] eqn:E; [|cbn; lia]. cbn. by eapply (Forall_lookup_1 (λ b, 0 ≤ b < 256)).
Qed.

Lemma root_bytes srcs : Forall source_ok srcs → byte_list (root_entries srcs).
Proof.
  intros Hok. unfold root_entries, dot_entries. apply Forall_app_2; [apply Forall_app_2; apply mk_dirent_bytes; repeat constructor; lia|].
  generalize 2. induction Hok as [|f srcs Hf Hok IH]; intros n; cbn [entries]; [constructor|].
  apply Forall_app_2; [|apply IH]. by apply mk_dirent_bytes, file_name_bytes, sr_chars.
Qed.

(** A name without NUL that fits in an entry is stored as it is. *)
Lemma cname_id l : ∀ n, (length l ≤ n)%nat → 0 ∉ l → cname n l = l.
Proof.
  induction l as [|c l IH]; intros [|n] Hn Hz; try done; cbn in *; [lia|]. apply not_elem_of_cons in Hz as [Hc Hz].
  rewrite (proj2 (Z.eqb_neq _ _)) by done. f_equal. apply IH; [lia|done].
Qed.

Lemma names_entry name n name' : 1 ≤ n < 65536 → names name (mk_dirent n name') ↔ cname (Z.to_nat DIRSIZ) name = cname (Z.to_nat DIRSIZ) name'.
Proof.
  intros Hn. destruct (mk_dirent_parts n name') as (_ & H2 & H3). unfold names. rewrite H2, H3, cname_pad. unfold u16. rewrite Z.mod_small by lia.
  split; [by intros [_ ?]|]. split; [lia|done].
Qed.

(** ** The image is a file system *)

(** C14: mkfs builds the file system it is asked for.  Given readable files of at
    most 267 blocks with names of at most 14 bytes, fewer than 199 of them, and
    room for them on the disk, mkfs finishes.  A kernel on the image finds the
    superblock, an empty log and a disk layout on which its allocator is
    correct; the bitmap marks exactly the blocks mkfs handed out; file j is
    inode j + 2, with its contents and all its blocks; the other inodes are
    free; and the root directory is inode 1, with ., .. and the entries of the
    files, unless they fill its last block exactly.  (A file of more than 267
    blocks can also fit the disk; the kernel does not find its blocks behind the
    doubly indirect address, and the theorem does not cover it.) *)
Theorem mkfs_builds srcs : Forall source_ok srcs → 1 + Z.of_nat (length srcs) < NINODES → blocks_used srcs ≤ FSSIZE →
  wp (mkfs_main srcs) (λ _ t, len t = FSSIZE ∧ ∀ s, mounts (img t) s →
    sb_of s = mkfs_sb ∧ hdr_n (view s 2) = 0 ∧ layout 2 s ∧
    (∀ b, 0 ≤ b < FSSIZE → used s b = (b <? blocks_used srcs)) ∧
    (∀ j src, srcs !! j = Some src → stored s (2 + Z.of_nat j) T_FILE (Z.of_nat (length (contents src))) (contents src)) ∧
    (∀ n, 2 + Z.of_nat (length srcs) ≤ n < NINODES → di_type (view s (IBLOCK n (sb_of s))) (di_off n) = 0) ∧
    ((2 + Z.of_nat (length srcs)) mod 64 ≠ 0 → stored s 1 T_DIR (root_size srcs) (root_entries srcs))) mkfs_start.
Proof.
  intros Hok Hlen Hroom. eapply wp_mono; [by apply mkfs_main_wp|]. intros [] t (root & fs & HB). split; [by eapply bu_len|].
  intros s HM. pose proof (boot_sb _ _ _ _ _ HB HM) as Hsb. pose proof (mo_view _ _ HM) as Hv. split_and!.
  - done.
  - rewrite Hv. unfold hdr_n, ld32. rewrite (ldn_ext 4 _ (λ _, 0)); [done|]. intros x _. apply (bu_zero _ _ _ _ HB). lia.
  - by eapply boot_layout.
  - intros b Hb. by eapply boot_used.
  - intros j src Hj. by eapply boot_file.
  - intros n Hn. rewrite Hsb, Hv. unfold di_type, ld16. rewrite (ldn_ext 2 _ (λ _, 0)); [done|]. intros x Hx. apply (bu_free _ _ _ _ HB); lia.
  - intros Hm. by eapply boot_root.
Qed.

(** The first entry of the root with the name of a file is the one of the file. *)
Lemma root_finds srcs s x lk j src : Forall source_ok srcs → 1 + Z.of_nat (length srcs) < NINODES →
  stored s 1 T_DIR (root_size srcs) (root_entries srcs) → i_dev x = ROOTDEV → NoDup (root_names srcs) → Forall (0 ∉.) (root_names srcs) →
  srcs !! j = Some src → let i := loaded_inode (view s (IBLOCK 1 (sb_of s))) (di_off 1) x lk in
  de_inum (dirent_at s i (2 + Z.of_nat j)) = 2 + Z.of_nat j ∧ names (file_name src) (dirent_at s i (2 + Z.of_nat j)) ∧
  2 + Z.of_nat j < i_size i / 16 ∧ ∀ k, 0 ≤ k < 2 + Z.of_nat j → ¬ names (file_name src) (dirent_at s i k).
Proof.
  intros Hok Hlen Hst Hx Hnd Hnul Hj i. destruct (Hst x lk Hx) as (_ & _ & Hsz & _ & Hby). fold i in Hsz, Hby. pose proof (root_length srcs) as Hrl.
  pose proof (lookup_lt_Some _ _ _ Hj) as Hjl. assert (16 * (3 + Z.of_nat j) ≤ root_size srcs) as Hin by (unfold root_size; rewrite Hrl; dlia).
  assert (root_names srcs !! S (S j) = Some (file_name src)) as Hname.
  { change ((file_name <$> srcs) !! j = Some (file_name src)). rewrite list_lookup_fmap, Hj. done. }
  assert (∀ name, name ∈ root_names srcs → cname (Z.to_nat DIRSIZ) name = name) as Hcn.
  { intros name Hn. apply cname_id; [|by eapply (proj1 (Forall_forall _ _) Hnul)]. unfold root_names in Hn.
    rewrite !elem_of_cons, list_elem_of_fmap in Hn. destruct Hn as [->|[->|(f & -> & Hf)]]; [cbn; lia|cbn; lia|].
    apply (proj1 (Forall_forall _ _) Hok), sr_name in Hf. lia. }
  assert (∀ k name, root_names srcs !! k = Some name → (k ≤ S (S j))%nat → ∃ n, 1 ≤ n < 65536 ∧ ((2 ≤ k)%nat → n = Z.of_nat k) ∧
    dirent_at s i (Z.of_nat k) = mk_dirent n name) as Hde.
  { intros k name Hk Hle. destruct (root_lookup _ _ _ Hk) as (n & Hn & He & Hn2). exists n. split_and!; [lia|lia|done|].
    unfold dirent_at, file_bytes. rewrite <-(concat_slice _ _ _ (root_list_16 srcs) He), <-root_concat. apply list_fmap_ext.
    intros p y Hy%lookup_seqZ. apply Hby. lia. }
  destruct (Hde _ _ Hname ltac:(lia)) as (n & Hn & Hnj & He). specialize (Hnj ltac:(lia)). replace (Z.of_nat (S (S j))) with (2 + Z.of_nat j) in * by lia.
  split_and!.
  - rewrite He. destruct (mk_dirent_parts n (file_name src)) as (_ & -> & _). unfold u16. rewrite Z.mod_small by lia. done.
  - rewrite He. by apply names_entry.
  - rewrite Hsz. dlia.
  - intros k Hk Hbad. destruct (lookup_lt_is_Some_2 (root_names srcs) (Z.to_nat k)) as [name Hkn].
    { apply lookup_lt_Some in Hname. lia. }
    destruct (Hde _ _ Hkn ltac:(lia)) as (m & Hm & _ & He'). rewrite Z2Nat.id in He' by lia. rewrite He' in Hbad.
    apply names_entry in Hbad; [|done]. rewrite !Hcn in Hbad by (by eapply list_elem_of_lookup_2). rewrite <-Hbad in Hkn.
    pose proof (NoDup_lookup _ _ _ _ Hnd Hname Hkn). lia.
Qed.

Lemma stored_bytes s n ty data x lk m : stored s n ty (Z.of_nat (length data)) data → i_dev x = ROOTDEV → 0 ≤ m ≤ Z.of_nat (length data) →
  file_bytes s (loaded_inode (view s (IBLOCK n (sb_of s))) (di_off n) x lk) 0 m = take (Z.to_nat m) data.
Proof.
  intros Hst Hx Hm. destruct (Hst x lk Hx) as (_ & _ & _ & _ & Hby). rewrite <-(zth_list (take _ data) m) by (rewrite length_take; lia).
  apply list_fmap_ext. intros p y Hy%lookup_seqZ. rewrite Hby by lia. rewrite <-(take_drop (Z.to_nat m) data) at 1. apply zth_app_l. rewrite length_take. lia.
Qed.

(** ** A file is found and read *)

(** The kernel looks [name] up in directory [dp], locks the inode and reads the
    first [n] bytes. *)
Definition read_named (me dp : Z) (name : list Z) (n : Z) : M kstate (Z * list Z) :=
  r <- dirlookup me dp name ;;
  ilock me r.1 ;;
  readi me r.1 ToLocal 0 n.

Lemma read_file me L D s a n data m : tx me [] 2 L D s → (length L < 30)%nat → mounts m s → sb_of s = mkfs_sb → 2 ≤ n < NINODES →
  stored s n T_FILE (Z.of_nat (length data)) data → 0 ≤ a < NINODE → entry_for s ROOTDEV n a → i_valid (itable s a) = false →
  sl_locked (i_lock (itable s a)) = false → ∀ cnt, 0 ≤ cnt < 2^32 →
  wp (ilock me a ;; readi me a ToLocal 0 cnt) (λ r _, r = (Z.min cnt (Z.of_nat (length data)), take (Z.to_nat cnt) data)) s.
Proof.
  intros HT HL HM Hsb Hn Hst Ha (Hr & Hdev & Hinum) Hval Hlk cnt Hcnt. pose proof (IBLOCK_range n ltac:(lia)) as HIB.
  destruct (Hst (itable s a) (i_lock (itable s a)) Hdev) as (Hty & _ & _ & _ & _). cbn [i_type loaded_inode] in Hty.
  wp_step. eapply (ilock_wp me 2 L D); try done; [lia| |by rewrite Hinum, Hty|].
  - unfold inode_at, in_log. rewrite Hinum, Hsb, (mo_size _ _ HM). lia.
  - rewrite Hinum. intros s2 lk HT2 Hv2 Hit _ Hsb2 Hsz2. specialize (Hit a). rewrite decide_True in Hit by done.
    assert (stored s2 n T_FILE (Z.of_nat (length data)) data) as Hst2.
    { intros x l Hx. rewrite Hsb2, Hv2. destruct (Hst x l Hx) as (S1 & S2 & S3 & [O1 O2 O3 O4] & S5). split_and!; try done.
      - split; try done; rewrite ?Hsz2; [done|]. intros bn Hb1 Hb2. unfold block_of. rewrite Hv2. by apply O4.
      - intros k Hk. unfold file_byte, block_of. rewrite !Hv2. by apply S5. }
    rewrite <-Hv2, <-Hsb2 in Hit. destruct (Hst2 (itable s a) lk Hdev) as (_ & _ & Hsz & Hok & _). rewrite <-Hit in Hsz, Hok.
    set (mm := Z.min cnt (Z.of_nat (length data))).
    eapply (readi_wp me 2 L D); try done; [lia|lia|]. intros s3 _. rewrite Hsz, Z.sub_0_r. replace (Z.max 0 _) with mm by lia.
    f_equal. rewrite Hit, (stored_bytes _ _ _ data) by (done || lia). unfold mm. destruct (decide (cnt ≤ Z.of_nat (length data))); [by rewrite Z.min_l by lia|].
    rewrite Z.min_r by lia. rewrite !take_ge by lia. done.
Qed.

(** C5: a file given to mkfs can be read by the kernel under its name.  On the
    image of mkfs, with the root directory locked, dirlookup of the name of a
    file, ilock of the inode it returns and readi give the first n bytes of
    that file, or all of them when it is shorter.  This is for files of at most
    267 blocks, the direct and singly indirect ones (mkfs puts the blocks of a
    larger file behind an address that the kernel never loads), with names of at
    most 14 bytes that are different from each other and from . and .., as many
    as there are inodes and blocks for, whose entries do not fill the last block
    of the root exactly; the inode is not in the inode table yet, which has a
    free entry. *)
Theorem mkfs_file_readable srcs j src : Forall source_ok srcs → 1 + Z.of_nat (length srcs) < NINODES → blocks_used srcs ≤ FSSIZE →
  NoDup (root_names srcs) → Forall (0 ∉.) (root_names srcs) → (2 + Z.of_nat (length srcs)) mod 64 ≠ 0 → srcs !! j = Some src →
  wp (mkfs_main srcs) (λ _ t, ∀ me L D s dp x lk n, mounts (img t) s → tx me [] 2 L D s → (length L < 30)%nat →
    0 ≤ dp < NINODE → itable s dp = loaded_inode (view s (IBLOCK 1 (sb_of s))) (di_off 1) x lk → i_dev x = ROOTDEV →
    (∀ a, 0 ≤ a < NINODE → ¬ entry_for s ROOTDEV (2 + Z.of_nat j) a) → (∃ a, 0 ≤ a < NINODE ∧ i_ref (itable s a) = 0) →
    (∀ a, i_ref (itable s a) = 0 → sl_locked (i_lock (itable s a)) = false) → 0 ≤ n < 2^32 →
    wp (read_named me dp (file_name src) n)
      (λ r _, r = (Z.min n (Z.of_nat (length (contents src))), take (Z.to_nat n) (contents src))) s) mkfs_start.
Proof.
  intros Hok Hlen Hroom Hnd Hnul Hm64 Hj. eapply wp_mono; [by apply mkfs_main_wp|]. intros [] t (root & fs & HB).
  intros me L D s dp x lk n HM HT HL Hdp Hroot Hx Hnew Hfree Hlocks Hn. pose proof (boot_sb _ _ _ _ _ HB HM) as Hsb.
  pose proof (boot_root _ _ _ _ _ HB HM Hroom Hm64) as Hsr. pose proof (boot_file _ _ _ _ _ HB HM Hroom j src Hj Hlen) as Hsf.
  destruct (root_finds srcs s x lk j src Hok Hlen Hsr Hx Hnd Hnul Hj) as (Hde & Hfound & Hidx & Hfirst).
  destruct (Hsr x lk Hx) as (Hty & _ & Hsz & Hfo & Hby). rewrite <-Hroot in *. pose proof (lookup_lt_Some _ _ _ Hj) as Hjl.
  pose proof (proj1 (Forall_lookup _ _) Hok j src Hj) as [Ho1 Ho2 Ho3 Ho4 Ho5 Ho6].
  unfold read_named. wp_step. eapply wp_mono; [apply (dirlookup_wp me 2 L D); try done|].
  - rewrite Hsz. unfold root_size. dlia.
  - by apply file_name_bytes.
  - lia.
  - intros k Hk. rewrite Hby by lia. by apply zth_byte, root_bytes.
  - intros r s1 (Hv1 & HT1 & Hsb1 & Hsz1 & [(k & Hk & Hnk & Hno & Hoff & Hgot)|(Hnone & _)]); [|by destruct (Hnone (2 + Z.of_nat j) ltac:(lia))].
    assert (k = 2 + Z.of_nat j) as ->.
    { destruct (Z.lt_trichotomy k (2 + Z.of_nat j)) as [Hlt|[?|Hgt]]; [|done|].
      - by destruct (Hfirst k ltac:(lia)).
      - by destruct (Hno (2 + Z.of_nat j) ltac:(lia)). }
    rewrite Hde in Hgot. destruct Hgot as (Ha & Hent & _ & _ & _ & Hfresh). destruct (Hfresh Hnew) as (Hr0 & Hval & Hlk).
    assert (mounts (img t) s1) as HM1 by (destruct HM as [M1 M2 M3]; split; [congruence|congruence|intros c; by rewrite Hv1]).
    apply (read_file me L D s1 r.1 (2 + Z.of_nat j) (contents src) (img t)); try done; [by rewrite Hsb1|lia| |by rewrite Hlk; apply Hlocks].
    by eapply boot_file.
Qed.

(** When the entries fill the last block of the root directory, the size that
    main gives it extends into a block it does not have. *)
Lemma root_hole srcs root fs t s x lk : built srcs root fs t → mounts (img t) s → 1 + Z.of_nat (length srcs) < NINODES →
  (2 + Z.of_nat (length srcs)) mod 64 = 0 → let i := loaded_inode (view s (IBLOCK 1 (sb_of s))) (di_off 1) x lk in
  i_size i = root_size srcs ∧ block_of s i (root_size srcs / BSIZE - 1) = 0.
Proof.
  intros HB HM Hlen Hm. destruct (bu_root _ _ _ _ HB) as (_ & Hd & ([F1 F2 F3 F4 F5 F6 F7 F8 F9] & He & Hs & _)).
  rewrite (boot_sb _ _ _ _ _ HB HM), (mo_view _ _ HM). intros i. split; [exact Hs|]. pose proof (root_length srcs) as Hl.
  assert (nblk root = root_size srcs / BSIZE - 1) as Hn.
  { unfold exact, fsize in He. rewrite He, Hd. unfold blkcount, root_size. rewrite Hl. dlia. }
  rewrite <-Hn. assert (0 ≤ nblk root < NDIRECT) as Hr by (rewrite Hn; unfold root_size; rewrite Hl; dlia).
  unfold block_of. rewrite (proj2 (Z.ltb_lt _ _)) by lia. cbn. unfold in_table. rewrite (proj2 (Z.leb_le _ _)), (proj2 (Z.ltb_lt _ _)) by lia.
  change (d_addrs (get_dinode (img t (IBLOCK 1 mkfs_sb)) (di_off 1)) (nblk root) = 0). rewrite F2 by lia. apply zth_ge. unfold nblk. lia.
Qed.
