(* ===== verification/MkfsWitness.v ===== *)
(** An image with one file, and a kernel that has mounted it. *)

From S2P Require Import Prelude Riscv Memory Kalloc Vm VmSpec VmMap VmUser VmCow VmThms VmWitness.
From S2P Require Import State Printf Proc Bio BioThms Log LogThms LogOps LogSpace Txn Fs FsPath FsBlocks FsInode FsRead Witness.
From S2P Require Import Mkfs MkfsThms MkfsBoot.

#[local] Opaque Small.space.

(** mkfs fs.img user/_cat, a file of three bytes that are read in two pieces. *)
Definition cat_source : source := ([117; 115; 101; 114; 47; 95; 99; 97; 116], Some [[1; 2]; [3]]).

Lemma cat_ok : Forall source_ok [cat_source].
Proof.
  constructor; [|constructor]. split; [by eexists|done|vm_compute; discriminate|repeat constructor; lia|repeat constructor; lia|vm_compute; discriminate].
Qed.

(** Entry 0 of the inode table holds the root directory, locked. *)
Definition kernel_on (m : Z → mem) : kstate :=
  set_sb_of (get_superblock (m 1)) (set_disk_size FSSIZE (set_disk m (set_itable (λ i, if i =? 0 then
    loaded_inode (m (IBLOCK 1 (get_superblock (m 1)))) (di_off 1) (mkInode ROOTDEV 1 1 (mkSleeplock true 1) false 0 0 0 0 0 (λ _, 0)) (mkSleeplock true 1)
    else empty_inode) kernel))).

Lemma boot_view m c : view (kernel_on m) c = m c ∧ pins (kernel_on m) c = 0.
Proof. apply view_uncached. intros i (_ & Hd & _). cbn in Hd. lia. Qed.

Lemma boot_mounts m : mounts m (kernel_on m).
Proof. split; [done|done|]. intros c. apply boot_view. Qed.

Lemma boot_tx m : tx 0 [] 2 [] m (kernel_on m).
Proof.
  split.
  - destruct kernel_cache. by split.
  - split; cbn; try done; try lia; [constructor|by intros b ?%elem_of_nil].
  - intros c. by rewrite (proj2 (boot_view m c)).
  - constructor.
  - intros c _. apply boot_view.
  - reflexivity.
Qed.

Lemma mkfs_builds_witness : wp (mkfs_main [cat_source]) (λ _ t, let s := kernel_on (img t) in
  used s 48 = true ∧ used s 49 = false ∧ stored s 2 T_FILE 3 [1; 2; 3] ∧ layout 2 s) mkfs_start.
Proof.
  eapply wp_mono; [apply (mkfs_builds [cat_source])|].
  - apply cat_ok.
  - cbn. lia.
  - vm_compute. discriminate.
  - intros [] t [_ H]. destruct (H _ (boot_mounts (img t))) as (_ & _ & Hl & Hu & Hf & _).
    split_and!; [rewrite Hu by lia; reflexivity|rewrite Hu by lia; reflexivity|apply (Hf 0%nat cat_source eq_refl)|exact Hl].
Defined.

(** The file is found as cat. *)
Lemma mkfs_file_readable_witness : wp (mkfs_main [cat_source]) (λ _ t,
  wp (read_named 0 0 [99; 97; 116] 10) (λ r _, r = (3, [1; 2; 3])) (kernel_on (img t))) mkfs_start.
Proof.
  eapply wp_mono; [apply (mkfs_file_readable [cat_source] 0 cat_source)|].
  - apply cat_ok.
  - cbn. lia.
  - vm_compute. discriminate.
  - apply (bool_decide_unpack _). vm_compute. exact I.
  - apply (bool_decide_unpack _). vm_compute. exact I.
  - vm_compute. discriminate.
  - reflexivity.
  - intros [] t H. apply (H 0 [] (img t) (kernel_on (img t)) 0 (mkInode ROOTDEV 1 1 (mkSleeplock true 1) false 0 0 0 0 0 (λ _, 0)) (mkSleeplock true 1) 10).
    + apply boot_mounts.
    + apply boot_tx.
    + cbn. lia.
    + lia.
    + rewrite (proj1 (boot_view _ _)). reflexivity.
    + reflexivity.
    + intros a Ha (Hr & _ & Hi). cbn in Hr, Hi. destruct (Z.eqb_spec a 0); cbn in *; lia.
    + exists 3. split; [lia|reflexivity].
    + intros a Ha. cbn in Ha |- *. destruct (Z.eqb_spec a 0); [cbn in Ha; lia|reflexivity].
    + lia.
Defined.
