(* ===== verification/Ulib.v ===== *)
(** user/ulib.c and user/printf.c: strings, memory, numbers and formatted
    output of the user programs.

    The memory of a program is a byte memory, in which a char is an unsigned
    byte, as it is on this machine.  A loop whose end the memory decides takes
    the number of turns it may make; the theorems give the number that is
    enough.  putc appends a character to the output; what write returns is
    ignored by the code.  The functions that the kernel has under the same name
    are called u_ here. *)

From S2P Require Import Prelude Riscv Memory Kalloc Vm State Printf Shell ShellRun.

(** ** user/ulib.c *)

(** while( ( *s++ = *t++ ) != 0) ; *)
Fixpoint strcpy (fuel : nat) (m : mem) (s t : Z) : outcome mem :=
  match fuel with
  | O => NoFuel
  | S k =>
      let c := m t in
      let m := fupd m s c in
      if c =? 0 then Done m else strcpy k m (s + 1) (t + 1)
  end.

(** while( *p && *p == *q) p++, q++; return (uchar)*p - (uchar)*q; *)
Fixpoint strcmp (fuel : nat) (m : mem) (p q : Z) : outcome Z :=
  match fuel with
  | O => NoFuel
  | S k => if negb (m p =? 0) && (m p =? m q) then strcmp k m (p + 1) (q + 1) else Done (m p - m q)
  end.

(** for(n = 0; s[n]; n++) ; *)
Fixpoint u_strlen (fuel : nat) (m : mem) (s n : Z) : outcome Z :=
  match fuel with
  | O => NoFuel
  | S k => if m (s + n) =? 0 then Done n else u_strlen k m s (n + 1)
  end.

(** for(i = 0; i < n; i++) cdst[i] = c; *)
Fixpoint u_memset_loop (k : nat) (m : mem) (cdst c i : Z) : mem :=
  match k with
  | O => m
  | S k' => u_memset_loop k' (fupd m (cdst + i) (u8 c)) cdst c (i + 1)
  end.
Definition u_memset (m : mem) (dst c n : Z) : mem := u_memset_loop (Z.to_nat n) m dst c 0.

(** for(; *s; s++) if( *s == c) return s; return 0; *)
Fixpoint u_strchr (fuel : nat) (m : mem) (s c : Z) : outcome Z :=
  match fuel with
  | O => NoFuel
  | S k => if m s =? 0 then Done 0 else if m s =? c then Done s else u_strchr k m (s + 1) c
  end.

(** gets(buf, max) at index [i]: the memory and the characters that are left
    to read; a read of no character ends the line. *)
Fixpoint u_gets_loop (fuel : nat) (m : mem) (buf i max : Z) (input : list Z) : outcome (mem * list Z) :=
  match fuel with
  | O => NoFuel
  | S k =>
      if i + 1 <? max then
        match input with
        | [] => Done (fupd m (buf + i) 0, [])
        | c :: input' =>
            let m := fupd m (buf + i) c in
            let i := i + 1 in
            if (c =? 10) || (c =? 13) then Done (fupd m (buf + i) 0, input')
            else u_gets_loop k m buf i max input'
        end
      else Done (fupd m (buf + i) 0, input)
  end.
Definition u_gets (m : mem) (buf max : Z) (input : list Z) : outcome (mem * list Z) :=
  u_gets_loop (S (Z.to_nat max)) m buf 0 max input.

(** while('0' <= *s && *s <= '9') n = n*10 + *s++ - '0'; signed overflow is
    undefined. *)
Definition int_min : Z := - 2^31.
Definition fits_int (x : Z) : bool := (int_min <=? x) && (x <? 2^31).
Fixpoint atoi_loop (fuel : nat) (m : mem) (s n : Z) : outcome Z :=
  match fuel with
  | O => NoFuel
  | S k =>
      if (48 <=? m s) && (m s <=? 57) then
        if fits_int (n * 10) && fits_int (n * 10 + m s) then atoi_loop k m (s + 1) (n * 10 + m s - 48)
        else Undef "signed overflow"
      else Done n
  end.
Definition atoi (fuel : nat) (m : mem) (s : Z) : outcome Z := atoi_loop fuel m s 0.

(** The copy goes up when the source is above, down otherwise. *)
Definition u_memmove (m : mem) (vdst vsrc n : Z) : mem :=
  if vdst <? vsrc then copy_fwd m vdst vsrc (Z.to_nat n)
  else copy_bwd m (vdst + n) (vsrc + n) (Z.to_nat n).

Fixpoint u_memcmp (n : nat) (m : mem) (p1 p2 : Z) : Z :=
  match n with
  | O => 0
  | S k => if m p1 =? m p2 then u_memcmp k m (p1 + 1) (p2 + 1) else m p1 - m p2
  end.

Definition u_memcpy (m : mem) (dst src n : Z) : mem := u_memmove m dst src n.

(** ** user/printf.c *)

(** "0123456789ABCDEF"[d] *)
Definition u_digit (d : Z) : Z := if d <? 10 then 48 + d else 65 + (d - 10).

(** do { buf[i++] = digits[x % base]; } while((x /= base) != 0); *)
Fixpoint u_digits (fuel : nat) (x base : Z) : list Z :=
  match fuel with
  | O => []
  | S k => u_digit (x mod base) :: (if x / base =? 0 then [] else u_digits k (x / base) base)
  end.

(** x is an unsigned int, buf has 20 bytes. *)
Definition u_printint (xx base : Z) (sgn : bool) : outcome (list Z) :=
  let neg := sgn && (xx <? 0) in
  let x := if neg then u32 (- xx) else u32 xx in
  let buf := u_digits 32 x base ++ (if neg then [45] else []) in
  if 20 <? Z.of_nat (length buf) then Undef "buf[i++]" else Done (rev buf).

Fixpoint u_printptr_loop (n : nat) (x : Z) : list Z :=
  match n with
  | O => []
  | S n' => u_digit (Z.shiftr x 60) :: u_printptr_loop n' (u64 (Z.shiftl x 4))
  end.
Definition u_printptr (x : Z) : list Z := [48; 120] ++ u_printptr_loop 16 x.

(** The conversion at [fmt], behind the percent sign: what it prints, the
    number of characters it takes, the arguments that are left.  The integer
    conversions are those of the kernel. *)
Definition u_convert (fmt : list Z) (args : list vararg) : outcome (list Z * nat * list vararg) :=
  let c0 := nth 0 fmt 0 in
  let c1 := if c0 =? 0 then 0 else nth 1 fmt 0 in
  let c2 := if c1 =? 0 then 0 else nth 2 fmt 0 in
  match int_conv c0 c1 c2 with
  | Some (k, base, sgn, conv) =>
      match args with
      | AInt v :: args' =>
          match u_printint (conv v) base sgn with
          | Done l => Done (l, k, args')
          | Panic e => Panic e | Undef e => Undef e | Block => Block | NoFuel => NoFuel
          end
      | _ => Undef "va_arg"
      end
  | None =>
      if c0 =? 112 then                                                                  (* p *)
        match args with AInt v :: args' => Done (u_printptr (u64 v), 1%nat, args') | _ => Undef "va_arg" end
      else if c0 =? 99 then                                                              (* c *)
        match args with AInt v :: args' => Done ([u8 v], 1%nat, args') | _ => Undef "va_arg" end
      else if c0 =? 115 then                                                             (* s *)
        match args with
        | AStr (Some l) :: args' => Done (l, 1%nat, args')
        | AStr None :: args' => Done ([40; 110; 117; 108; 108; 41], 1%nat, args')        (* (null) *)
        | _ => Undef "va_arg"
        end
      else if c0 =? 37 then Done ([37], 1%nat, args)
      else Done ([37; c0], 1%nat, args)
  end.

(** The loop over the format, [state] telling whether a percent sign has been
    read. *)
Fixpoint vprintf_loop (fuel : nat) (fmt : list Z) (state : bool) (args : list vararg) : outcome (list Z) :=
  match fuel with
  | O => NoFuel
  | S k =>
      match fmt with
      | [] => Done []
      | c0 :: rest =>
          if negb state then
            if c0 =? 37 then vprintf_loop k rest true args
            else match vprintf_loop k rest false args with Done l => Done (c0 :: l) | o => o end
          else
            match u_convert fmt args with
            | Done (out, j, args') =>
                match vprintf_loop k (drop j fmt) false args' with Done l => Done (out ++ l) | o => o end
            | Panic e => Panic e | Undef e => Undef e | Block => Block | NoFuel => NoFuel
            end
      end
  end.
Definition vprintf (fmt : list Z) (args : list vararg) : outcome (list Z) := vprintf_loop (S (length fmt)) fmt false args.
