(* ===== verification/UlibThms.v ===== *)
(** The user library: strings end where they should, gets stays in its buffer,
    numbers are read back as they were printed. *)

From S2P Require Import Prelude Riscv Memory Kalloc Vm State Printf Shell ShellRun Ulib.

(** ** Strings *)

(** The NUL-terminated string [l] at address [s]. *)
Fixpoint cstring (m : mem) (s : Z) (l : list Z) : Prop :=
  match l with
  | [] => m s = 0
  | c :: l' => m s = c ∧ 0 < c < 256 ∧ cstring m (s + 1) l'
  end.

Lemma cstring_ext m m' s l : (∀ x, s ≤ x ≤ s + Z.of_nat (length l) → m' x = m x) → cstring m s l → cstring m' s l.
Proof.
  revert s. induction l as [|c l IH]; intros s Hx; cbn [cstring length] in *.
  - rewrite Hx by lia. done.
  - intros (H1 & H2 & H3). rewrite Hx by lia. split_and!; [done|lia|lia|]. apply IH; [|done]. intros x Hx'. apply Hx. lia.
Qed.

Lemma u_strlen_ok m l : ∀ s n, cstring m (s + n) l → u_strlen (S (length l)) m s n = Done (n + Z.of_nat (length l)).
Proof.
  induction l as [|c l IH]; intros s n; cbn [cstring length u_strlen].
  - intros ->. cbn. do 2 f_equal. lia.
  - intros (-> & Hc & Hl). rewrite (proj2 (Z.eqb_neq _ _)) by lia. rewrite <-Z.add_assoc in Hl.
    specialize (IH s (n + 1) Hl). cbn [u_strlen] in IH. etrans; [exact IH|]. f_equal. lia.
Qed.

(** strcpy copies the string with its NUL and nothing else. *)
Lemma strcpy_ok l : ∀ m s t, cstring m t l → s + Z.of_nat (length l) < t ∨ t + Z.of_nat (length l) < s →
  ∃ m', strcpy (S (length l)) m s t = Done m' ∧ cstring m' s l ∧ ∀ x, x < s ∨ s + Z.of_nat (length l) < x → m' x = m x.
Proof.
  induction l as [|c l IH]; intros m s t Hl Hd; cbn [cstring length] in *.
  - cbn [strcpy]. rewrite Hl. eexists. split_and!; [done|by rewrite fupd_eq|]. intros x Hx. by rewrite fupd_ne by lia.
  - destruct Hl as (H1 & H2 & H3). destruct (IH (fupd m s c) (s + 1) (t + 1)) as (m' & E & Hs & Hx).
    + eapply cstring_ext; [|done]. intros x Hx. by rewrite fupd_ne by lia.
    + lia.
    + exists m'. split_and!.
      * change (strcpy (S (S (length l))) m s t) with
          (if m t =? 0 then Done (fupd m s (m t)) else strcpy (S (length l)) (fupd m s (m t)) (s + 1) (t + 1)).
        by rewrite H1, (proj2 (Z.eqb_neq _ _)) by lia.
      * rewrite Hx by lia. by rewrite fupd_eq.
      * lia.
      * lia.
      * done.
      * intros x Hx'. rewrite Hx by lia. by rewrite fupd_ne by lia.
Qed.

(** The order of strings. *)
Fixpoint lex (l1 l2 : list Z) : comparison :=
  match l1, l2 with
  | [], [] => Eq
  | [], _ :: _ => Lt
  | _ :: _, [] => Gt
  | c1 :: l1', c2 :: l2' => match c1 ?= c2 with Eq => lex l1' l2' | o => o end
  end.

Lemma lex_eq l1 : ∀ l2, lex l1 l2 = Eq ↔ l1 = l2.
Proof.
  induction l1 as [|c1 l1 IH]; intros [|c2 l2]; cbn [lex]; try done.
  destruct (Z.compare_spec c1 c2) as [->|Hlt|Hgt]; [rewrite IH; split; [by intros ->|by intros [= ->]]|..]; split; try done; intros [= -> _]; lia.
Qed.

Lemma strcmp_ok m l1 : ∀ l2 p q, cstring m p l1 → cstring m q l2 → ∃ r, strcmp (S (length l1)) m p q = Done r ∧ (r ?= 0) = lex l1 l2.
Proof.
  induction l1 as [|c1 l1 IH]; intros [|c2 l2] p q; cbn [cstring length strcmp lex].
  - intros -> ->. eexists. by split.
  - intros -> (-> & H & _). eexists. split; [done|]. apply Z.compare_lt_iff. lia.
  - intros (-> & H & _) ->. rewrite (proj2 (Z.eqb_neq c1 0)) by lia. cbn. eexists. split; [done|]. apply Z.compare_gt_iff. lia.
  - intros (E1 & H1 & L1) (E2 & H2 & L2). rewrite E1, E2, (proj2 (Z.eqb_neq c1 0)) by lia. cbn [negb andb].
    destruct (Z.eqb_spec c1 c2) as [->|Hne].
    + rewrite Z.compare_refl. by apply IH.
    + eexists. split; [done|]. rewrite <-(Zcompare_plus_compat _ _ c2). replace (c2 + (c1 - c2)) with c1 by lia. rewrite Z.add_0_r.
      destruct (Z.compare_spec c1 c2); [lia|done|done].
Qed.

(** ** Lines *)
Lemma gets_loop_ok max input : ∀ k m buf i, i + 1 ≤ max → max ≤ i + Z.of_nat k → (1 ≤ k)%nat →
  let '(l, rest) := gets_ (Z.to_nat (max - i)) input in
  ∃ m', u_gets_loop k m buf i max input = Done (m', rest) ∧ Z.of_nat (length l) < max - i ∧
    bytes m' (buf + i) (length l) = l ∧ m' (buf + i + Z.of_nat (length l)) = 0 ∧
    ∀ x, x < buf + i ∨ buf + i + Z.of_nat (length l) < x → m' x = m x.
Proof.
  induction input as [|c input IH]; intros k m buf i Hi Hk H1; destruct k as [|k]; try lia; cbn [u_gets_loop].
  - replace (gets_ (Z.to_nat (max - i)) []) with (@nil Z, @nil Z) by (destruct (Z.to_nat (max - i)) as [|[|n]]; done).
    case_if; (eexists; split_and!; [done|cbn; lia|done|cbn; by rewrite Z.add_0_r, fupd_eq|]; cbn; intros x Hx; by rewrite fupd_ne by lia).
  - destruct (Z.to_nat (max - i)) as [|[|n]] eqn:En; [lia| |].
    + cbn [gets_]. rewrite (proj2 (Z.ltb_ge _ _)) by lia.
      eexists. split_and!; [done|cbn; lia|done|cbn; by rewrite Z.add_0_r, fupd_eq|]. cbn. intros x Hx. by rewrite fupd_ne by lia.
    + cbn [gets_]. rewrite (proj2 (Z.ltb_lt _ _)) by lia. destruct ((c =? 10) || (c =? 13)).
      * eexists. split_and!; [done|cbn; lia| | |].
        -- cbn. f_equal. rewrite fupd_ne by lia. by rewrite fupd_eq.
        -- cbn. rewrite Z.add_assoc. apply fupd_eq.
        -- cbn. intros x Hx. by rewrite !fupd_ne by lia.
      * specialize (IH k (fupd m (buf + i) c) buf (i + 1) ltac:(lia) ltac:(lia) ltac:(lia)).
        replace (Z.to_nat (max - (i + 1))) with (S n) in IH by lia. destruct (gets_ (S n) input) as [l rest].
        destruct IH as (m' & E & Hl & Hb & Hz & Hx). rewrite !Z.add_assoc in *.
        exists m'. cbn [length bytes]. split_and!; [done|lia|f_equal; [rewrite Hx by lia; apply fupd_eq|done]| |].
        -- rewrite <-Hz. f_equal. lia.
        -- intros x Hx'. rewrite Hx by lia. by rewrite fupd_ne by lia.
Qed.

(** C28: gets stays inside its buffer and refines reading a line.  With room for
    at least one byte it returns; it stores the characters that the line reader
    of the shell takes from the input, at most max - 1 of them and up to the
    first end of a line, puts a NUL behind them, leaves the rest of the input,
    and writes nothing outside the max bytes of the buffer. *)
Theorem gets_bounded m buf max input : 1 ≤ max → let '(l, rest) := gets_ (Z.to_nat max) input in
  ∃ m', u_gets m buf max input = Done (m', rest) ∧ Z.of_nat (length l) < max ∧ bytes m' buf (length l) = l ∧
    m' (buf + Z.of_nat (length l)) = 0 ∧ ∀ x, x < buf ∨ buf + max ≤ x → m' x = m x.
Proof.
  intros Hm. pose proof (gets_loop_ok max input (S (Z.to_nat max)) m buf 0 ltac:(lia) ltac:(lia) ltac:(lia)) as H.
  rewrite Z.sub_0_r, Z.add_0_r in H. destruct (gets_ _ _) as [l rest]. destruct H as (m' & E & Hl & Hb & Hz & Hx).
  exists m'. split_and!; [done|lia|done|done|]. intros x Hx'. apply Hx. lia.
Qed.

Lemma gets_bounded_witness : ∃ m', u_gets (λ _, 7) 100 4 [97; 98; 99; 100; 10] = Done (m', [100; 10]) ∧ bytes m' 100 3 = [97; 98; 99] ∧
  m' 103 = 0 ∧ m' 104 = 7.
Proof.
  destruct (gets_bounded (λ _, 7) 100 4 [97; 98; 99; 100; 10] ltac:(lia)) as (m' & E & _ & Hb & Hz & Hx).
  exists m'. split_and!; [exact E|exact Hb|exact Hz|apply Hx; lia].
Defined.

(** ** Numbers *)
Definition u_digit_val (c : Z) : Z := if c <? 58 then c - 48 else c - 55.
Fixpoint u_number (base : Z) (l : list Z) : Z :=
  match l with
  | [] => 0
  | c :: l' => u_digit_val c + base * u_number base l'
  end.

Lemma u_digit_ok d : 0 ≤ d < 16 → u_digit_val (u_digit d) = d.
Proof. intros Hd. unfold u_digit, u_digit_val. repeat case_if; lia. Qed.

(** The digits of a number, the last one first. *)
Lemma u_digits_ok base : 2 ≤ base ≤ 16 → ∀ n x k, 0 ≤ x < base ^ Z.of_nat (S k) → (k < n)%nat →
  u_number base (u_digits n x base) = x ∧ (1 ≤ length (u_digits n x base) ≤ S k)%nat ∧
  Forall (λ c, ∃ d, c = u_digit d ∧ 0 ≤ d < base) (u_digits n x base).
Proof.
  intros Hb. induction n as [|n IH]; intros x k Hx Hk; [lia|]. cbn [u_digits u_number].
  pose proof (Z.mod_pos_bound x base ltac:(lia)) as Hm. pose proof (u_digit_ok (x mod base) ltac:(lia)) as Hd.
  pose proof (Z.div_mod x base ltac:(lia)) as Hdm.
  destruct (Z.eqb_spec (x / base) 0) as [Hq|Hq]; cbn [u_number length].
  - rewrite Hd. split_and!; [lia|lia|lia|]. constructor; [|constructor]. eexists. by split.
  - pose proof (Z.div_pos x base ltac:(lia) ltac:(lia)). destruct k as [|k].
    { exfalso. change (Z.of_nat 1) with 1 in Hx. rewrite Z.pow_1_r in Hx. apply Hq. apply Z.div_small. lia. }
    destruct (IH (x / base) k) as (I1 & I2 & I3); [|lia|].
    { split; [lia|]. rewrite Nat2Z.inj_succ, Z.pow_succ_r in Hx by lia. apply Z.div_lt_upper_bound; lia. }
    rewrite Hd, I1. split_and!; [lia|lia|lia|]. constructor; [eexists; by split|done].
Qed.

(** printint prints the low 32 bits of its argument in at most 11 characters. *)
Lemma u_printint_ok xx base sgn : base = 10 ∨ base = 16 → let neg := sgn && (xx <? 0) in
  ∃ ds, u_printint xx base sgn = Done ((if neg then [45] else []) ++ rev ds) ∧ (1 ≤ length ds ≤ 10)%nat ∧
    u_number base ds = u32 (if neg then - xx else xx) ∧ Forall (λ c, ∃ d, c = u_digit d ∧ 0 ≤ d < base) ds.
Proof.
  intros Hb neg. set (x := u32 (if neg then - xx else xx)). pose proof (u32_range (if neg then - xx else xx)) as Hx. fold x in Hx.
  destruct (u_digits_ok base ltac:(lia) 32 x 9) as (H1 & H2 & H3); [destruct Hb as [-> | ->]; cbn; lia|lia|].
  exists (u_digits 32 x base). split_and!; [|lia|lia|done|done].
  unfold u_printint. fold neg. cbv zeta. replace (if neg then u32 (- xx) else u32 xx) with x by (unfold x; by destruct neg).
  rewrite (proj2 (Z.ltb_ge _ _)) by (rewrite length_app; destruct neg; cbn [length]; lia). rewrite rev_app_distr. by destruct neg.
Qed.

(** atoi on a sequence of decimal digits, the value of which stays away from
    the largest int. *)
Fixpoint decimal (n : Z) (l : list Z) : Z := match l with [] => n | c :: l' => decimal (n * 10 + (c - 48)) l' end.

Lemma decimal_mono l : ∀ n, 0 ≤ n → Forall (λ c, 48 ≤ c ≤ 57) l → n ≤ decimal n l.
Proof.
  induction l as [|c l IH]; intros n Hn Hl; cbn [decimal]; [lia|]. apply Forall_cons in Hl as [Hc Hl]. specialize (IH (n * 10 + (c - 48)) ltac:(lia) Hl). lia.
Qed.

Lemma decimal_snoc l : ∀ n c, decimal n (l ++ [c]) = decimal n l * 10 + (c - 48).
Proof. induction l as [|c' l IH]; intros n c; [done|]. cbn. apply IH. Qed.

Lemma decimal_number l : Forall (λ c, 48 ≤ c ≤ 57) l → decimal 0 (rev l) = u_number 10 l.
Proof.
  induction l as [|c l IH]; intros Hl; [done|]. apply Forall_cons in Hl as [Hc Hl]. cbn [rev u_number]. rewrite decimal_snoc, IH by done.
  unfold u_digit_val. rewrite (proj2 (Z.ltb_lt _ _)) by lia. lia.
Qed.

Lemma atoi_loop_ok l : ∀ m s n, 0 ≤ n → Forall (λ c, 48 ≤ c ≤ 57) l → bytes m s (length l) = l →
  ¬ (48 ≤ m (s + Z.of_nat (length l)) ≤ 57) → decimal n l < 2^31 - 48 → atoi_loop (S (length l)) m s n = Done (decimal n l).
Proof.
  induction l as [|c l IH]; intros m s n Hn Hd Hb Hend Hv; cbn [length decimal bytes] in *.
  - rewrite Z.add_0_r in Hend. cbn [atoi_loop]. destruct (Z.leb_spec 48 (m s)), (Z.leb_spec (m s) 57); cbn [andb]; try done. lia.
  - injection Hb as Hc Hb. apply Forall_cons in Hd as [Hd Hds]. pose proof (decimal_mono l (n * 10 + (c - 48)) ltac:(lia) Hds).
    remember (S (length l)) as k eqn:Ek. cbn [atoi_loop]. rewrite Hc, !(proj2 (Z.leb_le _ _)) by lia. cbn [andb].
    unfold fits_int, int_min. rewrite !(proj2 (Z.leb_le _ _)), !(proj2 (Z.ltb_lt _ _)) by lia. cbn [andb].
    replace (n * 10 + c - 48) with (n * 10 + (c - 48)) by lia. subst k. apply IH; try done; [lia|].
    by replace (s + 1 + Z.of_nat (length l)) with (s + Z.of_nat (S (length l))) by lia.
Qed.

(** a number printed by printf is read back by atoi.  For the numbers from 0
    up to 48 below the largest int, printint prints at most ten decimal digits,
    and atoi on these characters in memory, followed by anything but a digit,
    returns the number without overflow. *)
Theorem printint_atoi v sgn : 0 ≤ v < 2^31 - 48 → ∃ l, u_printint v 10 sgn = Done l ∧ (1 ≤ length l ≤ 10)%nat ∧
  ∀ m s, bytes m s (length l) = l → ¬ (48 ≤ m (s + Z.of_nat (length l)) ≤ 57) → atoi (S (length l)) m s = Done v.
Proof.
  intros Hv. destruct (u_printint_ok v 10 sgn ltac:(by left)) as (ds & E & Hl & Hn & Hd). rewrite (proj2 (Z.ltb_ge v 0)), andb_false_r in E, Hn by lia.
  rewrite u32_small in Hn by lia. exists (rev ds). cbn [app] in E. split_and!; [done|rewrite rev_length; lia..|].
  assert (Forall (λ c, 48 ≤ c ≤ 57) ds) as Hdec.
  { eapply Forall_impl; [exact Hd|]. intros c (d & -> & Hd'). unfold u_digit. rewrite (proj2 (Z.ltb_lt _ _)) by lia. lia. }
  intros m s Hb Hend. unfold atoi. rewrite (atoi_loop_ok (rev ds)), decimal_number, Hn; try done; [|by rewrite decimal_number, Hn by done; lia..].
  rewrite Forall_forall in *. intros c Hc. apply Hdec. by rewrite list_elem_of_In, in_rev, <-list_elem_of_In.
Qed.

Lemma printint_atoi_witness : ∃ l, u_printint 4096 10 true = Done l ∧ ∀ m, bytes m 0 (length l) = l → m (Z.of_nat (length l)) = 0 →
  atoi (S (length l)) m 0 = Done 4096.
Proof.
  destruct (printint_atoi 4096 true ltac:(lia)) as (l & E & _ & H). exists l. split; [exact E|]. intros m Hb Hz. apply H; [exact Hb|].
  rewrite Z.add_0_l, Hz. lia.
Defined.

(** A conversion takes at least one character of the format. *)
Lemma u_convert_ok fmt args : (∃ o j args', u_convert fmt args = Done (o, S j, args')) ∨ u_convert fmt args = Undef "va_arg".
Proof.
  unfold u_convert. set (c0 := nth 0 fmt 0). set (c1 := if c0 =? 0 then 0 else _). set (c2 := if c1 =? 0 then 0 else _).
  destruct (int_conv c0 c1 c2) as [[[[k base] sgn] conv]|] eqn:Ec.
  - destruct (int_conv_range _ _ _ _ _ _ _ Ec) as [Hb _]. assert (∃ j, k = S j) as [j ->].
    { revert Ec. unfold int_conv. repeat case_if; intros [= <- _ _ _]; by eexists. }
    destruct args as [|[v|?] args]; [by right| |by right]. destruct (u_printint_ok (conv v) base sgn Hb) as (ds & -> & _). left. by eexists _, _, _.
  - repeat case_if; try (left; by eexists _, _, _); destruct args as [|[v|[l|]] args]; first [left; by eexists _, _, _|by right].
Qed.

Lemma vprintf_loop_ok n : ∀ fmt st args, (length fmt < n)%nat →
  (∃ l, vprintf_loop n fmt st args = Done l) ∨ vprintf_loop n fmt st args = Undef "va_arg".
Proof.
  induction n as [|n IH]; intros [|c0 rest] st args Hf; cbn [vprintf_loop length] in *; [lia|lia|left; by eexists|]. destruct st; cbn [negb].
  - destruct (u_convert_ok (c0 :: rest) args) as [(o & j & args' & ->) | ->]; [|by right]. cbn [drop].
    destruct (IH (drop j rest) false args') as [[l ->] | ->]; [rewrite length_drop; lia|left; by eexists|by right].
  - destruct (c0 =? 37); [apply IH; lia|]. destruct (IH rest false args ltac:(lia)) as [[l ->] | ->]; [left; by eexists|by right].
Qed.

(** formatted output of user programs stays inside its buffer and ends.
    Whatever the format and the arguments are, vprintf returns its output,
    unless an argument is missing or has another type than the conversion asks
    for: the 20 bytes of printint's buffer hold every number. *)
Theorem vprintf_in_bounds fmt args : (∃ l, vprintf fmt args = Done l) ∨ vprintf fmt args = Undef "va_arg".
Proof. apply vprintf_loop_ok. lia. Qed.

(** the conversions of long numbers print 32 bits only.  For every argument
    %lu prints what %u prints and %lx what %x prints: the upper half of the 64
    bits is lost in the unsigned int of printint. *)
Theorem long_conversions_truncate v :
  vprintf (bytes_of "%lu") [AInt v] = vprintf (bytes_of "%u") [AInt v] ∧ vprintf (bytes_of "%lx") [AInt v] = vprintf (bytes_of "%x") [AInt v].
Proof.
  assert (u32 (s64 v) = u32 (u32 v)) as E by (unfold u32, s64; dlia).
  assert (∀ base, u_printint (s64 v) base false = u_printint (u32 v) base false) as Hp by (intros base; unfold u_printint; cbn [andb]; by rewrite E).
  change (bytes_of "%lu") with [37; 108; 117]. change (bytes_of "%u") with [37; 117].
  change (bytes_of "%lx") with [37; 108; 120]. change (bytes_of "%x") with [37; 120].
  split; cbn -[u_printint s64 u32]; rewrite Hp; by destruct (u_printint (u32 v) _ false).
Qed.

(** ** Memory *)
Lemma u_memset_ok m dst c n x : 0 ≤ n → u_memset m dst c n x = if decide (dst ≤ x < dst + n) then u8 c else m x.
Proof.
  intros Hn. assert (∀ k m i, u_memset_loop k m dst c i x = if decide (dst + i ≤ x < dst + i + Z.of_nat k) then u8 c else m x) as H.
  { induction k as [|k IH]; intros m' i; cbn [u_memset_loop]; [by rewrite decide_False by lia|].
    rewrite IH, fupd_spec. repeat case_decide; try done; lia. }
  unfold u_memset. rewrite H. repeat case_decide; try done; lia.
Qed.

(** memmove copies between any two places, the copied bytes being those that
    were there before. *)
Lemma u_memmove_ok m dst src n x : 0 ≤ n → u_memmove m dst src n x = if decide (dst ≤ x < dst + n) then m (src + (x - dst)) else m x.
Proof.
  intros Hn. unfold u_memmove. case_if.
  - rewrite copy_fwd_spec by lia. by rewrite Z2Nat.id by done.
  - rewrite copy_bwd_spec by lia. rewrite Z2Nat.id by done. repeat case_decide; try lia; f_equal; lia.
Qed.

Lemma u_memcmp_ok n m : ∀ p1 p2, u_memcmp n m p1 p2 = 0 ↔ bytes m p1 n = bytes m p2 n.
Proof.
  induction n as [|n IH]; intros p1 p2; cbn [u_memcmp bytes]; [done|]. destruct (Z.eqb_spec (m p1) (m p2)) as [E|E].
  - rewrite IH, E. split; [by intros ->|by intros [= ->]].
  - split; [lia|]. by intros [= ? _].
Qed.
