(* ===== verification/Utools.v ===== *)
(** user/cat.c, user/wc.c, user/echo.c, user/ls.c and main of user/grep.c.

    A file is the list of the pieces its reads deliver, as in grep: a read that
    asks for less than the next piece takes the first part of it, an empty piece
    is a read that fails.  A program writes to descriptors 1 and 2; its result
    says whether a function returned or the program called exit. *)

From S2P Require Import Prelude Riscv Memory Kalloc Vm State Printf Bio Log Fs Shell Grep ShellRun Ulib.

(** What was written to descriptors 1 and 2. *)
Record output := mkOutput { out1 : list Z; out2 : list Z }.
Definition put1 (l : list Z) (o : output) : output := mkOutput (out1 o ++ l) (out2 o).
Definition put2 (l : list Z) (o : output) : output := mkOutput (out1 o) (out2 o ++ l).

Inductive ended := Returned | Exited (status : Z).
Definition tool_result : Type := outcome (ended * output).

(** The calls of printf and fprintf(2, ...). *)
Definition say1 (fmt : list Z) (args : list vararg) (o : output) (k : output → tool_result) : tool_result :=
  match vprintf fmt args with
  | Done l => k (put1 l o)
  | Panic e => Panic e | Undef e => Undef e | Block => Block | NoFuel => NoFuel
  end.
Definition say2 (fmt : list Z) (args : list vararg) (o : output) (k : output → tool_result) : tool_result :=
  match vprintf fmt args with
  | Done l => k (put2 l o)
  | Panic e => Panic e | Undef e => Undef e | Block => Block | NoFuel => NoFuel
  end.
Definition exit (status : Z) (o : output) : tool_result := Done (Exited status, o).

Definition msg (s : string) : list Z := bytes_of s ++ [10].

(** open(argv[i], O_RDONLY): the file, if it can be opened. *)
Definition opens : Type := list Z → option (list (list Z)).

(** for(i = ...; i < argc; i++){ open; f(fd); close; } exit(0); *)
Fixpoint each_file (open_ : opens) (fail : list Z → output → tool_result) (f : list Z → list (list Z) → output → tool_result)
    (args : list (list Z)) (o : output) : tool_result :=
  match args with
  | [] => exit 0 o
  | a :: args' =>
      match open_ a with
      | None => fail a o
      | Some file =>
          match f a file o with
          | Done (Returned, o') => each_file open_ fail f args' o'
          | r => r
          end
      end
  end.

(** f(0, ...); exit(0); *)
Definition on_input (r : tool_result) : tool_result := match r with Done (Returned, o') => exit 0 o' | r => r end.

(** ** cat; [wr out d] is what write(1, d, n) returns with this output so far *)
Section cat.
Context (wr : list Z → list Z → nat).

Fixpoint cat (fuel : nat) (f : list (list Z)) (o : output) : tool_result :=
  match fuel with
  | O => NoFuel
  | S k =>
      let failed := match f with [] :: _ => true | _ => false end in
      let '(d, f) := read 512 f in
      if (0 <? length d)%nat then
        let n := wr (out1 o) d in
        let o := put1 (take n d) o in
        if negb (n =? length d)%nat then say2 (msg "cat: write error") [] o (exit 1) else cat k f o
      else if failed then say2 (msg "cat: read error") [] o (exit 1)
      else Done (Returned, o)
  end.

Definition cat_all (f : list (list Z)) : output → tool_result := cat (S (length (mjoin f))) f.

Definition cat_main (open_ : opens) (stdin : list (list Z)) (args : list (list Z)) : tool_result :=
  let o := mkOutput [] [] in
  match args with
  | [] => on_input (cat_all stdin o)
  | _ => each_file open_ (λ a o, say2 (msg "cat: cannot open %s") [AStr (Some a)] o (exit 1)) (λ _ f, cat_all f) args o
  end.
End cat.

(** ** wc *)
Record counts := mkCounts { wl : Z; ww : Z; wcc : Z; inword : bool }.

(** The body of the for loop; the file has fewer than 2^31 characters. *)
Definition wc_char (st : counts) (b : Z) : counts :=
  let c := wcc st + 1 in
  let l := if b =? 10 then wl st + 1 else wl st in
  if strchr [32; 13; 9; 10; 11] b then mkCounts l (ww st) c false
  else if negb (inword st) then mkCounts l (ww st + 1) c true
  else mkCounts l (ww st) c (inword st).

Fixpoint wc_loop (fuel : nat) (name : list Z) (f : list (list Z)) (st : counts) (o : output) : tool_result :=
  match fuel with
  | O => NoFuel
  | S k =>
      let failed := match f with [] :: _ => true | _ => false end in
      let '(d, f) := read 512 f in
      if (0 <? length d)%nat then wc_loop k name f (foldl wc_char st d) o
      else if failed then say1 (msg "wc: read error") [] o (exit 1)
      else say1 (msg "%d %d %d %s") [AInt (wl st); AInt (ww st); AInt (wcc st); AStr (Some name)] o (λ o, Done (Returned, o))
  end.
Definition wc (name : list Z) (f : list (list Z)) : output → tool_result := wc_loop (S (length (mjoin f))) name f (mkCounts 0 0 0 false).

Definition wc_main (open_ : opens) (stdin : list (list Z)) (args : list (list Z)) : tool_result :=
  let o := mkOutput [] [] in
  match args with
  | [] => on_input (wc [] stdin o)
  | _ => each_file open_ (λ a o, say1 (msg "wc: cannot open %s") [AStr (Some a)] o (exit 1)) wc args o
  end.

(** ** echo *)
Fixpoint echo (args : list (list Z)) (o : output) : output :=
  match args with
  | [] => o
  | a :: args' => echo args' (put1 (match args' with [] => [10] | _ => [32] end) (put1 a o))
  end.
Definition echo_main (args : list (list Z)) : tool_result := exit 0 (echo args (mkOutput [] [])).

(** ** main of grep *)
Definition grep_file (pattern buf : list Z) (f : list (list Z)) (o : output) : tool_result :=
  match grep pattern buf f with
  | Done l => Done (Returned, put1 l o)
  | Panic e => Panic e | Undef e => Undef e | Block => Block | NoFuel => NoFuel
  end.

(** [bufs a] is what the buffer holds when the file [a] has been opened. *)
Definition grep_main (open_ : opens) (stdin : list (list Z)) (bufs : list Z → list Z) (args : list (list Z)) : tool_result :=
  let o := mkOutput [] [] in
  match args with
  | [] => say2 (msg "usage: grep pattern [file ...]") [] o (exit 1)
  | [pattern] => on_input (grep_file pattern (bufs []) stdin o)
  | pattern :: args => each_file open_ (λ a o, say1 (msg "grep: cannot open %s") [AStr (Some a)] o (exit 1)) (λ a, grep_file pattern (bufs a)) args o
  end.

(** ** ls *)

(** A store of [l] at index [i] of an array [buf] of [size] bytes. *)
Definition store (size i : nat) (l buf : list Z) : outcome (list Z) :=
  if (i + length l <=? size)%nat then Done (take i buf ++ l ++ drop (i + length l) buf) else Undef "buf".

(** for(p = path + strlen(path); p >= path && *p != '/'; p--) ; p++; the place
    of p when the characters from [k] on are not slashes. *)
Fixpoint after_slash (path : list Z) (k : nat) : nat :=
  match k with
  | O => O
  | S k' => if nth k' path 0 =? SLASH then k else after_slash path k'
  end.

(** fmtname, with what its static array buf of DIRSIZ + 1 bytes holds. *)
Definition fmtname (path sbuf : list Z) : outcome (list Z) :=
  let p := drop (after_slash path (length path)) path in
  let n := length p in
  if DIRSIZ <=? Z.of_nat n then Done p else
  let size := Z.to_nat (DIRSIZ + 1) in
  match store size 0 p sbuf with
  | Done sbuf =>
      match store size n (replicate (Z.to_nat DIRSIZ - n) 32) sbuf with
      | Done sbuf =>
          match store size (size - 1) [0] sbuf with
          | Done sbuf => Done (cstr sbuf)
          | r => r
          end
      | r => r
      end
  | r => r
  end.

(** struct stat: type, ino and size. *)
Record stat_ := mkStat { st_type : Z; st_ino : Z; st_size : Z }.

Section ls.
(** The answers of open with fstat, of the reads of the directory (an entry of
    another length ends it), and of stat; and what the static array of fmtname
    holds when [o] has been printed. *)
Context (sbuf : output → list Z) (open_ : list Z → option (option stat_)) (dirents : list Z → list (list Z)) (stats : list Z → option stat_).

Definition ls_line (name : list Z) (st : stat_) (o : output) (k : output → tool_result) : tool_result :=
  match fmtname name (sbuf o) with
  | Done f => say1 (msg "%s %d %d %d") [AStr (Some f); AInt (st_type st); AInt (st_ino st); AInt (st_size st)] o k
  | Panic e => Panic e | Undef e => Undef e | Block => Block | NoFuel => NoFuel
  end.

(** The loop over the directory, with the place [p] of the name in buf. *)
Fixpoint ls_dir (p : nat) (des : list (list Z)) (buf : list Z) (o : output) : tool_result :=
  match des with
  | [] => Done (Returned, o)
  | de :: des' =>
      if negb (length de =? 16)%nat then Done (Returned, o) else
      if de_inum de =? 0 then ls_dir p des' buf o else
      match store 512 p (de_name de) buf with
      | Done buf =>
          match store 512 (p + Z.to_nat DIRSIZ) [0] buf with
          | Done buf =>
              match stats (cstr buf) with
              | None => say1 (msg "ls: cannot stat %s") [AStr (Some (cstr buf))] o (ls_dir p des' buf)
              | Some st => ls_line (cstr buf) st o (ls_dir p des' buf)
              end
          | Panic e => Panic e | Undef e => Undef e | Block => Block | NoFuel => NoFuel
          end
      | Panic e => Panic e | Undef e => Undef e | Block => Block | NoFuel => NoFuel
      end
  end.

(** [buf] is what the array on the stack holds. *)
Definition ls (path buf : list Z) (o : output) : tool_result :=
  match open_ path with
  | None => say2 (msg "ls: cannot open %s") [AStr (Some path)] o (λ o, Done (Returned, o))
  | Some None => say2 (msg "ls: cannot stat %s") [AStr (Some path)] o (λ o, Done (Returned, o))
  | Some (Some st) =>
      if (st_type st =? T_DEVICE) || (st_type st =? T_FILE) then ls_line path st o (λ o, Done (Returned, o))
      else if st_type st =? T_DIR then
        if 512 <? Z.of_nat (length path) + 1 + DIRSIZ + 1 then say1 (msg "ls: path too long") [] o (λ o, Done (Returned, o))
        else
          match store 512 0 (path ++ [0]) buf with
          | Done buf =>
              match store 512 (length path) [SLASH] buf with
              | Done buf => ls_dir (length path + 1) (dirents path) buf o
              | Panic e => Panic e | Undef e => Undef e | Block => Block | NoFuel => NoFuel
              end
          | Panic e => Panic e | Undef e => Undef e | Block => Block | NoFuel => NoFuel
          end
      else Done (Returned, o)
  end.

(** [bufs path] is what the array holds when ls is called for the path. *)
Fixpoint ls_each (bufs : list Z → list Z) (args : list (list Z)) (o : output) : tool_result :=
  match args with
  | [] => exit 0 o
  | a :: args' => match ls a (bufs a) o with Done (Returned, o') => ls_each bufs args' o' | r => r end
  end.
Definition ls_main (bufs : list Z → list Z) (args : list (list Z)) : tool_result :=
  ls_each bufs (match args with [] => [[46]] | _ => args end) (mkOutput [] []).
End ls.
