(* ===== verification/UtoolsThms.v ===== *)
(** What cat, wc and ls print. *)

From S2P Require Import Prelude Riscv Memory Kalloc Vm State Printf Bio Log Fs Shell Grep ShellRun Ulib UlibThms Utools.

(** ** Formats *)

(** The decimal digits of an int. *)
Definition show_int (v : Z) : list Z := match u_printint (s32 v) 10 true with Done l => l | _ => [] end.

Lemma show_ok v : u_printint (s32 v) 10 true = Done (show_int v).
Proof. unfold show_int. destruct (u_printint_ok (s32 v) 10 true ltac:(by left)) as (ds & -> & _). done. Qed.

Lemma vp_end args : vprintf_loop 1 [] false args = Done [].
Proof. done. Qed.

Lemma vp_char k c rest args l : (c =? 37) = false → vprintf_loop k rest false args = Done l →
  vprintf_loop (S k) (c :: rest) false args = Done (c :: l).
Proof. intros Hc H. cbn [vprintf_loop negb]. by rewrite Hc, H. Qed.

Lemma vp_d k rest v args l : vprintf_loop k rest false args = Done l →
  vprintf_loop (S (S k)) (37 :: 100 :: rest) false (AInt v :: args) = Done (show_int v ++ l).
Proof.
  intros H. cbn [vprintf_loop negb]. change (37 =? 37) with true. cbn iota.
  change (u_convert (100 :: rest) (AInt v :: args)) with
    (match u_printint (s32 v) 10 true with Done l => Done (l, 1%nat, args) | Panic e => Panic e | Undef e => Undef e | Block => Block | NoFuel => NoFuel end).
  rewrite show_ok. cbn [drop]. by rewrite drop_0, H.
Qed.

Lemma vp_s k rest s args l : vprintf_loop k rest false args = Done l →
  vprintf_loop (S (S k)) (37 :: 115 :: rest) false (AStr (Some s) :: args) = Done (s ++ l).
Proof. intros H. cbn [vprintf_loop negb]. change (37 =? 37) with true. cbn. by rewrite drop_0, H. Qed.

(** The output of a literal format with %d and %s: more turns than the loop
    makes do no harm. *)
Lemma vprintf_more fuel : ∀ fmt st args l k, vprintf_loop fuel fmt st args = Done l → (fuel ≤ k)%nat → vprintf_loop k fmt st args = Done l.
Proof.
  induction fuel as [|fuel IH]; intros [|c fmt] st args l [|k] H Hk; cbn [vprintf_loop] in *; try done; try lia.
  destruct (negb st).
  - destruct (c =? 37); [eapply IH; [done|lia]|]. destruct (vprintf_loop fuel fmt false args) as [l'| | | |] eqn:E; try done.
    by rewrite (IH _ _ _ _ k E ltac:(lia)).
  - destruct (u_convert (c :: fmt) args) as [[[o j] args']| | | |]; try done.
    destruct (vprintf_loop fuel (drop j (c :: fmt)) false args') as [l'| | | |] eqn:E; try done. by rewrite (IH _ _ _ _ k E ltac:(lia)).
Qed.

Ltac vprint :=
  eapply (vprintf_more _ _ _ _ _ _);
    [repeat first [apply vp_end | apply vp_d | apply vp_s | apply vp_char; [reflexivity|]] | cbn; lia].

(** ** wc *)
Definition is_space (c : Z) : bool := strchr [32; 13; 9; 10; 11] c.

(** The parts of a text between spaces. *)
Fixpoint parts (l : list Z) : list (list Z) :=
  match l with
  | [] => [[]]
  | c :: l' => if is_space c then [] :: parts l' else match parts l' with w :: ws => (c :: w) :: ws | [] => [[c]] end
  end.
Definition words (l : list Z) : list (list Z) := filter (.≠ []) (parts l).
Definition newlines (l : list Z) : Z := Z.of_nat (length (filter (.= 10) l)).

(** The words that the counter has not counted yet. *)
Definition starts (l : list Z) : Z := match l with c :: _ => if is_space c then 0 else 1 | [] => 0 end.

Lemma words_cons c l : Z.of_nat (length (words (c :: l))) =
  Z.of_nat (length (words l)) + (if is_space c then 0 else 1 - starts l).
Proof.
  unfold words. cbn [parts]. destruct (is_space c) eqn:Ec; [rewrite filter_cons_False by auto; lia|].
  destruct l as [|c' l]; cbn [starts parts].
  { rewrite filter_cons_True by done. rewrite (filter_cons_False _ []) by auto. cbn. lia. }
  destruct (is_space c').
  - rewrite filter_cons_True by done. rewrite filter_cons_False by auto. cbn [length]. lia.
  - destruct (parts l) as [|w ws]; rewrite !filter_cons_True by done; cbn [length]; lia.
Qed.

Lemma wc_chars l : ∀ st, foldl wc_char st l = mkCounts (wl st + newlines l)
  (ww st + Z.of_nat (length (words l)) - (if inword st then starts l else 0)) (wcc st + Z.of_nat (length l))
  (match last l with Some c => negb (is_space c) | None => inword st end).
Proof.
  induction l as [|c l IH]; intros st; cbn [foldl].
  - destruct st as [x y z b]. change (words []) with (@nil (list Z)). change (newlines []) with 0. cbn. f_equal; destruct b; lia.
  - rewrite IH. clear IH. pose proof (words_cons c l) as Hw. unfold newlines, wc_char. fold (is_space c). cbn [length starts].
    assert (match last (c :: l) with Some c => negb (is_space c) | None => inword st end =
      match last l with Some c => negb (is_space c) | None => negb (is_space c) end) as -> by (rewrite last_cons; by destruct (last l)).
    destruct (Z.eqb_spec c 10) as [->|Hn].
    + rewrite filter_cons_True by done. change (is_space 10) with true in *. cbn [wl ww wcc inword length negb]. f_equal; destruct (inword st); lia.
    + rewrite filter_cons_False by done. destruct (is_space c); cbn [wl ww wcc inword negb]; [f_equal; destruct (inword st); lia|].
      destruct (inword st) eqn:Eb; cbn [wl ww wcc inword negb]; f_equal; lia.
Qed.

(** A read of a file without failures takes the first characters. *)
Lemma read_pieces n f d f' : (0 < n)%nat → Forall (.≠ []) f → read n f = (d, f') →
  match f with [] :: _ => true | _ => false end = false ∧ mjoin f = d ++ mjoin f' ∧ Forall (.≠ []) f' ∧ (d = [] → f = []).
Proof.
  intros Hn Hf. destruct Hf as [|p f Hp Hf]; cbn [read]; [by intros [= <- <-]|].
  destruct (length p <=? n)%nat eqn:E; intros [= <- <-]; (split; [by destruct p|]).
  - split_and!; [done|done|]. intros ->. done.
  - apply Nat.leb_gt in E. split_and!; [cbn; by rewrite app_assoc, take_drop| |].
    + constructor; [|done]. intros H%(f_equal length). rewrite length_drop in H. cbn in H. lia.
    + intros H%(f_equal length). rewrite length_take in H. cbn in H. lia.
Qed.

(** The line that wc prints. *)
Definition wc_line (name l : list Z) : list Z :=
  show_int (newlines l) ++ [32] ++ show_int (Z.of_nat (length (words l))) ++ [32] ++ show_int (Z.of_nat (length l)) ++ [32] ++ name ++ [10].

Lemma wc_loop_ok name fuel : ∀ f pre o, Forall (.≠ []) f → (length (mjoin f) < fuel)%nat →
  wc_loop fuel name f (foldl wc_char (mkCounts 0 0 0 false) pre) o = Done (Returned, put1 (wc_line name (pre ++ mjoin f)) o).
Proof.
  induction fuel as [|fuel IH]; intros f pre o Hf Hl; [lia|]. cbn [wc_loop]. destruct (read 512 f) as [d f'] eqn:E.
  destruct (read_pieces 512 f d f' ltac:(lia) Hf E) as (-> & Hj & Hf' & He). destruct (Nat.ltb_spec 0 (length d)) as [Hd|Hd].
  - rewrite <-foldl_app. rewrite Hj, length_app in Hl. rewrite IH by (done || lia). by rewrite Hj, app_assoc.
  - destruct d; [|cbn in Hd; lia]. rewrite He by done. cbn [mjoin list_join]. rewrite app_nil_r, wc_chars. cbn [wl ww wcc inword].
    rewrite Z.sub_0_r, !Z.add_0_l. unfold say1.
    assert (vprintf (msg "%d %d %d %s") [AInt (newlines pre); AInt (Z.of_nat (length (words pre))); AInt (Z.of_nat (length pre)); AStr (Some name)] =
      Done (wc_line name pre)) as ->; [|by destruct o].
    unfold vprintf, msg. cbn [bytes_of app]. vprint.
Qed.

(** wc counts lines, words and characters.  For a file whose reads do not
    fail, however its characters are split into the pieces that the reads of
    512 bytes deliver, wc prints the number of newlines, of words, the non-empty
    parts between spaces, and of characters, and the name. *)
Theorem wc_counts name f o : Forall (.≠ []) f → wc name f o = Done (Returned, put1 (wc_line name (mjoin f)) o).
Proof. intros Hf. apply (wc_loop_ok name _ f [] o Hf). lia. Qed.

(** Two pieces, with a word across the border: 1 line, 2 words, 6 characters. *)
Lemma wc_counts_witness : wc [120] [[97; 32; 98]; [99; 100; 10]] (mkOutput [] []) =
  Done (Returned, mkOutput [49; 32; 50; 32; 54; 32; 120; 10] []).
Proof. rewrite (wc_counts [120] [[97; 32; 98]; [99; 100; 10]]); [vm_compute; reflexivity|]. repeat constructor; discriminate. Defined.

(** ** cat *)
Section cat.
Context (wr : list Z → list Z → nat).
Hypothesis wr_all : ∀ out d, wr out d = length d.

(** A file whose reads do not fail is copied when the writes take everything. *)
Lemma cat_copies f o : Forall (.≠ []) f → cat_all wr f o = Done (Returned, put1 (mjoin f) o).
Proof.
  unfold cat_all. intros Hf. assert (length (mjoin f) < S (length (mjoin f)))%nat as Hl by lia. revert Hl. generalize (S (length (mjoin f))). intros fuel.
  revert f o Hf. induction fuel as [|fuel IH]; intros f o Hf Hl; [lia|]. cbn [cat]. destruct (read 512 f) as [d f'] eqn:E.
  destruct (read_pieces 512 f d f' ltac:(lia) Hf E) as (-> & Hj & Hf' & He). destruct (Nat.ltb_spec 0 (length d)) as [Hd|Hd].
  - rewrite wr_all, Nat.eqb_refl. cbn [negb]. rewrite Hj, length_app in Hl. rewrite IH by (done || lia). rewrite take_ge by lia.
    rewrite Hj. unfold put1. cbn. by rewrite app_assoc.
  - destruct d; [|cbn in Hd; lia]. rewrite He by done. unfold put1. cbn. rewrite app_nil_r. by destruct o.
Qed.
End cat.

(** ** ls *)
Lemma cstr_app l r : 0 ∉ l → cstr (l ++ r) = l ++ cstr r.
Proof.
  induction l as [|c l IH]; intros Hl; [done|]. apply not_elem_of_cons in Hl as [Hc Hl]. cbn. rewrite (proj2 (Z.eqb_neq _ _)) by done. by rewrite IH.
Qed.

Lemma cstr_no_nul l : 0 ∉ cstr l.
Proof. induction l as [|c l IH]; cbn; [apply not_elem_of_nil|]. destruct (Z.eqb_spec c 0); [apply not_elem_of_nil|]. rewrite elem_of_cons. intros [?|?]; done. Qed.

Lemma cstr_end l r : cstr (l ++ 0 :: r) = cstr l.
Proof. induction l as [|c l IH]; [done|]. cbn. destruct (c =? 0); [done|]. by rewrite IH. Qed.

(** A store of the array that fits. *)
Lemma store_ok size i l pre post : length pre = i → (length l ≤ length post)%nat → (length pre + length post = size)%nat →
  store size i l (pre ++ post) = Done (pre ++ l ++ drop (length l) post).
Proof.
  intros <- Hl Hlen. unfold store. rewrite (proj2 (Nat.leb_le _ _)) by lia. f_equal. rewrite take_app_length. do 2 f_equal.
  rewrite drop_app_ge by lia. f_equal. lia.
Qed.

(** The last component of a path, and the same padded with blanks. *)
Fixpoint upto_slash (l : list Z) : list Z :=
  match l with
  | [] => []
  | c :: l' => if c =? SLASH then [] else c :: upto_slash l'
  end.
Definition base (path : list Z) : list Z := rev (upto_slash (rev path)).
Definition padded (path : list Z) : list Z := base path ++ replicate (14 - length (base path)) 32.

Lemma after_slash_base path k : (k ≤ length path)%nat → drop (after_slash path k) (take k path) = base (take k path).
Proof.
  induction k as [|k IH]; intros Hk; [done|]. destruct (lookup_lt_is_Some_2 path k ltac:(lia)) as [c Hc].
  cbn [after_slash]. rewrite (nth_lookup_Some _ _ _ _ Hc), (take_S_r _ _ _ Hc). unfold base. rewrite rev_unit. cbn [upto_slash].
  assert (length (take k path) = k) as Hlen by (rewrite length_take; lia).
  destruct (c =? SLASH).
  - rewrite drop_ge; [done|]. rewrite length_app, Hlen. cbn. lia.
  - specialize (IH ltac:(lia)). unfold base in IH. cbn [rev]. rewrite <-IH. assert (after_slash path k ≤ k)%nat as Hle.
    { clear. induction k as [|k IH]; cbn [after_slash]; [lia|]. case_if; lia. }
    apply drop_app_le. lia.
Qed.

(** fmtname gives the padded name, whatever its array holds, and stores inside
    it. *)
Lemma fmtname_ok path sbuf : 0 ∉ path → length sbuf = 15%nat → fmtname path sbuf = Done (padded path).
Proof.
  intros Hp Hs. unfold fmtname, padded. pose proof (after_slash_base path (length path) ltac:(lia)) as Hb. rewrite firstn_all in Hb.
  assert (0 ∉ base path) as Hn by (rewrite <-Hb; intros H; apply Hp; eapply elem_of_sublist, sublist_drop; exact H).
  rewrite Hb. set (p := base path) in *. destruct (Z.leb_spec DIRSIZ (Z.of_nat (length p))).
  { replace (14 - length p)%nat with 0%nat by lia. by rewrite app_nil_r. }
  change (Z.to_nat (DIRSIZ + 1)) with 15%nat. change (Z.to_nat DIRSIZ) with 14%nat. change sbuf with ([] ++ sbuf).
  rewrite store_ok by (cbn [length]; lia). cbn [app].
  rewrite store_ok by (rewrite ?length_replicate, ?length_drop; lia). rewrite app_assoc.
  rewrite store_ok by (rewrite ?length_app, ?length_replicate, ?length_drop; cbn [length]; lia).
  rewrite cstr_app; [cbn [cstr app Z.eqb]; by rewrite app_nil_r|]. rewrite elem_of_app, elem_of_replicate. intros [?|[? _]]; [done|lia].
Qed.

Section ls.
Context (sbuf : output → list Z) (Hsbuf : ∀ o, length (sbuf o) = 15%nat).
Context (open_ : list Z → option (option stat_)) (dirents : list Z → list (list Z)) (stats : list Z → option stat_).

(** What ls is meant to print. *)
Definition ls_text (name : list Z) (st : stat_) : list Z :=
  padded name ++ [32] ++ show_int (st_type st) ++ [32] ++ show_int (st_ino st) ++ [32] ++ show_int (st_size st) ++ [10].
Definition entry_path (path de : list Z) : list Z := path ++ [SLASH] ++ cstr (de_name de).
Definition entry_text (full : list Z) : list Z :=
  match stats full with None => bytes_of "ls: cannot stat " ++ full ++ [10] | Some st => ls_text full st end.
Fixpoint dir_text (path : list Z) (des : list (list Z)) : list Z :=
  match des with
  | [] => []
  | de :: des' =>
      if negb (length de =? 16)%nat then [] else
      (if de_inum de =? 0 then [] else entry_text (entry_path path de)) ++ dir_text path des'
  end.
Definition ls_output (path : list Z) (o : output) : output :=
  match open_ path with
  | None => put2 (bytes_of "ls: cannot open " ++ path ++ [10]) o
  | Some None => put2 (bytes_of "ls: cannot stat " ++ path ++ [10]) o
  | Some (Some st) =>
      if (st_type st =? T_DEVICE) || (st_type st =? T_FILE) then put1 (ls_text path st) o
      else if st_type st =? T_DIR then
        put1 (if 496 <? Z.of_nat (length path) then msg "ls: path too long" else dir_text path (dirents path)) o
      else o
  end.

Lemma put1_app l r o : put1 r (put1 l o) = put1 (l ++ r) o.
Proof. unfold put1. cbn. by rewrite app_assoc. Qed.

Lemma ls_line_ok name st o k : 0 ∉ name → ls_line sbuf name st o k = k (put1 (ls_text name st) o).
Proof.
  intros Hn. unfold ls_line, say1. rewrite fmtname_ok by done. assert (vprintf (msg "%s %d %d %d") [AStr (Some (padded name)); AInt (st_type st); AInt (st_ino st); AInt (st_size st)] =
    Done (ls_text name st)) as ->; [|done]. unfold vprintf, msg. cbn [bytes_of app]. vprint.
Qed.

Lemma ls_dir_ok path des : ∀ post o, 0 ∉ path → (length path + 16 ≤ 512)%nat → (length path + 1 + length post = 512)%nat →
  ls_dir sbuf stats (length path + 1) des ((path ++ [SLASH]) ++ post) o = Done (Returned, put1 (dir_text path des) o).
Proof.
  assert (∀ o, o = put1 [] o) as Hnil by (intros []; unfold put1; cbn; by rewrite app_nil_r).
  intros post o Hp Hlen. revert post o. induction des as [|de des IH]; intros post o Hpost; cbn [ls_dir dir_text]; [by rewrite <-Hnil|].
  destruct (Nat.eqb_spec (length de) 16) as [H16|]; cbn [negb]; [|by rewrite <-Hnil].
  destruct (de_inum de =? 0); [by apply IH|].
  assert (length (de_name de) = 14%nat) as H14 by (unfold de_name; rewrite length_drop; lia).
  rewrite store_ok by (rewrite ?length_app; cbn [length]; lia). rewrite app_assoc.
  rewrite store_ok by (rewrite ?length_app, ?length_drop; cbn [length]; lia). rewrite <-(app_assoc (path ++ [SLASH])).
  cbn [length app]. set (rest := drop 1 _). assert (length rest = length post - 15)%nat as Hr by (unfold rest; rewrite !length_drop; lia).
  assert (cstr ((path ++ [SLASH]) ++ de_name de ++ 0 :: rest) = entry_path path de) as ->.
  { rewrite cstr_app, cstr_end; [unfold entry_path; by rewrite <-app_assoc|]. rewrite elem_of_app, list_elem_of_singleton. intros [?|?]; [done|lia]. }
  assert (∀ o', ls_dir sbuf stats (length path + 1) des ((path ++ [SLASH]) ++ de_name de ++ 0 :: rest) o' = Done (Returned, put1 (dir_text path des) o')) as Hrest.
  { intros o'. apply IH. rewrite length_app. cbn [length]. lia. }
  unfold entry_text. destruct (stats (entry_path path de)) as [st|].
  - rewrite ls_line_ok, Hrest, put1_app; [done|]. unfold entry_path. rewrite !elem_of_app, list_elem_of_singleton.
    intros [?|[?|?]]; [done|lia|by eapply cstr_no_nul].
  - unfold say1. assert (vprintf (msg "ls: cannot stat %s") [AStr (Some (entry_path path de))] = Done (bytes_of "ls: cannot stat " ++ entry_path path de ++ [10])) as ->.
    { unfold vprintf, msg. cbn [bytes_of app]. vprint. }
    rewrite Hrest, put1_app. done.
Qed.

(** C27: ls prints what it is meant to and stays inside its buffer.  For every
    path, whatever the system calls answer, ls returns: it prints a line with
    the padded name, the type, the number and the size for a file, and for a
    directory a line of this kind for each entry in use, found under the path,
    a slash and the name of the entry; the stores into the 512 bytes of buf that
    build this name, and those into the static array that pads it, are in
    range. *)
Theorem ls_correct path buf o : 0 ∉ path → length buf = 512%nat → ls sbuf open_ dirents stats path buf o = Done (Returned, ls_output path o).
Proof.
  intros Hp Hb. unfold ls, ls_output. destruct (open_ path) as [[st|]|].
  - destruct ((st_type st =? T_DEVICE) || (st_type st =? T_FILE)); [by rewrite ls_line_ok|]. destruct (st_type st =? T_DIR); [|done].
    destruct (Z.ltb_spec 512 (Z.of_nat (length path) + 1 + DIRSIZ + 1)), (Z.ltb_spec 496 (Z.of_nat (length path))); try lia; [done|].
    change buf with ([] ++ buf). rewrite store_ok by (rewrite ?length_app; cbn [length]; lia). cbn [app]. rewrite <-app_assoc.
    rewrite store_ok by (rewrite ?length_app, ?length_drop, ?length_app; cbn [length]; lia).
    rewrite app_assoc. apply ls_dir_ok; [done|lia|]. repeat (rewrite length_drop || rewrite length_app). cbn [length]. lia.
  - unfold say2. assert (vprintf (msg "ls: cannot stat %s") [AStr (Some path)] = Done (bytes_of "ls: cannot stat " ++ path ++ [10])) as ->; [|done].
    unfold vprintf, msg. cbn [bytes_of app]. vprint.
  - unfold say2. assert (vprintf (msg "ls: cannot open %s") [AStr (Some path)] = Done (bytes_of "ls: cannot open " ++ path ++ [10])) as ->; [|done].
    unfold vprintf, msg. cbn [bytes_of app]. vprint.
Qed.
End ls.

(** A directory d with the entry a of a file of 7 bytes. *)
Lemma ls_correct_witness : ls (λ _, replicate 15 7) (λ _, Some (Some (mkStat T_DIR 1 32))) (λ _, [mk_dirent 2 [97]])
    (λ p, if decide (p = [100; 47; 97]) then Some (mkStat T_FILE 2 7) else None) [100] (replicate 512 9) (mkOutput [] []) =
  Done (Returned, mkOutput ([97] ++ replicate 13 32 ++ [32; 50; 32; 50; 32; 55; 10]) []).
Proof.
  rewrite (ls_correct (λ _, replicate 15 7) (λ _, eq_refl) (λ _, Some (Some (mkStat T_DIR 1 32))) (λ _, [mk_dirent 2 [97]])
    (λ p, if decide (p = [100; 47; 97]) then Some (mkStat T_FILE 2 7) else None) [100] (replicate 512 9) (mkOutput [] []));
    [vm_compute; reflexivity| |reflexivity].
  intros H%list_elem_of_singleton. discriminate.
Defined.
