(* ===== verification/Boot.v ===== *)
(** start.c, plic.c and the register accesses of riscv.h: how a hart gets into
    the kernel, and which interrupts it takes.

    The state of a hart is the contents of its control registers, the three
    general registers that the code reads or writes by name, its privilege mode
    and where it continues.  An instruction does what the privileged
    architecture of RISC-V says: sstatus, sie and sip are the parts of mstatus,
    mie and mip that the supervisor sees, and mret goes to the address in mepc
    in the mode of the MPP field.  Most fields are WARL: any
    value may be written, and what is left is a value that the implementation
    supports.  It is the function [legal] of a parameter; the class [Lawful]
    says what the architecture promises of it for the values that are supported,
    and the class [Platform] which optional parts the kernel needs. *)

From S2P Require Import Prelude Riscv.

(** ** Registers *)
Inductive csr :=
| mhartid | mstatus | mepc | medeleg | mideleg | mie | mip | menvcfg | mcounteren
| pmpcfg0 | pmpaddr0 | sepc | stvec | stimecmp | satp | scause | stval | time.

#[export] Instance csr_eq_dec : EqDecision csr.
Proof. solve_decision. Defined.

Record hart := mkHart { csrs : csr → Z; tp : Z; sp : Z; ra : Z; mode : Z; at_pc : Z }.
Definition set_csr (r : csr) (v : Z) (h : hart) : hart :=
  mkHart (λ r', if decide (r' = r) then v else csrs h r') (tp h) (sp h) (ra h) (mode h) (at_pc h).
Definition set_tp (v : Z) (h : hart) : hart := mkHart (csrs h) v (sp h) (ra h) (mode h) (at_pc h).

(** User, supervisor and machine mode. *)
Abbreviation U_MODE := 0 (only parsing).
Abbreviation S_MODE := 1 (only parsing).
Abbreviation M_MODE := 3 (only parsing).

Abbreviation MSTATUS_MPP_MASK := 0x1800 (only parsing).
Abbreviation MSTATUS_MPP_S := 0x800 (only parsing).
Abbreviation SSTATUS_SIE := 2 (only parsing).
Abbreviation SIE_SEIE := 0x200 (only parsing).
Abbreviation SIE_STIE := 0x20 (only parsing).
Abbreviation MIE_STIE := 0x20 (only parsing).

(** The implementation: what is left of a write of [x] over [old] when pmpcfg0
    holds [cfg], the bits of mstatus that sstatus shows, the alignment of
    instructions, and the width and the grain of the addresses of the physical
    memory protection. *)
Class Implementation := {
  legal : csr → ∀ cfg old x : Z, Z; smask : Z; ialign : Z; pa_bits : Z; grain : Z }.

Section machine.
Context `{!Implementation}.

Definition csrr (r : csr) : M hart Z := gets (λ h, csrs h r).
Definition csrw (r : csr) (x : Z) : M hart unit := modify (λ h, set_csr r (legal r (csrs h pmpcfg0) (csrs h r) x) h).

(** The part of register [r] in the mask is read, or written. *)
Definition csrr_part (r : csr) (mask : hart → Z) : M hart Z := gets (λ h, Z.land (csrs h r) (mask h)).
Definition csrw_part (r : csr) (mask : hart → Z) (x : Z) : M hart unit :=
  h <- get ;;
  csrw r (Z.lor (Z.land (csrs h r) (Z.lnot (mask h))) (Z.land x (mask h))).

Definition r_mhartid : M hart Z := csrr mhartid.
Definition r_mstatus : M hart Z := csrr mstatus.
Definition w_mstatus : Z → M hart unit := csrw mstatus.
Definition w_mepc : Z → M hart unit := csrw mepc.
Definition r_sstatus : M hart Z := csrr_part mstatus (λ _, smask).
Definition w_sstatus : Z → M hart unit := csrw_part mstatus (λ _, smask).
Definition r_sip : M hart Z := csrr_part mip (λ h, csrs h mideleg).
Definition w_sip : Z → M hart unit := csrw_part mip (λ h, csrs h mideleg).
Definition r_sie : M hart Z := csrr_part mie (λ h, csrs h mideleg).
Definition w_sie : Z → M hart unit := csrw_part mie (λ h, csrs h mideleg).
Definition r_mie : M hart Z := csrr mie.
Definition w_mie : Z → M hart unit := csrw mie.
Definition w_sepc : Z → M hart unit := csrw sepc.
Definition r_sepc : M hart Z := csrr sepc.
Definition r_medeleg : M hart Z := csrr medeleg.
Definition w_medeleg : Z → M hart unit := csrw medeleg.
Definition r_mideleg : M hart Z := csrr mideleg.
Definition w_mideleg : Z → M hart unit := csrw mideleg.
Definition w_stvec : Z → M hart unit := csrw stvec.
Definition r_stvec : M hart Z := csrr stvec.
Definition r_stimecmp : M hart Z := csrr stimecmp.
Definition w_stimecmp : Z → M hart unit := csrw stimecmp.
Definition r_menvcfg : M hart Z := csrr menvcfg.
Definition w_menvcfg : Z → M hart unit := csrw menvcfg.
Definition w_pmpcfg0 : Z → M hart unit := csrw pmpcfg0.
Definition w_pmpaddr0 : Z → M hart unit := csrw pmpaddr0.
Definition w_satp : Z → M hart unit := csrw satp.
Definition r_satp : M hart Z := csrr satp.
Definition r_scause : M hart Z := csrr scause.
Definition r_stval : M hart Z := csrr stval.
Definition w_mcounteren : Z → M hart unit := csrw mcounteren.
Definition r_mcounteren : M hart Z := csrr mcounteren.
Definition r_time : M hart Z := csrr time.
Definition r_sp : M hart Z := gets sp.
Definition r_tp : M hart Z := gets tp.
Definition w_tp (x : Z) : M hart unit := modify (set_tp x).
Definition r_ra : M hart Z := gets ra.

Definition intr_on : M hart unit := x <- r_sstatus ;; w_sstatus (Z.lor x SSTATUS_SIE).
Definition intr_off : M hart unit := x <- r_sstatus ;; w_sstatus (Z.land x (Z.lnot SSTATUS_SIE)).
Definition intr_get : M hart bool := x <- r_sstatus ;; ret (negb (Z.land x SSTATUS_SIE =? 0)).

(** mret: to mepc, in the mode of MPP, which becomes user mode; MIE gets back
    MPIE, which is set, and MPRV is cleared. *)
Definition mret : M hart unit := modify (λ h,
  let st := csrs h mstatus in
  let kept := Z.land st (Z.lnot (Z.lor MSTATUS_MPP_MASK (Z.lor (2^17) (2^3)))) in
  let h := set_csr mstatus (Z.lor (Z.lor kept (if Z.testbit st 7 then 2^3 else 0)) (2^7)) h in
  mkHart (csrs h) (tp h) (sp h) (ra h) (Z.shiftr (Z.land st MSTATUS_MPP_MASK) 11) (csrs h mepc)).

(** ** start.c *)
Definition timerinit : M hart unit :=
  x <- r_mie ;; w_mie (Z.lor x MIE_STIE) ;;
  x <- r_menvcfg ;; w_menvcfg (Z.lor x (2^63)) ;;
  x <- r_mcounteren ;; w_mcounteren (Z.lor x 2) ;;
  x <- r_time ;; w_stimecmp (u64 (x + 1000000)).

(** [main] is the address of the function of this name. *)
Definition start (main : Z) : M hart unit :=
  x <- r_mstatus ;;
  let x := Z.land x (Z.lnot MSTATUS_MPP_MASK) in
  let x := Z.lor x MSTATUS_MPP_S in
  w_mstatus x ;;
  w_mepc main ;;
  w_satp 0 ;;
  w_medeleg 0xffff ;;
  w_mideleg 0xffff ;;
  x <- r_sie ;; w_sie (Z.lor (Z.lor x SIE_SEIE) SIE_STIE) ;;
  w_pmpaddr0 0x3fffffffffffff ;;
  w_pmpcfg0 0xf ;;
  timerinit ;;
  x <- r_mhartid ;;
  let id := s32 x in
  w_tp (u64 id) ;;
  mret.

Definition cpuid : M hart Z := x <- r_tp ;; ret (s32 x).

(** kvminithart, with the address of the kernel's page table; the fences have
    no effect here. *)
Definition kvminithart (kernel_pagetable : Z) : M hart unit := w_satp (MAKE_SATP kernel_pagetable).

(** trapinithart, with the address of kernelvec. *)
Definition trapinithart (kernelvec : Z) : M hart unit := w_stvec kernelvec.
End machine.

(** ** plic.c: the controller as its 32-bit registers, by address *)
Abbreviation UART0_IRQ := 10 (only parsing).
Abbreviation VIRTIO0_IRQ := 1 (only parsing).
Definition PLIC_SENABLE (hart : Z) : Z := PLIC + 0x2080 + hart * 0x100.
Definition PLIC_SPRIORITY (hart : Z) : Z := PLIC + 0x201000 + hart * 0x2000.
Definition PLIC_SCLAIM (hart : Z) : Z := PLIC + 0x201004 + hart * 0x2000.

Definition plic_set (a v : Z) : M (Z → Z) unit := modify (λ f, fupd f a (u32 v)).

Definition plicinit : M (Z → Z) unit :=
  plic_set (PLIC + UART0_IRQ * 4) 1 ;;
  plic_set (PLIC + VIRTIO0_IRQ * 4) 1.

Definition plicinithart (hart : Z) : M (Z → Z) unit :=
  plic_set (PLIC_SENABLE hart) (Z.lor (Z.shiftl 1 UART0_IRQ) (Z.shiftl 1 VIRTIO0_IRQ)) ;;
  plic_set (PLIC_SPRIORITY hart) 0.

(** Claiming and completing are accesses to one register; [read] is the effect
    of reading it, which is up to the device. *)
Definition plic_claim (read : Z → M (Z → Z) Z) (hart : Z) : M (Z → Z) Z := irq <- read (PLIC_SCLAIM hart) ;; ret (s32 irq).
Definition plic_complete (hart irq : Z) : M (Z → Z) unit := plic_set (PLIC_SCLAIM hart) irq.

(** ** A hart enters the kernel *)

(** The mode field of mstatus, and the modes there are. *)
Definition mpp (x : Z) : Z := Z.land (Z.shiftr x 11) 3.
Definition is_mode (m : Z) : bool := (m =? U_MODE) || (m =? S_MODE) || (m =? M_MODE).

(** No entry of pmpcfg0 is locked. *)
Definition unlocked (cfg : Z) : bool := Z.land cfg 0x8080808080808080 =? 0.

(** The configurations of an entry that software may ask for: no reserved bit,
    not writable without being readable, and not of the kind NA4, which coarser
    grains do not have. *)
Definition cfg_supported (x : Z) : bool :=
  (Z.land x 0x60 =? 0) && (negb (Z.testbit x 1) || Z.testbit x 0) && negb (Z.land (Z.shiftr x 3) 3 =? 2).

(** What the privileged architecture promises of a hart with the three modes
    and the timer extension: supported modes, addresses of instructions, no
    paging, the interrupts of the supervisor, and, while nothing is locked,
    the first entry of the memory protection. *)
Class Lawful `{!Implementation} : Prop := {
  law_range : ∀ r cfg old x, 0 ≤ legal r cfg old x < 2^64;
  law_mpp : ∀ cfg old x, is_mode (mpp x) = true → mpp (legal mstatus cfg old x) = mpp x;
  law_sie : ∀ cfg old x, Z.testbit (legal mstatus cfg old x) 1 = Z.testbit x 1;
  law_smask : Z.testbit smask 1 = true;
  law_mepc : ∀ cfg old x, 0 ≤ x < 2^38 → x mod ialign = 0 → legal mepc cfg old x = x;
  law_satp : ∀ cfg old, legal satp cfg old 0 = 0;
  law_mie : ∀ cfg old x i, i = 5 ∨ i = 9 → Z.testbit (legal mie cfg old x) i = Z.testbit x i;
  law_stimecmp : ∀ cfg old x, 0 ≤ x < 2^64 → legal stimecmp cfg old x = x;
  law_menvcfg : ∀ cfg old x, Z.testbit (legal menvcfg cfg old x) 63 = Z.testbit x 63;
  law_pmpcfg : ∀ cfg old x, unlocked old = true → cfg_supported (x mod 256) = true → legal pmpcfg0 cfg old x mod 256 = x mod 256;
  law_pmpaddr : ∀ cfg old x i, unlocked cfg = true → grain ≤ i < pa_bits - 2 → Z.testbit (legal pmpaddr0 cfg old x) i = Z.testbit x i
}.

(** What the architecture leaves open and the kernel relies on: system calls,
    page faults, and the timer and device interrupts can be delegated, the
    supervisor can be given the time, and physical addresses reach beyond the
    memory of the machine by at least a grain. *)
Class Platform `{!Implementation} : Prop := {
  has_medeleg : ∀ cfg old x i, i ∈ [8; 12; 13; 15] → Z.testbit (legal medeleg cfg old x) i = Z.testbit x i;
  has_mideleg : ∀ cfg old x i, i ∈ [5; 9] → Z.testbit (legal mideleg cfg old x) i = Z.testbit x i;
  has_time : ∀ cfg old x, Z.testbit (legal mcounteren cfg old x) 1 = Z.testbit x 1;
  has_memory : 0 ≤ grain ∧ grain + 2 ≤ pa_bits ≤ 56 ∧ PHYSTOP ≤ 2^pa_bits - 2^(grain + 2)
}.

(** The access of the supervisor to address [a] by the first entry of the
    memory protection, when it is a range that starts at 0 (TOR) and may be
    read, written and executed: only whole grains count. *)
Definition pmp_allows `{!Implementation} (h : hart) (a : Z) : bool :=
  (csrs h pmpcfg0 mod 32 =? 0xf) && (a <? Z.shiftl (Z.shiftr (csrs h pmpaddr0) grain) (grain + 2)).

Abbreviation NCPU := 8 (only parsing).

Section boot.
Context `{!Implementation, !Lawful, !Platform}.

Lemma csrr_wp r h (Q : Z → hart → Prop) : Q (csrs h r) h → wp (csrr r) Q h.
Proof. intros HQ. unfold csrr. by wp_step. Qed.
Lemma csrw_wp r x h (Q : unit → hart → Prop) : Q tt (set_csr r (legal r (csrs h pmpcfg0) (csrs h r) x) h) → wp (csrw r x) Q h.
Proof. intros HQ. unfold csrw. by wp_step. Qed.

Lemma csr_same r v h : csrs (set_csr r v h) r = v.
Proof. cbn. by rewrite decide_True. Qed.
Lemma csr_other r r' v h : r' ≠ r → csrs (set_csr r v h) r' = csrs h r'.
Proof. intros. cbn. by rewrite decide_False. Qed.

(** Reading a register after writes of others. *)
Ltac csr_simpl :=
  repeat match goal with
  | |- context [csrs (set_csr ?r ?v ?s) ?r] => rewrite (csr_same r v s)
  | |- context [csrs (set_csr ?r ?v ?s) ?r'] => rewrite (csr_other r r' v s) by discriminate
  | |- context [csrs (set_tp ?v ?s) ?r] => change (csrs (set_tp v s) r) with (csrs s r)
  end.

Lemma mret_wp h (Q : unit → hart → Prop) :
  (∀ h', mode h' = Z.shiftr (Z.land (csrs h mstatus) MSTATUS_MPP_MASK) 11 → at_pc h' = csrs h mepc → tp h' = tp h →
     (∀ r, r ≠ mstatus → csrs h' r = csrs h r) → Q tt h') → wp mret Q h.
Proof. intros HQ. unfold mret. wp_step. cbv zeta. apply HQ; try done. intros r Hr. cbn [csrs]. by apply csr_other. Qed.

(** The MPP field of a write of supervisor mode. *)
Lemma mpp_supervisor x : mpp (Z.lor (Z.land x (Z.lnot MSTATUS_MPP_MASK)) MSTATUS_MPP_S) = S_MODE.
Proof.
  unfold mpp. apply Z.bits_inj'. intros i Hi. rewrite Z.land_spec, Z.shiftr_spec by done.
  destruct (decide (i = 0)) as [->|Hi0]; [|destruct (decide (i = 1)) as [->|Hi1]].
  - rewrite Z.lor_spec, Z.land_spec, Z.lnot_spec by lia. cbn. by rewrite andb_false_r.
  - rewrite Z.lor_spec, Z.land_spec, Z.lnot_spec by lia. cbn. by rewrite andb_false_r.
  - change 3 with (Z.ones 2). change 1 with (Z.ones 1). rewrite !Z.ones_spec_high by lia. apply andb_false_r.
Qed.

Lemma mpp_mask x : Z.shiftr (Z.land x MSTATUS_MPP_MASK) 11 = mpp x.
Proof. unfold mpp. by rewrite Z.shiftr_land. Qed.

(** The range of the first entry after the write of all ones covers memory. *)
Lemma pmp_covers cfg old a : unlocked cfg = true → 0 ≤ a < PHYSTOP →
  a < Z.shiftl (Z.shiftr (legal pmpaddr0 cfg old (Z.ones 54)) grain) (grain + 2).
Proof.
  intros Hu Ha. destruct has_memory as (Hg & Hw & Hm). set (v := legal pmpaddr0 cfg old (Z.ones 54)). set (m := pa_bits - 2 - grain).
  assert (Z.shiftr v grain mod 2^m = Z.ones m) as Hv.
  { apply Z.bits_inj'. intros i Hi. destruct (decide (i < m)).
    - rewrite Z.mod_pow2_bits_low, Z.shiftr_spec, Z.ones_spec_low by lia. unfold v. rewrite law_pmpaddr by (done || lia). apply Z.ones_spec_low. lia.
    - rewrite Z.mod_pow2_bits_high, Z.ones_spec_high by lia. done. }
  assert (0 ≤ Z.shiftr v grain) as Hv0 by (apply Z.shiftr_nonneg; pose proof (law_range pmpaddr0 cfg old (Z.ones 54)); lia).
  assert (2^m - 1 ≤ Z.shiftr v grain) as Hle.
  { pose proof (Z.mod_le (Z.shiftr v grain) (2^m) Hv0 ltac:(apply Z.pow_pos_nonneg; lia)) as Hmod. rewrite Hv, Z.ones_equiv in Hmod. lia. }
  rewrite Z.shiftl_mul_pow2 by lia. assert (2^pa_bits = 2^m * 2^(grain + 2)) as Hp by (rewrite <-Z.pow_add_r by lia; f_equal; lia).
  assert (0 < 2^(grain + 2)) by (apply Z.pow_pos_nonneg; lia). nia.
Qed.

Ltac csr_step :=
  lazymatch goal with
  | |- wp (csrr _) _ _ => apply csrr_wp
  | |- wp (csrw _ _) _ _ => apply csrw_wp
  | _ => wp_step
  end; cbn beta; csr_simpl.

(** C29: a hart starts in the kernel.  From machine mode with whatever its registers
    hold, no entry of the memory protection being locked, start leaves the hart
    in supervisor mode at the function main, without paging and with access to
    all of memory; traps of user programs, page
    faults, and the timer and device interrupts are delegated to supervisor
    mode and these interrupts enabled, the next timer interrupt is requested,
    and tp holds the number of the hart, which cpuid returns.  The hart keeps
    the promises of the architecture on WARL fields and has the optional parts
    of [Platform]. *)
Theorem start_enters_kernel main h : main mod ialign = 0 → 0 ≤ main < PHYSTOP → 0 ≤ csrs h mhartid < NCPU → unlocked (csrs h pmpcfg0) = true →
  wp (start main) (λ _ h', let on r i := Z.testbit (csrs h' r) i = true in
    mode h' = S_MODE ∧ at_pc h' = main ∧ csrs h' satp = 0 ∧ (∀ a, 0 ≤ a < PHYSTOP → pmp_allows h' a = true) ∧
    on medeleg 8 ∧ on medeleg 12 ∧ on medeleg 13 ∧ on medeleg 15 ∧ on mideleg 5 ∧ on mideleg 9 ∧ on mie 5 ∧ on mie 9 ∧
    on menvcfg 63 ∧ on mcounteren 1 ∧ csrs h' stimecmp = u64 (csrs h time + 1000000) ∧
    tp h' = csrs h mhartid ∧ wp cpuid (λ id _, id = csrs h mhartid) h') h.
Proof.
  intros He Hm Hid Hu. unfold start, timerinit, r_mstatus, w_mstatus, w_mepc, w_satp, w_medeleg, w_mideleg, r_sie, w_sie, csrr_part, csrw_part,
    w_pmpaddr0, w_pmpcfg0, r_mie, w_mie, r_menvcfg, w_menvcfg, r_mcounteren, w_mcounteren, r_time, w_stimecmp, r_mhartid, w_tp.
  cbv zeta. repeat csr_step. apply mret_wp. intros h' Hmode Hpc Htp Hr.
  assert (tp h' = csrs h mhartid) as Htp'.
  { rewrite Htp. cbn [tp set_tp]. rewrite s32_small by lia. unfold u64. by rewrite Z.mod_small by lia. }
  split_and!; rewrite ?Hr by discriminate; csr_simpl; try (rewrite has_medeleg by set_solver; reflexivity); try (rewrite has_mideleg by set_solver; reflexivity).
  - rewrite Hmode. csr_simpl. rewrite mpp_mask, law_mpp; by rewrite mpp_supervisor.
  - rewrite Hpc. csr_simpl. apply law_mepc; [lia|done].
  - apply law_satp.
  - intros a Ha. unfold pmp_allows. rewrite !Hr by discriminate. csr_simpl. apply andb_true_iff. split.
    + apply Z.eqb_eq. rewrite <-(Z.mod_mod_divide _ 256 32), law_pmpcfg by (done || by exists 8). done.
    + by apply Z.ltb_lt, pmp_covers.
  - rewrite law_mie, Z.lor_spec by auto. by rewrite orb_true_r.
  - rewrite law_mie, Z.lor_spec by auto. apply orb_true_iff. left. rewrite law_mie by auto.
    rewrite !Z.lor_spec, !Z.land_spec, !Z.lor_spec. apply orb_true_iff. right. apply andb_true_iff.
    split; [by rewrite orb_true_r|]. by rewrite has_mideleg by set_solver.
  - rewrite law_menvcfg, Z.lor_spec. by rewrite orb_true_r.
  - rewrite has_time, Z.lor_spec. by rewrite orb_true_r.
  - apply law_stimecmp, u64_range.
  - done.
  - unfold cpuid, r_tp. wp_steps. rewrite Htp'. apply s32_small. lia.
Qed.

(** intr_on and intr_off set and clear the bit that intr_get tests, and change
    no other register. *)
Lemma intr_on_off h :
  wp (intr_on ;; intr_get) (λ b h', b = true ∧ ∀ r, r ≠ mstatus → csrs h' r = csrs h r) h ∧
  wp (intr_off ;; intr_get) (λ b h', b = false ∧ ∀ r, r ≠ mstatus → csrs h' r = csrs h r) h.
Proof.
  assert (∀ x, negb (Z.land x SSTATUS_SIE =? 0) = Z.testbit x 1) as Hbit.
  { intros x. change SSTATUS_SIE with (2^1). destruct (Z.testbit x 1) eqn:E.
    - apply negb_true_iff, Z.eqb_neq. intros Hz. assert (Z.testbit (Z.land x (2^1)) 1 = false) as Hb by (by rewrite Hz). rewrite Z.land_spec, E in Hb. discriminate.
    - apply negb_false_iff, Z.eqb_eq, Z.bits_inj'. intros i Hi. rewrite Z.land_spec, Z.bits_0, Z.pow2_bits_eqb by lia.
      destruct (Z.eqb_spec 1 i) as [<-|]; [by rewrite E|by rewrite andb_false_r]. }
  split; unfold intr_on, intr_off, intr_get, r_sstatus, w_sstatus, csrr_part, csrw_part; repeat csr_step; rewrite Hbit, Z.land_spec;
    (split; [|intros r Hr; by rewrite csr_other]); csr_simpl; rewrite law_sie; rewrite !Z.lor_spec, !Z.land_spec, !Z.lnot_spec, law_smask by lia.
  all: rewrite ?Z.lor_spec, ?Z.land_spec, ?law_smask; change (Z.testbit SSTATUS_SIE 1) with true; by destruct (Z.testbit (csrs h mstatus) 1).
Qed.
End boot.

(** ** The interrupt controller *)

(** Hart [hart] takes interrupts of source [irq]. *)
Definition taken (f : Z → Z) (hart irq : Z) : bool :=
  Z.testbit (f (PLIC_SENABLE hart)) irq && (f (PLIC_SPRIORITY hart) <? f (PLIC + irq * 4)).

(** After plicinit and plicinithart of a hart, it takes the interrupts of the
    UART and of the disk and no others. *)
Lemma plic_takes hart irq f : 0 ≤ hart < NCPU → 0 ≤ irq < 32 →
  wp (plicinit ;; plicinithart hart) (λ _ f', taken f' hart irq = (irq =? UART0_IRQ) || (irq =? VIRTIO0_IRQ)) f.
Proof.
  intros Hh Hi. unfold plicinit, plicinithart, plic_set. wp_steps. unfold taken, PLIC_SENABLE, PLIC_SPRIORITY.
  set (en := u32 (Z.lor (Z.shiftl 1 UART0_IRQ) (Z.shiftl 1 VIRTIO0_IRQ))). assert (∀ i, 0 ≤ i < 32 → Z.testbit en i = (i =? UART0_IRQ) || (i =? VIRTIO0_IRQ)) as Hen.
  { intros i Hi'. change en with (Z.lor (2^10) (2^1)). rewrite Z.lor_spec, !Z.pow2_bits_eqb by lia. by rewrite (Z.eqb_sym 10), (Z.eqb_sym 1). }
  rewrite (fupd_ne _ _ _ (PLIC + 0x2080 + hart * 0x100)), (fupd_eq _ (PLIC + 0x2080 + hart * 0x100)), Hen, fupd_eq by lia.
  destruct (Z.eqb_spec irq UART0_IRQ) as [->|]; [by rewrite !fupd_ne, fupd_eq by lia|].
  destruct (Z.eqb_spec irq VIRTIO0_IRQ) as [->|]; [|done]. by rewrite !fupd_ne, fupd_eq by lia.
Qed.

(** ** A conforming hart

    Writes of an unsupported mode keep the mode there was, addresses of
    instructions are even, satp takes the modes Bare and Sv39, the reserved bits
    of the memory protection read as zero and a locked entry is not written, and
    interrupts and exceptions that the hart does not have cannot be enabled or
    delegated. *)
Definition warl (r : csr) (cfg old x : Z) : Z :=
  let x := u64 x in
  match r with
  | mstatus => if is_mode (mpp x) then x else u64 (Z.lor (Z.land x (Z.lnot MSTATUS_MPP_MASK)) (Z.land old MSTATUS_MPP_MASK))
  | mepc | sepc => Z.land x (2^64 - 2)
  | satp => if (Z.shiftr x 60 =? 0) || (Z.shiftr x 60 =? 8) then x else u64 old
  | medeleg => Z.land x 0xb3ff
  | mideleg => Z.land x 0x222
  | mie | mip => Z.land x 0xaaa
  | menvcfg => Z.land x (2^63 + 2^62 + 1)
  | mcounteren => Z.land x 7
  | pmpcfg0 => if unlocked old then Z.land x 0x9f9f9f9f9f9f9f9f else u64 old
  | pmpaddr0 => if unlocked cfg then Z.land x (Z.ones 54) else u64 old
  | _ => x
  end.

#[local] Instance conforming : Implementation := {|
  legal := warl; smask := 0x80000003000de762; ialign := 2; pa_bits := 56; grain := 0 |}.

Lemma u64_bit x i : 0 ≤ i < 64 → Z.testbit (u64 x) i = Z.testbit x i.
Proof. intros Hi. unfold u64. apply Z.mod_pow2_bits_low. lia. Qed.

(** A masked register keeps the bits of its mask. *)
Lemma masked_bit x m i : 0 ≤ i < 64 → Z.testbit m i = true → Z.testbit (Z.land (u64 x) m) i = Z.testbit x i.
Proof. intros Hi Hm. rewrite Z.land_spec, Hm, u64_bit by done. apply andb_true_r. Qed.

Lemma land_range x m : 0 ≤ m < 2^64 → 0 ≤ Z.land x m < 2^64.
Proof.
  intros Hm. rewrite <-(Z.mod_small m (2^64)) by done. rewrite <-Z.land_ones, Z.land_assoc, Z.land_ones by lia. apply Z.mod_pos_bound. lia.
Qed.

Lemma warl_pmpcfg x : cfg_supported (x mod 256) = true → Z.land (u64 x) 0x9f9f9f9f9f9f9f9f mod 256 = x mod 256.
Proof.
  unfold cfg_supported. rewrite !andb_true_iff, Z.eqb_eq. intros [[Hr _] _]. apply Z.bits_inj'. intros i Hi. change 256 with (2^8) in *.
  destruct (decide (i < 8)); [|by rewrite !Z.mod_pow2_bits_high by lia]. rewrite (Z.mod_pow2_bits_low _ 8 i), Z.land_spec, u64_bit by lia.
  assert (i = 5 ∨ i = 6 ∨ Z.testbit 0x9f9f9f9f9f9f9f9f i = true) as [Hi'|[Hi'|Hi']].
  { assert (i = 0 ∨ i = 1 ∨ i = 2 ∨ i = 3 ∨ i = 4 ∨ i = 5 ∨ i = 6 ∨ i = 7) as Hs by lia. destruct_or! Hs; subst i; auto. }
  1, 2: assert (Z.testbit (Z.land (x mod 2^8) 0x60) i = false) as Hb by (by rewrite Hr, Z.bits_0);
    rewrite Z.land_spec in Hb; subst i; rewrite andb_false_r; rewrite andb_true_r in Hb; by symmetry.
  rewrite Hi', andb_true_r. by rewrite Z.mod_pow2_bits_low by lia.
Qed.

#[local] Instance conforming_lawful : Lawful.
Proof.
  split; intros *; cbn [legal conforming warl smask ialign pa_bits grain].
  - pose proof (u64_range x). pose proof (u64_range old). destruct r; cbn [warl]; try done; try (apply land_range; done);
      case_if; try done; apply u64_range || by apply land_range.
  - assert (mpp (u64 x) = mpp x) as Hm.
    { unfold mpp. apply Z.bits_inj'. intros i Hi. change 3 with (Z.ones 2). rewrite !Z.land_spec, !Z.shiftr_spec by done.
      destruct (decide (i < 2)); [by rewrite u64_bit by lia|]. rewrite Z.ones_spec_high by lia. by rewrite !andb_false_r. }
    intros Hx. by rewrite Hm, Hx.
  - case_if; rewrite ?u64_bit by lia; [done|]. rewrite Z.lor_spec, !Z.land_spec, u64_bit by lia. cbn. by rewrite andb_true_r, andb_false_r, orb_false_r.
  - done.
  - intros Hx He. assert (u64 x = x) as -> by (unfold u64; apply Z.mod_small; lia). apply Z.bits_inj'. intros i Hi. rewrite Z.land_spec.
    change (2^64 - 2) with (Z.shiftl (Z.ones 63) 1). rewrite Z.shiftl_spec by done. destruct (decide (i = 0)) as [->|].
    + rewrite Z.bit0_odd, andb_false_r. rewrite Zmod_even in He. destruct (Z.even x) eqn:Ev; [|done]. by rewrite <-Z.negb_even, Ev.
    + destruct (decide (i < 64)); [rewrite Z.ones_spec_low by lia; apply andb_true_r|].
      rewrite Z.ones_spec_high by lia. rewrite andb_false_r. rewrite <-(Z.mod_small x (2^64)) by lia. by rewrite Z.mod_pow2_bits_high by lia.
  - done.
  - intros [-> | ->]; by apply masked_bit.
  - intros Hx. unfold u64. by apply Z.mod_small.
  - by apply masked_bit.
  - intros -> Hx. by apply warl_pmpcfg.
  - intros -> Hi. apply masked_bit; [lia|]. apply Z.ones_spec_low. lia.
Qed.

#[local] Instance conforming_platform : Platform.
Proof.
  split; intros *; cbn [legal conforming warl pa_bits grain].
  - intros Hi. set_unfold in Hi. destruct_or! Hi; subst i; by apply masked_bit.
  - intros Hi. set_unfold in Hi. destruct_or! Hi; subst i; by apply masked_bit.
  - by apply masked_bit.
  - split_and!; done.
Qed.

(** Hart 2 after reset. *)
Lemma start_enters_kernel_witness : wp (start 0x80000e6e) (λ _ h', mode h' = S_MODE ∧ at_pc h' = 0x80000e6e ∧ tp h' = 2)
  (mkHart (λ r, if decide (r = mhartid) then 2 else 0) 0 0 0 M_MODE 0x80000000).
Proof.
  eapply wp_mono; [apply (start_enters_kernel 0x80000e6e); [reflexivity|lia|cbn [csrs]; rewrite decide_True by done; lia|reflexivity]|].
  intros [] h' (H1 & H2 & _ & _ & _ & _ & _ & _ & _ & _ & _ & _ & _ & _ & _ & H3 & _). split_and!; [exact H1|exact H2|rewrite H3; reflexivity].
Defined.
